(* ===== verification/_CoqProject ===== *)
-Q . S2P
Prelude.v
RustStr.v
Fmt.v
NetAddr.v
NetText.v
Fs.v
Config.v
Blocklist.v
Hickory.v
Cache.v
Upstream.v
Qlog.v
Stats.v
State.v
Dns.v
Flight.v
Service.v
Web.v
Main.v
Listen.v
Admin.v
System.v
