(* ===== verification/Prelude.v ===== *)
(** * rust-dns: a verification development

    rust-dns is a blocking DNS forwarder with an in-memory cache, a durable
    store behind it, a Parquet query log and a small admin API.  This library
    translates its code ([src/src/*.rs]) into Rocq functions and proves what
    the parts promise each other.

    ** The program

    A packet reaches [dns::handle] from a UDP worker or a TCP connection, each
    holding a permit of a semaphore.  [handle] parses it, normalises the name,
    asks the blocklist, then the cache, and on a miss forwards the raw query
    through [upstream::resolve], which tries the configured servers over UDP
    with a TCP fallback and accepts a reply only when it matches the query.  The
    reply is cached, offered to the write-behind task through a bounded
    channel, and sent with the id of the client.  Every answered query may
    leave a record for the log writer.  The admin API replaces the blocklist
    and the configuration, on disk and in the running state.  [main] loads the
    configuration, makes sure there is an admin token, loads the store into the
    cache and wires the tasks up.

    ** Files and what they model

    - [Prelude]: results and the effect monad ([?] is its bind), machine
      integers, bytes and big-endian numbers, the hint databases [rdns] and
      [rdns_rw], the tactic [vm_refl].
    - [RustStr], [Fmt], [NetAddr], [NetText], [Fs]: the parts of the standard
      library the code goes through: strings (a list of code points) with UTF-8,
      trimming, searching, lines and lower case; number formatting; address
      parsing and printing, and that one undoes the other ([NetText]); files and
      paths with a script of I/O faults.
    - [Config] ([config.rs]): the records, [default_config], [load_or_create],
      [save], [upstream_addrs], [write_atomic].
    - [Blocklist] ([blocklist.rs]): [from_text] (one [add_line] per line),
      [normalize], [is_blocked] with its [suffix_loop], [to_sorted_vec],
      [to_file_text], [from_file].
    - [Hickory]: the interface of the [hickory-proto] crate, its laws, and a
      small wire format ([Mini]) for the worked examples.
    - [Cache] ([cache.rs]): [CacheKey], [CachedResponse], the expiry policy, the
      row codec, [write_batch], [read_all_valid], [purge_expired] (as its two
      transactions [purge_scan] and [purge_delete]), and the write-behind task
      ([writer_step], [flush], [run_writer]).
    - [Upstream] ([upstream.rs]): [query_udp], [query_tcp], [valid_response],
      [effective_ttl], [to_cached], [resolve] (its loop is [try_servers]).
    - [Qlog] ([qlog.rs]): [write_segment], [enforce_retention], the log task
      ([log_step], [log_flush]), [query].
    - [Stats] ([stats.rs]): the counters and [snapshot].
    - [State] ([state.rs]): [AppState], and the channels and semaphores of
      [tokio] as interfaces.
    - [Dns] ([dns.rs]): [handle] (its branches are [answer], its init closure is
      [fetch]), the built replies, and the listeners: [udp_recv], [udp_task]
      and [tcp_query] are the steps of the relation [server_step] on a
      [Server]; [tcp_conn] is the loop of a connection.
    - [Flight] ([dns.rs], [upstream.rs]): the same handler as concurrent tasks.
      [poll] moves one task from one of its await points to the next
      ([start_call], [match_blocklist], [lookup_cache], [begin_get_with],
      [begin_resolve], [end_resolve], [end_get_with], [reply]); [accept] is the
      admission of a packet or frame; [conc_step] lets any task move next, or a
      query arrive, on a [Conc] (shared state, upstream permits, waiting calls,
      tasks, and the calls that returned).
    - [Service]: the abstract service that [Flight] refines ([service_step]).
    - [Web] ([web.rs]): the token gate ([auth], [app], [routes]), the handlers,
      the SQL text of [get_logs].
    - [Main] ([main.rs]): [startup], [ensure_token], [random_token],
      [warm_load].
    - [Listen] ([dns.rs], [web.rs], [main.rs]): the opening of the sockets call
      by call ([reuseport_udp], [spawn_udp], [spawn_tcp], [serve], [listen]) and
      the purge task.
    - [Admin] ([web.rs], [config.rs]): admin calls that overlap, cut where they
      touch a file or the shared state ([admin_poll]).
    - [System]: the tasks of [main] as one step relation, [system_step]: the
      concurrent server, the admin updates, the write-behind task, the log task,
      the purge, and crashes and restarts at any moment.

    Crates are classes ([Toml], [Hickory], [Moka], [SingleFlight] (its
    [try_get_with] cut in two), [Redb], [LogEngine], [Mpsc], [Semaphores],
    [Router]); a second class states the documented laws a proof
    needs, and a concrete instance of each shows that they can hold.  The
    Unicode tables behind [to_lowercase] are a class too ([Unicode]).

    ** What the theorems show

    - The whole program ([System]): from a first start, whatever the tasks, the
      faults and the restarts do, replies match their packets and cache hits are
      in date up to the duration of a warm load ([program_replies_genuine]), the
      store holds validated replies only ([program_store_genuine]), names and
      log records are well formed ([program_well_formed]), the configuration
      file is the configuration in force ([program_config_durable]), and what is
      written to the store is what was received, once and in order
      ([program_writes_in_order]).  A restart finds the rows that were committed;
      [slack] bounds the time a start takes to put them into the cache.
    - The concurrent server ([Service]): it refines the abstract service
      ([conc_refines_service]), always drains ([server_drains]), coalesces
      identical misses and respects the upstream permits ([single_flight],
      [flight_shared]), never exceeds the permits in flight and counts what it
      drops ([conc_inflight_bounded]), keeps its counters balanced
      ([conc_accounting]); and the sequential [handle] is one of its runs
      ([handle_alone]).  The invariant is [flight_inv]; [poll_spec] says what a
      step does, and the invariants are proved from it alone.
    - One query ([Dns]): [handle_reply_matches] (a reply is for the packet it
      answers), [blocked_never_leaves] and [build_blocked_answer] (blocked names
      stay local, and what the client is told), [handle_cold_miss] (what a miss
      does, byte for byte), [handle_total] (no panic, silence only on
      non-queries), [handle_logs]; [tcp_conn_serves] and [tcp_conn_terminates]
      for a connection.  [answer_spec] is the relational specification [answer]
      is shown to refine ([answer_ok]).  [server_step] is the same server with
      each call of [handle] as one step, with its own invariants
      ([server_cache_genuine], [server_hits_fresh], [server_accounting],
      [server_inflight_bounded]).
    - Across restarts ([Cache], [Main]): [persist_reload],
      [restart_keeps_genuine] and [startup_establishes_invariants] close the
      circle from the cache through the store and back; the row codec, the
      transactions and the purge are characterised in [Cache].
    - Forwarding ([Upstream]): only validated replies of configured servers,
      in server order, exactly when there is one; TTLs; TCP framing.
    - Blocking ([Blocklist]): [is_blocked] equals a matcher over labels,
      parsing a file blocks exactly what its lines say, and when a printed list
      reads back as itself.
    - Start ([Listen]): the DNS listeners come up together or [main] fails
      ([listen_spec]); the purge task ([purge_task_rows]).
    - Files ([Config], [Qlog]): atomic replacement, configuration round trips,
      complete segments, the size cap, and segments that are exactly the records
      received ([log_writer_in_order]), under every script of faults.
    - Admin API ([Web], [Main], [Admin]): no endpoint without the token, no
      start without a token, all-or-nothing updates, no SQL injection; what the
      page shows is accepted again unchanged ([config_resubmit_stable]).  Overlapping
      calls, each of which alone is the handler ([admin_alone_handler]), keep the
      file complete while no write is torn ([overlap_keeps_file_complete]).

    Some theorems describe behaviour that is surprising rather than intended:
    [reload_changes_blocking], [purge_deletes_fresh_row], [key_ignores_class],
    [overlap_splits_config], [overlap_tears_file] and the panic clause of
    [effective_ttl_spec] (also [inverted_ttl_aborts]); [write_atomic_own_tmp] is
    a limit of the atomic write.

    ** Fuel

    [suffix_loop] runs on one unit per character of the name plus one, and a
    name has no more labels than that ([suffix_loop_terminates]).  [tcp_conn]
    runs on one unit per byte of the stream plus one, and a turn consumes the
    two bytes of a length ([tcp_conn_terminates]).  [trim_start_str] and the
    digit counts are bounded by the length and the logarithm of their input.

    ** What is not modelled

    The exchange of one task with its servers is one step of [Flight], as the
    others see nothing of it until it ends; so is a turn of the write-behind, log
    or purge task.  The scheduler is any scheduler; that a wait on a timer or a
    socket ends is part of the network's answer.  In [System] an admin update is
    one step; overlapping updates are the subject of [Admin].  A TCP connection
    appears in [Flight] through the queries it hands over; its loop is
    [Dns.tcp_conn], where nobody else runs.  A call reads each clock once.  The
    rate limiter only delays a query and is kept as a number.  What the kernel
    does with sockets, timers, logging to the console, the web page, and the
    encodings inside the crates are outside the model.  Sizes the program keeps
    far from the limits of [usize] and [u64] (lengths, directory totals) are
    unbounded integers; counters, sequence numbers, TTLs, expiry times and casts
    wrap as in the release build.

    Planned next, in this order: overlapping admin updates as steps of [System];
    the loop of a TCP connection as a task of the concurrent server; bounds on
    the hit rate of [snapshot]. *)

From Stdlib Require Export Strings.Byte.
From Stdlib Require Export ZArith Lia.
From stdpp Require Export base gmap sets list strings numbers fin_maps sorting.

#[global] Open Scope Z_scope.

(** Automation databases of the development: [rdns] is for [auto]/[eauto],
    [rdns_rw] for [autorewrite]. *)
Create HintDb rdns.
Create Rewrite HintDb rdns_rw.

(** Equality of two closed terms by evaluation; the kernel evaluates once, and
    no normal form is printed into the proof. *)
Ltac vm_refl :=
  match goal with
  | |- _ = ?b => vm_cast_no_check (eq_refl b)
  | |- _ < _ => reflexivity
  end.

(** ** Errors and effects

    [result E A] is Rust's [Result<A, E>].  [io W E A] is a computation that
    threads a world [W] (a file system, a database, an application state) and
    returns a [Result]; its bind is Rust's [?] operator: the first [Err]
    stops the computation and keeps the world as it is at that point. *)

Inductive result (E A : Type) : Type :=
| Ok (a : A)
| Err (e : E).
Arguments Ok {E A} a.
Arguments Err {E A} e.

#[export] Instance result_ret {E} : MRet (result E) := fun A a => Ok a.
#[export] Instance result_bind {E} : MBind (result E) :=
  fun A B f m => match m with Ok a => f a | Err e => Err e end.
#[export] Instance result_fmap {E} : FMap (result E) :=
  fun A B f m => match m with Ok a => Ok (f a) | Err e => Err e end.

Definition is_ok {E A} (r : result E A) : bool :=
  match r with Ok _ => true | Err _ => false end.

(** [Result::ok]. *)
Definition ok {E A} (r : result E A) : option A :=
  match r with Ok a => Some a | Err _ => None end.

(** [Option::ok_or]. *)
Definition ok_or {E A} (o : option A) (e : E) : result E A :=
  match o with Some a => Ok a | None => Err e end.

Definition io (W E A : Type) : Type := W -> W * result E A.

#[export] Instance io_ret {W E} : MRet (io W E) := fun A a w => (w, Ok a).
#[export] Instance io_bind {W E} : MBind (io W E) :=
  fun A B f m w =>
    match m w with
    | (w', Ok a) => f a w'
    | (w', Err e) => (w', Err e)
    end.

(** A pure [Result] used inside an effectful function. *)
Definition lift {W E A} (r : result E A) : io W E A := fun w => (w, r).

Lemma io_bind_ok {W E A B} (m : io W E A) (f : A -> io W E B) w w' b :
  (m ≫= f) w = (w', Ok b) <->
  exists w1 a, m w = (w1, Ok a) /\ f a w1 = (w', Ok b).
Proof.
  unfold mbind, io_bind. destruct (m w) as [w1 [a|e]]; split.
  - eauto.
  - intros (w2 & a' & [= <- <-] & H). done.
  - done.
  - intros (w2 & a' & H & _). done.
Qed.

Lemma io_bind_err {W E A B} (m : io W E A) (f : A -> io W E B) w w' e :
  (m ≫= f) w = (w', Err e) <->
  m w = (w', Err e) \/
  exists w1 a, m w = (w1, Ok a) /\ f a w1 = (w', Err e).
Proof.
  unfold mbind, io_bind. destruct (m w) as [w1 [a|e1]]; split.
  - eauto.
  - intros [H | (w2 & a' & [= <- <-] & H)]; done.
  - intros [= -> ->]. auto.
  - intros [[= -> ->] | (w2 & a' & H & _)]; done.
Qed.

(** ** Machine integers

    A [w]-bit unsigned integer is a [Z] in [0, 2^w); [as_u w] is Rust's
    [as uW] cast, and also the wrapping result of an operation. *)

Definition as_u (w : Z) (z : Z) : Z := z mod 2 ^ w.
Definition is_u (w : Z) (z : Z) : Prop := 0 <= z < 2 ^ w.

#[export] Instance is_u_dec w z : Decision (is_u w z).
Proof. unfold is_u. apply _. Defined.

Lemma as_u_id w z : is_u w z -> as_u w z = z.
Proof. intros H. by apply Z.mod_small. Qed.

Lemma as_u_is_u w z : 0 <= w -> is_u w (as_u w z).
Proof. intros H. apply Z.mod_pos_bound. lia. Qed.

(** [Ord::clamp] of the standard library: it panics when [lo > hi], which is
    [None] here. *)
Definition clamp (v lo hi : Z) : option Z :=
  if decide (lo <= hi) then Some (if v <? lo then lo else if hi <? v then hi else v)
  else None.

Lemma clamp_Some v lo hi : lo <= hi -> clamp v lo hi = Some (Z.max lo (Z.min v hi)).
Proof.
  intros H. unfold clamp. rewrite decide_True by done. f_equal.
  destruct (Z.ltb_spec v lo), (Z.ltb_spec hi v); lia.
Qed.

Lemma clamp_None v lo hi : clamp v lo hi = None <-> hi < lo.
Proof. unfold clamp. case_decide; split; try done; lia. Qed.

(** ** Bytes and big-endian integers *)

Abbreviation bytes := (list byte).

Definition byte_to_Z (b : byte) : Z := Z.of_N (Byte.to_N b).

(** [z as u8]. *)
Definition byte_of_Z (z : Z) : byte :=
  default x00 (Byte.of_N (Z.to_N (z mod 256))).

Lemma byte_to_Z_bound b : 0 <= byte_to_Z b < 256.
Proof. unfold byte_to_Z. pose proof (Byte.to_N_bounded b). lia. Qed.

Lemma byte_of_to_Z b : byte_of_Z (byte_to_Z b) = b.
Proof.
  unfold byte_of_Z. rewrite Z.mod_small by apply byte_to_Z_bound.
  unfold byte_to_Z. by rewrite N2Z.id, Byte.of_to_N.
Qed.

Lemma byte_to_of_Z z : byte_to_Z (byte_of_Z z) = z mod 256.
Proof.
  unfold byte_of_Z, byte_to_Z.
  pose proof (Z.mod_pos_bound z 256 ltac:(lia)) as Hb.
  destruct (Byte.of_N (Z.to_N (z mod 256))) as [b|] eqn:E; simpl.
  - apply Byte.to_of_N in E. lia.
  - apply Byte.of_N_None_iff in E. lia.
Qed.

Lemma byte_of_Z_mod z : byte_of_Z (z mod 256) = byte_of_Z z.
Proof. unfold byte_of_Z. by rewrite Z.mod_mod. Qed.

#[export] Instance byte_eq_dec : EqDecision byte.
Proof. intros a b. apply Byte.byte_eq_dec. Defined.

Lemma byte_of_to_N b : default x00 (Byte.of_N (Byte.to_N b)) = b.
Proof. by rewrite Byte.of_to_N. Qed.

#[export] Instance byte_countable : Countable byte :=
  inj_countable' Byte.to_N (fun n => default x00 (Byte.of_N n)) byte_of_to_N.

(** [uN::to_be_bytes] ([n] is the number of bytes) and [uN::from_be_bytes]. *)
Fixpoint to_be (n : nat) (z : Z) : bytes :=
  match n with
  | O => []
  | S n' => byte_of_Z (Z.shiftr z (8 * Z.of_nat n')) :: to_be n' z
  end.

Fixpoint from_be (l : bytes) : Z :=
  match l with
  | [] => 0
  | b :: l' => Z.shiftl (byte_to_Z b) (8 * Z.of_nat (length l')) + from_be l'
  end.

Lemma length_to_be n z : length (to_be n z) = n.
Proof. induction n; simpl; congruence. Qed.

Lemma pow256_succ n : 2 ^ (8 * Z.of_nat (S n)) = 256 * 2 ^ (8 * Z.of_nat n).
Proof.
  replace (8 * Z.of_nat (S n)) with (8 + 8 * Z.of_nat n) by lia.
  rewrite Z.pow_add_r by lia. done.
Qed.

Lemma from_be_bound l : 0 <= from_be l < 2 ^ (8 * Z.of_nat (length l)).
Proof.
  induction l as [|b l IH]; [done|]. cbn [from_be length].
  rewrite pow256_succ, Z.shiftl_mul_pow2 by lia.
  pose proof (byte_to_Z_bound b). nia.
Qed.

Lemma from_to_be n z : from_be (to_be n z) = z mod 2 ^ (8 * Z.of_nat n).
Proof.
  induction n as [|n IH]; [by rewrite Z.mod_1_r|].
  cbn [to_be from_be]. rewrite length_to_be, IH, byte_to_of_Z, pow256_succ.
  rewrite Z.shiftl_mul_pow2, Z.shiftr_div_pow2 by lia.
  rewrite (Z.mul_comm 256).
  rewrite (Z.rem_mul_r z) by lia. lia.
Qed.

Lemma from_to_be_id n z : is_u (8 * Z.of_nat n) z -> from_be (to_be n z) = z.
Proof. intros H. rewrite from_to_be. by apply Z.mod_small. Qed.

Lemma to_be_mod n m z :
  (n <= m)%nat -> to_be n (z mod 2 ^ (8 * Z.of_nat m)) = to_be n z.
Proof.
  induction n as [|n IH]; intros Hn; [done|]. cbn [to_be].
  rewrite IH by lia. f_equal.
  rewrite <-byte_of_Z_mod, <-(byte_of_Z_mod (Z.shiftr z _)). f_equal.
  rewrite !Z.shiftr_div_pow2 by lia.
  replace (2 ^ (8 * Z.of_nat m))
    with (2 ^ (8 * Z.of_nat n) * (256 * 2 ^ (8 * (Z.of_nat m - Z.of_nat (S n))))).
  2: { change 256 with (2 ^ 8). rewrite <-!Z.pow_add_r by lia. f_equal. lia. }
  rewrite Z.rem_mul_r by lia.
  rewrite (Z.mul_comm (2 ^ (8 * Z.of_nat n))), Z.div_add by lia.
  rewrite Z.div_small by (apply Z.mod_pos_bound; lia). rewrite Z.add_0_l.
  rewrite Z.rem_mul_r, (Z.mul_comm 256), Z.mod_add, Z.mod_mod by lia. done.
Qed.

Lemma to_from_be l : to_be (length l) (from_be l) = l.
Proof.
  induction l as [|b l IH]; [done|]. cbn [from_be length to_be].
  pose proof (from_be_bound l) as Hl. pose proof (byte_to_Z_bound b) as Hb.
  rewrite Z.shiftl_mul_pow2, Z.shiftr_div_pow2 by lia.
  rewrite Z.add_comm, Z.div_add, Z.div_small by lia.
  rewrite Z.add_0_l, byte_of_to_Z. f_equal.
  rewrite <-(to_be_mod _ (length l)) by done.
  rewrite Z.mod_add, Z.mod_small by lia. done.
Qed.

#[export] Hint Rewrite length_to_be byte_of_to_Z : rdns_rw.
