(* ===== verification/RustStr.v ===== *)
(** * Rust strings

    The parts of [std::str] and [String] the program uses.  A [char] is its
    Unicode scalar value, a [str] the list of its characters; UTF-8 is only
    visible where the source asks for the bytes ([as_bytes],
    [String::from_utf8]).  Indices returned by [find] are therefore character
    indices; the source only slices at the indices it found, where the two
    views agree. *)

From S2P Require Import Prelude.

Abbreviation rstring := (list Z).

(** A boolean as a number. *)
Definition bool_Z (b : bool) : Z := if b then 1 else 0.

(** ** UTF-8 *)

(** A Unicode scalar value. *)
Definition is_char (c : Z) : bool :=
  ((0 <=? c) && (c <? 0xD800)) || ((0xE000 <=? c) && (c <? 0x110000)).

Definition valid_str (s : rstring) : Prop := Forall (fun c => is_char c = true) s.

Definition utf8_char (c : Z) : list Z :=
  if c <? 0x80 then [c]
  else if c <? 0x800 then [0xC0 + c / 64; 0x80 + c mod 64]
  else if c <? 0x10000 then
    [0xE0 + c / 4096; 0x80 + (c / 64) mod 64; 0x80 + c mod 64]
  else
    [0xF0 + c / 262144; 0x80 + (c / 4096) mod 64; 0x80 + (c / 64) mod 64;
     0x80 + c mod 64].

(** [str::as_bytes]. *)
Definition as_bytes (s : rstring) : bytes := s ≫= fun c => byte_of_Z <$> utf8_char c.

(** The six payload bits of a continuation byte. *)
Definition cont (b : byte) : option Z :=
  let z := byte_to_Z b in
  if (0x80 <=? z) && (z <? 0xC0) then Some (z - 0x80) else None.

Definition utf8_2 (z0 : Z) (b1 : byte) : option Z :=
  x1 ← cont b1;
  let c := (z0 - 0xC0) * 64 + x1 in
  if (0x80 <=? c) && (c <? 0x800) then Some c else None.

Definition utf8_3 (z0 : Z) (b1 b2 : byte) : option Z :=
  x1 ← cont b1; x2 ← cont b2;
  let c := (z0 - 0xE0) * 4096 + x1 * 64 + x2 in
  if (0x800 <=? c) && (c <? 0x10000) && is_char c then Some c else None.

Definition utf8_4 (z0 : Z) (b1 b2 b3 : byte) : option Z :=
  x1 ← cont b1; x2 ← cont b2; x3 ← cont b3;
  let c := (z0 - 0xF0) * 262144 + x1 * 4096 + x2 * 64 + x3 in
  if (0x10000 <=? c) && is_char c then Some c else None.

(** [String::from_utf8]: [None] is the error. *)
Fixpoint from_utf8 (l : bytes) : option rstring :=
  match l with
  | [] => Some []
  | b0 :: l1 =>
    let z0 := byte_to_Z b0 in
    if z0 <? 0x80 then s ← from_utf8 l1; Some (z0 :: s)
    else if z0 <? 0xC0 then None
    else if z0 <? 0xE0 then
      match l1 with
      | b1 :: l2 => c ← utf8_2 z0 b1; s ← from_utf8 l2; Some (c :: s)
      | _ => None
      end
    else if z0 <? 0xF0 then
      match l1 with
      | b1 :: b2 :: l3 => c ← utf8_3 z0 b1 b2; s ← from_utf8 l3; Some (c :: s)
      | _ => None
      end
    else
      match l1 with
      | b1 :: b2 :: b3 :: l4 =>
        c ← utf8_4 z0 b1 b2 b3; s ← from_utf8 l4; Some (c :: s)
      | _ => None
      end
  end.

(** A string literal of the source. *)
Definition str (s : String.string) : rstring :=
  default [] (from_utf8 (String.list_byte_of_string s)).

(** ** Searching and trimming *)

Fixpoint starts_with (p s : rstring) : bool :=
  match p, s with
  | [], _ => true
  | x :: p', y :: s' => (x =? y) && starts_with p' s'
  | _ :: _, [] => false
  end.

Definition strip_prefix (p s : rstring) : option rstring :=
  if starts_with p s then Some (drop (length p) s) else None.

(** [str::find] of a pattern string. *)
Fixpoint find (p s : rstring) : option nat :=
  if starts_with p s then Some 0%nat
  else match s with
       | [] => None
       | _ :: s' => S <$> find p s'
       end.

(** [str::find] of a character. *)
Definition find_char (c : Z) (s : rstring) : option nat := find [c] s.

(** [trim_start_matches] and [trim_end_matches] of a character predicate. *)
Fixpoint trim_start_by (p : Z -> bool) (s : rstring) : rstring :=
  match s with
  | c :: s' => if p c then trim_start_by p s' else s
  | [] => []
  end.

Definition trim_end_by (p : Z -> bool) (s : rstring) : rstring :=
  reverse (trim_start_by p (reverse s)).

(** [trim_start_matches] of a pattern string; the fuel is the length of the
    string, since every round removes at least one character of a non-empty
    pattern. *)
Fixpoint trim_start_str_fuel (n : nat) (p s : rstring) : rstring :=
  match n with
  | O => s
  | S n' => match strip_prefix p s with
            | Some s' => trim_start_str_fuel n' p s'
            | None => s
            end
  end.
Definition trim_start_str (p s : rstring) : rstring :=
  trim_start_str_fuel (length s) p s.

(** The Unicode [White_Space] property, which [trim] removes. *)
Definition is_whitespace (c : Z) : bool :=
  ((9 <=? c) && (c <=? 13)) || (c =? 32) || (c =? 0x85) || (c =? 0xA0)
  || (c =? 0x1680) || ((0x2000 <=? c) && (c <=? 0x200A)) || (c =? 0x2028)
  || (c =? 0x2029) || (c =? 0x202F) || (c =? 0x205F) || (c =? 0x3000).

Definition trim (s : rstring) : rstring :=
  trim_end_by is_whitespace (trim_start_by is_whitespace s).

(** ** Lines *)

Definition strip_cr (rev_line : rstring) : rstring :=
  match rev_line with
  | c :: l => if c =? 13 then reverse l else reverse rev_line
  | [] => []
  end.

(** [str::lines]; the accumulator is the current line, reversed.  A ["\r"]
    is dropped only in front of the ["\n"] that ends a line. *)
Fixpoint lines_from (acc s : rstring) : list rstring :=
  match s with
  | [] => match acc with [] => [] | _ => [reverse acc] end
  | c :: s' => if c =? 10 then strip_cr acc :: lines_from [] s'
               else lines_from (c :: acc) s'
  end.
Definition lines (s : rstring) : list rstring := lines_from [] s.

(** [[String]::join]. *)
Fixpoint join (sep : rstring) (l : list rstring) : rstring :=
  match l with
  | [] => []
  | [s] => s
  | s :: l' => s ++ sep ++ join sep l'
  end.

(** ** Lower case

    [str::to_lowercase] is driven by the Unicode tables the standard library
    embeds; they are a class, so that every statement holds for each version
    of the tables.  The ASCII range is written out. *)

Class Unicode := {
  uc_lower : Z -> list Z;           (* [char::to_lowercase], non-ASCII *)
  uc_cased : Z -> bool;             (* derived property [Cased] *)
  uc_case_ignorable : Z -> bool;    (* derived property [Case_Ignorable] *)
}.

Definition ascii_lower (c : Z) : Z := if (65 <=? c) && (c <=? 90) then c + 32 else c.

Definition to_lower `{Unicode} (c : Z) : list Z :=
  if c <? 128 then [ascii_lower c] else uc_lower c.

Definition SIGMA : Z := 0x3A3.

Definition case_ignorable_then_cased `{Unicode} (s : rstring) : bool :=
  match trim_start_by uc_case_ignorable s with
  | c :: _ => uc_cased c
  | [] => false
  end.

(** A capital sigma becomes a final sigma at the end of a word; [before] is
    the text in front of the current character, reversed. *)
Fixpoint lower_from `{Unicode} (before s : rstring) : rstring :=
  match s with
  | [] => []
  | c :: s' =>
    (if c =? SIGMA then
       [if case_ignorable_then_cased before && negb (case_ignorable_then_cased s')
        then 0x3C2 else 0x3C3]
     else to_lower c) ++ lower_from (c :: before) s'
  end.
Definition to_lowercase `{Unicode} (s : rstring) : rstring := lower_from [] s.

(** What the program's round trips rely on, all of it guaranteed by the
    Unicode data: lower casing is stable, and a non-ASCII character never
    lowers to ASCII punctuation or to white space other than itself. *)
Class UnicodeLaws (U : Unicode) : Prop := {
  uc_lower_stable c d :
    128 <= c -> c <> SIGMA -> d ∈ uc_lower c -> to_lower d = [d] /\ d <> SIGMA;
  uc_lower_ascii c d :
    128 <= c -> c <> SIGMA -> d ∈ uc_lower c -> d < 128 -> 97 <= d <= 122;
  uc_lower_space c d :
    128 <= c -> c <> SIGMA -> d ∈ uc_lower c -> is_whitespace d = true -> c = d;
  uc_lower_sigma : to_lower 0x3C2 = [0x3C2] /\ to_lower 0x3C3 = [0x3C3];
  uc_lower_char c d :
    128 <= c -> c <> SIGMA -> is_char c = true -> d ∈ uc_lower c -> is_char d = true;
  uc_lower_some c : 128 <= c -> uc_lower c <> [];
}.

(** Tables that leave every non-ASCII character alone; they satisfy the laws
    and evaluate, which is what the worked examples need. *)
Definition ascii_tables : Unicode := {|
  uc_lower c := [c];
  uc_cased c := ((65 <=? c) && (c <=? 90)) || ((97 <=? c) && (c <=? 122));
  uc_case_ignorable c := (c =? 39) || (c =? 46) || (c =? 58) || (c =? 94) || (c =? 96);
|}.

(** ** The order of strings

    [Ord for str] compares the UTF-8 bytes, which is the order of the scalar
    values. *)
Fixpoint str_leb (a b : rstring) : bool :=
  match a, b with
  | [], _ => true
  | _ :: _, [] => false
  | x :: a', y :: b' => (x <? y) || ((x =? y) && str_leb a' b')
  end.
Definition str_le (a b : rstring) : Prop := str_leb a b = true.

#[export] Instance str_le_dec : RelDecision str_le.
Proof. intros a b. unfold str_le. apply _. Defined.

(** [Vec<String>::sort]: a stable sort by that order. *)
Definition sort_strings (l : list rstring) : list rstring := merge_sort str_le l.

(** ** Lemmas *)

Lemma ascii_tables_laws : UnicodeLaws ascii_tables.
Proof.
  split; simpl.
  - intros c d Hc Hs ->%list_elem_of_singleton. unfold to_lower.
    destruct (Z.ltb_spec c 128); [lia|]. done.
  - intros c d Hc Hs ->%list_elem_of_singleton. lia.
  - intros c d Hc Hs ->%list_elem_of_singleton. done.
  - done.
  - by intros c d Hc Hs Hv ->%list_elem_of_singleton.
  - done.
Qed.

#[export] Instance str_le_po : PartialOrder str_le.
Proof.
  split; [split|].
  - intros a. unfold str_le. induction a as [|x a IH]; simpl; [done|].
    rewrite Z.eqb_refl, IH. by rewrite orb_true_r.
  - unfold str_le. intros a. induction a as [|x a IH]; intros [|y b] [|z c]; simpl; try done.
    rewrite !orb_true_iff, !andb_true_iff, !Z.ltb_lt, !Z.eqb_eq.
    intros [?|[-> ?]] [?|[-> ?]]; [left; lia..|right]. eauto.
  - unfold str_le. intros a. induction a as [|x a IH]; intros [|y b]; simpl; try done.
    rewrite !orb_true_iff, !andb_true_iff, !Z.ltb_lt, !Z.eqb_eq.
    intros [?|[-> ?]] [?|[? ?]]; [lia..|]. f_equal. eauto.
Qed.

#[export] Instance str_le_total : Total str_le.
Proof.
  unfold str_le. intros a. induction a as [|x a IH]; intros [|y b]; simpl; auto.
  rewrite !orb_true_iff, !andb_true_iff, !Z.ltb_lt, !Z.eqb_eq.
  destruct (Z.lt_trichotomy x y) as [?|[->|?]]; [auto| |auto].
  destruct (IH b); auto.
Qed.

Lemma sort_strings_perm l : sort_strings l ≡ₚ l.
Proof. apply merge_sort_Permutation. Qed.

Lemma sort_strings_sorted l : Sorted str_le (sort_strings l).
Proof. apply Sorted_merge_sort. apply _. Qed.

Lemma starts_with_spec p s : starts_with p s = true <-> exists t, s = p ++ t.
Proof.
  revert s. induction p as [|x p IH]; intros s; simpl; [split; eauto|].
  destruct s as [|y s]; [split; [done|intros [? [=]]]|].
  rewrite andb_true_iff, Z.eqb_eq, IH. split.
  - intros [-> [t ->]]. eauto.
  - intros [t [= -> ->]]. eauto.
Qed.

Lemma strip_prefix_Some p s t : strip_prefix p s = Some t <-> s = p ++ t.
Proof.
  unfold strip_prefix. destruct (starts_with p s) eqn:E.
  - apply starts_with_spec in E as [u ->]. rewrite drop_app_length.
    split; [intros [= ->]; done|intros ->%app_inv_head; done].
  - split; [done|]. intros ->.
    assert (starts_with p (p ++ t) = true) by (apply starts_with_spec; eauto).
    congruence.
Qed.

Lemma strip_prefix_None p s : strip_prefix p s = None <-> starts_with p s = false.
Proof. unfold strip_prefix. by destruct (starts_with p s). Qed.

Lemma find_Some p s i :
  find p s = Some i ->
  exists t, s = take i s ++ p ++ t /\
    forall j, (j < i)%nat -> starts_with p (drop j s) = false.
Proof.
  revert i. induction s as [|c s IH]; intros i; cbn [find].
  - destruct (starts_with p []) eqn:E; [|done]. intros [= <-].
    apply starts_with_spec in E as [t ->]. exists t. split; [done|lia].
  - destruct (starts_with p (c :: s)) eqn:E.
    + intros [= <-]. apply starts_with_spec in E as [t ->].
      exists t. split; [done|lia].
    + destruct (find p s) as [k|] eqn:F; [|done]. intros [= <-].
      destruct (IH k eq_refl) as (t & Hs & Hj). exists t. split.
      * simpl. by f_equal.
      * intros [|j] Hlt; [done|]. simpl. apply Hj. lia.
Qed.

Lemma find_None p s :
  find p s = None -> forall j, starts_with p (drop j s) = false.
Proof.
  induction s as [|c s IH]; cbn [find]; intros H j.
  - rewrite drop_nil. by destruct (starts_with p []).
  - destruct (starts_with p (c :: s)) eqn:E; [done|].
    destruct (find p s) eqn:F; [done|]. destruct j; [done|]. by apply IH.
Qed.

Lemma find_char_Some c s i :
  find_char c s = Some i -> s = take i s ++ c :: drop (S i) s /\ c ∉ take i s.
Proof.
  intros H. apply find_Some in H as (t & Hs & Hj). simpl in Hs.
  assert (Hlt : (i < length s)%nat).
  { rewrite Hs at 1. rewrite length_app, length_take. simpl.
    destruct (decide (i <= length s)%nat); [lia|].
    exfalso. apply (f_equal length) in Hs.
    rewrite length_app, length_take in Hs. simpl in Hs. lia. }
  assert (Hd : drop (S i) s = t).
  { rewrite Hs at 1. rewrite drop_app_ge by (rewrite length_take; lia).
    rewrite length_take_le by lia. by replace (S i - i)%nat with 1%nat by lia. }
  split; [congruence|].
  intros [j Hl]%list_elem_of_lookup.
  pose proof Hl as Hl'. apply lookup_lt_Some in Hl'. rewrite length_take_le in Hl' by lia.
  rewrite lookup_take_lt in Hl by lia.
  specialize (Hj j Hl'). rewrite (drop_S _ c) in Hj by done. simpl in Hj.
  by rewrite Z.eqb_refl in Hj.
Qed.

Lemma find_char_None c s : find_char c s = None <-> c ∉ s.
Proof.
  split.
  - intros H [j Hl]%list_elem_of_lookup. pose proof (find_None _ _ H j) as Hj.
    rewrite (drop_S _ c) in Hj by done. simpl in Hj. by rewrite Z.eqb_refl in Hj.
  - intros H. destruct (find_char c s) as [i|] eqn:E; [|done].
    apply find_char_Some in E as [Hs _]. destruct H. rewrite Hs. set_solver.
Qed.

(** *** Trimming *)

Lemma trim_start_by_suffix p s : exists t, s = t ++ trim_start_by p s /\ Forall (fun c => p c = true) t.
Proof.
  induction s as [|c s (t & Hs & Ht)]; simpl; [exists []; auto|].
  destruct (p c) eqn:E; [|exists []; auto].
  exists (c :: t). split; [by rewrite <-app_comm_cons, <-Hs|auto].
Qed.

Lemma trim_start_by_head p s c t : trim_start_by p s = c :: t -> p c = false.
Proof.
  induction s as [|d s IH]; simpl; [done|].
  destruct (p d) eqn:E; [auto|]. by intros [= <- <-].
Qed.

Lemma trim_start_by_id p s : (forall c, head s = Some c -> p c = false) -> trim_start_by p s = s.
Proof. destruct s as [|c s]; [done|]. simpl. intros H. by rewrite H. Qed.

Lemma trim_end_by_prefix p s : exists t, s = trim_end_by p s ++ t /\ Forall (fun c => p c = true) t.
Proof.
  unfold trim_end_by. destruct (trim_start_by_suffix p (reverse s)) as (t & Hs & Ht).
  exists (reverse t). split.
  - by rewrite <-reverse_app, <-Hs, reverse_involutive.
  - by apply Forall_reverse.
Qed.

Lemma trim_end_by_last p s c : last (trim_end_by p s) = Some c -> p c = false.
Proof.
  unfold trim_end_by. rewrite last_reverse. intros H.
  destruct (trim_start_by p (reverse s)) as [|d t] eqn:E; [done|].
  simpl in H. injection H as ->. by eapply trim_start_by_head.
Qed.

Lemma trim_end_by_id p s : (forall c, last s = Some c -> p c = false) -> trim_end_by p s = s.
Proof.
  intros H. unfold trim_end_by. rewrite trim_start_by_id; [apply reverse_involutive|].
  intros c. rewrite head_reverse. apply H.
Qed.

Lemma trim_start_by_sub p s : trim_start_by p s ⊆ s.
Proof.
  destruct (trim_start_by_suffix p s) as (t & Hs & _). rewrite Hs at 2. set_solver.
Qed.

Lemma trim_end_by_sub p s : trim_end_by p s ⊆ s.
Proof.
  destruct (trim_end_by_prefix p s) as (t & Hs & _). rewrite Hs at 2. set_solver.
Qed.

Lemma trim_sub s : trim s ⊆ s.
Proof. unfold trim. etrans; [apply trim_end_by_sub|apply trim_start_by_sub]. Qed.

(** A string [trim] leaves alone. *)
Definition trimmed (s : rstring) : Prop :=
  (forall c, head s = Some c -> is_whitespace c = false) /\
  (forall c, last s = Some c -> is_whitespace c = false).

Lemma trim_id s : trimmed s -> trim s = s.
Proof.
  intros [Hh Hl]. unfold trim. rewrite trim_start_by_id by done. by apply trim_end_by_id.
Qed.

Lemma trim_trimmed s : trimmed (trim s).
Proof.
  split; [|intros c; unfold trim; apply trim_end_by_last].
  intros c Hc. unfold trim in Hc.
  destruct (trim_end_by_prefix is_whitespace (trim_start_by is_whitespace s)) as (t & Hs & _).
  destruct (trim_end_by is_whitespace (trim_start_by is_whitespace s)) as [|d u]; [done|].
  injection Hc as <-. eapply trim_start_by_head. by rewrite Hs.
Qed.

Lemma trim_idemp s : trim (trim s) = trim s.
Proof. apply trim_id, trim_trimmed. Qed.

(** *** Lower case *)

Section Lower.
Context `{U : Unicode} {UL : UnicodeLaws U}.

(** A character that [to_lowercase] leaves alone. *)
Definition is_lower (c : Z) : Prop := to_lower c = [c] /\ c <> SIGMA.

Lemma ascii_is_lower c : c < 128 -> ~ 65 <= c <= 90 -> is_lower c.
Proof.
  intros Hc Hn. unfold is_lower, to_lower, ascii_lower, SIGMA.
  destruct (Z.ltb_spec c 128); [|lia]. split; [|lia]. f_equal.
  destruct (Z.leb_spec 65 c), (Z.leb_spec c 90); simpl; lia.
Qed.

(** The characters of a lowered string: each comes from one character, and is
    itself lower case. *)
Lemma to_lowercase_elem s d :
  d ∈ to_lowercase s ->
  exists c, c ∈ s /\
    ((c = SIGMA /\ (d = 0x3C2 \/ d = 0x3C3)) \/ (c <> SIGMA /\ d ∈ to_lower c)).
Proof.
  unfold to_lowercase. generalize (@nil Z). induction s as [|c s IH]; intros b; simpl.
  { intros H. by apply elem_of_nil in H. }
  intros [H|H]%elem_of_app.
  - exists c. split; [left|]. destruct (Z.eqb_spec c SIGMA) as [->|Hne]; [|auto].
    apply list_elem_of_singleton in H. left. split; [done|].
    destruct (case_ignorable_then_cased b && negb (case_ignorable_then_cased s)); auto.
  - destruct (IH _ H) as (c' & Hc & Hd). exists c'. split; [by right|done].
Qed.

Lemma to_lower_stable c d : c <> SIGMA -> d ∈ to_lower c -> is_lower d.
Proof.
  intros Hs Hd. unfold to_lower in Hd. destruct (Z.ltb_spec c 128) as [Hlt|Hge].
  - apply list_elem_of_singleton in Hd as ->. apply ascii_is_lower;
      unfold ascii_lower; destruct (Z.leb_spec 65 c), (Z.leb_spec c 90); simpl; lia.
  - by apply (uc_lower_stable c).
Qed.

Lemma to_lowercase_is_lower s : Forall is_lower (to_lowercase s).
Proof.
  apply Forall_forall. intros d Hd%to_lowercase_elem.
  destruct Hd as (c & _ & [[-> [-> | ->]]|[Hs Hd]]).
  - split; [apply uc_lower_sigma|done].
  - split; [apply uc_lower_sigma|done].
  - by eapply to_lower_stable.
Qed.

Lemma to_lowercase_valid s : valid_str s -> valid_str (to_lowercase s).
Proof.
  intros Hs. apply Forall_forall. intros d (c & Hc & [[_ [-> | ->]]|[Hne Hd]])%to_lowercase_elem; [done..|].
  assert (is_char c = true) as Hv by (unfold valid_str in Hs; rewrite Forall_forall in Hs; auto).
  unfold to_lower in Hd. destruct (Z.ltb_spec c 128) as [Hlt|Hge]; [|by eapply uc_lower_char].
  apply list_elem_of_singleton in Hd as ->. unfold ascii_lower.
  destruct ((65 <=? c) && (c <=? 90)) eqn:E; [|done].
  apply andb_true_iff in E as [E1%Z.leb_le E2%Z.leb_le].
  unfold is_char. destruct (Z.leb_spec 0 (c + 32)), (Z.ltb_spec (c + 32) 0xD800); simpl; lia.
Qed.

Lemma to_lowercase_id s : Forall is_lower s -> to_lowercase s = s.
Proof.
  unfold to_lowercase. generalize (@nil Z).
  induction s as [|c s IH]; intros b H; simpl; [done|].
  apply Forall_cons in H as [[Hl Hs] H].
  destruct (Z.eqb_spec c SIGMA); [done|]. rewrite Hl. simpl. f_equal. by apply IH.
Qed.

Lemma to_lowercase_idemp s : to_lowercase (to_lowercase s) = to_lowercase s.
Proof. apply to_lowercase_id, to_lowercase_is_lower. Qed.

Lemma lower_from_nil b s : lower_from b s = [] -> s = [].
Proof.
  destruct s as [|c s]; [done|]. cbn [lower_from]. intros [H _]%app_eq_nil.
  destruct (c =? SIGMA); [done|]. unfold to_lower in H. destruct (Z.ltb_spec c 128); [done|].
  by apply uc_lower_some in H.
Qed.

(** Lowering does not move a dot to the end. *)
Lemma to_lowercase_last_dot s : last (to_lowercase s) = Some 46 -> last s = Some 46.
Proof.
  unfold to_lowercase. generalize (@nil Z). induction s as [|c s IH]; intros b; [done|]. cbn [lower_from].
  rewrite last_app, last_cons. destruct (last (lower_from (c :: b) s)) as [d|] eqn:E.
  - intros [= ->]. by rewrite (IH _ E).
  - apply last_None, lower_from_nil in E as ->. cbn [last]. intros Hd. f_equal.
    apply last_Some_elem_of in Hd. destruct (Z.eqb_spec c SIGMA) as [->|Hs].
    { apply list_elem_of_singleton in Hd. by destruct (_ && _). }
    unfold to_lower in Hd. destruct (Z.ltb_spec c 128) as [Hc|Hc].
    + apply list_elem_of_singleton in Hd. revert Hd. unfold ascii_lower.
      destruct (Z.leb_spec 65 c), (Z.leb_spec c 90); simpl; lia.
    + apply (uc_lower_ascii c) in Hd; [lia|done..].
Qed.

(** Lowering introduces no ASCII punctuation. *)
Lemma to_lowercase_punct s d :
  d ∈ to_lowercase s -> d < 128 -> ~ 97 <= d <= 122 -> d ∈ s.
Proof.
  intros Hd Hlt Hn. apply to_lowercase_elem in Hd as (c & Hc & [[-> [-> | ->]]|[Hs Hd]]); [lia..|].
  unfold to_lower in Hd. destruct (Z.ltb_spec c 128) as [Hc'|Hc'].
  - apply list_elem_of_singleton in Hd as ->. revert Hn.
    unfold ascii_lower.
    destruct (Z.leb_spec 65 c), (Z.leb_spec c 90); simpl; intros; try done; lia.
  - destruct Hn. by apply (uc_lower_ascii c).
Qed.
End Lower.

(** *** Lines *)

Lemma lines_from_line acc l s :
  10 ∉ l -> lines_from acc (l ++ 10 :: s) = strip_cr (reverse l ++ acc) :: lines s.
Proof.
  revert acc. induction l as [|c l IH]; intros acc H; simpl; [done|].
  apply not_elem_of_cons in H as [Hc H].
  destruct (Z.eqb_spec c 10); [congruence|].
  rewrite IH by done. by rewrite reverse_cons, <-(assoc_L (++)).
Qed.

Lemma strip_cr_id l : last l <> Some 13 -> strip_cr (reverse l) = l.
Proof.
  intros H. unfold strip_cr. destruct (reverse l) as [|c r] eqn:E.
  - apply (f_equal reverse) in E. by rewrite reverse_involutive in E.
  - destruct (Z.eqb_spec c 13) as [->|]; [|by rewrite <-E, reverse_involutive].
    destruct H. by rewrite <-head_reverse, E.
Qed.

(** [lines] inverts joining with newlines and a final newline. *)
Lemma lines_join ls :
  ls <> [] -> Forall (fun l => (10 ∉ l) /\ last l <> Some 13) ls ->
  lines (join [10] ls ++ [10]) = ls.
Proof.
  intros Hne H. induction H as [|l ls [Hl Hcr] H IH]; [done|].
  destruct ls as [|l' ls].
  - simpl. unfold lines. rewrite lines_from_line by done.
    rewrite app_nil_r, strip_cr_id by done. done.
  - change (join [10] (l :: l' :: ls)) with (l ++ [10] ++ join [10] (l' :: ls)).
    rewrite <-!(assoc_L (++)). change ([10] ++ ?x) with (10 :: x). unfold lines.
    rewrite lines_from_line by done. rewrite app_nil_r, strip_cr_id by done.
    f_equal. by apply IH.
Qed.

Lemma lines_no_newline s l : l ∈ lines s -> 10 ∉ l.
Proof.
  assert (forall acc, 10 ∉ acc -> forall l, l ∈ lines_from acc s -> 10 ∉ l) as H.
  2: { apply (H []). set_solver. }
  induction s as [|c s IH]; intros acc Ha k; simpl.
  - destruct acc; [set_solver|]. intros ->%list_elem_of_singleton. by rewrite elem_of_reverse.
  - destruct (Z.eqb_spec c 10) as [->|Hc].
    + intros [->|H]%elem_of_cons; [|apply (IH []); [apply not_elem_of_nil|done]].
      unfold strip_cr. destruct acc as [|d acc]; [done|].
      apply not_elem_of_cons in Ha as [Hd Ha].
      destruct (d =? 13); rewrite elem_of_reverse; [done|].
      by apply not_elem_of_cons.
    + apply IH. by apply not_elem_of_cons.
Qed.

(** *** UTF-8 round trips *)

Lemma cont_of_Z x : 0 <= x < 64 -> cont (byte_of_Z (0x80 + x)) = Some x.
Proof.
  intros H. unfold cont. rewrite byte_to_of_Z, Z.mod_small by lia.
  destruct (Z.leb_spec 0x80 (0x80 + x)), (Z.ltb_spec (0x80 + x) 0xC0); simpl; try lia.
  f_equal. lia.
Qed.

Lemma cont_Some b x : cont b = Some x -> 0 <= x < 64 /\ b = byte_of_Z (0x80 + x).
Proof.
  unfold cont. pose proof (byte_of_to_Z b).
  destruct (Z.leb_spec 0x80 (byte_to_Z b)), (Z.ltb_spec (byte_to_Z b) 0xC0);
    simpl; intros [= <-]. split; [lia|].
  replace (0x80 + (byte_to_Z b - 0x80)) with (byte_to_Z b) by lia. done.
Qed.

Lemma is_char_spec c : is_char c = true <-> 0 <= c < 0xD800 \/ 0xE000 <= c < 0x110000.
Proof. unfold is_char. rewrite orb_true_iff, !andb_true_iff. lia. Qed.

(** Six bits at a time. *)
Lemma split64 c : c = 64 * (c / 64) + c mod 64 /\ 0 <= c mod 64 < 64.
Proof. pose proof (Z.div_mod c 64). pose proof (Z.mod_pos_bound c 64). lia. Qed.

Lemma div64_4096 c : c / 4096 = c / 64 / 64.
Proof. by rewrite Z.div_div. Qed.
Lemma div64_262144 c : c / 262144 = c / 64 / 64 / 64.
Proof. by rewrite !Z.div_div. Qed.

Ltac split64_tac c :=
  rewrite ?div64_262144, ?div64_4096;
  pose proof (split64 c); pose proof (split64 (c / 64)); pose proof (split64 (c / 64 / 64)).

Ltac ltb_cases :=
  repeat match goal with
  | |- context [?a <? ?b] => destruct (Z.ltb_spec a b); try lia
  | |- context [?a <=? ?b] => destruct (Z.leb_spec a b); try lia
  end.

Lemma from_utf8_char c l :
  is_char c = true ->
  from_utf8 ((byte_of_Z <$> utf8_char c) ++ l) = s ← from_utf8 l; Some (c :: s).
Proof.
  intros Hc. pose proof Hc as Hc'. apply is_char_spec in Hc'.
  unfold utf8_char.
  destruct (Z.ltb_spec c 0x80); [|destruct (Z.ltb_spec c 0x800); [|destruct (Z.ltb_spec c 0x10000)]];
    cbn [fmap list_fmap app from_utf8]; rewrite byte_to_of_Z.
  - rewrite Z.mod_small by lia. by ltb_cases.
  - split64_tac c. rewrite Z.mod_small by lia. ltb_cases.
    unfold utf8_2. rewrite cont_of_Z by lia. cbn [mbind option_bind].
    replace ((0xC0 + c / 64 - 0xC0) * 64 + c mod 64) with c by lia. by ltb_cases.
  - split64_tac c. rewrite (Z.mod_small (0xE0 + _)) by lia. ltb_cases.
    unfold utf8_3. rewrite !cont_of_Z by lia. cbn [mbind option_bind].
    replace ((0xE0 + c / 64 / 64 - 0xE0) * 4096 + (c / 64) mod 64 * 64 + c mod 64)
      with c by lia. rewrite Hc. by ltb_cases.
  - split64_tac c. rewrite (Z.mod_small (0xF0 + _)) by lia. ltb_cases.
    unfold utf8_4. rewrite !cont_of_Z by lia. cbn [mbind option_bind].
    replace ((0xF0 + c / 64 / 64 / 64 - 0xF0) * 262144 + (c / 64 / 64) mod 64 * 4096
      + (c / 64) mod 64 * 64 + c mod 64) with c by lia. rewrite Hc. by ltb_cases.
Qed.

(** Encoding then decoding is the identity on every valid string. *)
Lemma from_utf8_as_bytes s : valid_str s -> from_utf8 (as_bytes s) = Some s.
Proof.
  induction 1 as [|c s Hc H IH]; [done|]. unfold as_bytes. cbn [mbind list_bind].
  rewrite from_utf8_char by done. fold (as_bytes s). by rewrite IH.
Qed.

Lemma as_bytes_inj s t : valid_str s -> valid_str t -> as_bytes s = as_bytes t -> s = t.
Proof.
  intros Hs Ht E. apply (f_equal from_utf8) in E.
  rewrite !from_utf8_as_bytes in E by done. by injection E.
Qed.

Lemma utf8_2_Some z0 b1 c :
  0xC0 <= z0 < 0xE0 -> utf8_2 z0 b1 = Some c ->
  is_char c = true /\ byte_of_Z <$> utf8_char c = [byte_of_Z z0; b1].
Proof.
  unfold utf8_2. intros Hz. destruct (cont b1) as [x1|] eqn:E1; [|done].
  apply cont_Some in E1 as [Hx1 ->]. cbn [mbind option_bind].
  set (d := (z0 - 0xC0) * 64 + x1).
  destruct (Z.leb_spec 0x80 d), (Z.ltb_spec d 0x800); simpl; intros [= <-].
  split; [apply is_char_spec; lia|]. unfold utf8_char. ltb_cases.
  split64_tac d. cbn [fmap list_fmap]. repeat f_equal; lia.
Qed.

Lemma utf8_3_Some z0 b1 b2 c :
  0xE0 <= z0 < 0xF0 -> utf8_3 z0 b1 b2 = Some c ->
  is_char c = true /\ byte_of_Z <$> utf8_char c = [byte_of_Z z0; b1; b2].
Proof.
  unfold utf8_3. intros Hz. destruct (cont b1) as [x1|] eqn:E1; [|done].
  destruct (cont b2) as [x2|] eqn:E2; [|done].
  apply cont_Some in E1 as [Hx1 ->]. apply cont_Some in E2 as [Hx2 ->].
  cbn [mbind option_bind].
  set (d := (z0 - 0xE0) * 4096 + x1 * 64 + x2).
  destruct (Z.leb_spec 0x800 d), (Z.ltb_spec d 0x10000), (is_char d) eqn:Hd;
    simpl; intros [= <-].
  split; [done|]. unfold utf8_char. ltb_cases.
  split64_tac d. cbn [fmap list_fmap]. repeat f_equal; lia.
Qed.

Lemma utf8_4_Some z0 b1 b2 b3 c :
  0xF0 <= z0 -> utf8_4 z0 b1 b2 b3 = Some c ->
  is_char c = true /\ byte_of_Z <$> utf8_char c = [byte_of_Z z0; b1; b2; b3].
Proof.
  unfold utf8_4. intros Hz. destruct (cont b1) as [x1|] eqn:E1; [|done].
  destruct (cont b2) as [x2|] eqn:E2; [|done]. destruct (cont b3) as [x3|] eqn:E3; [|done].
  apply cont_Some in E1 as [Hx1 ->]. apply cont_Some in E2 as [Hx2 ->].
  apply cont_Some in E3 as [Hx3 ->]. cbn [mbind option_bind].
  set (d := (z0 - 0xF0) * 262144 + x1 * 4096 + x2 * 64 + x3).
  destruct (Z.leb_spec 0x10000 d), (is_char d) eqn:Hd; simpl; intros [= <-].
  split; [done|]. unfold utf8_char. ltb_cases.
  split64_tac d. cbn [fmap list_fmap]. repeat f_equal; lia.
Qed.

(** Whatever decodes is the encoding of the result, and the result is valid. *)
Lemma from_utf8_Some l s : from_utf8 l = Some s -> valid_str s /\ as_bytes s = l.
Proof.
  remember (length l) as n eqn:Hn. revert l s Hn.
  induction (lt_wf n) as [n _ IH]. intros [|b0 l] s ->; cbn [from_utf8].
  { intros [= <-]. split; [constructor|done]. }
  pose proof (byte_to_Z_bound b0) as Hb. pose proof (byte_of_to_Z b0) as Hb0.
  assert (forall c k t, (length k < length (b0 :: l))%nat -> is_char c = true ->
    (s ← from_utf8 k; Some (c :: s)) = Some t ->
    valid_str t /\ as_bytes t = (byte_of_Z <$> utf8_char c) ++ k) as Hstep.
  { intros c k t Hk Hc Ht. destruct (from_utf8 k) as [u|] eqn:E; [|done].
    injection Ht as <-. destruct (IH _ Hk _ _ eq_refl E) as [Hu <-].
    split; [by constructor|done]. }
  destruct (Z.ltb_spec (byte_to_Z b0) 0x80).
  { intros H'. apply Hstep in H'; [|simpl; lia|apply is_char_spec; lia].
    unfold utf8_char in H'. revert H'. ltb_cases.
    cbn [fmap list_fmap app]. by rewrite Hb0. }
  destruct (Z.ltb_spec (byte_to_Z b0) 0xC0); [done|].
  destruct (Z.ltb_spec (byte_to_Z b0) 0xE0).
  { destruct l as [|b1 l]; [done|].
    destruct (utf8_2 _ b1) as [c|] eqn:E; [|done]. apply utf8_2_Some in E as [Hc E]; [|lia].
    intros H'. apply Hstep in H'; [|simpl; lia|done]. by rewrite E, Hb0 in H'. }
  destruct (Z.ltb_spec (byte_to_Z b0) 0xF0).
  { destruct l as [|b1 [|b2 l]]; [done..|].
    destruct (utf8_3 _ b1 b2) as [c|] eqn:E; [|done]. apply utf8_3_Some in E as [Hc E]; [|lia].
    intros H'. apply Hstep in H'; [|simpl; lia|done]. by rewrite E, Hb0 in H'. }
  destruct l as [|b1 [|b2 [|b3 l]]]; [done..|].
  destruct (utf8_4 _ b1 b2 b3) as [c|] eqn:E; [|done]. apply utf8_4_Some in E as [Hc E]; [|lia].
  intros H'. apply Hstep in H'; [|simpl; lia|done]. by rewrite E, Hb0 in H'.
Qed.
