(* ===== verification/Fmt.v ===== *)
(** * Number formatting ([std::fmt])

    The integer formats the source uses: [{}], [{:02x}], [{:032x}], [{:014}]
    and [{:06}]. *)

From S2P Require Import Prelude RustStr.

(** A digit of a radix up to 16, lower case. *)
Definition digit_char (d : Z) : Z := if d <? 10 then 48 + d else 87 + d.

(** The [n] lowest digits of [z], most significant first. *)
Fixpoint fixed_digits (radix : Z) (n : nat) (z : Z) : rstring :=
  match n with
  | O => []
  | S n' => fixed_digits radix n' (z / radix) ++ [digit_char (z mod radix)]
  end.

(** How many digits [z] needs, at least one; [n] bounds the search. *)
Fixpoint digit_count (radix : Z) (n : nat) (z : Z) : nat :=
  match n with
  | O => 1
  | S n' => if z <? radix then 1 else S (digit_count radix n' (z / radix))
  end.

(** [{}] and [{:x}] of an unsigned integer; [Z.log2] bounds the digits. *)
Definition fmt_radix (radix z : Z) : rstring :=
  fixed_digits radix (digit_count radix (Z.to_nat (Z.log2 z)) z) z.
Definition fmt_dec (z : Z) : rstring := fmt_radix 10 z.
Definition fmt_hex (z : Z) : rstring := fmt_radix 16 z.

(** [{:0w}]: zero padding to a minimum width. *)
Definition zero_pad (w : nat) (s : rstring) : rstring := replicate (w - length s) 48 ++ s.

(** ** Lemmas *)

Lemma length_fixed_digits radix n z : length (fixed_digits radix n z) = n.
Proof. revert z. induction n; intros z; simpl; [done|]. rewrite length_app, IHn. simpl. lia. Qed.

Lemma fixed_digits_0 radix n : 0 < radix -> fixed_digits radix n 0 = replicate n 48.
Proof.
  intros Hr. induction n as [|n IH]; [done|]. cbn [fixed_digits].
  rewrite Z.div_0_l, Z.mod_0_l, IH by lia. by rewrite replicate_S_end.
Qed.

Section Digits.
Context (radix : Z) (Hradix : 1 < radix).

Lemma digit_count_bound n z :
  0 <= z < 2 ^ Z.of_nat (S n) -> z < radix ^ Z.of_nat (digit_count radix n z).
Proof using Hradix.
  revert z. induction n as [|n IH]; intros z Hz; cbn [digit_count].
  - change (2 ^ Z.of_nat 1) with 2 in Hz. rewrite Z.pow_1_r. lia.
  - destruct (Z.ltb_spec z radix); [rewrite Z.pow_1_r; lia|].
    assert (0 <= z / radix < 2 ^ Z.of_nat (S n)) as Hd.
    { split; [apply Z.div_pos; lia|]. apply Z.div_lt_upper_bound; [lia|].
      rewrite (Nat2Z.inj_succ (S n)), Z.pow_succ_r in Hz by lia. nia. }
    specialize (IH _ Hd). rewrite Nat2Z.inj_succ, Z.pow_succ_r by lia.
    pose proof (Z.div_mod z radix). pose proof (Z.mod_pos_bound z radix). nia.
Qed.

Lemma digit_count_min n z k :
  0 <= z < radix ^ Z.of_nat k -> (0 < k)%nat -> (digit_count radix n z <= k)%nat.
Proof using Hradix.
  revert z k. induction n as [|n IH]; intros z k Hz Hk; cbn [digit_count]; [lia|].
  destruct (Z.ltb_spec z radix); [lia|]. destruct k as [|[|k]]; [lia|..].
  { change (Z.of_nat 1) with 1 in Hz. rewrite Z.pow_1_r in Hz. lia. }
  apply le_n_S, IH; [|lia]. split; [apply Z.div_pos; lia|].
  apply Z.div_lt_upper_bound; [lia|].
  rewrite (Nat2Z.inj_succ (S k)), Z.pow_succ_r in Hz by lia. lia.
Qed.

(** More digits than needed are leading zeros. *)
Lemma fixed_digits_pad n k z :
  0 <= z < radix ^ Z.of_nat k -> fixed_digits radix (n + k) z = replicate n 48 ++ fixed_digits radix k z.
Proof using Hradix.
  revert z. induction k as [|k IH]; intros z Hz.
  - change (Z.of_nat 0) with 0 in Hz. rewrite Z.pow_0_r in Hz.
    replace z with 0 by lia. rewrite Nat.add_0_r, app_nil_r. apply fixed_digits_0. lia.
  - rewrite Nat.add_succ_r. cbn [fixed_digits]. rewrite (assoc_L (++)). f_equal.
    apply IH. split; [apply Z.div_pos; lia|]. apply Z.div_lt_upper_bound; [lia|].
    rewrite Nat2Z.inj_succ, Z.pow_succ_r in Hz by lia. lia.
Qed.
End Digits.

Lemma log2_fuel z : 0 <= z -> z < 2 ^ Z.of_nat (S (Z.to_nat (Z.log2 z))).
Proof.
  intros Hz. rewrite Nat2Z.inj_succ, Z2Nat.id by apply Z.log2_nonneg.
  destruct (decide (z = 0)) as [->|]; [done|]. apply Z.log2_spec. lia.
Qed.

(** A number below [radix ^ w] is printed by [{:0w}] as exactly [w] digits. *)
Lemma zero_pad_fixed radix w z :
  1 < radix -> (0 < w)%nat -> 0 <= z < radix ^ Z.of_nat w ->
  zero_pad w (fmt_radix radix z) = fixed_digits radix w z.
Proof.
  intros Hr Hw Hz. unfold zero_pad, fmt_radix.
  set (k := digit_count radix _ z). rewrite length_fixed_digits.
  assert (k <= w)%nat by (apply digit_count_min; lia).
  assert (z < radix ^ Z.of_nat k) by (apply digit_count_bound; [lia|]; split; [lia|]; apply log2_fuel; lia).
  rewrite <-fixed_digits_pad by lia. f_equal. lia.
Qed.

Lemma digit_char_mono a b : 0 <= a < b -> b < 16 -> digit_char a < digit_char b.
Proof. intros. unfold digit_char. destruct (Z.ltb_spec a 10), (Z.ltb_spec b 10); lia. Qed.

(** *** Order: fixed-width digits compare like numbers *)

Lemma str_leb_app_same p a b : str_leb (p ++ a) (p ++ b) = str_leb a b.
Proof.
  induction p as [|c p IH]; simpl; [done|]. by rewrite Z.ltb_irrefl, Z.eqb_refl.
Qed.

(** A strict difference inside a common length decides the comparison. *)
Definition str_lt (a b : rstring) : Prop := str_le a b /\ a <> b.

Lemma str_lt_prefix p a b : str_lt a b -> str_lt (p ++ a) (p ++ b).
Proof.
  unfold str_lt, str_le. rewrite str_leb_app_same. intros [? Hne]. split; [done|].
  by intros ?%app_inv_head.
Qed.

Lemma str_lt_app p q a b :
  length p = length q -> str_lt p q -> str_lt (p ++ a) (q ++ b).
Proof.
  unfold str_lt, str_le. revert q. induction p as [|x p IH]; intros [|y q] Hl; simpl; [naive_solver| done..|].
  injection Hl as Hl. rewrite !orb_true_iff, !andb_true_iff, Z.ltb_lt, Z.eqb_eq.
  intros [[Hlt|[-> Hle]] Hne].
  - split; [auto|]. intros [= -> _]. lia.
  - destruct (IH q Hl) as [? ?]; [split; [done|congruence]|]. split; [auto|]. congruence.
Qed.

Lemma fixed_digits_lt radix n a b :
  1 < radix <= 16 -> 0 <= a < b -> b < radix ^ Z.of_nat n ->
  str_lt (fixed_digits radix n a) (fixed_digits radix n b).
Proof.
  intros Hr. revert a b. induction n as [|n IH]; intros a b Ha Hb.
  { change (Z.of_nat 0) with 0 in Hb. rewrite Z.pow_0_r in Hb. lia. }
  rewrite Nat2Z.inj_succ, Z.pow_succ_r in Hb by lia. cbn [fixed_digits].
  pose proof (Z.div_mod a radix). pose proof (Z.mod_pos_bound a radix).
  pose proof (Z.div_mod b radix). pose proof (Z.mod_pos_bound b radix).
  destruct (decide (a / radix = b / radix)) as [E|Hne].
  - rewrite E. unfold str_lt, str_le. rewrite str_leb_app_same. simpl.
    assert (digit_char (a mod radix) < digit_char (b mod radix)) as Hd
      by (apply digit_char_mono; nia).
    split; [apply orb_true_iff; left; by apply Z.ltb_lt|].
    intros E'. apply app_inv_head in E'. injection E' as E'. lia.
  - apply str_lt_app; [by rewrite !length_fixed_digits|]. apply IH.
    + split; [apply Z.div_pos; lia|]. pose proof (Z.div_le_mono a b radix). lia.
    + apply Z.div_lt_upper_bound; lia.
Qed.
