(* ===== verification/NetAddr.v ===== *)
(** * IP and socket addresses ([std::net])

    The address types of the standard library, their parser
    ([core::net::parser]) and their [Display] forms, which the configuration
    and the web API go through. *)

From S2P Require Import Prelude RustStr Fmt.

(** ** Types *)

(** Four octets; eight 16-bit segments. *)
Record Ipv4Addr := ipv4 { octets : list Z }.
Record Ipv6Addr := ipv6 { segments : list Z }.

Inductive IpAddr := V4 (a : Ipv4Addr) | V6 (a : Ipv6Addr).

Inductive SocketAddr :=
| SockV4 (ip : Ipv4Addr) (port : Z)
| SockV6 (ip : Ipv6Addr) (port scope_id : Z).

#[export] Instance ipv4_eq_dec : EqDecision Ipv4Addr.
Proof. solve_decision. Defined.
#[export] Instance ipv6_eq_dec : EqDecision Ipv6Addr.
Proof. solve_decision. Defined.
#[export] Instance ipaddr_eq_dec : EqDecision IpAddr.
Proof. solve_decision. Defined.
#[export] Instance sockaddr_eq_dec : EqDecision SocketAddr.
Proof. solve_decision. Defined.

Definition is_ipv4 (a : SocketAddr) : bool :=
  match a with SockV4 _ _ => true | SockV6 _ _ _ => false end.

(** ** Parser

    A parser consumes a prefix; returning [None] consumes nothing, which is
    [read_atomically]. *)
Definition parser (A : Type) : Type := rstring -> option (A * rstring).

Definition read_given_char (c : Z) : parser unit := fun s =>
  match s with x :: s' => if x =? c then Some (tt, s') else None | [] => None end.

(** [char::to_digit]. *)
Definition to_digit (radix c : Z) : option Z :=
  let d := if (48 <=? c) && (c <=? 57) then c - 48
           else if (97 <=? c) && (c <=? 122) then c - 87
           else if (65 <=? c) && (c <=? 90) then c - 55
           else radix in
  if d <? radix then Some d else None.

(** The digit loop of [read_number]: the value and the number of digits, or
    [None] past [max_digits] or past the range of the type. *)
Fixpoint read_digits (radix maxval : Z) (max_digits : option nat) (acc : Z) (n : nat)
    (s : rstring) : option (Z * nat * rstring) :=
  match s with
  | c :: s' =>
    match to_digit radix c with
    | Some d =>
      let acc' := acc * radix + d in
      let n' := S n in
      match max_digits with
      | Some m => if (m <? n')%nat then None
                  else read_digits radix maxval max_digits acc' n' s'
      | None => if maxval <? acc' then None
                else read_digits radix maxval max_digits acc' n' s'
      end
    | None => Some (acc, n, s)
    end
  | [] => Some (acc, n, s)
  end.

Definition read_number (radix maxval : Z) (max_digits : option nat)
    (allow_zero_prefix : bool) : parser Z := fun s =>
  let has_leading_zero := match s with c :: _ => c =? 48 | [] => false end in
  '(v, n, s') ← read_digits radix maxval max_digits 0 0 s;
  if (n =? 0)%nat then None
  else if negb allow_zero_prefix && has_leading_zero && (1 <? n)%nat then None
  else if maxval <? v then None
  else Some (v, s').

Definition read_separator {A} (sep : Z) (index : nat) (inner : parser A) : parser A := fun s =>
  if (0 <? index)%nat then '(_, s') ← read_given_char sep s; inner s' else inner s.

Definition read_octet (i : nat) : parser Z :=
  read_separator 46 i (read_number 10 255 (Some 3%nat) false).

Definition read_ipv4_addr : parser Ipv4Addr := fun s =>
  '(a, s) ← read_octet 0 s;
  '(b, s) ← read_octet 1 s;
  '(c, s) ← read_octet 2 s;
  '(d, s) ← read_octet 3 s;
  Some (ipv4 [a; b; c; d], s).

(** [read_groups] with [todo] groups left at index [i]: the groups read, and
    whether they ended in an embedded IPv4 address. *)
Fixpoint read_groups (todo i : nat) (s : rstring) : list Z * bool * rstring :=
  match todo with
  | O => ([], false, s)
  | S todo' =>
    let v4 := if (0 <? todo')%nat then read_separator 58 i read_ipv4_addr s else None in
    match v4 with
    | Some (ipv4 [a; b; c; d], s') => ([a * 256 + b; c * 256 + d], true, s')
    | _ =>
      match read_separator 58 i (read_number 16 65535 (Some 4%nat) true) s with
      | Some (g, s') =>
        let '(gs, v4, s'') := read_groups todo' (S i) s' in (g :: gs, v4, s'')
      | None => ([], false, s)
      end
    end
  end.

Definition read_ipv6_addr : parser Ipv6Addr := fun s =>
  let '(head, head_ipv4, s1) := read_groups 8 0 s in
  if (length head =? 8)%nat then Some (ipv6 head, s1)
  else if head_ipv4 then None
  else
    '(_, s2) ← read_given_char 58 s1;
    '(_, s3) ← read_given_char 58 s2;
    let '(tail, _, s4) := read_groups (8 - (length head + 1)) 0 s3 in
    Some (ipv6 (head ++ replicate (8 - length head - length tail) 0 ++ tail), s4).

Definition read_port : parser Z := fun s =>
  '(_, s) ← read_given_char 58 s;
  read_number 10 65535 None true s.

Definition read_scope_id : parser Z := fun s =>
  '(_, s) ← read_given_char 37 s;
  read_number 10 (2 ^ 32 - 1) None true s.

Definition read_socket_addr_v4 : parser SocketAddr := fun s =>
  '(ip, s) ← read_ipv4_addr s;
  '(port, s) ← read_port s;
  Some (SockV4 ip port, s).

Definition read_socket_addr_v6 : parser SocketAddr := fun s =>
  '(_, s) ← read_given_char 91 s;
  '(ip, s) ← read_ipv6_addr s;
  let '(scope, s) := match read_scope_id s with Some r => r | None => (0, s) end in
  '(_, s) ← read_given_char 93 s;
  '(port, s) ← read_port s;
  Some (SockV6 ip port scope, s).

(** The whole input must be consumed. *)
Definition parse_with {A} (p : parser A) (s : rstring) : option A :=
  match p s with Some (a, []) => Some a | _ => None end.

(** [str::parse]. *)
Definition parse_ipv4 (s : rstring) : option Ipv4Addr :=
  if (15 <? length (as_bytes s))%nat then None else parse_with read_ipv4_addr s.
Definition parse_ipv6 (s : rstring) : option Ipv6Addr := parse_with read_ipv6_addr s.
Definition parse_sockaddr (s : rstring) : option SocketAddr :=
  match parse_with read_socket_addr_v4 s with
  | Some a => Some a
  | None => parse_with read_socket_addr_v6 s
  end.

(** ** Display *)

Definition show_ipv4 (a : Ipv4Addr) : rstring := join [46] (fmt_dec <$> octets a).

(** The first longest run of zero segments: [best] and [cur] are
    (start, length) pairs. *)
Fixpoint zero_run (segs : list Z) (i : nat) (best cur : nat * nat) : nat * nat :=
  match segs with
  | [] => best
  | s :: segs' =>
    if s =? 0 then
      let cur' := ((if (cur.2 =? 0)%nat then i else cur.1), S cur.2) in
      zero_run segs' (S i) (if (best.2 <? cur'.2)%nat then cur' else best) cur'
    else zero_run segs' (S i) best (0%nat, 0%nat)
  end.

(** [Ipv6Addr::to_ipv4_mapped]. *)
Definition to_ipv4_mapped (a : Ipv6Addr) : option Ipv4Addr :=
  match segments a with
  | [s0; s1; s2; s3; s4; s5; x; y] =>
    if bool_decide ([s0; s1; s2; s3; s4; s5] = [0; 0; 0; 0; 0; 0xffff])
    then Some (ipv4 [x / 256; x mod 256; y / 256; y mod 256]) else None
  | _ => None
  end.

Definition show_ipv6 (a : Ipv6Addr) : rstring :=
  match to_ipv4_mapped a with
  | Some v4 => str "::ffff:" ++ show_ipv4 v4
  | None =>
    let segs := segments a in
    let '(start, n) := zero_run segs 0 (0%nat, 0%nat) (0%nat, 0%nat) in
    if (1 <? n)%nat then
      join [58] (fmt_hex <$> take start segs) ++ str "::" ++
      join [58] (fmt_hex <$> drop (start + n) segs)
    else join [58] (fmt_hex <$> segs)
  end.

Definition show_ip (a : IpAddr) : rstring :=
  match a with V4 a => show_ipv4 a | V6 a => show_ipv6 a end.

(** ** Worked examples *)

Example parse_v4 : parse_sockaddr (str "1.1.1.1:53") = Some (SockV4 (ipv4 [1; 1; 1; 1]) 53).
Proof. reflexivity. Qed.
Example parse_v6 :
  parse_sockaddr (str "[2606:4700::1111]:53")
  = Some (SockV6 (ipv6 [0x2606; 0x4700; 0; 0; 0; 0; 0; 0x1111]) 53 0).
Proof. reflexivity. Qed.
Example parse_no_port : parse_sockaddr (str "8.8.8.8") = None.
Proof. reflexivity. Qed.
Example parse_octal : parse_ipv4 (str "01.2.3.4") = None.
Proof. reflexivity. Qed.
Example parse_mapped : parse_ipv6 (str "::ffff:1.2.3.4") = Some (ipv6 [0;0;0;0;0;0xffff;0x102;0x304]).
Proof. reflexivity. Qed.
Example show_compressed : show_ipv6 (ipv6 [0x2606; 0x4700; 0; 0; 0; 0; 0; 0x1111]) = str "2606:4700::1111".
Proof. reflexivity. Qed.
Example show_unspecified : show_ipv6 (ipv6 (replicate 8 0)) = str "::".
Proof. reflexivity. Qed.
