(* ===== verification/NetText.v ===== *)
(** * Addresses as text

    The [Display] form of an IP address parses back to the address: the
    configuration page shows addresses that the configuration form accepts. *)

From S2P Require Import Prelude RustStr Fmt NetAddr.

(** ** Numbers *)

Lemma digit_char_digit radix d : 0 <= d < radix -> radix <= 16 -> to_digit radix (digit_char d) = Some d.
Proof.
  intros Hd Hr. unfold digit_char, to_digit. destruct (Z.ltb_spec d 10).
  - rewrite (proj2 (Z.leb_le _ _)), (proj2 (Z.leb_le _ _)) by lia. cbn [andb].
    replace (48 + d - 48) with d by lia. by rewrite (proj2 (Z.ltb_lt _ _)) by lia.
  - rewrite (proj2 (Z.leb_le 48 _)), (proj2 (Z.leb_gt _ 57)) by lia. cbn [andb].
    rewrite (proj2 (Z.leb_le 97 _)), (proj2 (Z.leb_le _ 122)) by lia. cbn [andb].
    replace (87 + d - 87) with d by lia. by rewrite (proj2 (Z.ltb_lt _ _)) by lia.
Qed.

(** Reading the digits of a number before a text, within the limits. *)
Lemma read_fixed_digits radix maxval md n z acc k s :
  1 < radix <= 16 -> 0 <= acc -> 0 <= z < radix ^ Z.of_nat n ->
  match md with Some m => (k + n <= m)%nat | None => acc * radix ^ Z.of_nat n + z <= maxval end ->
  read_digits radix maxval md acc k (fixed_digits radix n z ++ s) =
  read_digits radix maxval md (acc * radix ^ Z.of_nat n + z) (k + n) s.
Proof.
  intros Hr Hacc. revert z s. induction n as [|n IH]; intros z s Hz Hm.
  { change (Z.of_nat 0) with 0 in *. rewrite Z.pow_0_r in *. simpl.
    replace (acc * 1 + z) with acc by lia. by rewrite Nat.add_0_r. }
  rewrite Nat2Z.inj_succ, Z.pow_succ_r in * by lia.
  pose proof (Z.div_mod z radix ltac:(lia)) as Hdiv. pose proof (Z.mod_pos_bound z radix ltac:(lia)) as Hmod.
  assert (0 <= z / radix < radix ^ Z.of_nat n) as Hq
    by (split; [apply Z.div_pos; lia|apply Z.div_lt_upper_bound; lia]).
  assert (0 <= radix ^ Z.of_nat n) by (apply Z.pow_nonneg; lia).
  assert (acc * (radix * radix ^ Z.of_nat n) + z =
    (acc * radix ^ Z.of_nat n + z / radix) * radix + z mod radix) as E by nia.
  cbn [fixed_digits]. rewrite <-(assoc_L (++)), IH by (first [exact Hq|destruct md; [lia|nia]]).
  cbn [app read_digits]. rewrite digit_char_digit by lia. rewrite <-E.
  replace (k + S n)%nat with (S (k + n)) by lia.
  destruct md as [m|].
  - by rewrite (proj2 (Nat.ltb_ge _ _)) by lia.
  - by rewrite (proj2 (Z.ltb_ge _ _)) by lia.
Qed.

(** The text that follows a number does not continue it. *)
Definition stops (radix : Z) (s : rstring) : Prop :=
  match s with c :: _ => to_digit radix c = None | [] => True end.

Lemma read_digits_stops radix maxval md acc k s :
  stops radix s -> read_digits radix maxval md acc k s = Some (acc, k, s).
Proof. destruct s as [|c s]; [done|]. cbn [stops read_digits]. by intros ->. Qed.

Lemma fmt_radix_count radix z k :
  1 < radix -> (0 < k)%nat -> 0 <= z < radix ^ Z.of_nat k ->
  exists n, (0 < n <= k)%nat /\ fmt_radix radix z = fixed_digits radix n z /\ 0 <= z < radix ^ Z.of_nat n.
Proof.
  intros Hr Hk Hz. exists (digit_count radix (Z.to_nat (Z.log2 z)) z). split; [|split; [done|]].
  - split; [|by apply digit_count_min]. destruct (Z.to_nat (Z.log2 z)); simpl; [lia|]. destruct (_ <? _); lia.
  - split; [lia|]. apply digit_count_bound; [lia|]. split; [lia|]. apply log2_fuel. lia.
Qed.

(** A printed number is read back; [zero_ok]: without a leading zero. *)
Lemma read_number_fmt radix maxval k zp z s :
  1 < radix <= 16 -> (0 < k)%nat -> 0 <= z < radix ^ Z.of_nat k -> z <= maxval -> stops radix s ->
  zp || negb (bool_decide (head (fmt_radix radix z) = Some 48)) || bool_decide (length (fmt_radix radix z) = 1%nat) = true ->
  read_number radix maxval (Some k) zp (fmt_radix radix z ++ s) = Some (z, s).
Proof.
  intros Hr Hk Hz Hmax Hs Hzp. destruct (fmt_radix_count radix z k) as (n & Hn & Ef & Hb); [lia..|].
  unfold read_number. rewrite Ef in *.
  rewrite (read_fixed_digits radix maxval (Some k) n z 0 0 s) by lia.
  rewrite Z.mul_0_l, Z.add_0_l, Nat.add_0_l, read_digits_stops by done. cbn [mbind option_bind].
  rewrite (proj2 (Nat.eqb_neq _ _)) by lia.
  rewrite length_fixed_digits in Hzp.
  replace (negb zp && _ && (1 <? n)%nat) with false.
  { by rewrite (proj2 (Z.ltb_ge _ _)) by lia. }
  symmetry. destruct zp; [done|]. cbn [negb orb] in *.
  destruct (Nat.ltb_spec 1 n); [|by rewrite andb_false_r]. rewrite (bool_decide_eq_false_2 (n = 1%nat)), orb_false_r in Hzp by lia.
  rewrite andb_true_r. destruct (fixed_digits radix n z) as [|c l] eqn:E.
  - apply (f_equal length) in E. rewrite length_fixed_digits in E. simpl in E. lia.
  - cbn [app head] in *. apply negb_true_iff, bool_decide_eq_false in Hzp.
    apply Z.eqb_neq. congruence.
Qed.

(** ** IPv4 *)

Definition octets_ok (a : Ipv4Addr) : Prop := length (octets a) = 4%nat /\ Forall (fun z => 0 <= z < 256) (octets a).

(** A check of all octets. *)
Lemma octet_check (P : Z -> bool) : forallb P (seqZ 0 256) = true -> forall z, 0 <= z < 256 -> P z = true.
Proof. intros H z Hz. rewrite forallb_forall in H. apply H, list_elem_of_In, elem_of_seqZ. lia. Qed.

Lemma read_octet_fmt z s :
  0 <= z < 256 -> stops 10 s -> read_number 10 255 (Some 3%nat) false (fmt_dec z ++ s) = Some (z, s).
Proof.
  intros Hz Hs. apply read_number_fmt; [lia|lia|change (10 ^ Z.of_nat 3) with 1000; lia|lia|done|]. cbn [orb].
  revert z Hz. apply octet_check. vm_refl.
Qed.

Lemma read_ipv4_show a s :
  octets_ok a -> stops 10 s -> read_ipv4_addr (show_ipv4 a ++ s) = Some (a, s).
Proof.
  destruct a as [l]. intros [Hl Hall] Hs. cbn [octets] in *.
  destruct l as [|a [|b [|c [|d [|? ?]]]]]; try done. rewrite !Forall_cons in Hall. destruct Hall as (Ha & Hb & Hc & Hd & _).
  unfold show_ipv4, read_ipv4_addr, read_octet. cbn [octets fmap list_fmap join]. rewrite <-!(assoc_L (++)).
  unfold read_separator. cbn [Nat.ltb Nat.leb].
  rewrite read_octet_fmt by done. cbn [mbind option_bind app read_given_char Z.eqb Pos.eqb].
  rewrite read_octet_fmt by done. cbn [mbind option_bind app read_given_char Z.eqb Pos.eqb].
  rewrite read_octet_fmt by done. cbn [mbind option_bind app read_given_char Z.eqb Pos.eqb].
  by rewrite read_octet_fmt.
Qed.

(** A printed octet is one to three ASCII characters. *)
Lemma octet_text z : 0 <= z < 256 ->
  (length (as_bytes (fmt_dec z)) <= 3)%nat /\ Forall (fun c => c <> 46 /\ c <> 58) (fmt_dec z).
Proof.
  intros Hz. assert ((length (as_bytes (fmt_dec z)) <=? 3)%nat &&
    forallb (fun c => negb (c =? 46) && negb (c =? 58)) (fmt_dec z) = true) as H
    by (revert z Hz; apply octet_check; vm_refl).
  apply andb_true_iff in H as [H1%Nat.leb_le H2]. split; [done|]. apply Forall_forall. intros c Hc.
  rewrite forallb_forall in H2. apply list_elem_of_In in Hc. apply H2 in Hc.
  apply andb_true_iff in Hc as [?%negb_true_iff%Z.eqb_neq ?%negb_true_iff%Z.eqb_neq]. done.
Qed.

Lemma as_bytes_app s t : as_bytes (s ++ t) = as_bytes s ++ as_bytes t.
Proof. apply bind_app. Qed.

Lemma parse_show_ipv4 a : octets_ok a -> parse_ipv4 (show_ipv4 a) = Some a.
Proof.
  intros Ha. unfold parse_ipv4, parse_with.
  pose proof (read_ipv4_show a [] Ha I) as Hr. rewrite app_nil_r in Hr. rewrite Hr.
  rewrite (proj2 (Nat.ltb_ge _ _)); [done|].
  destruct a as [l]. destruct Ha as [Hl Hall]. cbn [octets] in *.
  destruct l as [|a [|b [|c [|d [|? ?]]]]]; try done. rewrite !Forall_cons in Hall. destruct Hall as (Ha & Hb & Hc & Hd & _).
  unfold show_ipv4. cbn [octets fmap list_fmap join]. rewrite !as_bytes_app, !length_app.
  change (length (as_bytes [46])) with 1%nat.
  pose proof (proj1 (octet_text a Ha)). pose proof (proj1 (octet_text b Hb)).
  pose proof (proj1 (octet_text c Hc)). pose proof (proj1 (octet_text d Hd)). lia.
Qed.

(** ** IPv6 *)

Definition segments_ok (a : Ipv6Addr) : Prop :=
  length (segments a) = 8%nat /\ Forall (fun z => 0 <= z < 65536) (segments a).

(** The first run of zeros that [zero_run] reports is one. *)
Definition zeros_at (l : list Z) (r : nat * nat) : Prop :=
  r.2 = 0%nat \/ exists a b, l = a ++ replicate r.2 0 ++ b /\ length a = r.1.

Lemma zeros_at_app l r b : zeros_at l r -> zeros_at (l ++ b) r.
Proof.
  intros [H|(a & b' & -> & Ha)]; [by left|]. right. exists a, (b' ++ b). by rewrite <-!(assoc_L (++)).
Qed.

Lemma zero_run_spec segs pre best cur :
  zeros_at pre best -> (cur.2 = 0%nat \/ exists a, pre = a ++ replicate cur.2 0 /\ length a = cur.1) ->
  zeros_at (pre ++ segs) (zero_run segs (length pre) best cur).
Proof.
  revert pre best cur. induction segs as [|s segs IH]; intros pre best [cs cn] Hb Hc.
  { by rewrite app_nil_r. }
  cbn [zero_run snd fst] in *. replace (S (length pre)) with (length (pre ++ [s])) by (rewrite length_app; simpl; lia).
  replace (pre ++ s :: segs) with ((pre ++ [s]) ++ segs) by (by rewrite <-(assoc_L (++))).
  destruct (Z.eqb_spec s 0) as [->|]; [|apply IH; [by apply zeros_at_app|by left]].
  set (cur' := ((if (cn =? 0)%nat then length pre else cs), S cn)).
  assert (exists a, pre ++ [0] = a ++ replicate (S cn) 0 /\ length a = cur'.1) as (a & Ha & Hl).
  { unfold cur'. cbn [fst]. rewrite replicate_S_end. destruct (Nat.eqb_spec cn 0) as [->|Hne].
    - by exists pre.
    - destruct Hc as [?|(a & -> & Hl)]; [done|]. exists a. by rewrite (assoc_L (++)). }
  apply IH; [|right; by exists a].
  destruct (_ <? _)%nat; [|by apply zeros_at_app].
  right. exists a, []. by rewrite app_nil_r.
Qed.

(** What a parser of numbers leaves is part of its input. *)
Lemma read_digits_sub radix maxval md acc k s v n s' :
  read_digits radix maxval md acc k s = Some (v, n, s') -> s' ⊆ s.
Proof.
  revert acc k. induction s as [|c s IH]; intros acc k; cbn [read_digits]; [by intros [= _ _ <-]|].
  destruct (to_digit radix c); [|by intros [= _ _ <-]].
  assert (s' ⊆ s -> s' ⊆ c :: s) as Hsub by (intros H x Hx; right; auto).
  destruct md as [m|]; [destruct (m <? S k)%nat|destruct (maxval <? _)]; try done; eauto.
Qed.

Lemma read_number_sub radix maxval md zp s v s' :
  read_number radix maxval md zp s = Some (v, s') -> s' ⊆ s.
Proof.
  unfold read_number. destruct (read_digits _ _ _ _ _ _) as [[[x n] r]|] eqn:E; [|done].
  cbn [mbind option_bind]. apply read_digits_sub in E.
  destruct (n =? 0)%nat; [done|]. destruct (negb zp && _ && _); [done|]. destruct (maxval <? x); [done|].
  by intros [= _ <-].
Qed.

(** Without a dot there is no IPv4 address. *)
Lemma read_ipv4_no_dot s : 46 ∉ s -> read_ipv4_addr s = None.
Proof.
  intros Hs. unfold read_ipv4_addr, read_octet, read_separator. cbn [Nat.ltb Nat.leb].
  destruct (read_number _ _ _ _ s) as [[v s']|] eqn:E; [|done]. apply read_number_sub in E.
  cbn [mbind option_bind]. destruct s' as [|c s']; [done|]. cbn [read_given_char].
  destruct (Z.eqb_spec c 46) as [->|]; [|done]. destruct Hs. apply E. left.
Qed.

Lemma read_number_no_digit radix maxval md zp s : stops radix s -> read_number radix maxval md zp s = None.
Proof. intros Hs. unfold read_number. by rewrite read_digits_stops. Qed.

(** Nothing more to read: the text ends, or "::" follows. *)
Definition groups_end (s : rstring) : Prop := s = [] \/ exists r, s = 58 :: 58 :: r.

Lemma read_groups_end todo i s : groups_end s -> read_groups todo i s = ([], false, s).
Proof.
  intros Hs. destruct todo as [|todo]; [done|]. cbn [read_groups].
  assert (read_separator 58 i read_ipv4_addr s = None /\
    read_separator 58 i (read_number 16 65535 (Some 4%nat) true) s = None) as [E1 E2].
  { unfold read_separator, read_ipv4_addr, read_octet.
    destruct Hs as [->|[r ->]]; destruct (0 <? i)%nat; try done;
      cbn [read_given_char Z.eqb Pos.eqb mbind option_bind];
      unfold read_separator; cbn [Nat.ltb Nat.leb]; by rewrite !read_number_no_digit. }
  rewrite E1, E2. by destruct (0 <? todo)%nat.
Qed.

(** Groups after the first, each with its colon. *)
Definition colon_groups (gs : list Z) : rstring := gs ≫= fun g => 58 :: fmt_hex g.

Lemma join_groups g gs : join [58] (fmt_hex <$> g :: gs) = fmt_hex g ++ colon_groups gs.
Proof.
  revert g. induction gs as [|g' gs IH]; intros g; [by rewrite app_nil_r|].
  change (join [58] (fmt_hex <$> g :: g' :: gs)) with (fmt_hex g ++ [58] ++ join [58] (fmt_hex <$> g' :: gs)).
  by rewrite IH.
Qed.

Lemma hex_no_dot g : 46 ∉ fmt_hex g.
Proof.
  assert (forall n z, 46 ∉ fixed_digits 16 n z) as H.
  { induction n as [|n IH]; intros z; [apply not_elem_of_nil|]. cbn [fixed_digits].
    rewrite not_elem_of_app, list_elem_of_singleton. split; [apply IH|]. unfold digit_char.
    pose proof (Z.mod_pos_bound z 16). destruct (Z.ltb_spec (z mod 16) 10); lia. }
  apply H.
Qed.

Lemma colon_no_dot gs : 46 ∉ colon_groups gs.
Proof.
  induction gs as [|g gs IH]; [apply not_elem_of_nil|]. unfold colon_groups in *. rewrite bind_cons.
  rewrite not_elem_of_app, not_elem_of_cons. split; [|done]. split; [done|apply hex_no_dot].
Qed.

Lemma read_hex g s :
  0 <= g < 65536 -> stops 16 s -> read_number 16 65535 (Some 4%nat) true (fmt_hex g ++ s) = Some (g, s).
Proof.
  intros Hg Hs. apply read_number_fmt; [lia|lia|change (16 ^ Z.of_nat 4) with 65536; lia|lia|done|done].
Qed.

Lemma colon_stops gs s : stops 16 s -> stops 16 (colon_groups gs ++ s).
Proof. by destruct gs. Qed.

Lemma read_groups_S todo i s :
  46 ∉ s ->
  read_groups (S todo) i s =
  match read_separator 58 i (read_number 16 65535 (Some 4%nat) true) s with
  | Some (g, s') => let '(gs, v4, s'') := read_groups todo (S i) s' in (g :: gs, v4, s'')
  | None => ([], false, s)
  end.
Proof.
  intros Hs. cbn [read_groups].
  assert (read_separator 58 i read_ipv4_addr s = None) as ->; [|by destruct (0 <? todo)%nat].
  unfold read_separator. destruct (0 <? i)%nat; [|by apply read_ipv4_no_dot].
  destruct s as [|c s]; [done|]. cbn [read_given_char].
  destruct (c =? 58); [|done]. cbn [mbind option_bind]. apply read_ipv4_no_dot.
  by apply not_elem_of_cons in Hs as [_ ?].
Qed.

(** The groups of a printed address are read up to their end. *)
Lemma read_colon_groups gs todo i s :
  (0 < i)%nat -> (length gs <= todo)%nat -> Forall (fun g => 0 <= g < 65536) gs ->
  46 ∉ s -> stops 16 s -> groups_end s ->
  read_groups todo i (colon_groups gs ++ s) = (gs, false, s).
Proof.
  revert todo i. induction gs as [|g gs IH]; intros todo i Hi Hl Hg Hs Hstop He.
  { by apply read_groups_end. }
  destruct todo as [|todo]; [simpl in Hl; lia|]. apply Forall_cons in Hg as [Hg Hgs].
  rewrite read_groups_S by (rewrite not_elem_of_app; split; [apply colon_no_dot|done]).
  unfold colon_groups. rewrite bind_cons. fold (colon_groups gs).
  unfold read_separator. rewrite (proj2 (Nat.ltb_lt _ _)) by lia.
  cbn [app read_given_char Z.eqb Pos.eqb mbind option_bind]. rewrite <-(assoc_L (++)).
  rewrite read_hex by (done || by apply colon_stops). simpl in Hl.
  by rewrite IH by (done || lia).
Qed.

Lemma read_join_groups gs todo s :
  (length gs <= todo)%nat -> Forall (fun g => 0 <= g < 65536) gs ->
  46 ∉ s -> stops 16 s -> groups_end s ->
  read_groups todo 0 (join [58] (fmt_hex <$> gs) ++ s) = (gs, false, s).
Proof.
  intros Hl Hg Hs Hstop He. destruct gs as [|g gs]; [by apply read_groups_end|].
  rewrite join_groups, <-(assoc_L (++)). destruct todo as [|todo]; [simpl in Hl; lia|].
  apply Forall_cons in Hg as [Hg Hgs]. simpl in Hl.
  rewrite read_groups_S by (rewrite !not_elem_of_app; auto using hex_no_dot, colon_no_dot).
  unfold read_separator. cbn [Nat.ltb Nat.leb]. rewrite read_hex by (done || by apply colon_stops).
  by rewrite read_colon_groups by (done || lia).
Qed.

Lemma read_groups_hex todo i s g s' :
  read_separator 58 i read_ipv4_addr s = None ->
  read_separator 58 i (read_number 16 65535 (Some 4%nat) true) s = Some (g, s') ->
  read_groups (S todo) i s = let '(gs, v4, s'') := read_groups todo (S i) s' in (g :: gs, v4, s'').
Proof. intros E1 E2. cbn [read_groups]. rewrite E1, E2. by destruct (0 <? todo)%nat. Qed.

Lemma read_groups_ipv4 todo i s a b c d s' :
  read_separator 58 i read_ipv4_addr s = Some (ipv4 [a; b; c; d], s') ->
  read_groups (S (S todo)) i s = ([a * 256 + b; c * 256 + d], true, s').
Proof. intros E. cbn [read_groups Nat.ltb Nat.leb]. by rewrite E. Qed.

(** The form "::ffff:a.b.c.d". *)
Lemma parse_show_mapped x y :
  0 <= x < 65536 -> 0 <= y < 65536 ->
  parse_ipv6 (str "::ffff:" ++ show_ipv4 (ipv4 [x / 256; x mod 256; y / 256; y mod 256])) =
  Some (ipv6 [0; 0; 0; 0; 0; 0xffff; x; y]).
Proof.
  intros Hx Hy. set (v4 := ipv4 _).
  assert (octets_ok v4) as Hok.
  { split; [done|]. repeat constructor; try (apply Z.div_pos; lia); try (apply Z.mod_pos_bound; lia);
      apply Z.div_lt_upper_bound; lia. }
  pose proof (read_ipv4_show v4 [] Hok I) as Hr. rewrite app_nil_r in Hr.
  unfold parse_ipv6, parse_with, read_ipv6_addr.
  rewrite (read_groups_end 8 0) by (right; by eexists).
  cbn [length Nat.eqb]. change (str "::ffff:" ++ show_ipv4 v4) with (58 :: 58 :: str "ffff:" ++ show_ipv4 v4).
  cbn [read_given_char Z.eqb Pos.eqb mbind option_bind Nat.add Nat.sub].
  assert (read_groups 7 0 (str "ffff:" ++ show_ipv4 v4) = ([0xffff; x; y], true, [])) as ->; [|done].
  change (str "ffff:" ++ show_ipv4 v4) with (102 :: 102 :: 102 :: 102 :: 58 :: show_ipv4 v4).
  rewrite (read_groups_hex 6 0 _ 0xffff (58 :: show_ipv4 v4)) by done.
  assert (read_separator 58 1 read_ipv4_addr (58 :: show_ipv4 v4) = Some (v4, [])) as E by exact Hr.
  unfold v4 in E |- *. rewrite (read_groups_ipv4 4 1 _ _ _ _ _ _ E).
  pose proof (Z.div_mod x 256 ltac:(lia)). pose proof (Z.div_mod y 256 ltac:(lia)).
  do 3 f_equal. f_equal; [lia|]. f_equal. lia.
Qed.

Lemma parse_groups l : length l = 8%nat -> Forall (fun g => 0 <= g < 65536) l ->
  parse_ipv6 (join [58] (fmt_hex <$> l)) = Some (ipv6 l).
Proof.
  intros Hl Hg. unfold parse_ipv6, parse_with, read_ipv6_addr.
  pose proof (read_join_groups l 8 [] ltac:(lia) Hg (not_elem_of_nil _) I (or_introl eq_refl)) as Hr.
  rewrite app_nil_r in Hr. by rewrite Hr, Hl.
Qed.

Lemma parse_compressed a b n :
  (1 < n)%nat -> (length a + n + length b = 8)%nat ->
  Forall (fun g => 0 <= g < 65536) a -> Forall (fun g => 0 <= g < 65536) b ->
  parse_ipv6 (join [58] (fmt_hex <$> a) ++ str "::" ++ join [58] (fmt_hex <$> b)) =
  Some (ipv6 (a ++ replicate n 0 ++ b)).
Proof.
  intros Hn Hl Ha Hb. unfold parse_ipv6, parse_with, read_ipv6_addr.
  set (rest := join [58] (fmt_hex <$> b)). change (str "::" ++ rest) with (58 :: 58 :: rest).
  assert (46 ∉ rest) as Hdot.
  { unfold rest. destruct b as [|g gs]; [apply not_elem_of_nil|].
    rewrite join_groups, not_elem_of_app. split; [apply hex_no_dot|apply colon_no_dot]. }
  rewrite (read_join_groups a 8 (58 :: 58 :: rest)); [|lia|done| |done|by right; eexists].
  2: { rewrite !not_elem_of_cons. auto. }
  rewrite (proj2 (Nat.eqb_neq _ _)) by lia. cbn [read_given_char Z.eqb Pos.eqb mbind option_bind].
  pose proof (read_join_groups b (8 - (length a + 1)) [] ltac:(lia) Hb (not_elem_of_nil _) I (or_introl eq_refl)) as Hr.
  rewrite app_nil_r in Hr. fold rest in Hr. rewrite Hr.
  replace (8 - length a - length b)%nat with n by lia. done.
Qed.

Lemma parse_show_ipv6 a : segments_ok a -> parse_ipv6 (show_ipv6 a) = Some a.
Proof.
  intros [Hl Hg]. unfold show_ipv6. destruct (to_ipv4_mapped a) as [v4|] eqn:Em.
  - unfold to_ipv4_mapped in Em. destruct a as [l]. cbn [segments] in *.
    destruct l as [|s0 [|s1 [|s2 [|s3 [|s4 [|s5 [|x [|y [|? ?]]]]]]]]]; try done.
    case_bool_decide as E; [|done]. injection E as -> -> -> -> -> ->. injection Em as <-.
    rewrite !Forall_cons in Hg. apply parse_show_mapped; naive_solver.
  - destruct a as [l]. cbn [segments] in *.
    pose proof (zero_run_spec l [] (0%nat, 0%nat) (0%nat, 0%nat) (or_introl eq_refl) (or_introl eq_refl)) as Hz.
    cbn [length app] in Hz. destruct (zero_run l 0 _ _) as [start n].
    destruct (Nat.ltb_spec 1 n) as [Hn|]; [|by apply parse_groups].
    destruct Hz as [?|(p & q & -> & Hp)]; cbn [fst snd] in *; [lia|]. subst start.
    rewrite take_app_length.
    replace (drop (length p + n) (p ++ replicate n 0 ++ q)) with q.
    2: { by rewrite drop_app_add, drop_app_length' by (by rewrite length_replicate). }
    rewrite !length_app, length_replicate in Hl. rewrite !Forall_app in Hg. destruct Hg as (Hp & _ & Hq).
    by apply parse_compressed; [|lia|..].
Qed.

(** ** Parsed addresses are well formed *)

Lemma to_digit_nonneg radix c d : 0 <= radix -> to_digit radix c = Some d -> 0 <= d.
Proof.
  intros Hr. unfold to_digit. destruct ((48 <=? c) && (c <=? 57)) eqn:E1;
    [|destruct ((97 <=? c) && (c <=? 122)) eqn:E2; [|destruct ((65 <=? c) && (c <=? 90)) eqn:E3]];
    destruct (_ <? radix); try done; intros [= <-]; lia.
Qed.

Lemma read_digits_nonneg radix maxval md acc k s v n s' :
  0 <= radix -> 0 <= acc -> read_digits radix maxval md acc k s = Some (v, n, s') -> 0 <= v.
Proof.
  intros Hr. revert acc k. induction s as [|c s IH]; intros acc k Ha; cbn [read_digits]; [by intros [= <- _ _]|].
  destruct (to_digit radix c) as [d|] eqn:Ed; [|by intros [= <- _ _]]. apply to_digit_nonneg in Ed; [|done].
  assert (0 <= acc * radix + d) by nia.
  destruct md as [m|]; [destruct (m <? S k)%nat|destruct (maxval <? _)]; try done; by apply IH.
Qed.

Lemma read_number_range radix maxval md zp s v s' :
  0 <= radix -> read_number radix maxval md zp s = Some (v, s') -> 0 <= v <= maxval.
Proof.
  intros Hr. unfold read_number. destruct (read_digits _ _ _ _ _ _) as [[[x n] r]|] eqn:E; [|done].
  cbn [mbind option_bind]. apply read_digits_nonneg in E; [|done..].
  destruct (n =? 0)%nat; [done|]. destruct (negb zp && _ && _); [done|].
  destruct (Z.ltb_spec maxval x); [done|]. intros [= <- _]. lia.
Qed.

Lemma read_sep_range {i sep radix maxval md zp s v s'} :
  0 <= radix -> read_separator sep i (read_number radix maxval md zp) s = Some (v, s') -> 0 <= v <= maxval.
Proof.
  intros Hr. unfold read_separator. destruct (0 <? i)%nat; [|by apply read_number_range].
  destruct (read_given_char sep s) as [[u s1]|]; [|done]. by apply read_number_range.
Qed.

Lemma read_ipv4_ok s a s' : read_ipv4_addr s = Some (a, s') -> octets_ok a.
Proof.
  unfold read_ipv4_addr, read_octet. intros ([x s1] & H1 & H)%bind_Some.
  apply bind_Some in H as ([y s2] & H2 & H). apply bind_Some in H as ([z s3] & H3 & H).
  apply bind_Some in H as ([w s4] & H4 & [= <- _]).
  apply read_sep_range in H1, H2, H3, H4; [|done..]. split; [done|]. repeat constructor; cbn; lia.
Qed.

Lemma parse_ipv4_ok s a : parse_ipv4 s = Some a -> octets_ok a.
Proof.
  unfold parse_ipv4, parse_with. destruct (15 <? _)%nat; [done|].
  destruct (read_ipv4_addr s) as [[b [|? ?]]|] eqn:E; try done. intros [= <-]. by eapply read_ipv4_ok.
Qed.

Lemma read_groups_ok todo i s gs v4 s' :
  read_groups todo i s = (gs, v4, s') -> (length gs <= todo)%nat /\ Forall (fun g => 0 <= g < 65536) gs.
Proof.
  revert i s gs v4 s'. induction todo as [|todo IH]; intros i s gs v4 s'; [by intros [= <- _ _]|].
  assert (forall e, match e : option (Z * rstring) with
    | Some (g, s1) => 0 <= g < 65536 -> (let '(l, b, s2) := read_groups todo (S i) s1 in (g :: l, b, s2)) = (gs, v4, s')
    | None => ([], false, s) = (gs, v4, s')
    end -> (forall g s1, e = Some (g, s1) -> 0 <= g < 65536) ->
    (length gs <= S todo)%nat /\ Forall (fun g => 0 <= g < 65536) gs) as Hhex.
  { intros [[g s1]|] H Hr; [|by injection H as <- _ _; split; [simpl; lia|]].
    specialize (H (Hr _ _ eq_refl)). destruct (read_groups todo (S i) s1) as [[l b] s2] eqn:E.
    injection H as <- _ _. apply IH in E as [Hl Hg]. split; [simpl; lia|].
    constructor; [by apply (Hr g s1)|done]. }
  destruct (read_separator 58 i read_ipv4_addr s) as [[[o] s1]|] eqn:E4.
  - assert (octets_ok (ipv4 o)) as [Hl Ho].
    { unfold read_separator in E4. destruct (0 <? i)%nat; [|by eapply read_ipv4_ok].
      destruct (read_given_char 58 s) as [[u s2]|]; [|done]. by eapply read_ipv4_ok. }
    cbn [octets] in *. destruct o as [|a [|b [|c [|d [|? ?]]]]]; try done.
    destruct todo as [|todo].
    + cbn [read_groups Nat.ltb Nat.leb]. intros H. apply (Hhex (read_separator 58 i (read_number 16 65535 (Some 4%nat) true) s)).
      * destruct (read_separator _ _ (read_number _ _ _ _) _) as [[? ?]|]; [intros _|]; exact H.
      * intros g s2 Hr%read_sep_range; lia.
    + rewrite (read_groups_ipv4 todo i s a b c d s1 E4). intros [= <- _ _].
      rewrite !Forall_cons in Ho. split; [simpl; lia|]. repeat constructor; lia.
  - intros H. apply (Hhex (read_separator 58 i (read_number 16 65535 (Some 4%nat) true) s)).
    + destruct (read_separator 58 i (read_number _ _ _ _) s) as [[g s1]|] eqn:Er.
      * intros _. by rewrite (read_groups_hex todo i s g s1 E4 Er) in H.
      * cbn [read_groups] in H. rewrite E4, Er in H. by destruct (0 <? todo)%nat.
    + intros g s2 Hr%read_sep_range; lia.
Qed.

Lemma parse_ipv6_ok s a : parse_ipv6 s = Some a -> segments_ok a.
Proof.
  unfold parse_ipv6, parse_with, read_ipv6_addr.
  destruct (read_groups 8 0 s) as [[h b] s1] eqn:Eh. apply read_groups_ok in Eh as [Hl Hg].
  destruct (Nat.eqb_spec (length h) 8) as [E|Hne].
  { destruct s1; [|done]. by intros [= <-]. }
  destruct b; [done|]. destruct (read_given_char 58 s1) as [[u s2]|]; [|done]. cbn [mbind option_bind].
  destruct (read_given_char 58 s2) as [[u' s3]|]; [|done]. cbn [mbind option_bind].
  destruct (read_groups _ 0 s3) as [[tl b'] s4] eqn:Et. apply read_groups_ok in Et as [Hl' Hg'].
  destruct s4; [|done]. intros [= <-]. split; cbn [segments].
  - rewrite !length_app, length_replicate. lia.
  - rewrite !Forall_app. split; [done|]. split; [|done]. by apply Forall_replicate.
Qed.

(** ** Properties *)

(** An address that the program prints parses back to itself: dotted IPv4,
    and IPv6 in each of its three forms (eight groups, the first longest run of
    zeros as "::", and the IPv4-mapped form). *)
Theorem show_ip_roundtrip v4 v6 :
  (octets_ok v4 -> parse_ipv4 (show_ip (V4 v4)) = Some v4) /\
  (segments_ok v6 -> parse_ipv6 (show_ip (V6 v6)) = Some v6).
Proof. split; [apply parse_show_ipv4|apply parse_show_ipv6]. Qed.

(** ** Worked examples *)

Lemma show_ip_roundtrip_witness :
  parse_ipv4 (str "10.0.200.7") = Some (ipv4 [10; 0; 200; 7]) /\
  parse_ipv6 (str "2606:4700::1111") = Some (ipv6 [0x2606; 0x4700; 0; 0; 0; 0; 0; 0x1111]).
Proof.
  destruct (show_ip_roundtrip (ipv4 [10; 0; 200; 7]) (ipv6 [0x2606; 0x4700; 0; 0; 0; 0; 0; 0x1111])) as [H4 H6].
  split; [apply H4|apply H6]; (split; [done|repeat constructor; done]).
Defined.
