(* ===== verification/Fs.v ===== *)
(** * The file system ([std::fs], [std::path])

    Files by path, and a script of faults: every operation takes the next
    fault, so a statement about all scripts covers every I/O error.  A [Torn]
    write leaves a prefix of the data behind; the state it leaves is also the
    state a crash at that point leaves. *)

From S2P Require Import Prelude RustStr.

Inductive fault := NoFault | Refused | Torn (n : nat).

Record Fs := mk_fs { files : gmap rstring bytes; faults : list fault }.

(** [anyhow::Error]: a message, an I/O error, or either with context.
    [Panicked] is not an error value of the program: it marks a computation
    that panicked, which the release profile ([panic = "abort"]) turns into the
    end of the process. *)
Inductive error :=
| Panicked
| Msg (m : rstring)
| Io
| NotFound
| InvalidData
| Context (m : rstring) (e : error).

#[export] Instance error_eq_dec : EqDecision error.
Proof. solve_decision. Defined.

Definition next_fault (fs : Fs) : fault := default NoFault (head (faults fs)).
Definition set_files (m : gmap rstring bytes) (fs : Fs) : Fs := mk_fs m (tail (faults fs)).

(** [Result::with_context]. *)
Definition with_context {A} (m : rstring) (f : io Fs error A) : io Fs error A := fun fs =>
  match f fs with
  | (fs', Err e) => (fs', Err (Context m e))
  | r => r
  end.

(** [Path::exists]. *)
Definition path_exists (p : rstring) (fs : Fs) : bool := bool_decide (is_Some (files fs !! p)).

(** [fs::write]: create or truncate, then write. *)
Definition fs_write (p : rstring) (data : bytes) : io Fs error unit := fun fs =>
  match next_fault fs with
  | NoFault => (set_files (<[p := data]> (files fs)) fs, Ok tt)
  | Refused => (set_files (files fs) fs, Err Io)
  | Torn n => (set_files (<[p := take n data]> (files fs)) fs, Err Io)
  end.

(** [fs::rename]: atomic. *)
Definition fs_rename (a b : rstring) : io Fs error unit := fun fs =>
  match next_fault fs with
  | NoFault =>
    match files fs !! a with
    | Some d => (set_files (<[b := d]> (delete a (files fs))) fs, Ok tt)
    | None => (set_files (files fs) fs, Err NotFound)
    end
  | _ => (set_files (files fs) fs, Err Io)
  end.

(** [fs::read_to_string]. *)
Definition fs_read_to_string (p : rstring) : io Fs error rstring := fun fs =>
  match next_fault fs with
  | NoFault =>
    match files fs !! p with
    | Some d => (set_files (files fs) fs, ok_or (from_utf8 d) InvalidData)
    | None => (set_files (files fs) fs, Err NotFound)
    end
  | _ => (set_files (files fs) fs, Err Io)
  end.

(** [fs::remove_file]. *)
Definition fs_remove_file (p : rstring) : io Fs error unit := fun fs =>
  match next_fault fs with
  | NoFault =>
    match files fs !! p with
    | Some _ => (set_files (delete p (files fs)) fs, Ok tt)
    | None => (set_files (files fs) fs, Err NotFound)
    end
  | _ => (set_files (files fs) fs, Err Io)
  end.

(** ** Paths *)

(** The text after the last [c], with the text up to and including it; both
    are computed on the reversed string. *)
Fixpoint break_at (c : Z) (r : rstring) : rstring * option rstring :=
  match r with
  | [] => ([], None)
  | x :: r' => if x =? c then ([], Some r')
               else let '(a, b) := break_at c r' in (x :: a, b)
  end.

(** Trailing separators and [.] components do not count. *)
Fixpoint strip_tail (r : rstring) : rstring :=
  match r with
  | 47 :: r' => strip_tail r'
  | 46 :: ((47 :: _) as r') => strip_tail r'
  | _ => r
  end.

(** [Path::with_extension]: the path up to the file stem, then the new
    extension; unchanged when there is no file name. *)
Definition with_extension (ext p : rstring) : rstring :=
  let r := strip_tail (reverse p) in
  let '(rname, rdir) := break_at 47 r in
  let name := reverse rname in
  if bool_decide (name = []) || bool_decide (name = str ".") || bool_decide (name = str "..")
  then p
  else
    let stem := match break_at 46 rname with
                | (_, Some rstem) => if bool_decide (rstem = []) then name else reverse rstem
                | (_, None) => name
                end in
    match rdir with Some d => reverse d ++ [47] | None => [] end ++ stem ++ str "." ++ ext.

(** ** Lemmas *)

(** [path'] has the same content in both file systems. *)
Definition same_file (fs fs' : Fs) (p : rstring) : Prop := files fs' !! p = files fs !! p.

Lemma fs_write_other p data fs fs' r q :
  fs_write p data fs = (fs', r) -> q <> p -> same_file fs fs' q.
Proof.
  unfold fs_write, same_file. intros H Hq.
  destruct (next_fault fs); injection H as <- <-; simpl; by rewrite ?lookup_insert_ne.
Qed.

Lemma fs_write_ok p data fs fs' :
  fs_write p data fs = (fs', Ok tt) -> files fs' = <[p := data]> (files fs).
Proof. unfold fs_write. destruct (next_fault fs); intros [= <-]; done. Qed.

Lemma fs_rename_err a b fs fs' e : fs_rename a b fs = (fs', Err e) -> files fs' = files fs.
Proof.
  unfold fs_rename. destruct (next_fault fs); [|by intros [= <- _]..].
  destruct (files fs !! a); [done|]. by intros [= <- _].
Qed.

Lemma fs_rename_ok a b fs fs' :
  fs_rename a b fs = (fs', Ok tt) ->
  exists d, files fs !! a = Some d /\ files fs' = <[b := d]> (delete a (files fs)).
Proof.
  unfold fs_rename. destruct (next_fault fs); [|done..].
  destruct (files fs !! a); [|done]. intros [= <-]. eauto.
Qed.

Lemma fs_read_files p fs fs' r : fs_read_to_string p fs = (fs', r) -> files fs' = files fs.
Proof.
  unfold fs_read_to_string. destruct (next_fault fs); [|by intros [= <- _]..].
  destruct (files fs !! p); by intros [= <- _].
Qed.

Lemma with_context_ok {A} m (f : io Fs error A) fs fs' a :
  with_context m f fs = (fs', Ok a) <-> f fs = (fs', Ok a).
Proof. unfold with_context. destruct (f fs) as [fs1 [x|e]]; naive_solver. Qed.

Lemma with_context_err {A} m (f : io Fs error A) fs fs' e :
  with_context m f fs = (fs', Err e) <-> exists e', f fs = (fs', Err e') /\ e = Context m e'.
Proof. unfold with_context. destruct (f fs) as [fs1 [x|e1]]; naive_solver. Qed.

(** ** Worked examples *)

Example with_extension_file : with_extension (str "tmp") (str "/etc/dns/config.toml") = str "/etc/dns/config.tmp".
Proof. reflexivity. Qed.
Example with_extension_none : with_extension (str "tmp") (str "blocklist") = str "blocklist.tmp".
Proof. reflexivity. Qed.
Example with_extension_hidden : with_extension (str "tmp") (str "a/.env") = str "a/.env.tmp".
Proof. reflexivity. Qed.
Example with_extension_dir : with_extension (str "tmp") (str "..") = str "..".
Proof. reflexivity. Qed.
