(* ===== verification/Config.v ===== *)
(** * Configuration ([src/config.rs])

    The configuration records and their defaults, loading and saving the
    configuration file, and the atomic file write shared with the blocklist.
    TOML (the [toml] crate with the derived serde code) is a parameter. *)

From S2P Require Import Prelude RustStr Fmt NetAddr Fs.

(** ** Data *)

Record QlogConfig := mk_qlog_config {
  qlog_enabled : bool;
  qlog_dir : rstring;
  max_bytes : Z;
  flush_secs : Z;
  flush_rows : Z;
  log_client_ip : bool;
  mem_limit_mb : Z;
}.

Record DnsConfig := mk_dns_config {
  dns_bind : rstring;
  workers : Z;
  sinkhole_mode : rstring;
  sinkhole_ipv4 : Ipv4Addr;
  sinkhole_ipv6 : Ipv6Addr;
  sinkhole_ttl : Z;
  max_inflight : Z;
}.

Record UpstreamConfig := mk_upstream_config {
  servers : list rstring;
  timeout_ms : Z;
  max_concurrent : Z;
  max_qps : Z;
}.

Record CacheConfig := mk_cache_config {
  max_entries : Z;
  db_path : rstring;
  flush_ms : Z;
  purge_interval_secs : Z;
  min_ttl : Z;
  max_ttl : Z;
  negative_ttl : Z;
}.

Record WebConfig := mk_web_config {
  web_bind : rstring;
  admin_token : rstring;
  blocklist_path : rstring;
}.

Record Config := mk_config {
  cfg_dns : DnsConfig;
  cfg_upstream : UpstreamConfig;
  cfg_cache : CacheConfig;
  cfg_web : WebConfig;
  cfg_qlog : QlogConfig;
}.

#[export] Instance qlog_config_eq_dec : EqDecision QlogConfig.
Proof. solve_decision. Defined.
#[export] Instance dns_config_eq_dec : EqDecision DnsConfig.
Proof. solve_decision. Defined.
#[export] Instance upstream_config_eq_dec : EqDecision UpstreamConfig.
Proof. solve_decision. Defined.
#[export] Instance cache_config_eq_dec : EqDecision CacheConfig.
Proof. solve_decision. Defined.
#[export] Instance web_config_eq_dec : EqDecision WebConfig.
Proof. solve_decision. Defined.
#[export] Instance config_eq_dec : EqDecision Config.
Proof. solve_decision. Defined.

(** ** Defaults *)

Definition default_max_inflight : Z := 8192.
Definition default_db_path : rstring := str "cache.redb".
Definition default_flush_ms : Z := 500.
Definition default_purge_interval_secs : Z := 300.

Definition default_qlog : QlogConfig := {|
  qlog_enabled := true;
  qlog_dir := str "logs";
  max_bytes := 2 * 1024 * 1024 * 1024;
  flush_secs := 5;
  flush_rows := 10000;
  log_client_ip := true;
  mem_limit_mb := 128;
|}.

Definition default_config : Config := {|
  cfg_dns := {|
    dns_bind := str "0.0.0.0:53";
    workers := 0;
    sinkhole_mode := str "zero_ip";
    sinkhole_ipv4 := ipv4 [0; 0; 0; 0];
    sinkhole_ipv6 := ipv6 [0; 0; 0; 0; 0; 0; 0; 0];
    sinkhole_ttl := 60;
    max_inflight := default_max_inflight;
  |};
  cfg_upstream := {|
    servers := [str "1.1.1.1:53"; str "8.8.8.8:53"];
    timeout_ms := 2000;
    max_concurrent := 256;
    max_qps := 2000;
  |};
  cfg_cache := {|
    max_entries := 500000;
    db_path := str "cache.redb";
    flush_ms := 500;
    purge_interval_secs := 300;
    min_ttl := 30;
    max_ttl := 86400;
    negative_ttl := 60;
  |};
  cfg_web := {|
    web_bind := str "127.0.0.1:8080";
    admin_token := [];
    blocklist_path := str "blocklist.txt";
  |};
  cfg_qlog := default_qlog;
|}.

(** ** Operations *)

(** [Config::upstream_addrs]: the servers that parse, in order. *)
Definition upstream_addrs (cfg : Config) : list SocketAddr :=
  omap parse_sockaddr (servers (cfg_upstream cfg)).

(** [write_atomic]: a temporary file, then a rename. *)
Definition write_atomic (path : rstring) (data : bytes) : io Fs error unit :=
  let tmp := with_extension (str "tmp") path in
  _ ← fs_write tmp data;
  fs_rename tmp path.

(** The [toml] crate: [from_str] and [to_string_pretty]. *)
Class Toml := {
  toml_from_str : rstring -> option Config;
  toml_to_string : Config -> option rstring;
}.

(** Serialised configurations are text that parses back. *)
Class TomlLaws (T : Toml) : Prop := {
  toml_valid cfg t : toml_to_string cfg = Some t -> valid_str t;
  toml_roundtrip cfg t : toml_to_string cfg = Some t -> toml_from_str t = Some cfg;
}.

Section Ops.
Context `{T : Toml}.

Definition save (cfg : Config) (path : rstring) : io Fs error unit :=
  text ← lift (ok_or (toml_to_string cfg) (Context (str "serializing config") InvalidData));
  with_context (str "writing config " ++ path) (write_atomic path (as_bytes text)).

Definition load_or_create (path : rstring) : io Fs error Config := fun fs =>
  if path_exists path fs then
    (text ← with_context (str "reading config " ++ path) (fs_read_to_string path);
     lift (ok_or (toml_from_str text) (Context (str "parsing config " ++ path) InvalidData))) fs
  else
    (let cfg := default_config in
     _ ← save cfg path;
     mret cfg) fs.
End Ops.

(** ** Lemmas *)

(** Every outcome of [write_atomic], when the temporary file is another file:
    the target holds the new content or is untouched, and nothing but the
    temporary file changes besides. *)
Lemma write_atomic_spec path data fs fs' r :
  with_extension (str "tmp") path <> path ->
  write_atomic path data fs = (fs', r) ->
  files fs' !! path = (if is_ok r then Some data else files fs !! path) /\
  (forall q, q <> path -> q <> with_extension (str "tmp") path -> same_file fs fs' q) /\
  (is_ok r = true -> files fs' !! with_extension (str "tmp") path = None).
Proof.
  set (tmp := with_extension _ path). intros Hne. unfold write_atomic, same_file. fold tmp.
  unfold mbind, io_bind. destruct (fs_write tmp data fs) as [fs1 [[]|e]] eqn:Ew.
  - pose proof (fs_write_ok _ _ _ _ Ew) as Hw.
    destruct (fs_rename tmp path fs1) as [fs2 [[]|e]] eqn:Er; intros [= <- <-]; cbn [is_ok].
    + apply fs_rename_ok in Er as (d & Hd & ->). rewrite Hw in Hd |- *.
      rewrite lookup_insert_eq in Hd. injection Hd as <-.
      split; [by rewrite lookup_insert_eq|]. split.
      * intros q Hq Hqt. by rewrite lookup_insert_ne, lookup_delete_ne, lookup_insert_ne by done.
      * intros _. rewrite lookup_insert_ne by done. apply lookup_delete_eq.
    + apply fs_rename_err in Er. rewrite Er, Hw.
      split; [by rewrite lookup_insert_ne|]. split; [|done].
      intros q Hq Hqt. by rewrite lookup_insert_ne.
  - intros [= <- <-]. cbn [is_ok]. split; [by eapply fs_write_other|]. split; [|done].
    intros q _ Hq. by eapply fs_write_other.
Qed.

(** Other files are untouched, also when the temporary file is the target. *)
Lemma write_atomic_other path data fs fs' r q :
  write_atomic path data fs = (fs', r) -> q <> path -> q <> with_extension (str "tmp") path ->
  same_file fs fs' q.
Proof.
  unfold write_atomic, same_file. set (tmp := with_extension _ path). cbv [mbind io_bind].
  destruct (fs_write tmp data fs) as [fs1 [[]|e]] eqn:Ew; intros H Hq Hqt;
    pose proof (fs_write_other _ _ _ _ _ q Ew Hqt) as Hw; unfold same_file in Hw; rewrite <-Hw.
  - destruct (fs_rename tmp path fs1) as [fs2 [[]|e]] eqn:Er; injection H as <- <-.
    + apply fs_rename_ok in Er as (d & _ & ->). by rewrite lookup_insert_ne, lookup_delete_ne.
    + apply fs_rename_err in Er. by rewrite Er.
  - by injection H as <- <-.
Qed.

Section Laws.
Context `{T : Toml} {TL : TomlLaws T}.

Lemma save_ok cfg path fs fs' :
  save cfg path fs = (fs', Ok tt) <->
  exists t, toml_to_string cfg = Some t /\ write_atomic path (as_bytes t) fs = (fs', Ok tt).
Proof.
  unfold save. rewrite io_bind_ok. unfold lift. split.
  - intros (fs1 & t & E & H). destruct (toml_to_string cfg); [|done].
    injection E as <- <-. apply with_context_ok in H. eauto.
  - intros (t & -> & H). do 2 eexists. split; [done|]. by apply with_context_ok.
Qed.

Lemma save_err_file cfg path fs fs' e :
  with_extension (str "tmp") path <> path ->
  save cfg path fs = (fs', Err e) -> files fs' !! path = files fs !! path.
Proof.
  intros Hne. unfold save. rewrite io_bind_err. unfold lift.
  intros [H|(fs1 & t & E & H)].
  - by destruct (toml_to_string cfg); injection H as <- _.
  - destruct (toml_to_string cfg); [|done]. injection E as <- <-.
    apply with_context_err in H as (e' & H & _).
    by destruct (write_atomic_spec _ _ _ _ _ Hne H) as [? _].
Qed.

(** A saved file loads as the configuration that was saved, whenever the read
    itself succeeds. *)
Lemma load_saved cfg path fs fs' fs'' r :
  with_extension (str "tmp") path <> path ->
  save cfg path fs = (fs', Ok tt) ->
  load_or_create path fs' = (fs'', Ok r) -> r = cfg.
Proof using TL.
  intros Hne (t & Ht & Hw)%save_ok Hl.
  destruct (write_atomic_spec _ _ _ _ _ Hne Hw) as [Hf _]. cbn [is_ok] in Hf.
  unfold load_or_create, path_exists in Hl. rewrite bool_decide_eq_true_2 in Hl by eauto.
  apply io_bind_ok in Hl as (fs1 & s & Hr & Hp). apply with_context_ok in Hr.
  unfold fs_read_to_string in Hr. rewrite Hf in Hr.
  rewrite from_utf8_as_bytes in Hr by (by eapply toml_valid).
  destruct (next_fault fs'); [|done..]. injection Hr as <- <-. unfold lift in Hp.
  rewrite (toml_roundtrip _ _ Ht) in Hp. by injection Hp.
Qed.
End Laws.

(** ** A TOML codec for the worked examples

    Any injective printer will do: the fields are laid out as rows of numbers,
    the rows are encoded as one number ([Countable]), and that number is
    written in binary digits. *)

Section Codec.
Definition config_rows (c : Config) : list (list Z) :=
  let d := cfg_dns c in let u := cfg_upstream c in let k := cfg_cache c in
  let w := cfg_web c in let q := cfg_qlog c in
  [dns_bind d; sinkhole_mode d; octets (sinkhole_ipv4 d); segments (sinkhole_ipv6 d);
   [workers d; sinkhole_ttl d; max_inflight d]; [timeout_ms u; max_concurrent u; max_qps u];
   [max_entries k; flush_ms k; purge_interval_secs k; min_ttl k; max_ttl k; negative_ttl k];
   db_path k; web_bind w; admin_token w; blocklist_path w;
   [bool_Z (qlog_enabled q); max_bytes q; flush_secs q; flush_rows q;
    bool_Z (log_client_ip q); mem_limit_mb q]; qlog_dir q] ++ servers u.

Definition of_config_rows (rows : list (list Z)) : option Config :=
  match rows with
  | bind :: mode :: v4 :: v6 :: [wk; sttl; infl] :: [tmo; mc; mq] ::
    [me; fm; pu; mint; maxt; neg] :: db :: wb :: tok :: blp ::
    [qe; mb; fs; fr; ip; mem] :: dir :: srv =>
    Some {|
      cfg_dns := mk_dns_config bind wk mode (ipv4 v4) (ipv6 v6) sttl infl;
      cfg_upstream := mk_upstream_config srv tmo mc mq;
      cfg_cache := mk_cache_config me db fm pu mint maxt neg;
      cfg_web := mk_web_config wb tok blp;
      cfg_qlog := mk_qlog_config (qe =? 1) dir mb fs fr (ip =? 1) mem |}
  | _ => None
  end.

Lemma config_rows_roundtrip c : of_config_rows (config_rows c) = Some c.
Proof. by destruct c as [[? ? ? [] [] ? ?] [] [] [] [[] ? ? ? ? [] ?]]. Qed.

Fixpoint pos_digits (p : positive) : rstring :=
  match p with
  | xH => []
  | xO p => 48 :: pos_digits p
  | xI p => 49 :: pos_digits p
  end.
Fixpoint digits_pos (s : rstring) : positive :=
  match s with
  | [] => xH
  | c :: s => if c =? 48 then xO (digits_pos s) else xI (digits_pos s)
  end.

Lemma digits_pos_digits p : digits_pos (pos_digits p) = p.
Proof. induction p; simpl; congruence. Qed.

Lemma pos_digits_valid p : valid_str (pos_digits p).
Proof. induction p; constructor; done. Qed.

Definition digit_toml : Toml := {|
  toml_from_str s := decode (A := list (list Z)) (digits_pos s) ≫= of_config_rows;
  toml_to_string c := Some (pos_digits (encode (config_rows c)));
|}.

Lemma digit_toml_laws : TomlLaws digit_toml.
Proof.
  split; intros cfg t [= <-].
  - apply pos_digits_valid.
  - cbn [toml_from_str digit_toml]. rewrite digits_pos_digits, decode_encode.
    apply config_rows_roundtrip.
Qed.
End Codec.

(** ** Properties *)

(** C21. Crash safety of [write_atomic] under every fault script: the target
    never holds anything but its old content or the complete new one, the new
    one exactly when the call succeeds, no third file changes, and a success
    leaves no temporary file. *)
Theorem write_atomic_safe path data fs fs' r :
  with_extension (str "tmp") path <> path ->
  write_atomic path data fs = (fs', r) ->
  files fs' !! path = (if is_ok r then Some data else files fs !! path) /\
  (forall q, q <> path -> q <> with_extension (str "tmp") path -> same_file fs fs' q) /\
  (is_ok r = true -> files fs' !! with_extension (str "tmp") path = None).
Proof. apply write_atomic_spec. Qed.

(** A file that is its own temporary file (a path ending in [.tmp]) is not
    protected: a torn write leaves a truncated file behind. *)
Theorem write_atomic_own_tmp data n old :
  (n < length data)%nat ->
  let path := str "list.tmp" in
  let fs := mk_fs {[path := old]} [Torn n] in
  (write_atomic path data fs).2 = Err Io /\
  files (write_atomic path data fs).1 !! path = Some (take n data) /\
  take n data <> data.
Proof.
  intros Hn path fs. split; [done|]. split.
  - unfold write_atomic. change (with_extension _ path) with path. simpl.
    apply lookup_insert_eq.
  - intros E. apply (f_equal length) in E. rewrite length_take in E. lia.
Qed.

(** First start: with no configuration file, a successful
    [load_or_create] returns the defaults and leaves a file behind that every
    later successful load reads as the defaults again. *)
Theorem load_or_create_first_run `{T : Toml} {TL : TomlLaws T} path fs fs1 fs2 cfg cfg' :
  with_extension (str "tmp") path <> path ->
  files fs !! path = None ->
  load_or_create path fs = (fs1, Ok cfg) ->
  load_or_create path fs1 = (fs2, Ok cfg') ->
  cfg = default_config /\ cfg' = default_config /\ files fs2 !! path = files fs1 !! path.
Proof.
  intros Hne Hnone H1 H2.
  assert (save default_config path fs = (fs1, Ok tt) /\ cfg = default_config) as [Hs ->].
  { unfold load_or_create, path_exists in H1. rewrite Hnone in H1.
    rewrite bool_decide_eq_false_2 in H1 by (by intros [? ?]).
    apply io_bind_ok in H1 as (fs3 & [] & Hs & Hr). injection Hr as <- <-. done. }
  split; [done|]. split; [by eapply load_saved|].
  destruct (proj1 (save_ok _ _ _ _) Hs) as (t & _ & Hw).
  destruct (write_atomic_spec _ _ _ _ _ Hne Hw) as [Hf _]. cbn [is_ok] in Hf.
  unfold load_or_create, path_exists in H2. rewrite bool_decide_eq_true_2 in H2 by eauto.
  apply io_bind_ok in H2 as (fs3 & s & Hr & Hp). apply with_context_ok, fs_read_files in Hr.
  unfold lift in Hp. injection Hp as <- _. by rewrite Hr.
Qed.

(** Saving round trips: after a successful [save], a successful load
    returns the configuration that was saved; after a failed one, the old file
    is still there. *)
Theorem save_roundtrip `{T : Toml} {TL : TomlLaws T} cfg path fs fs1 r :
  with_extension (str "tmp") path <> path ->
  save cfg path fs = (fs1, r) ->
  match r with
  | Ok _ => forall fs2 cfg', load_or_create path fs1 = (fs2, Ok cfg') -> cfg' = cfg
  | Err _ => files fs1 !! path = files fs !! path
  end.
Proof.
  intros Hne Hs. destruct r as [[]|e].
  - intros fs2 cfg' Hl. by eapply load_saved.
  - by eapply save_err_file.
Qed.

(** ** Worked examples *)

Section Witnesses.
#[local] Existing Instance digit_toml.

Definition config_path : rstring := str "config.toml".

Lemma write_atomic_safe_witness :
  let fs := mk_fs {[str "blocklist.txt" := [x61; x0a]]} [NoFault; NoFault] in
  files (write_atomic (str "blocklist.txt") [x62; x0a] fs).1 !! str "blocklist.txt" = Some [x62; x0a].
Proof.
  intros fs. destruct (write_atomic (str "blocklist.txt") [x62; x0a] fs) as [fs' r] eqn:E.
  refine (eq_trans (proj1 (write_atomic_safe _ _ _ _ _ _ E)) _); [vm_compute; congruence|].
  replace r with (Ok (E := error) tt) by (vm_compute in E; congruence). reflexivity.
Defined.

Lemma write_atomic_own_tmp_witness :
  take 1 [x61; x62] <> [x61; x62].
Proof. refine (proj2 (proj2 (write_atomic_own_tmp [x61; x62] 1 [x63] _))). simpl. lia. Defined.

Definition after_first_run : Fs := Eval vm_compute in
  (load_or_create (T := digit_toml) (str "config.toml") (mk_fs ∅ [])).1.

Lemma load_or_create_first_run_witness :
  exists fs1 fs2 cfg,
    load_or_create config_path (mk_fs ∅ []) = (fs1, Ok cfg) /\
    load_or_create config_path fs1 = (fs2, Ok cfg) /\ cfg = default_config.
Proof.
  exists after_first_run, after_first_run, default_config.
  assert (load_or_create config_path (mk_fs ∅ []) = (after_first_run, Ok default_config))
    as H1 by (vm_compute; reflexivity).
  assert (load_or_create config_path after_first_run = (after_first_run, Ok default_config))
    as H2 by (vm_compute; reflexivity).
  split; [exact H1|]. split; [exact H2|].
  refine (proj1 (load_or_create_first_run (TL := digit_toml_laws) _ _ _ _ _ _ _ _ H1 H2));
    [vm_compute; congruence|reflexivity].
Defined.

Lemma save_roundtrip_witness :
  load_or_create config_path after_first_run = (after_first_run, Ok default_config) /\
  default_config = default_config.
Proof.
  assert (load_or_create config_path after_first_run = (after_first_run, Ok default_config))
    as H by (vm_compute; reflexivity).
  split; [exact H|].
  refine (save_roundtrip (TL := digit_toml_laws) default_config config_path (mk_fs ∅ [])
    after_first_run (Ok tt) _ _ after_first_run default_config H);
    [vm_compute; congruence|vm_compute; reflexivity].
Defined.
End Witnesses.
