(* ===== verification/Blocklist.v ===== *)
(** * The blocklist ([src/blocklist.rs])

    The two sets of entries, the parser of the list file, the suffix-walking
    matcher of the query path, and the printer used for the file and the web
    UI. *)

From S2P Require Import Prelude RustStr Fs.

(** ** Data and operations *)

Record Blocklist := mk_blocklist {
  exact : gset rstring;      (* apex and all subdomains *)
  wildcard : gset rstring;   (* strict subdomains; stored without ["*."] *)
}.

#[export] Instance blocklist_eq_dec : EqDecision Blocklist.
Proof. solve_decision. Defined.

Definition DOT : Z := 46.

Section Ops.
Context `{U : Unicode}.

(** [normalize]: lower case, then strip the scheme, path, port and trailing
    dots of a pasted URL. *)
Definition normalize (raw : rstring) : rstring :=
  let d := to_lowercase (trim raw) in
  let d := match find (str "://") d with
           | Some idx => drop (idx + 3) d
           | None => d
           end in
  let d := match find_char 47 d with
           | Some idx => take idx d
           | None => d
           end in
  let d := match find_char 58 d with
           | Some idx => take idx d
           | None => d
           end in
  trim (trim_end_by (Z.eqb DOT) d).

(** One iteration of the loop of [from_text]. *)
Definition add_line (bl : Blocklist) (line : rstring) : Blocklist :=
  let line := trim line in
  if bool_decide (line = []) || starts_with (str "#") line then bl
  else match strip_prefix (str "*.") line with
       | Some rest =>
         let d := normalize rest in
         if bool_decide (d = []) then bl
         else mk_blocklist (exact bl) ({[d]} ∪ wildcard bl)
       | None =>
         let d := normalize line in
         if bool_decide (d = []) then bl
         else mk_blocklist ({[d]} ∪ exact bl) (wildcard bl)
       end.

Definition from_text (text : rstring) : Blocklist :=
  foldl add_line (mk_blocklist ∅ ∅) (lines text).

(** [DEFAULT_BLOCKLIST], line by line. *)
Definition DEFAULT_BLOCKLIST : rstring := join [10]
  [str "# rust-dns blocklist — one domain per line.";
   str "# A plain domain blocks the apex and all subdomains:";
   str "#   facebook.com   -> blocks facebook.com, www.facebook.com, m.facebook.com, …";
   str "# A wildcard blocks subdomains only (apex still resolves):";
   str "#   *.example.com  -> blocks www.example.com but NOT example.com";
   str "# Lines starting with # are comments.";
   str "facebook.com"; []].

Definition from_file (path : rstring) : io Fs error Blocklist := fun fs =>
  (_ ← (if path_exists path fs then mret tt
        else with_context (str "creating blocklist " ++ path)
               (fs_write path (as_bytes DEFAULT_BLOCKLIST)));
   text ← with_context (str "reading blocklist " ++ path) (fs_read_to_string path);
   mret (from_text text)) fs.
End Ops.

(** The two suffix loops of [is_blocked]: look the suffix up, then move past
    the next dot.  [None] means out of fuel. *)
Fixpoint suffix_loop (n : nat) (s : gset rstring) (suffix : rstring) : option bool :=
  match n with
  | O => None
  | S n' =>
    if bool_decide (suffix ∈ s) then Some true
    else match find_char DOT suffix with
         | Some i => suffix_loop n' s (drop (S i) suffix)
         | None => Some false
         end
  end.

(** The loops look one suffix up per dot passed, and a string has at most as
    many dots as characters. *)
Definition loop_fuel (name : rstring) : nat := S (length name).

Definition is_blocked (bl : Blocklist) (name : rstring) : bool :=
  if default false (suffix_loop (loop_fuel name) (exact bl) name) then true
  else if negb (bool_decide (wildcard bl = ∅)) then
    match find_char DOT name with
    | Some i =>
      let parent := drop (S i) name in
      default false (suffix_loop (loop_fuel parent) (wildcard bl) parent)
    | None => false
    end
  else false.

Definition len (bl : Blocklist) : nat := (size (exact bl) + size (wildcard bl))%nat.

Definition to_sorted_vec (bl : Blocklist) : list rstring :=
  sort_strings (elements (exact bl) ++ ((fun d => str "*." ++ d) <$> elements (wildcard bl))).

Definition to_file_text (bl : Blocklist) : rstring :=
  join [10] (to_sorted_vec bl) ++ [10].

(** No exact entry reads as a comment or as a wildcard, and no entry ends in a
    dot: what [to_file_text] prints can be parsed back. *)
Definition reloadable (bl : Blocklist) : bool :=
  forallb (fun d => negb (starts_with (str "#") d) && negb (starts_with (str "*.") d)
                    && negb (bool_decide (last d = Some DOT))) (elements (exact bl))
  && forallb (fun d => negb (bool_decide (last d = Some DOT))) (elements (wildcard bl)).

(** ** Specification of matching *)

(** [d] is a strict ancestor of [name]: [name] is [d] with more labels in
    front. *)
Definition ancestor (d name : rstring) : Prop := exists p, name = p ++ DOT :: d.

(** The labels of a name, and the reference matcher over label suffixes. *)
Fixpoint labels (s : rstring) : list rstring :=
  match s with
  | [] => [[]]
  | c :: s' =>
    if c =? DOT then [] :: labels s'
    else match labels s' with
         | l :: ls => (c :: l) :: ls
         | [] => [[c]]
         end
  end.

Fixpoint suffixes {A} (l : list A) : list (list A) :=
  match l with
  | [] => []
  | _ :: l' => l :: suffixes l'
  end.

Definition in_set (s : gset rstring) (ls : list rstring) : bool :=
  bool_decide (join [DOT] ls ∈ s).

Definition matches (bl : Blocklist) (name : rstring) : bool :=
  existsb (in_set (exact bl)) (suffixes (labels name))
  || existsb (in_set (wildcard bl)) (suffixes (tail (labels name))).

(** ** Labels *)

Lemma labels_cons s : exists l ls, labels s = l :: ls.
Proof.
  destruct s as [|c s]; simpl; [eauto|]. destruct (c =? DOT); [eauto|].
  destruct (labels s); eauto.
Qed.

Lemma labels_dot p s : DOT ∉ p -> labels (p ++ DOT :: s) = p :: labels s.
Proof.
  induction p as [|c p IH]; simpl; [done|]. intros [Hc Hp]%not_elem_of_cons.
  destruct (Z.eqb_spec c DOT); [congruence|]. by rewrite IH.
Qed.

Lemma labels_single s : DOT ∉ s -> labels s = [s].
Proof.
  induction s as [|c s IH]; simpl; [done|]. intros [Hc Hs]%not_elem_of_cons.
  destruct (Z.eqb_spec c DOT); [congruence|]. by rewrite IH.
Qed.

Lemma join_labels s : join [DOT] (labels s) = s.
Proof.
  induction s as [|c s IH]; [done|]. cbn [labels].
  destruct (labels_cons s) as (l & ls & E). rewrite E in *.
  destruct (Z.eqb_spec c DOT) as [->|Hc].
  - change (join [DOT] ([] :: l :: ls)) with (DOT :: join [DOT] (l :: ls)). by rewrite IH.
  - rewrite <-IH. by destruct ls.
Qed.

(** ** Matching *)

Lemma ancestor_first_dot d name i :
  find_char DOT name = Some i ->
  ancestor d name <-> d = drop (S i) name \/ ancestor d (drop (S i) name).
Proof.
  intros H. apply find_char_Some in H as [Hs Hi]. revert Hs Hi.
  generalize (take i name) (drop (S i) name). intros q r -> Hq. unfold ancestor. split.
  - intros [p E]. revert p E. induction q as [|c q IH]; intros p E.
    + destruct p as [|x p]; simplify_eq/=; eauto.
    + apply not_elem_of_cons in Hq as [Hc Hq]. destruct p as [|x p]; simplify_eq/=.
      by apply (IH Hq p).
  - intros [->|[p ->]]; [eauto|]. exists (q ++ DOT :: p). by rewrite <-(assoc_L (++)).
Qed.

Lemma ancestor_no_dot d name : find_char DOT name = None -> ~ ancestor d name.
Proof. intros H%find_char_None [p ->]. set_solver. Qed.

Lemma ancestor_length d name : ancestor d name -> (length d < length name)%nat.
Proof. intros [p ->]. rewrite length_app. simpl. lia. Qed.

Lemma ancestor_trans d e name : ancestor d e -> ancestor e name -> ancestor d name.
Proof.
  intros [p ->] [q ->]. exists (q ++ DOT :: p). by rewrite <-(assoc_L (++)).
Qed.

Lemma labels_find s i :
  find_char DOT s = Some i -> labels s = take i s :: labels (drop (S i) s).
Proof.
  intros [Hs Hi]%find_char_Some. rewrite Hs at 1. by apply labels_dot.
Qed.

(** [s] covers [name]: the name or one of its ancestors is an element; and
    strictly: one of its strict ancestors is. *)
Definition covers (s : gset rstring) (name : rstring) : Prop :=
  exists d, d ∈ s /\ (d = name \/ ancestor d name).
Definition covers_strictly (s : gset rstring) (name : rstring) : Prop :=
  exists d, d ∈ s /\ ancestor d name.

Lemma covers_or s name : covers s name <-> name ∈ s \/ covers_strictly s name.
Proof.
  unfold covers, covers_strictly. split.
  - intros (d & Hd & [->|Ha]); eauto.
  - intros [H|(d & Hd & Ha)]; eauto.
Qed.

Lemma covers_strictly_dot s name i :
  find_char DOT name = Some i ->
  covers_strictly s name <-> covers s (drop (S i) name).
Proof.
  intros F. unfold covers, covers_strictly.
  by setoid_rewrite (ancestor_first_dot _ _ _ F).
Qed.

Lemma covers_strictly_single s name : find_char DOT name = None -> ~ covers_strictly s name.
Proof. intros F (d & _ & Ha). by apply ancestor_no_dot in Ha. Qed.

(** The suffix loop with one unit of fuel per label: it ends, and it answers
    whether the set covers the name. *)
Lemma suffix_loop_spec n s suffix :
  (length (labels suffix) <= n)%nat ->
  exists b, suffix_loop n s suffix = Some b /\ (b = true <-> covers s suffix).
Proof.
  revert suffix. induction n as [|n IH]; intros suffix Hn.
  { destruct (labels_cons suffix) as (l & ls & E). rewrite E in Hn. simpl in Hn. lia. }
  cbn [suffix_loop]. setoid_rewrite covers_or. case_bool_decide as Hin.
  { exists true. by split; [|split; [left|]]. }
  destruct (find_char DOT suffix) as [i|] eqn:F.
  - pose proof (labels_find _ _ F) as E. rewrite E in Hn. cbn [length] in Hn.
    destruct (IH (drop (S i) suffix)) as (b & -> & Hb); [lia|].
    exists b. split; [done|]. rewrite Hb, (covers_strictly_dot _ _ _ F). tauto.
  - exists false. split; [done|]. split; [done|].
    intros [?|H]; [done|]. by apply covers_strictly_single in H.
Qed.

Lemma length_labels s : (length (labels s) <= loop_fuel s)%nat.
Proof.
  unfold loop_fuel. induction s as [|c s IH]; simpl; [lia|].
  destruct (c =? DOT); simpl; [lia|]. destruct (labels s); simpl in *; lia.
Qed.

Lemma suffix_loop_true s suffix :
  default false (suffix_loop (loop_fuel suffix) s suffix) = true <-> covers s suffix.
Proof.
  destruct (suffix_loop_spec _ s suffix (length_labels suffix)) as (b & -> & Hb). done.
Qed.

Lemma length_drop_dot name i :
  find_char DOT name = Some i -> (length (drop (S i) name) < length name)%nat.
Proof.
  intros [Hs _]%find_char_Some. apply (f_equal length) in Hs.
  rewrite length_app in Hs. cbn [length] in Hs. lia.
Qed.

(** The same question asked of the label suffixes. *)
Lemma existsb_suffixes s name :
  existsb (in_set s) (suffixes (labels name)) = true <-> covers s name.
Proof.
  remember (length name) as n eqn:Hn. revert name Hn.
  induction (lt_wf n) as [n _ IH]. intros name ->.
  assert (in_set s (labels name) = true <-> name ∈ s) as Hin.
  { unfold in_set. by rewrite join_labels, bool_decide_eq_true. }
  rewrite covers_or, <-Hin. destruct (find_char DOT name) as [i|] eqn:F.
  - rewrite (covers_strictly_dot _ _ _ F), (labels_find _ _ F).
    cbn [suffixes existsb]. rewrite orb_true_iff.
    by rewrite (IH _ (length_drop_dot _ _ F) _ eq_refl).
  - rewrite labels_single by (by apply find_char_None). cbn [suffixes existsb].
    rewrite orb_false_r. split; [auto|]. intros [?|H]; [done|].
    by apply covers_strictly_single in H.
Qed.

(** The names a blocklist is meant to block: those [exact] covers and those
    [wildcard] covers strictly. *)
Definition blocks (bl : Blocklist) (name : rstring) : Prop :=
  covers (exact bl) name \/ covers_strictly (wildcard bl) name.

Lemma is_blocked_blocks bl name : is_blocked bl name = true <-> blocks bl name.
Proof.
  unfold is_blocked, blocks. rewrite <-suffix_loop_true.
  destruct (default false (suffix_loop _ (exact bl) name)); [tauto|].
  case_bool_decide as Hw; cbn [negb].
  { split; [done|]. intros [?|(d & Hd & _)]; [done|]. rewrite Hw in Hd. set_solver. }
  destruct (find_char DOT name) as [i|] eqn:F; cbv zeta.
  - rewrite suffix_loop_true, (covers_strictly_dot _ _ _ F). naive_solver.
  - split; [done|]. intros [?|H]; [done|]. by apply covers_strictly_single in H.
Qed.

Lemma matches_blocks bl name : matches bl name = true <-> blocks bl name.
Proof.
  unfold matches, blocks. rewrite orb_true_iff, existsb_suffixes.
  destruct (find_char DOT name) as [i|] eqn:F.
  - rewrite (labels_find _ _ F). cbn [tail].
    by rewrite existsb_suffixes, (covers_strictly_dot _ _ _ F).
  - rewrite labels_single by (by apply find_char_None).
    pose proof (covers_strictly_single (wildcard bl) _ F). split; [|tauto].
    intros [?|?]; [auto|done].
Qed.

(** ** Normalisation *)

Lemma not_blocked_blocks bl name : is_blocked bl name = false <-> ~ blocks bl name.
Proof. rewrite <-is_blocked_blocks. destruct (is_blocked bl name); split; congruence. Qed.

Section Normalize.
Context `{U : Unicode} {UL : UnicodeLaws U}.

(** An entry [normalize] leaves alone and that fits on a line of its own. *)
Record canonical (d : rstring) : Prop := {
  can_nonempty : d <> [];
  can_trimmed : trimmed d;
  can_lower : Forall is_lower d;
  can_slash : 47 ∉ d;
  can_colon : 58 ∉ d;
  can_line : 10 ∉ d;
  can_dot : last d <> Some DOT;
}.

Lemma cut_at_sub c (d : rstring) :
  match find_char c d with Some idx => take idx d | None => d end ⊆ d.
Proof.
  destruct (find_char c d) as [i|]; [|done].
  intros x [j Hj]%list_elem_of_lookup. apply lookup_take_Some in Hj as [Hj _].
  apply list_elem_of_lookup. eauto.
Qed.

Lemma cut_at_free c (d : rstring) :
  c ∉ match find_char c d with Some idx => take idx d | None => d end.
Proof.
  destruct (find_char c d) as [i|] eqn:E.
  - by apply find_char_Some in E as [_ ?].
  - by apply find_char_None.
Qed.

Lemma cut_scheme_sub (d : rstring) :
  match find (str "://") d with Some idx => drop (idx + 3) d | None => d end ⊆ d.
Proof.
  destruct (find _ d) as [i|]; [|done].
  intros x Hx. apply list_elem_of_lookup in Hx as [j Hj].
  rewrite lookup_drop in Hj. apply list_elem_of_lookup. eauto.
Qed.

(** [normalize] in one piece: the host part [h] of the lowered line. *)
Lemma normalize_host raw :
  exists h, normalize raw = trim (trim_end_by (Z.eqb DOT) h) /\
    (h ⊆ to_lowercase (trim raw)) /\ (47 ∉ h) /\ (58 ∉ h).
Proof.
  unfold normalize. cbv zeta. eexists. split; [reflexivity|]. split.
  - etrans; [apply cut_at_sub|]. etrans; [apply cut_at_sub|]. apply cut_scheme_sub.
  - split; [|apply cut_at_free]. intros H%cut_at_sub. by apply cut_at_free in H.
Qed.

Lemma normalize_sub raw : normalize raw ⊆ to_lowercase (trim raw).
Proof.
  destruct (normalize_host raw) as (h & -> & Hh & _).
  etrans; [apply trim_sub|]. etrans; [apply trim_end_by_sub|]. done.
Qed.

Lemma normalize_line raw : 10 ∉ raw -> 10 ∉ normalize raw.
Proof.
  intros H H'%normalize_sub. apply to_lowercase_punct in H'; [|lia..].
  by apply trim_sub in H'.
Qed.

(** What [normalize] always establishes; only a dot can survive at the end. *)
Lemma normalize_canonical raw :
  10 ∉ raw -> normalize raw <> [] -> last (normalize raw) <> Some DOT ->
  canonical (normalize raw).
Proof.
  intros Hnl Hne Hdot. pose proof (normalize_line _ Hnl).
  pose proof (normalize_sub raw) as Hsub.
  destruct (normalize_host raw) as (h & E & _ & H47 & H58).
  assert (normalize raw ⊆ h) as Hh.
  { rewrite E. etrans; [apply trim_sub|]. apply trim_end_by_sub. }
  split; try done.
  - rewrite E. apply trim_trimmed.
  - pose proof (to_lowercase_is_lower (trim raw)) as Hl.
    rewrite Forall_forall in Hl |- *. eauto.
  - eauto.
  - eauto.
Qed.

Lemma normalize_id d : canonical d -> normalize d = d.
Proof.
  intros [? Htr Hl H47 H58 _ Hdot]. unfold normalize.
  rewrite (trim_id d), to_lowercase_id by done.
  assert (find (str "://") d = None) as ->.
  { destruct (find (str "://") d) as [i|] eqn:E; [|done].
    apply find_Some in E as (t & E & _). destruct H58. rewrite E.
    apply elem_of_app. right. left. }
  apply find_char_None in H47. apply find_char_None in H58.
  cbv zeta. rewrite H47, H58, trim_end_by_id; [by apply trim_id|].
  intros c Hc. apply Z.eqb_neq. intros <-. congruence.
Qed.

End Normalize.

(** ** Parsing the list file *)

Section Parse.
Context `{U : Unicode}.

(** A line [from_text] does not skip. *)
Definition entry_line (line : rstring) : Prop :=
  trim line <> [] /\ starts_with (str "#") (trim line) = false.

Definition exact_entry (line d : rstring) : Prop :=
  entry_line line /\ starts_with (str "*.") (trim line) = false /\
  d = normalize (trim line) /\ d <> [].

Definition wildcard_entry (line d : rstring) : Prop :=
  entry_line line /\ exists rest, trim line = str "*." ++ rest /\
  d = normalize rest /\ d <> [].

Ltac add_line_cases bl line :=
  unfold add_line, exact_entry, wildcard_entry, entry_line; cbv zeta;
  destruct (decide (trim line = [])) as [?|?];
  [rewrite bool_decide_eq_true_2 by done; simpl; naive_solver|];
  rewrite bool_decide_eq_false_2 by done; cbn [orb];
  destruct (starts_with (str "#") (trim line)) eqn:?; [naive_solver|];
  destruct (strip_prefix (str "*.") (trim line)) as [rest|] eqn:E;
  [pose proof E as E'; apply strip_prefix_Some in E'|
   pose proof E as E'; apply strip_prefix_None in E'];
  case_bool_decide; cbn [exact wildcard].

Lemma add_line_exact bl line d :
  d ∈ exact (add_line bl line) <-> d ∈ exact bl \/ exact_entry line d.
Proof.
  add_line_cases bl line.
  1, 2: assert (starts_with (str "*.") (trim line) = true) by
    (apply starts_with_spec; eauto); naive_solver congruence.
  - naive_solver.
  - rewrite elem_of_union, elem_of_singleton. naive_solver.
Qed.

Lemma add_line_wildcard bl line d :
  d ∈ wildcard (add_line bl line) <-> d ∈ wildcard bl \/ wildcard_entry line d.
Proof.
  add_line_cases bl line.
  - split; [auto|]. intros [?|(_ & r & Er & -> & ?)]; [done|].
    rewrite Er in E'. apply app_inv_head in E'. naive_solver.
  - rewrite elem_of_union, elem_of_singleton. split.
    + intros [->|?]; [right|auto]. eauto 10.
    + intros [?|(_ & r & Er & -> & ?)]; [auto|].
      rewrite Er in E'. apply app_inv_head in E'. naive_solver.
  - split; [auto|]. intros [?|(_ & r & Er & _)]; [done|].
    assert (starts_with (str "*.") (trim line) = true) by
      (apply starts_with_spec; eauto). congruence.
  - split; [auto|]. intros [?|(_ & r & Er & _)]; [done|].
    assert (starts_with (str "*.") (trim line) = true) by
      (apply starts_with_spec; eauto). congruence.
Qed.

Lemma foldl_add_line_exact ls bl d :
  d ∈ exact (foldl add_line bl ls) <->
  d ∈ exact bl \/ exists line, line ∈ ls /\ exact_entry line d.
Proof.
  revert bl. induction ls as [|line ls IH]; intros bl; simpl; [set_solver|].
  rewrite IH, add_line_exact. set_solver.
Qed.

Lemma foldl_add_line_wildcard ls bl d :
  d ∈ wildcard (foldl add_line bl ls) <->
  d ∈ wildcard bl \/ exists line, line ∈ ls /\ wildcard_entry line d.
Proof.
  revert bl. induction ls as [|line ls IH]; intros bl; simpl; [set_solver|].
  rewrite IH, add_line_wildcard. set_solver.
Qed.

Lemma from_text_exact_iff text d :
  d ∈ exact (from_text text) <-> exists line, line ∈ lines text /\ exact_entry line d.
Proof. unfold from_text. rewrite foldl_add_line_exact. simpl. set_solver. Qed.

Lemma from_text_wildcard_iff text d :
  d ∈ wildcard (from_text text) <-> exists line, line ∈ lines text /\ wildcard_entry line d.
Proof. unfold from_text. rewrite foldl_add_line_wildcard. simpl. set_solver. Qed.

End Parse.

(** ** Printing *)

Section Print.
Context `{U : Unicode} {UL : UnicodeLaws U}.

Lemma to_sorted_vec_elem bl line :
  line ∈ to_sorted_vec bl <->
  line ∈ exact bl \/ exists d, d ∈ wildcard bl /\ line = str "*." ++ d.
Proof.
  unfold to_sorted_vec. rewrite sort_strings_perm, elem_of_app, list_elem_of_fmap.
  setoid_rewrite elem_of_elements. naive_solver.
Qed.

Lemma to_sorted_vec_length bl : length (to_sorted_vec bl) = len bl.
Proof.
  unfold to_sorted_vec. by rewrite sort_strings_perm, length_app, length_fmap.
Qed.

(** A blocklist whose file can be read back: no exact entry looks like a
    comment or a wildcard. *)
Record printable (bl : Blocklist) : Prop := {
  pr_exact d : d ∈ exact bl ->
    canonical d /\ starts_with (str "#") d = false /\ starts_with (str "*.") d = false;
  pr_wildcard d : d ∈ wildcard bl -> canonical d;
}.

Lemma trimmed_star d : canonical d -> trimmed (str "*." ++ d).
Proof.
  intros [Hne [_ Hl] _ _ _ _ _]. change (str "*.") with [42; 46]. split.
  - intros c [= <-]. done.
  - intros c Hc. apply Hl. rewrite <-Hc, last_app.
    destruct d as [|x d]; [done|]. by rewrite last_cons; destruct (last d).
Qed.

Lemma line_fits l : trimmed l -> 10 ∉ l -> (10 ∉ l) /\ last l <> Some 13.
Proof. intros [_ Hl] H. split; [done|]. by intros Hc%Hl. Qed.

Lemma printable_lines bl :
  printable bl -> Forall (fun l => (10 ∉ l) /\ last l <> Some 13) (to_sorted_vec bl).
Proof.
  intros [He Hw]. apply Forall_forall. intros l [H|(d & H & ->)]%to_sorted_vec_elem.
  - destruct (He _ H) as [[] _]. by apply line_fits.
  - pose proof (Hw _ H) as Hd. apply line_fits; [by apply trimmed_star|].
    change (str "*.") with [42; 46]. destruct Hd. set_solver.
Qed.

Lemma exact_entry_printed bl d e :
  printable bl -> e ∈ to_sorted_vec bl -> exact_entry e d <-> e ∈ exact bl /\ e = d.
Proof.
  intros [He Hw] [H|(x & H & ->)]%to_sorted_vec_elem.
  - destruct (He _ H) as (Hc & Hh & Hs). unfold exact_entry, entry_line.
    rewrite trim_id, normalize_id by (try done; apply Hc).
    destruct Hc. naive_solver.
  - unfold exact_entry. rewrite trim_id by (apply trimmed_star; auto).
    assert (starts_with (str "*.") (str "*." ++ x) = true) by (apply starts_with_spec; eauto).
    split; [naive_solver congruence|]. intros [Hx _].
    destruct (He _ Hx) as (_ & _ & ?). congruence.
Qed.

Lemma wildcard_entry_printed bl d e :
  printable bl -> e ∈ to_sorted_vec bl ->
  wildcard_entry e d <-> d ∈ wildcard bl /\ e = str "*." ++ d.
Proof.
  intros [He Hw] [H|(x & H & ->)]%to_sorted_vec_elem.
  - destruct (He _ H) as (Hc & Hh & Hs). unfold wildcard_entry, entry_line.
    rewrite trim_id by apply Hc. split.
    + intros (_ & r & -> & _).
      assert (starts_with (str "*.") (str "*." ++ r) = true) by (apply starts_with_spec; eauto).
      congruence.
    + intros [_ ->].
      assert (starts_with (str "*.") (str "*." ++ d) = true) by (apply starts_with_spec; eauto).
      congruence.
  - pose proof (Hw _ H) as Hc. unfold wildcard_entry, entry_line.
    rewrite trim_id by (by apply trimmed_star). split.
    + intros (_ & r & E & -> & Hne). apply app_inv_head in E as <-.
      by rewrite normalize_id by done.
    + intros [Hd E]. apply app_inv_head in E as ->. split; [done|].
      exists d. rewrite normalize_id by done. by destruct Hc.
Qed.

Lemma lines_file_text bl :
  printable bl -> to_sorted_vec bl <> [] -> lines (to_file_text bl) = to_sorted_vec bl.
Proof. intros Hp Hne. apply lines_join; [done|]. by apply printable_lines. Qed.

(** Reading the file back gives the list that was written. *)
Lemma reload_printable bl : printable bl -> from_text (to_file_text bl) = bl.
Proof.
  intros Hp. destruct (decide (to_sorted_vec bl = [])) as [E|Hne].
  { assert (exact bl = ∅ /\ wildcard bl = ∅) as [Ee Ew].
    { pose proof (to_sorted_vec_length bl) as L. rewrite E in L. unfold len in L.
      simpl in L. split; apply leibniz_equiv, size_empty_iff; lia. }
    unfold to_file_text. rewrite E. destruct bl. simpl in *. by subst. }
  pose proof (lines_file_text _ Hp Hne) as L.
  assert (exact (from_text (to_file_text bl)) = exact bl) as Ee.
  { apply set_eq. intros d. rewrite from_text_exact_iff, L. split.
    - intros (e & He & Hd). by apply (exact_entry_printed _ _ _ Hp He) in Hd as [? <-].
    - intros Hd. exists d. assert (d ∈ to_sorted_vec bl) by (apply to_sorted_vec_elem; auto).
      split; [done|]. by apply (exact_entry_printed bl). }
  assert (wildcard (from_text (to_file_text bl)) = wildcard bl) as Ew.
  { apply set_eq. intros d. rewrite from_text_wildcard_iff, L. split.
    - intros (e & He & Hd). by apply (wildcard_entry_printed _ _ _ Hp He) in Hd as [? _].
    - intros Hd. exists (str "*." ++ d).
      assert (str "*." ++ d ∈ to_sorted_vec bl) by (apply to_sorted_vec_elem; eauto).
      split; [done|]. by apply (wildcard_entry_printed bl). }
  destruct (from_text _), bl. simpl in *. by subst.
Qed.

(** Every entry a parse produces comes from [normalize] of newline-free text. *)
Lemma from_text_entries text d :
  d ∈ exact (from_text text) ∪ wildcard (from_text text) ->
  exists raw, d = normalize raw /\ (10 ∉ raw) /\ d <> [].
Proof.
  rewrite elem_of_union, from_text_exact_iff, from_text_wildcard_iff.
  intros [(l & Hl & _ & _ & -> & ?)|(l & Hl & _ & r & E & -> & ?)];
    eexists; (split; [done|]); (split; [|done]); apply lines_no_newline in Hl.
  - intros Hin%trim_sub. done.
  - intros Hin. apply Hl, trim_sub. rewrite E. apply elem_of_app. by right.
Qed.
End Print.

(** ** Properties *)

(** C11. The two suffix-slicing loops of [is_blocked] compute the label
    reference: a name is blocked iff one of its label suffixes is an exact
    entry, or a proper label suffix is a wildcard entry. *)
Theorem is_blocked_matches bl name : is_blocked bl name = matches bl name.
Proof.
  apply eq_true_iff_eq. by rewrite is_blocked_blocks, matches_blocks.
Qed.

(** C12. End to end from the list file: after parsing [text], a name is blocked
    iff some line of the text is a plain entry naming it or one of its
    ancestors, or a wildcard entry naming one of its strict ancestors. *)
Theorem from_text_blocks `{U : Unicode} text name :
  is_blocked (from_text text) name = true <->
  exists line, line ∈ lines text /\
    ((exists d, exact_entry line d /\ (d = name \/ ancestor d name)) \/
     (exists d, wildcard_entry line d /\ ancestor d name)).
Proof.
  rewrite is_blocked_blocks. unfold blocks, covers, covers_strictly.
  setoid_rewrite from_text_exact_iff. setoid_rewrite from_text_wildcard_iff. split.
  - intros [(d & (l & Hl & He) & Hd)|(d & (l & Hl & He) & Hd)]; eauto 10.
  - intros (l & Hl & [(d & He & Hd)|(d & He & Hd)]); eauto 10.
Qed.

(** A blocked name takes all its subdomains with it, and a wildcard entry
    on its own leaves its apex resolving. *)
Theorem is_blocked_subdomain bl name p :
  (is_blocked bl name = true -> is_blocked bl (p ++ DOT :: name) = true) /\
  is_blocked (mk_blocklist ∅ {[name]}) name = false /\
  is_blocked (mk_blocklist ∅ {[name]}) (p ++ DOT :: name) = true.
Proof.
  assert (ancestor name (p ++ DOT :: name)) as Ha by (exists p; done).
  rewrite not_blocked_blocks, !is_blocked_blocks. unfold blocks, covers, covers_strictly.
  split; [|split].
  - intros [(d & Hd & [->|H])|(d & Hd & H)]; eauto 10 using ancestor_trans.
  - simpl. intros [(d & Hd & _)|(d & ->%elem_of_singleton & H)]; [set_solver|].
    apply ancestor_length in H. lia.
  - right. exists name. split; [|done]. cbn [wildcard]. by apply elem_of_singleton.
Qed.

(** Each suffix loop ends after at most one set lookup per label of the
    name, and more fuel changes nothing. *)
Theorem suffix_loop_terminates s name n :
  (length (labels name) <= n)%nat ->
  exists b, suffix_loop (length (labels name)) s name = Some b /\
            suffix_loop n s name = Some b.
Proof.
  intros Hn. destruct (suffix_loop_spec _ s name (le_n _)) as (b & E & Hb).
  destruct (suffix_loop_spec n s name Hn) as (c & E' & Hc).
  exists b. split; [done|]. rewrite E'. f_equal. apply eq_true_iff_eq. by rewrite Hb, Hc.
Qed.

(** C36. Round trip through the file: for a list whose entries print
    unambiguously, parsing the text [to_file_text] writes gives the same list
    back, so a restart or a re-post of the list changes nothing. *)
Theorem reload_roundtrip `{U : Unicode} {UL : UnicodeLaws U} text :
  reloadable (from_text text) = true ->
  from_text (to_file_text (from_text text)) = from_text text.
Proof.
  intros H. apply reload_printable. apply andb_true_iff in H as [He Hw].
  rewrite forallb_forall in He, Hw.
  assert (forall d, d ∈ exact (from_text text) ∪ wildcard (from_text text) ->
          last d <> Some DOT -> canonical d) as Hcan.
  { intros d (raw & -> & Hr & Hne)%from_text_entries Hd. by apply normalize_canonical. }
  split; intros d Hd.
  - assert (d ∈ elements (exact (from_text text))) as Hin%list_elem_of_In by set_solver.
    specialize (He d Hin). rewrite !andb_true_iff, !negb_true_iff, bool_decide_eq_false in He.
    destruct He as [[??]?]. split; [apply Hcan; set_solver|done].
  - assert (d ∈ elements (wildcard (from_text text))) as Hin%list_elem_of_In by set_solver.
    specialize (Hw d Hin). rewrite negb_true_iff, bool_decide_eq_false in Hw.
    apply Hcan; set_solver.
Qed.

(** Without that condition the round trip fails: a pasted wildcard URL is
    stored as an exact entry, printed like a wildcard, and read back as one,
    so a subdomain that resolved before the restart is blocked after it. *)
Theorem reload_changes_blocking `{U : Unicode} :
  let bl := from_text (str "http://*.example.com/") in
  let bl' := from_text (to_file_text bl) in
  is_blocked bl (str "www.example.com") = false /\
  is_blocked bl' (str "www.example.com") = true.
Proof. split; vm_compute; reflexivity. Qed.

(** The listing for the UI and the file is sorted, has one row per entry,
    and shows exactly the exact entries and the wildcards with their prefix. *)
Theorem to_sorted_vec_listing bl :
  Sorted str_le (to_sorted_vec bl) /\ length (to_sorted_vec bl) = len bl /\
  forall row, row ∈ to_sorted_vec bl <->
    row ∈ exact bl \/ exists d, d ∈ wildcard bl /\ row = str "*." ++ d.
Proof.
  split; [apply sort_strings_sorted|]. split; [apply to_sorted_vec_length|].
  intros row. apply to_sorted_vec_elem.
Qed.

(** [from_file]: an existing file is parsed as it is; a missing one is
    created with the default list, which blocks [facebook.com] and nothing
    outside it.  Either way the entries come from the file now on disk. *)
Theorem from_file_loads `{U : Unicode} path fs fs' bl :
  from_file path fs = (fs', Ok bl) ->
  (exists d text, files fs' !! path = Some d /\ from_utf8 d = Some text /\ bl = from_text text) /\
  (is_Some (files fs !! path) -> files fs' = files fs) /\
  (files fs !! path = None -> forall name, is_blocked bl name = true <->
     name = str "facebook.com" \/ ancestor (str "facebook.com") name).
Proof.
  unfold from_file. intros (fs1 & [] & H1 & H2)%io_bind_ok.
  apply io_bind_ok in H2 as (fs2 & text & Hr & E). injection E as <- <-.
  apply with_context_ok in Hr. pose proof (fs_read_files _ _ _ _ Hr) as Hf.
  assert (exists d, files fs1 !! path = Some d /\ from_utf8 d = Some text) as (d & Hd & Ht).
  { unfold fs_read_to_string in Hr. destruct (next_fault fs1); [|done..].
    destruct (files fs1 !! path) as [d|]; [|done]. injection Hr as _ Hr.
    exists d. split; [done|]. by destruct (from_utf8 d); simplify_eq/=. }
  split; [exists d, text; by rewrite Hf|].
  unfold path_exists in H1. split.
  - intros Hs. rewrite bool_decide_eq_true_2 in H1 by done. injection H1 as <-. done.
  - intros Hn name. rewrite Hn, bool_decide_eq_false_2 in H1 by (by intros []).
    apply with_context_ok, fs_write_ok in H1. rewrite H1, lookup_insert_eq in Hd.
    injection Hd as <-.
    assert (text = DEFAULT_BLOCKLIST) as -> by (vm_compute in Ht |- *; congruence).
    assert (from_text DEFAULT_BLOCKLIST = mk_blocklist {[str "facebook.com"]} ∅) as ->
      by (vm_compute; reflexivity).
    rewrite is_blocked_blocks. unfold blocks, covers, covers_strictly. cbn [exact wildcard].
    set_unfold. naive_solver.
Qed.

(** ** Worked examples *)

Section Witnesses.
#[local] Existing Instance ascii_tables.

Lemma suffix_loop_terminates_witness :
  exists b, suffix_loop 3 {[str "b.c"]} (str "a.b.c") = Some b /\
            suffix_loop 9 {[str "b.c"]} (str "a.b.c") = Some b.
Proof. apply (suffix_loop_terminates {[str "b.c"]} (str "a.b.c") 9). vm_compute. lia. Defined.

Lemma is_blocked_subdomain_witness :
  is_blocked (from_text (str "Facebook.com")) (str "www.facebook.com") = true.
Proof.
  refine (proj1 (is_blocked_subdomain (from_text (str "Facebook.com"))
    (str "facebook.com") (str "www")) _).
  vm_compute. reflexivity.
Defined.

Definition facebook_only : Blocklist := mk_blocklist {[str "facebook.com"]} ∅.

Lemma from_file_loads_witness :
  exists fs', from_file (str "b.txt") (mk_fs ∅ []) = (fs', Ok facebook_only) /\
  forall name, is_blocked facebook_only name = true <->
     name = str "facebook.com" \/ ancestor (str "facebook.com") name.
Proof.
  exists (mk_fs {[str "b.txt" := as_bytes DEFAULT_BLOCKLIST]} []).
  assert (from_file (str "b.txt") (mk_fs ∅ [])
          = (mk_fs {[str "b.txt" := as_bytes DEFAULT_BLOCKLIST]} [], Ok facebook_only)) as H
    by (vm_compute; reflexivity).
  split; [exact H|]. refine (proj2 (proj2 (from_file_loads _ _ _ _ H)) _). reflexivity.
Defined.

Definition sample_list : rstring := str "facebook.com" ++ [10] ++ str "*.Example.com" ++ [13; 10].

Lemma reload_roundtrip_witness :
  from_text (to_file_text (from_text sample_list)) = from_text sample_list.
Proof.
  apply (reload_roundtrip (UL := ascii_tables_laws)). vm_compute. reflexivity.
Defined.
End Witnesses.
