(* ===== verification/Hickory.v ===== *)
(** * DNS messages (the [hickory-proto] crate)

    The crate is not part of the program: its types and functions are the
    fields of a class, and what the program relies on are the laws of a second
    class.  [MsgView] lists the message fields the source reads or writes. *)

From S2P Require Import Prelude RustStr NetAddr.

(** [MessageType]. *)
Inductive MessageType := MtQuery | MtResponse.
#[export] Instance message_type_eq_dec : EqDecision MessageType.
Proof. solve_decision. Defined.

Class HickoryTypes := {
  Name : Type;
  RecordType : Type;
  DNSClass : Type;
  OpCode : Type;
  ResponseCode : Type;
  RData : Type;
  Query : Type;
  RR : Type;                        (* [hickory_proto::rr::Record] *)
  Message : Type;
}.

Record MsgView `{HickoryTypes} := mk_view {
  m_id : Z;
  m_type : MessageType;
  m_op_code : OpCode;
  m_recursion_desired : bool;
  m_recursion_available : bool;
  m_response_code : ResponseCode;
  m_queries : list Query;
  m_answers : list RR;
}.

Class Hickory := {
  hk_types :: HickoryTypes;
  name_to_string : Name -> rstring;
  name_eqb : Name -> Name -> bool;
  rtype_eqb : RecordType -> RecordType -> bool;
  class_eqb : DNSClass -> DNSClass -> bool;
  rcode_eqb : ResponseCode -> ResponseCode -> bool;
  rtype_code : RecordType -> Z;          (* [u16::from] *)
  rtype_to_string : RecordType -> rstring;
  RT_A : RecordType;
  RT_AAAA : RecordType;
  NoError : ResponseCode;
  NXDomain : ResponseCode;
  ServFail : ResponseCode;
  rdata_A : Ipv4Addr -> RData;
  rdata_AAAA : Ipv6Addr -> RData;
  from_rdata : Name -> Z -> RData -> RR; (* [Record::from_rdata] *)
  rr_ttl : RR -> Z;
  query_name : Query -> Name;
  query_type : Query -> RecordType;
  query_class : Query -> DNSClass;
  view : Message -> MsgView;
  response : Z -> OpCode -> Message;     (* [Message::response] *)
  set_recursion_desired : bool -> Message -> Message;
  set_recursion_available : bool -> Message -> Message;
  set_response_code : ResponseCode -> Message -> Message;
  add_query : Query -> Message -> Message;
  add_answer : RR -> Message -> Message;
  from_vec : bytes -> option Message;
  to_vec : Message -> option bytes;
}.

Definition with_id `{Hickory} (id : Z) (v : MsgView) : MsgView :=
  mk_view _ id (m_type v) (m_op_code v) (m_recursion_desired v)
    (m_recursion_available v) (m_response_code v) (m_queries v) (m_answers v).

(** The documented behaviour the program relies on: the builders set the field
    they name, a message serialises to bytes that parse back to it, and the
    transaction id is the first two bytes of the 12-byte header, on which no
    other field depends. *)
Class HickoryLaws (H : Hickory) : Prop := {
  name_eqb_refl a : name_eqb a a = true;
  name_to_string_valid n : valid_str (name_to_string n);
  rtype_eqb_eq a b : rtype_eqb a b = true <-> a = b;
  class_eqb_eq a b : class_eqb a b = true <-> a = b;
  rcode_eqb_eq a b : rcode_eqb a b = true <-> a = b;
  rtype_code_u16 t : is_u 16 (rtype_code t);
  rtype_A_AAAA : RT_A <> RT_AAAA;
  rr_ttl_u32 r : is_u 32 (rr_ttl r);
  view_response id op :
    view (response id op) = mk_view _ id MtResponse op false false NoError [] [];
  view_set_recursion_desired b m :
    view (set_recursion_desired b m) =
    let v := view m in mk_view _ (m_id v) (m_type v) (m_op_code v) b
      (m_recursion_available v) (m_response_code v) (m_queries v) (m_answers v);
  view_set_recursion_available b m :
    view (set_recursion_available b m) =
    let v := view m in mk_view _ (m_id v) (m_type v) (m_op_code v)
      (m_recursion_desired v) b (m_response_code v) (m_queries v) (m_answers v);
  view_set_response_code c m :
    view (set_response_code c m) =
    let v := view m in mk_view _ (m_id v) (m_type v) (m_op_code v)
      (m_recursion_desired v) (m_recursion_available v) c (m_queries v) (m_answers v);
  view_add_query q m :
    view (add_query q m) =
    let v := view m in mk_view _ (m_id v) (m_type v) (m_op_code v)
      (m_recursion_desired v) (m_recursion_available v) (m_response_code v)
      (m_queries v ++ [q]) (m_answers v);
  view_add_answer r m :
    view (add_answer r m) =
    let v := view m in mk_view _ (m_id v) (m_type v) (m_op_code v)
      (m_recursion_desired v) (m_recursion_available v) (m_response_code v)
      (m_queries v) (m_answers v ++ [r]);
  from_vec_header w m :
    from_vec w = Some m ->
    (12 <= length w)%nat /\ is_u 16 (m_id (view m)) /\ take 2 w = to_be 2 (m_id (view m));
  from_vec_patch w m id :
    from_vec w = Some m -> is_u 16 id ->
    exists m', from_vec (to_be 2 id ++ drop 2 w) = Some m' /\ view m' = with_id id (view m);
  to_vec_from_vec m w :
    to_vec m = Some w ->
    Z.of_nat (length w) < 2 ^ 16 /\ exists m', from_vec w = Some m' /\ view m' = view m;
}.

(** The builders, as rewrite rules; the law class is found by its instance. *)
#[export] Hint Rewrite @view_set_response_code @view_add_answer @view_add_query
  @view_set_recursion_available @view_set_recursion_desired @view_response
  using (typeclasses eauto) : rdns_rw.

(** ** A small wire format for the worked examples

    A message is its view, with names as strings and codes as numbers.  The
    wire is the id, ten zero bytes, and the remaining fields as one number
    written in binary. *)

Module Mini.
Record MQuery := mk_query { q_name : rstring; q_type : Z; q_class : Z }.
Record MRR := mk_rr { r_name : rstring; r_ttl : Z; r_data : list Z }.

Instance types : HickoryTypes := {|
  Name := rstring; RecordType := Z; DNSClass := Z; OpCode := Z; ResponseCode := Z;
  RData := list Z; Query := MQuery; RR := MRR;
  Message := (Z * (bool * (Z * (bool * (bool * (Z * (list MQuery * list MRR)))))));
|}.

(** Everything but the id, as rows of numbers. *)
Definition Rest : Type := bool * (Z * (bool * (bool * (Z * (list MQuery * list MRR))))).

Definition query_rows (q : MQuery) : list (list Z) := [q_name q; [q_type q; q_class q]].
Definition rr_rows (r : MRR) : list (list Z) := [r_name r; [r_ttl r]; r_data r].

Definition to_rows (m : Rest) : list (list Z) :=
  let '(t, (op, (rd, (ra, (rc, (qs, ans)))))) := m in
  [bool_Z t; op; bool_Z rd; bool_Z ra; rc; Z.of_nat (length qs)] ::
  (qs ≫= query_rows) ++ (ans ≫= rr_rows).

Fixpoint of_rr_rows (rows : list (list Z)) : option (list MRR) :=
  match rows with
  | [] => Some []
  | n :: [t] :: d :: rows' => rs ← of_rr_rows rows'; Some (mk_rr n t d :: rs)
  | _ => None
  end.

Fixpoint of_query_rows (n : nat) (rows : list (list Z)) : option (list MQuery * list (list Z)) :=
  match n, rows with
  | O, _ => Some ([], rows)
  | S n', nm :: [t; c] :: rows' =>
    '(qs, r) ← of_query_rows n' rows'; Some (mk_query nm t c :: qs, r)
  | _, _ => None
  end.

Definition of_rows (rows : list (list Z)) : option Rest :=
  match rows with
  | [t; op; rd; ra; rc; nq] :: rows' =>
    '(qs, r) ← of_query_rows (Z.to_nat nq) rows';
    ans ← of_rr_rows r;
    Some (t =? 1, (op, (rd =? 1, (ra =? 1, (rc, (qs, ans))))))
  | _ => None
  end.

Lemma message_rows_roundtrip m : of_rows (to_rows m) = Some m.
Proof.
  destruct m as (t & op & rd & ra & rc & qs & ans). unfold of_rows, to_rows.
  assert (of_query_rows (Z.to_nat (Z.of_nat (length qs))) ((qs ≫= query_rows) ++ (ans ≫= rr_rows))
          = Some (qs, ans ≫= rr_rows)) as ->.
  { rewrite Nat2Z.id. induction qs as [|[n ty c] qs IH]; [done|]. cbn. by rewrite IH. }
  cbn [mbind option_bind].
  assert (of_rr_rows (ans ≫= rr_rows) = Some ans) as ->.
  { induction ans as [|[n tt d] ans IH]; [done|]. cbn. by rewrite IH. }
  by destruct t, rd, ra.
Qed.

Definition mview (m : Message) : MsgView :=
  let '(id, (t, (op, (rd, (ra, (rc, (qs, ans))))))) := m in
  mk_view _ id (if t then MtResponse else MtQuery) op rd ra rc qs ans.

Fixpoint pos_bytes (p : positive) : bytes :=
  match p with xH => [] | xO p => x00 :: pos_bytes p | xI p => x01 :: pos_bytes p end.
Fixpoint bytes_pos (l : bytes) : positive :=
  match l with
  | [] => xH
  | b :: l => if decide (b = x00) then xO (bytes_pos l) else xI (bytes_pos l)
  end.

Definition mto_vec (m : Message) : option bytes :=
  let '(id, rest) := m in
  let w := to_be 2 id ++ replicate 10 x00 ++ pos_bytes (encode (to_rows rest)) in
  if decide (is_u 16 id /\ Z.of_nat (length w) < 2 ^ 16) then Some w else None.

Definition mfrom_vec (w : bytes) : option Message :=
  if (length w <? 12)%nat then None
  else rest ← decode (A := list (list Z)) (bytes_pos (drop 12 w)) ≫= of_rows;
       Some (from_be (take 2 w), rest).

Definition hickory : Hickory := {|
  name_to_string n := filter (fun c => is_char c = true) n;
  name_eqb a b := bool_decide (a = b);
  rtype_eqb := Z.eqb; class_eqb := Z.eqb; rcode_eqb := Z.eqb;
  rtype_code := as_u 16;
  rtype_to_string t := if t =? 1 then str "A" else if t =? 28 then str "AAAA" else str "TYPE";
  RT_A := 1; RT_AAAA := 28; NoError := 0; NXDomain := 3; ServFail := 2;
  rdata_A := octets; rdata_AAAA := segments;
  from_rdata n t d := mk_rr n t d;
  rr_ttl r := as_u 32 (r_ttl r);
  query_name := q_name; query_type := q_type; query_class := q_class;
  view := mview;
  response id op := (id, (true, (op, (false, (false, (0, ([], [])))))));
  set_recursion_desired b m :=
    let '(id, (t, (op, (rd, r)))) := m in (id, (t, (op, (b, r))));
  set_recursion_available b m :=
    let '(id, (t, (op, (rd, (ra, r))))) := m in (id, (t, (op, (rd, (b, r)))));
  set_response_code c m :=
    let '(id, (t, (op, (rd, (ra, (rc, r)))))) := m in (id, (t, (op, (rd, (ra, (c, r))))));
  add_query q m :=
    let '(id, (t, (op, (rd, (ra, (rc, (qs, ans))))))) := m in
    (id, (t, (op, (rd, (ra, (rc, (qs ++ [q], ans)))))));
  add_answer a m :=
    let '(id, (t, (op, (rd, (ra, (rc, (qs, ans))))))) := m in
    (id, (t, (op, (rd, (ra, (rc, (qs, ans ++ [a])))))));
  from_vec := mfrom_vec;
  to_vec := mto_vec;
|}.

Lemma bytes_pos_bytes p : bytes_pos (pos_bytes p) = p.
Proof. induction p; simpl; congruence. Qed.

Lemma from_vec_to_be id l :
  is_u 16 id -> (10 <= length l)%nat ->
  mfrom_vec (to_be 2 id ++ l) = rest ← decode (A := list (list Z)) (bytes_pos (drop 10 l)) ≫= of_rows; Some (id, rest).
Proof.
  intros Hid Hl. unfold mfrom_vec. rewrite length_app, length_to_be.
  destruct (Nat.ltb_spec (2 + length l) 12); [lia|].
  change (to_be 2 id ++ l) with
    (byte_of_Z (Z.shiftr id 8) :: byte_of_Z (Z.shiftr id 0) :: l).
  change (take 2 _) with (to_be 2 id). rewrite from_to_be_id by done. done.
Qed.

Lemma mini_laws : HickoryLaws hickory.
Proof.
  split; try (intros; exact (Z.eqb_eq _ _)); try done.
  - intros a. by apply bool_decide_eq_true.
  - intros n. apply Forall_forall. by intros c [Hc _]%list_elem_of_filter.
  - intros t. by apply as_u_is_u.
  - intros r. by apply as_u_is_u.
  - by intros b (?&?&?&?&?&?&?&?).
  - by intros b (?&?&?&?&?&?&?&?).
  - by intros b (?&?&?&?&?&?&?&?).
  - by intros b (?&?&?&?&?&?&?&?).
  - by intros b (?&?&?&?&?&?&?&?).
  - intros w (id & t & op & rd & ra & rc & qs & ans). cbn [from_vec hickory view]. unfold mfrom_vec.
    destruct (Nat.ltb_spec (length w) 12); [done|].
    destruct (decode _ ≫= of_rows) as [r|]; [|done]. intros [= <- ->].
    assert (length (take 2 w) = 2%nat) as L by (rewrite length_take; lia).
    split; [lia|]. split.
    + pose proof (from_be_bound (take 2 w)) as B. by rewrite L in B.
    + trans (to_be (length (take 2 w)) (from_be (take 2 w))).
      * by rewrite to_from_be.
      * by rewrite L.
  - intros w (id & r) id'. cbn [from_vec hickory view]. unfold mfrom_vec at 1.
    destruct (Nat.ltb_spec (length w) 12); [done|].
    destruct (decode _ ≫= of_rows) as [r'|] eqn:E; [|done]. intros [= _ ->] Hid.
    exists (id', r). rewrite from_vec_to_be by (rewrite ?length_drop; try done; lia).
    rewrite drop_drop. change (2 + 10)%nat with 12%nat. rewrite E. split; [done|]. by destruct r as (?&?&?&?&?&?&?).
  - intros (id & r) w. cbn [from_vec to_vec hickory view]. unfold mto_vec. case_decide as Hd; [|done].
    intros Hw. assert (w = to_be 2 id ++ replicate 10 x00 ++ pos_bytes (encode (to_rows r))) as -> by congruence.
    destruct Hd as [Hid Hl]. split; [done|]. exists (id, r).
    rewrite from_vec_to_be by (rewrite ?length_app, ?length_replicate; try done; lia).
    change (drop 10 _) with (pos_bytes (encode (to_rows r))).
    rewrite bytes_pos_bytes, decode_encode. cbn [mbind option_bind]. by rewrite message_rows_roundtrip.
Qed.
End Mini.
