(* ===== verification/Cache.v ===== *)
(** * The cache layer ([src/cache.rs])

    Cache keys and entries, their expiry policy, the row codec and the durable
    store over the [redb] database, and the write-behind task.  [moka] and
    [redb] are parameters. *)

From S2P Require Import Prelude RustStr Fs.

(** ** Data *)

Record CacheKey := mk_key { ck_name : rstring; ck_rtype : Z }.

Record CachedResponse := mk_cached {
  wire : bytes;
  ttl_secs : Z;       (* u32 *)
  expires_unix : Z;   (* u64 *)
}.

#[export] Instance cache_key_eq_dec : EqDecision CacheKey.
Proof. solve_decision. Defined.
#[export] Instance cached_eq_dec : EqDecision CachedResponse.
Proof. solve_decision. Defined.
#[export] Instance cache_key_countable : Countable CacheKey := inj_countable'
  (fun k => (ck_name k, ck_rtype k)) (fun '(n, t) => mk_key n t) ltac:(by intros []).

(** What the field types guarantee. *)
Record key_wf (k : CacheKey) : Prop := {
  key_name_valid : valid_str (ck_name k);
  key_rtype_u16 : is_u 16 (ck_rtype k);
}.
Record cached_wf (v : CachedResponse) : Prop := {
  cached_ttl_u32 : is_u 32 (ttl_secs v);
  cached_exp_u64 : is_u 64 (expires_unix v);
}.

(** [TtlExpiry::expire_after_create], in seconds. *)
Definition expire_after_create (k : CacheKey) (v : CachedResponse) : option Z :=
  Some (Z.max (ttl_secs v) 1).

(** ** The in-memory cache ([moka]) *)

(** Times are in seconds; [try_get_with] runs [init] on a state it threads. *)
Class Moka := {
  DnsCache : Type;
  moka_new : Z -> (CacheKey -> CachedResponse -> option Z) -> DnsCache;
  moka_get : DnsCache -> Z -> CacheKey -> DnsCache * option CachedResponse;
  moka_insert : DnsCache -> Z -> CacheKey -> CachedResponse -> DnsCache;
  moka_try_get_with : forall S, DnsCache -> Z -> CacheKey ->
    (S -> S * result error CachedResponse) -> S ->
    DnsCache * S * result error CachedResponse;
  moka_entry_count : DnsCache -> Z;
  (* ghost: what may still be served, with its deadline *)
  moka_entries : DnsCache -> gmap CacheKey (CachedResponse * option Z);
  moka_expiry : DnsCache -> CacheKey -> CachedResponse -> option Z;
}.

(** An entry is live until its deadline. *)
Definition live (now : Z) (deadline : option Z) : Prop :=
  match deadline with Some d => now < d | None => True end.

Definition deadline `{Moka} (c : DnsCache) (now : Z) (k : CacheKey) (v : CachedResponse) : option Z :=
  (fun ttl => now + ttl) <$> moka_expiry c k v.

(** [moka]'s documentation: an entry is served until the policy expires it or
    it is evicted (so the contents may always shrink), and [try_get_with]
    either serves a live entry or evaluates [init] once and stores its [Ok]. *)
Class MokaLaws (M : Moka) : Prop := {
  moka_new_entries n e : moka_entries (moka_new n e) = ∅;
  moka_new_expiry n e : moka_expiry (moka_new n e) = e;
  moka_get_spec c now k c' o :
    moka_get c now k = (c', o) ->
    moka_entries c' ⊆ moka_entries c /\ moka_expiry c' = moka_expiry c /\
    (forall v, o = Some v -> exists d, moka_entries c !! k = Some (v, d) /\ live now d);
  moka_insert_spec c now k v :
    moka_entries (moka_insert c now k v) ⊆ <[k := (v, deadline c now k v)]> (moka_entries c) /\
    moka_expiry (moka_insert c now k v) = moka_expiry c;
  moka_try_get_with_spec S c now k (init : S -> S * result error CachedResponse) s c' s' r :
    moka_try_get_with S c now k init s = (c', s', r) ->
    moka_expiry c' = moka_expiry c /\
    ((exists v d, moka_entries c !! k = Some (v, d) /\ live now d /\
        s' = s /\ r = Ok v /\ moka_entries c' ⊆ moka_entries c) \/
     ((s', r) = init s /\
        moka_entries c' ⊆
          match r with
          | Ok v => <[k := (v, deadline c now k v)]> (moka_entries c)
          | Err _ => moka_entries c
          end));
}.

(** [build]. *)
Definition build `{Moka} (max_entries : Z) : DnsCache := moka_new max_entries expire_after_create.

(** ** Row codec

    key = rtype (2 bytes, big endian) ++ name bytes;
    value = expires_unix (8) ++ ttl_secs (4) ++ wire. *)

Definition enc_key (k : CacheKey) : bytes := to_be 2 (ck_rtype k) ++ as_bytes (ck_name k).

Definition dec_key (b : bytes) : option CacheKey :=
  if (length b <? 2)%nat then None
  else
    let rtype := from_be (take 2 b) in
    name ← from_utf8 (drop 2 b);
    Some (mk_key name rtype).

Definition enc_val (v : CachedResponse) : bytes :=
  to_be 8 (expires_unix v) ++ to_be 4 (ttl_secs v) ++ wire v.

Definition dec_val (b : bytes) : option CachedResponse :=
  if (length b <? 12)%nat then None
  else
    let expires := from_be (take 8 b) in
    let ttl := from_be (take 4 (drop 8 b)) in
    Some (mk_cached (drop 12 b) ttl expires).

(** ** The durable store ([redb]) *)

Class Redb := {
  Disk : Type;   (* a database file nobody has open *)
  Database : Type;
  WriteTransaction : Type;
  ReadTransaction : Type;
  db_create : rstring -> Disk -> result error Database;
  begin_write : Database -> result error WriteTransaction;
  w_open_table : WriteTransaction -> result error WriteTransaction;
  w_insert : bytes -> bytes -> WriteTransaction -> result error WriteTransaction;
  w_remove : bytes -> WriteTransaction -> result error WriteTransaction;
  commit : WriteTransaction -> Database -> Database * result error unit;
  begin_read : Database -> result error ReadTransaction;
  r_open_table : ReadTransaction -> result error ReadTransaction;
  r_iter : ReadTransaction -> result error (list (result error (bytes * bytes)));
  (* ghost: the rows in the file, the committed rows, and the rows a transaction
     sees *)
  disk_rows : Disk -> gmap bytes bytes;
  rows : Database -> gmap bytes bytes;
  w_rows : WriteTransaction -> gmap bytes bytes;
  r_rows : ReadTransaction -> gmap bytes bytes;
}.

(** ACID transactions over one table of byte rows; [create] opens the file that
    is there, with the rows that were committed to it. *)
Class RedbLaws (R : Redb) : Prop := {
  db_create_rows p d db : db_create p d = Ok db -> rows db = disk_rows d;
  begin_write_rows db w : begin_write db = Ok w -> w_rows w = rows db;
  w_open_rows w w' : w_open_table w = Ok w' -> w_rows w' = w_rows w;
  w_insert_rows k v w w' : w_insert k v w = Ok w' -> w_rows w' = <[k := v]> (w_rows w);
  w_remove_rows k w w' : w_remove k w = Ok w' -> w_rows w' = delete k (w_rows w);
  commit_rows w db db' r :
    commit w db = (db', r) -> rows db' = if is_ok r then w_rows w else rows db;
  begin_read_rows db t : begin_read db = Ok t -> r_rows t = rows db;
  r_open_rows t t' : r_open_table t = Ok t' -> r_rows t' = r_rows t;
  r_iter_rows t rs kvs :
    r_iter t = Ok rs -> rs = Ok <$> kvs -> kvs ≡ₚ map_to_list (r_rows t);
}.

Section Store.
Context `{R : Redb}.

(** [Store::open]; [disk] is the file at [path], empty if there is none. *)
Definition store_open (path : rstring) (disk : Disk) : result error Database :=
  db ← db_create path disk;
  w ← begin_write db;
  w ← w_open_table w;
  let '(db', r) := commit w db in
  _ ← r; Ok db'.

(** The [for] loop of [write_batch]. *)
Fixpoint insert_all (items : list (CacheKey * CachedResponse)) (t : WriteTransaction) :
    result error WriteTransaction :=
  match items with
  | [] => Ok t
  | (k, v) :: items' => t' ← w_insert (enc_key k) (enc_val v) t; insert_all items' t'
  end.

(** [Store::write_batch]. *)
Definition write_batch (items : list (CacheKey * CachedResponse)) : io Database error unit :=
  fun db =>
    (w ← lift (begin_write db);
     t ← lift (w_open_table w);
     t ← lift (insert_all items t);
     commit t) db.

(** The row loop of [read_all_valid]. *)
Fixpoint valid_rows (now : Z) (rs : list (result error (bytes * bytes))) :
    result error (list (CacheKey * CachedResponse)) :=
  match rs with
  | [] => Ok []
  | row :: rs' =>
    '(k, v) ← row;
    out ← valid_rows now rs';
    match dec_key k, dec_val v with
    | Some key, Some val =>
      if now <? expires_unix val
      then Ok ((key, mk_cached (wire val) (as_u 32 (expires_unix val - now)) (expires_unix val)) :: out)
      else Ok out
    | _, _ => Ok out
    end
  end.

(** [Store::read_all_valid]. *)
Definition read_all_valid (now : Z) (db : Database) :
    result error (list (CacheKey * CachedResponse)) :=
  r ← begin_read db;
  match r_open_table r with
  | Err _ => Ok []
  | Ok t => rs ← r_iter t; valid_rows now rs
  end.

(** The row loop of [purge_expired]. *)
Fixpoint expired_keys (now : Z) (rs : list (result error (bytes * bytes))) :
    result error (list bytes) :=
  match rs with
  | [] => Ok []
  | row :: rs' =>
    '(k, v) ← row;
    out ← expired_keys now rs';
    match dec_val v with
    | Some val => if expires_unix val <=? now then Ok (k :: out) else Ok out
    | None => Ok out
    end
  end.

(** The read transaction of [purge_expired]. *)
Definition purge_scan (now : Z) (db : Database) : result error (list bytes) :=
  r ← begin_read db;
  t ← r_open_table r;
  rs ← r_iter t;
  expired_keys now rs.

Fixpoint remove_all (ks : list bytes) (t : WriteTransaction) : result error WriteTransaction :=
  match ks with
  | [] => Ok t
  | k :: ks' => t' ← w_remove k t; remove_all ks' t'
  end.

(** The write transaction of [purge_expired], a separate one: other writers
    may commit in between. *)
Definition purge_delete (expired : list bytes) : io Database error Z := fun db =>
  if bool_decide (expired = []) then (db, Ok 0)
  else
    (w ← lift (begin_write db);
     t ← lift (w_open_table w);
     t ← lift (remove_all expired t);
     _ ← commit t;
     mret (Z.of_nat (length expired))) db.

(** [Store::purge_expired]. *)
Definition purge_expired (now : Z) : io Database error Z := fun db =>
  (expired ← lift (purge_scan now db); purge_delete expired) db.
End Store.

(** ** The write-behind task *)

Definition PERSIST_CHANNEL_CAP : Z := 100000.
Definition BATCH_MAX : nat := 256.

(** What [select!] delivers: an item, the end of the channel, or a tick. *)
Inductive writer_event :=
| Item (item : CacheKey * CachedResponse)
| Closed
| Tick.

Record Writer `{Redb} := mk_writer {
  w_db : Database;
  w_buf : list (CacheKey * CachedResponse);
  w_done : bool;
}.

Section Writer.
Context `{R : Redb}.

(** [flush]: the buffer is taken before the write, so a failed batch is
    dropped; errors are only logged. *)
Definition flush (w : Writer) : Writer :=
  if bool_decide (w_buf w = []) then w
  else
    let batch := w_buf w in
    let '(db', _) := write_batch batch (w_db w) in
    mk_writer _ db' [] (w_done w).

(** One turn of the loop of [run_writer]. *)
Definition writer_step (w : Writer) (ev : writer_event) : Writer :=
  if w_done w then w
  else match ev with
       | Item item =>
         let w' := mk_writer _ (w_db w) (w_buf w ++ [item]) false in
         if (BATCH_MAX <=? length (w_buf w'))%nat then flush w' else w'
       | Closed => let w' := flush w in mk_writer _ (w_db w') (w_buf w') true
       | Tick => flush w
       end.

Definition run_writer (db : Database) (evs : list writer_event) : Writer :=
  foldl writer_step (mk_writer _ db [] false) evs.
End Writer.

(** The period of the flush timer in milliseconds. *)
Definition flush_period (flush_ms : Z) : Z := Z.max flush_ms 50.

(** ** Codec lemmas *)

Lemma take_to_be n z l : take n (to_be n z ++ l) = to_be n z.
Proof. apply take_app_length'. by rewrite length_to_be. Qed.
Lemma drop_to_be n z l : drop n (to_be n z ++ l) = l.
Proof. apply drop_app_length'. by rewrite length_to_be. Qed.

Lemma to_from_be_take n l : (n <= length l)%nat -> to_be n (from_be (take n l)) = take n l.
Proof.
  intros H. rewrite <-(to_from_be (take n l)) at 2. by rewrite length_take_le.
Qed.

Lemma from_be_take_bound n l : (n <= length l)%nat -> is_u (8 * Z.of_nat n) (from_be (take n l)).
Proof.
  intros H. pose proof (from_be_bound (take n l)) as B. by rewrite length_take_le in B.
Qed.

Lemma dec_enc_key k : key_wf k -> dec_key (enc_key k) = Some k.
Proof.
  intros [Hn Hr]. unfold dec_key, enc_key. rewrite length_app, length_to_be.
  destruct (Nat.ltb_spec (2 + length (as_bytes (ck_name k))) 2); [lia|].
  rewrite take_to_be, drop_to_be, from_to_be_id, from_utf8_as_bytes by done.
  by destruct k.
Qed.

Lemma enc_dec_key b k : dec_key b = Some k -> key_wf k /\ enc_key k = b.
Proof.
  unfold dec_key, enc_key. destruct (Nat.ltb_spec (length b) 2); [done|].
  destruct (from_utf8 (drop 2 b)) as [n|] eqn:E; [|done]. intros [= <-].
  apply from_utf8_Some in E as [Hv E]. split; [split; [done|]|]; cbn [ck_name ck_rtype].
  - by apply from_be_take_bound.
  - by rewrite to_from_be_take, E, take_drop.
Qed.

Lemma dec_enc_val v : cached_wf v -> dec_val (enc_val v) = Some v.
Proof.
  intros [Ht He]. unfold dec_val, enc_val. rewrite !length_app, !length_to_be.
  destruct (Nat.ltb_spec (8 + (4 + length (wire v))) 12); [lia|].
  change 12%nat with (8 + 4)%nat. rewrite <-drop_drop, !take_to_be, !drop_to_be, take_to_be.
  rewrite !from_to_be_id by done. by destruct v.
Qed.

Lemma enc_dec_val b v : dec_val b = Some v -> cached_wf v /\ enc_val v = b.
Proof.
  unfold dec_val, enc_val. destruct (Nat.ltb_spec (length b) 12); [done|]. intros [= <-].
  split; [split|]; cbn [ttl_secs expires_unix wire].
  - apply (from_be_take_bound 4). rewrite length_drop. lia.
  - apply (from_be_take_bound 8). lia.
  - rewrite !to_from_be_take by (rewrite ?length_drop; lia).
    change 12%nat with (8 + 4)%nat. by rewrite <-drop_drop, take_drop, take_drop.
Qed.

Lemma enc_key_inj k k' : key_wf k -> key_wf k' -> enc_key k = enc_key k' -> k = k'.
Proof.
  intros Hk Hk' E. apply (f_equal dec_key) in E. rewrite !dec_enc_key in E by done.
  by injection E.
Qed.

(** ** Store lemmas *)

(** The rows a batch of items leaves, later items overwriting earlier ones. *)
Definition insert_rows (items : list (CacheKey * CachedResponse)) (m : gmap bytes bytes) :
    gmap bytes bytes :=
  foldl (fun m '(k, v) => <[enc_key k := enc_val v]> m) m items.

Lemma insert_rows_app l1 l2 m : insert_rows (l1 ++ l2) m = insert_rows l2 (insert_rows l1 m).
Proof. apply foldl_app. Qed.

(** A row is expired when its value decodes to a passed expiry. *)
Definition row_expired (now : Z) (v : bytes) : bool :=
  match dec_val v with Some val => expires_unix val <=? now | None => false end.

(** What a row loads as. *)
Definition load_row (now : Z) (kv : bytes * bytes) : option (CacheKey * CachedResponse) :=
  match dec_key kv.1, dec_val kv.2 with
  | Some key, Some val =>
    if now <? expires_unix val
    then Some (key, mk_cached (wire val) (as_u 32 (expires_unix val - now)) (expires_unix val))
    else None
  | _, _ => None
  end.

Lemma load_row_expired now kv x : load_row now kv = Some x -> row_expired now kv.2 = false.
Proof.
  unfold load_row, row_expired. destruct (dec_key _), (dec_val _); try done.
  destruct (Z.ltb_spec now (expires_unix c0)); [|done]. intros _. apply Z.leb_gt. lia.
Qed.

(** A row that loads is well formed. *)
Lemma load_row_wf now kb vb k v : load_row now (kb, vb) = Some (k, v) -> key_wf k /\ cached_wf v.
Proof.
  unfold load_row. cbn [fst snd]. destruct (dec_key kb) as [key|] eqn:Ek; [|done].
  destruct (dec_val vb) as [val|] eqn:Ev; [|done]. destruct (_ <? _); [|done]. intros [= <- <-].
  apply enc_dec_key in Ek as [Hk _]. apply enc_dec_val in Ev as [[Ht He] _].
  split; [done|]. split; [by apply as_u_is_u|done].
Qed.

Section StoreLemmas.
Context `{R : Redb} {RL : RedbLaws R}.

Lemma insert_all_rows items t t' :
  insert_all items t = Ok t' -> w_rows t' = insert_rows items (w_rows t).
Proof using RL.
  revert t. induction items as [|[k v] items IH]; intros t; simpl; [by intros [= ->]|].
  destruct (w_insert _ _ t) as [t1|] eqn:E; [|done]. intros H%IH.
  by rewrite H, (w_insert_rows _ _ _ _ E).
Qed.

Lemma remove_all_rows ks t t' :
  remove_all ks t = Ok t' -> forall k, w_rows t' !! k = if decide (k ∈ ks) then None else w_rows t !! k.
Proof using RL.
  revert t. induction ks as [|x ks IH]; intros t; cbn [remove_all mbind result_bind].
  { intros [= ->] k. case_decide as Hk; [by apply not_elem_of_nil in Hk|done]. }
  destruct (w_remove x t) as [t1|] eqn:E; [|done]. intros H k.
  rewrite (IH _ H), (w_remove_rows _ _ _ E), lookup_delete.
  repeat case_decide; set_solver.
Qed.

Lemma write_batch_rows items db db' r :
  write_batch items db = (db', r) ->
  rows db' = if is_ok r then insert_rows items (rows db) else rows db.
Proof using RL.
  unfold write_batch. cbv [mbind io_bind lift].
  destruct (begin_write db) as [w|] eqn:E1; [|by intros [= <- <-]].
  destruct (w_open_table w) as [t|] eqn:E2; [|by intros [= <- <-]].
  destruct (insert_all items t) as [t'|] eqn:E3; [|by intros [= <- <-]].
  intros E4. rewrite (commit_rows _ _ _ _ E4), (insert_all_rows _ _ _ E3).
  by rewrite (w_open_rows _ _ E2), (begin_write_rows _ _ E1).
Qed.

(** Reading a table that iterates without errors. *)
Lemma valid_rows_Ok now rs out :
  valid_rows now rs = Ok out -> exists kvs, rs = Ok <$> kvs /\ out = omap (load_row now) kvs.
Proof.
  revert out. induction rs as [|[[k v]|e] rs IH]; intros out; cbn [valid_rows mbind result_bind];
    [intros [= <-]; by exists []| |done].
  destruct (valid_rows now rs) as [out'|]; [|done].
  destruct (IH _ eq_refl) as (kvs & -> & ->). intros H. exists ((k, v) :: kvs).
  split; [done|]. cbn [omap list_omap]. unfold load_row at 1. cbn [fst snd].
  destruct (dec_key k), (dec_val v); try by injection H as <-.
  by destruct (now <? _); injection H as <-.
Qed.

Lemma expired_keys_Ok now rs out :
  expired_keys now rs = Ok out ->
  exists kvs, rs = Ok <$> kvs /\
    out = omap (fun kv => if row_expired now kv.2 then Some kv.1 else None) kvs.
Proof.
  revert out. induction rs as [|[[k v]|e] rs IH]; intros out; cbn [expired_keys mbind result_bind];
    [intros [= <-]; by exists []| |done].
  destruct (expired_keys now rs) as [out'|]; [|done].
  destruct (IH _ eq_refl) as (kvs & -> & ->). intros H. exists ((k, v) :: kvs).
  split; [done|]. cbn [omap list_omap]. unfold row_expired at 1. cbn [fst snd].
  destruct (dec_val v); [|by injection H as <-].
  by destruct (_ <=? now); injection H as <-.
Qed.

(** A store whose table opens for reading. *)
Definition readable (db : Database) : Prop :=
  exists r t, begin_read db = Ok r /\ r_open_table r = Ok t.

Lemma read_all_valid_elem now db out x :
  readable db -> read_all_valid now db = Ok out ->
  x ∈ out <-> exists k v, rows db !! k = Some v /\ load_row now (k, v) = Some x.
Proof using RL.
  intros (r & t & Er & Et). unfold read_all_valid. rewrite Er. cbn [mbind result_bind].
  rewrite Et. destruct (r_iter t) as [rs|] eqn:Ei; [|done]. cbn [mbind result_bind].
  intros (kvs & E & ->)%valid_rows_Ok. pose proof (r_iter_rows _ _ _ Ei E) as Hp.
  rewrite (r_open_rows _ _ Et), (begin_read_rows _ _ Er) in Hp.
  rewrite list_elem_of_omap. split.
  - intros ([k v] & Hin & Hl). rewrite Hp in Hin. apply elem_of_map_to_list in Hin. eauto.
  - intros (k & v & Hin & Hl). exists (k, v). rewrite Hp. by rewrite elem_of_map_to_list.
Qed.

Lemma purge_scan_elem now db ks k :
  purge_scan now db = Ok ks ->
  k ∈ ks <-> exists v, rows db !! k = Some v /\ row_expired now v = true.
Proof using RL.
  unfold purge_scan. destruct (begin_read db) as [r|] eqn:Er; [|done]. cbn [mbind result_bind].
  destruct (r_open_table r) as [t|] eqn:Et; [|done]. cbn [mbind result_bind].
  destruct (r_iter t) as [rs|] eqn:Ei; [|done]. cbn [mbind result_bind].
  intros (kvs & E & ->)%expired_keys_Ok. pose proof (r_iter_rows _ _ _ Ei E) as Hp.
  rewrite (r_open_rows _ _ Et), (begin_read_rows _ _ Er) in Hp.
  rewrite list_elem_of_omap. split.
  - intros ([k' v] & Hin & Hl). rewrite Hp, elem_of_map_to_list in Hin. cbn [fst snd] in Hl.
    destruct (row_expired now v) eqn:?; [|done]. injection Hl as ->. eauto.
  - intros (v & Hin & Hl). exists (k, v). rewrite Hp, elem_of_map_to_list. cbn [fst snd].
    by rewrite Hl.
Qed.

(** Opening a store keeps its rows. *)
Lemma store_open_rows path disk db : store_open path disk = Ok db -> rows db = disk_rows disk.
Proof.
  unfold store_open. cbv [mbind result_bind]. destruct (db_create path disk) as [db0|] eqn:E0; [|done].
  destruct (begin_write db0) as [w|] eqn:E1; [|done]. destruct (w_open_table w) as [t|] eqn:E2; [|done].
  destruct (commit t db0) as [db1 [[]|e]] eqn:E3; [|done]. intros [= <-].
  rewrite (commit_rows _ _ _ _ E3). cbn [is_ok].
  by rewrite (w_open_rows _ _ E2), (begin_write_rows _ _ E1), (db_create_rows _ _ _ E0).
Qed.

Lemma purge_delete_rows ks db db' r :
  purge_delete ks db = (db', r) ->
  forall k, rows db' !! k = if is_ok r && bool_decide (k ∈ ks) then None else rows db !! k.
Proof using RL.
  unfold purge_delete. case_bool_decide as Hnil.
  { intros [= <- <-] k. subst. 
    case_bool_decide as Hk; [by apply not_elem_of_nil in Hk|done]. }
  cbv [mbind io_bind lift mret io_ret].
  destruct (begin_write db) as [w|] eqn:E1; [|by intros [= <- <-]].
  destruct (w_open_table w) as [t|] eqn:E2; [|by intros [= <- <-]].
  destruct (remove_all ks t) as [t'|] eqn:E3; [|by intros [= <- <-]].
  destruct (commit t' db) as [db1 r1] eqn:E4. pose proof (commit_rows _ _ _ _ E4) as Hc.
  destruct r1 as [[]|e]; intros [= <- <-] k; rewrite Hc; [|done]. cbn [is_ok andb].
  rewrite (remove_all_rows _ _ _ E3), (w_open_rows _ _ E2), (begin_write_rows _ _ E1).
  case_decide; [by rewrite bool_decide_eq_true_2|by rewrite bool_decide_eq_false_2].
Qed.
End StoreLemmas.

(** ** Write-behind lemmas *)

(** The items delivered before the channel closes. *)
Fixpoint items_of (evs : list writer_event) : list (CacheKey * CachedResponse) :=
  match evs with
  | [] => []
  | Item x :: evs' => x :: items_of evs'
  | Closed :: _ => []
  | Tick :: evs' => items_of evs'
  end.

Section WriterLemmas.
Context `{R : Redb} {RL : RedbLaws R}.

(** What happens to the store after it is opened: batches and purges. *)
Inductive store_op := Wrote (items : list (CacheKey * CachedResponse)) | Purged (ks : list bytes).

Definition apply_op (db : Database) (op : store_op) : Database :=
  match op with Wrote items => (write_batch items db).1 | Purged ks => (purge_delete ks db).1 end.

Definition op_items (op : store_op) : list (CacheKey * CachedResponse) :=
  match op with Wrote items => items | Purged _ => [] end.

Definition op_purge (op : store_op) : list (list bytes) :=
  match op with Wrote _ => [] | Purged ks => [ks] end.

(** A batch is neither empty nor too long. *)
Definition op_ok (op : store_op) : Prop :=
  match op with Wrote items => (0 < length items <= BATCH_MAX)%nat | Purged _ => True end.

(** The store is what [db0] became by the purges that were made and by batches
    which, with what is in the buffer, are the items received, in order. *)
Definition history (db0 db : Database) (purged : list (list bytes)) (items : list (CacheKey * CachedResponse)) : Prop :=
  exists ops, db = foldl apply_op db0 ops /\ Forall op_ok ops /\ ops ≫= op_purge = purged /\
    ops ≫= op_items = items.

Definition written (db0 : Database) (w : Writer) (purged : list (list bytes))
    (received : list (CacheKey * CachedResponse)) : Prop :=
  (length (w_buf w) < BATCH_MAX)%nat /\
  exists items, history db0 (w_db w) purged items /\ items ++ w_buf w = received.

Lemma history_snoc db0 db purged items op :
  op_ok op -> history db0 db purged items ->
  history db0 (apply_op db op) (purged ++ op_purge op) (items ++ op_items op).
Proof.
  intros Hop (ops & -> & Hok & <- & <-). exists (ops ++ [op]). rewrite foldl_app, !bind_app. split; [done|].
  split; [apply Forall_app; split; [done|by apply Forall_singleton]|].
  cbn [mbind list_bind]. by rewrite !app_nil_r.
Qed.

Lemma written_flush db0 w purged items :
  (length (w_buf w) <= BATCH_MAX)%nat -> history db0 (w_db w) purged items ->
  written db0 (flush w) purged (items ++ w_buf w).
Proof.
  intros Hl Hh. unfold flush. case_bool_decide as Hb.
  { split; [rewrite Hb; unfold BATCH_MAX; simpl; lia|by exists items]. }
  destruct (write_batch (w_buf w) (w_db w)) as [db' r] eqn:E. split; [unfold BATCH_MAX; simpl; lia|].
  exists (items ++ w_buf w). cbn [w_db w_buf]. split; [|by rewrite app_nil_r].
  apply (history_snoc _ _ _ _ (Wrote (w_buf w))) in Hh.
  - cbn [apply_op op_purge op_items] in Hh. by rewrite E, app_nil_r in Hh.
  - cbn [op_ok]. split; [|done]. destruct (w_buf w); [done|simpl; lia].
Qed.

Lemma written_purge db0 w purged received ks db' r :
  purge_delete ks (w_db w) = (db', r) -> written db0 w purged received ->
  written db0 (mk_writer _ db' (w_buf w) (w_done w)) (purged ++ [ks]) received.
Proof.
  intros Hp [Hl (items & Hh & Hi)]. split; [done|]. exists items. split; [|done].
  apply (history_snoc _ _ _ _ (Purged ks)) in Hh; [|done].
  cbn [apply_op op_purge op_items] in Hh. by rewrite Hp, app_nil_r in Hh.
Qed.

Lemma written_step db0 w purged received ev :
  w_done w = false -> written db0 w purged received ->
  match ev with
  | Item x => written db0 (writer_step w ev) purged (received ++ [x])
  | Closed | Tick => written db0 (writer_step w ev) purged received
  end.
Proof.
  intros Hd [Hl (items & Hh & <-)]. unfold writer_step. rewrite Hd. destruct ev as [x| |]; cbv zeta.
  - rewrite <-(assoc_L (++)). cbn [w_buf]. destruct (Nat.leb_spec BATCH_MAX (length (w_buf w ++ [x]))).
    + apply (written_flush _ (mk_writer _ (w_db w) (w_buf w ++ [x]) false)); [|done].
      cbn [w_buf]. rewrite length_app. simpl. lia.
    + split; [done|]. by exists items.
  - apply (written_flush db0 w purged items); [lia|done].
  - by apply written_flush; [lia|].
Qed.

Lemma flush_small w : (length (w_buf w) < BATCH_MAX)%nat -> (length (w_buf (flush w)) < BATCH_MAX)%nat.
Proof.
  unfold flush. case_bool_decide; [done|]. intros _.
  destruct (write_batch _ _). simpl. unfold BATCH_MAX. lia.
Qed.

Lemma flush_empties w : w_buf (flush w) = [].
Proof.
  unfold flush. case_bool_decide; [done|]. by destruct (write_batch _ _).
Qed.

Lemma writer_step_small w ev :
  (length (w_buf w) < BATCH_MAX)%nat -> (length (w_buf (writer_step w ev)) < BATCH_MAX)%nat.
Proof.
  intros H. unfold writer_step. destruct (w_done w); [done|]. destruct ev as [x| |].
  - destruct (Nat.leb_spec BATCH_MAX (length (w_buf (mk_writer _ (w_db w) (w_buf w ++ [x]) false)))) as [|Hlt].
    + rewrite flush_empties. unfold BATCH_MAX. simpl. lia.
    + exact Hlt.
  - cbn [w_buf]. by apply flush_small.
  - by apply flush_small.
Qed.

(** A task that is done stays as it is; it is done only after a flush. *)
Lemma writer_done_stop evs w : w_done w = true -> foldl writer_step w evs = w.
Proof.
  revert w. induction evs as [|ev evs IH]; intros w Hw; [done|]. cbn [foldl].
  unfold writer_step at 2. rewrite Hw. by apply IH.
Qed.

Lemma writer_done_empty evs w :
  (w_done w = true -> w_buf w = []) ->
  w_done (foldl writer_step w evs) = true -> w_buf (foldl writer_step w evs) = [].
Proof.
  revert w. induction evs as [|ev evs IH]; intros w Hw; [done|]. cbn [foldl]. apply IH.
  unfold writer_step. destruct (w_done w) eqn:Hd; [auto|].
  destruct ev as [x| |]; try (intros _; apply flush_empties).
  destruct (BATCH_MAX <=? _)%nat; [intros _; apply flush_empties|done].
Qed.

(** A predicate on rows that holds of the table and of every item sent holds of
    the table the task leaves, whichever writes fail. *)
Definition rows_inv (P : bytes -> bytes -> Prop) (m : gmap bytes bytes) : Prop :=
  forall kb vb, m !! kb = Some vb -> P kb vb.

Lemma insert_rows_inv P items m :
  rows_inv P m -> (forall k v, (k, v) ∈ items -> P (enc_key k) (enc_val v)) ->
  rows_inv P (insert_rows items m).
Proof.
  revert m. induction items as [|[k v] items IH]; intros m Hm Hi; [done|].
  apply IH; [|intros; apply Hi; by right].
  intros kb vb [[<- <-]|[_ Hk]]%lookup_insert_Some; [apply Hi; left|by apply Hm].
Qed.

Definition writer_inv (P : bytes -> bytes -> Prop) (w : Writer) : Prop :=
  rows_inv P (rows (w_db w)) /\ forall k v, (k, v) ∈ w_buf w -> P (enc_key k) (enc_val v).

Lemma flush_inv P w : writer_inv P w -> writer_inv P (flush w).
Proof using RL.
  intros [Hr Hb]. unfold flush. case_bool_decide; [done|].
  destruct (write_batch (w_buf w) (w_db w)) as [db' r] eqn:E. apply write_batch_rows in E.
  split; cbn [w_db w_buf].
  - rewrite E. destruct (is_ok r); [|done]. by apply insert_rows_inv.
  - intros k v Hin. by apply elem_of_nil in Hin.
Qed.

Lemma writer_run_inv P evs w :
  writer_inv P w -> (forall k v, (k, v) ∈ items_of evs -> P (enc_key k) (enc_val v)) ->
  writer_inv P (foldl writer_step w evs).
Proof using RL.
  revert w. induction evs as [|ev evs IH]; intros w Hw Hi; [done|].
  destruct (w_done w) eqn:Hd; [by rewrite writer_done_stop|]. cbn [foldl].
  unfold writer_step at 2. rewrite Hd. destruct ev as [x| |]; cbn [items_of] in Hi.
  - apply IH; [|intros k v Hin; apply Hi; by right].
    assert (writer_inv P (mk_writer _ (w_db w) (w_buf w ++ [x]) false)) as Hx.
    { destruct Hw as [Hr Hb]. split; [done|]. cbn [w_buf].
      intros k v [Hin|Hin%list_elem_of_singleton]%elem_of_app; [by apply Hb|].
      apply Hi. rewrite <-Hin. left. }
    cbv zeta. destruct (BATCH_MAX <=? _)%nat; [by apply flush_inv|done].
  - rewrite writer_done_stop by done. destruct (flush_inv P w Hw) as [Hr Hb]. by split.
  - apply IH; [by apply flush_inv|done].
Qed.

(** What the store will hold once the buffer is out. *)
Definition pending_rows (w : Writer) : gmap bytes bytes := insert_rows (w_buf w) (rows (w_db w)).

Section NoFailure.
Context (Hwrite : forall items db, exists db', write_batch items db = (db', Ok tt)).

Lemma flush_rows w : rows (w_db (flush w)) = pending_rows w.
Proof using RL Hwrite.
  unfold flush, pending_rows. case_bool_decide as E; [by rewrite E|].
  destruct (Hwrite (w_buf w) (w_db w)) as [db' Hdb]. rewrite Hdb. simpl.
  by rewrite (write_batch_rows _ _ _ _ Hdb).
Qed.

Lemma flush_pending w : pending_rows (flush w) = pending_rows w.
Proof using RL Hwrite. unfold pending_rows at 1. by rewrite flush_empties, flush_rows. Qed.

Lemma flush_done w : w_done (flush w) = w_done w.
Proof. unfold flush. case_bool_decide; [done|]. by destruct (write_batch _ _). Qed.

Lemma writer_run_pending evs w :
  w_done w = false ->
  pending_rows (foldl writer_step w evs) = insert_rows (items_of evs) (pending_rows w).
Proof using RL Hwrite.
  revert w. induction evs as [|ev evs IH]; intros w Hd; [done|]. cbn [foldl].
  unfold writer_step at 2. rewrite Hd. destruct ev as [x| |]; cbn [items_of].
  - set (w' := mk_writer _ _ _ _).
    assert (pending_rows w' = insert_rows [x] (pending_rows w)) as Ew by apply insert_rows_app.
    destruct (BATCH_MAX <=? length (w_buf w'))%nat.
    + rewrite IH by apply flush_done. by rewrite flush_pending, Ew.
    + rewrite IH by done. by rewrite Ew.
  - rewrite writer_done_stop by done. unfold pending_rows at 1. cbn [w_buf w_db].
    by rewrite flush_empties, flush_rows.
  - rewrite IH by (by rewrite flush_done). by rewrite flush_pending.
Qed.
End NoFailure.
End WriterLemmas.

(** ** An in-memory database for the worked examples *)

Module MemDb.
(** A database is its table, in the file and open. *)
Instance redb : Redb := {|
  Disk := gmap bytes bytes;
  Database := gmap bytes bytes;
  WriteTransaction := gmap bytes bytes;
  ReadTransaction := gmap bytes bytes;
  db_create _ m := Ok m;
  begin_write m := Ok m;
  w_open_table m := Ok m;
  w_insert k v m := Ok (<[k := v]> m);
  w_remove k m := Ok (delete k m);
  commit m _ := (m, Ok tt);
  begin_read m := Ok m;
  r_open_table m := Ok m;
  r_iter m := Ok (Ok <$> map_to_list m);
  disk_rows m := m;
  rows m := m;
  w_rows m := m;
  r_rows m := m;
|}.

Lemma memdb_laws : RedbLaws redb.
Proof.
  split; simpl; try by intros; simplify_eq.
  intros t rs kvs Hrs E. assert (Ok <$> map_to_list t = Ok (E := error) <$> kvs) as E' by congruence.
  apply list_fmap_eq_inj in E' as ->; [done|]. by intros ?? [=].
Qed.

Lemma never_fails items (db : Database) : exists db', write_batch items db = (db', Ok tt).
Proof.
  unfold write_batch. cbv [mbind io_bind lift]. simpl.
  assert (forall m, exists m', insert_all (R := redb) items m = Ok m') as H.
  { induction items as [|[k v] items IH]; intros m; simpl; [eauto|]. apply IH. }
  destruct (H db) as [m' ->]. eauto.
Qed.
End MemDb.

(** ** An unbounded cache for the worked examples *)

Module MemCache.
Definition lookup_live (m : gmap CacheKey (CachedResponse * option Z)) (now : Z) (k : CacheKey) :
    option CachedResponse :=
  '(v, d) ← m !! k;
  match d with Some t => if now <? t then Some v else None | None => Some v end.

Definition store (e : CacheKey -> CachedResponse -> option Z) (m : gmap CacheKey (CachedResponse * option Z))
    (now : Z) (k : CacheKey) (v : CachedResponse) : gmap CacheKey (CachedResponse * option Z) :=
  <[k := (v, (fun ttl => now + ttl) <$> e k v)]> m.

Instance moka : Moka := {|
  DnsCache := gmap CacheKey (CachedResponse * option Z) * (CacheKey -> CachedResponse -> option Z);
  moka_new _ e := (∅, e);
  moka_get '(m, e) now k := ((m, e), lookup_live m now k);
  moka_insert '(m, e) now k v := (store e m now k v, e);
  moka_try_get_with S '(m, e) now k init s :=
    match lookup_live m now k with
    | Some v => ((m, e), s, Ok v)
    | None => match init s with
              | (s', Ok v) => ((store e m now k v, e), s', Ok v)
              | (s', Err x) => ((m, e), s', Err x)
              end
    end;
  moka_entry_count '(m, _) := Z.of_nat (size m);
  moka_entries := fst;
  moka_expiry := snd;
|}.

Lemma lookup_live_Some m now k v :
  lookup_live m now k = Some v -> exists d, m !! k = Some (v, d) /\ live now d.
Proof.
  unfold lookup_live, live. destruct (m !! k) as [[v' [t|]]|]; cbn [mbind option_bind]; [| |done].
  - destruct (Z.ltb_spec now t); [|done]. intros [= <-]. by exists (Some t).
  - intros [= <-]. by exists None.
Qed.

Lemma memcache_laws : MokaLaws moka.
Proof.
  split; try done.
  - intros [m e] now k c' o. cbn [moka_get moka]. intros [= <- <-]. split; [done|]. split; [done|].
    intros v Hv. by apply lookup_live_Some.
  - intros [m e] now k v. done.
  - intros S [m e] now k init s c' s' r. cbn [moka_try_get_with moka].
    destruct (lookup_live m now k) as [v|] eqn:E.
    + intros [= <- <- <-]. split; [done|]. left. apply lookup_live_Some in E as (d & ? & ?). eauto 10.
    + destruct (init s) as [s1 [v|x]]; intros [= <- <- <-]; (split; [done|]); right; done.
Qed.
End MemCache.

(** ** Properties *)

(** C20. The row codec: a well-formed key and entry decode to themselves, and
    bytes that decode are the encoding of a well-formed result, so distinct
    keys never share a row. *)
Theorem row_codec_roundtrip k v kb vb :
  (key_wf k -> dec_key (enc_key k) = Some k) /\
  (dec_key kb = Some k -> key_wf k /\ enc_key k = kb) /\
  (cached_wf v -> dec_val (enc_val v) = Some v) /\
  (dec_val vb = Some v -> cached_wf v /\ enc_val v = vb).
Proof.
  split; [apply dec_enc_key|]. split; [apply enc_dec_key|].
  split; [apply dec_enc_val|apply enc_dec_val].
Qed.

(** [write_batch] is all or nothing: after [Ok] every item is in the
    table, the last one for its key winning; after an error the committed rows
    are the old ones, at whichever call it failed. *)
Theorem write_batch_atomic `{R : Redb} {RL : RedbLaws R} items db db' r :
  write_batch items db = (db', r) ->
  rows db' = match r with
             | Ok _ => foldl (fun m '(k, v) => <[enc_key k := enc_val v]> m) (rows db) items
             | Err _ => rows db
             end.
Proof. intros H. rewrite (write_batch_rows _ _ _ _ H). by destruct r. Qed.

Lemma insert_rows_last l1 k v l2 m :
  (forall k' v', (k', v') ∈ l2 -> enc_key k' <> enc_key k) ->
  insert_rows (l1 ++ (k, v) :: l2) m !! enc_key k = Some (enc_val v).
Proof.
  intros H. rewrite insert_rows_app. generalize (insert_rows l1 m) as m1. clear m.
  intros m1. change (insert_rows ((k, v) :: l2) m1) with (insert_rows l2 (<[enc_key k := enc_val v]> m1)).
  assert (<[enc_key k := enc_val v]> m1 !! enc_key k = Some (enc_val v)) as E by apply lookup_insert_eq.
  revert E. generalize (<[enc_key k := enc_val v]> m1) as m2. induction l2 as [|[k' v'] l2 IH]; intros m2 E; [done|].
  apply (IH ltac:(intros ?? ?; eapply H; by right)).
  rewrite lookup_insert_ne; [done|]. eapply H. left.
Qed.

(** C19. Warm restart: when no write fails, an entry handed to the write-behind
    task before its channel closes is loaded back after the restart exactly
    while it has not expired, with the remaining lifetime as its time to live;
    for each key the last entry sent is the one that counts. *)
Theorem persist_reload `{R : Redb} {RL : RedbLaws R} db evs l1 k v l2 now out :
  (forall items db, exists db', write_batch items db = (db', Ok tt)) ->
  items_of evs = l1 ++ (k, v) :: l2 ->
  (forall k' v', (k', v') ∈ items_of evs -> key_wf k' /\ cached_wf v') ->
  (forall v', (k, v') ∉ l2) ->
  let db' := w_db (run_writer db (evs ++ [Closed])) in
  readable db' -> read_all_valid now db' = Ok out ->
  forall v', (k, v') ∈ out <->
    now < expires_unix v /\
    v' = mk_cached (wire v) (as_u 32 (expires_unix v - now)) (expires_unix v).
Proof.
  intros Hw Hitems Hwf Hlast db' Hr Hout v'.
  assert ((k, v) ∈ items_of evs) as Hin by (rewrite Hitems; set_solver).
  destruct (Hwf _ _ Hin) as [Hk Hv].
  assert (rows db' = insert_rows (items_of evs) (rows db)) as Hrows.
  { pose proof (writer_run_pending Hw evs (mk_writer _ db [] false) eq_refl) as Hp.
    change (pending_rows (mk_writer _ db [] false)) with (rows db) in Hp.
    unfold db', run_writer. rewrite foldl_app. cbn [foldl].
    set (w := foldl writer_step _ evs) in *. unfold writer_step.
    destruct (w_done w) eqn:Hd; [|cbn [w_db]; by rewrite flush_rows].
    rewrite <-Hp. unfold pending_rows. unfold w at 2.
    by rewrite writer_done_empty by done. }
  assert (rows db' !! enc_key k = Some (enc_val v)) as Hrow.
  { rewrite Hrows, Hitems. apply insert_rows_last. intros k' v'' Hin' E.
    apply enc_key_inj in E as ->; [by eapply Hlast| |done].
    eapply (Hwf k' v''). rewrite Hitems. set_solver. }
  rewrite (read_all_valid_elem _ _ _ _ Hr Hout). unfold load_row. cbn [fst snd]. split.
  - intros (kb & vb & Hkb & Hl). destruct (dec_key kb) as [key|] eqn:Ek; [|done].
    destruct (dec_val vb) as [val|] eqn:Ev; [|done].
    destruct (Z.ltb_spec now (expires_unix val)); [|done]. injection Hl as -> <-.
    apply enc_dec_key in Ek as [_ <-]. assert (vb = enc_val v) as -> by congruence.
    rewrite dec_enc_val in Ev by done. by injection Ev as <-.
  - intros [Hlt ->]. exists (enc_key k), (enc_val v). split; [done|].
    rewrite dec_enc_key, dec_enc_val by done. by destruct (Z.ltb_spec now (expires_unix v)); [|lia].
Qed.

(** The write-behind buffer is bounded: whatever the task receives, it
    holds fewer than [BATCH_MAX] items after each turn of its loop, also when
    the writes fail, and nothing once it has ended. *)
Theorem writer_buffer_bounded `{R : Redb} db evs :
  (length (w_buf (run_writer db evs)) < BATCH_MAX)%nat /\
  (w_done (run_writer db evs) = true -> w_buf (run_writer db evs) = []).
Proof.
  unfold run_writer. split; [|by apply writer_done_empty].
  assert (length (w_buf (mk_writer _ db [] false)) < BATCH_MAX)%nat as H
    by (unfold BATCH_MAX; simpl; lia).
  revert H. generalize (mk_writer _ db [] false). induction evs as [|ev evs IH]; intros w H; [done|].
  cbn [foldl]. by apply IH, writer_step_small.
Qed.

(** The rows an undisturbed purge leaves. *)
Lemma purge_expired_rows `{R : Redb} {RL : RedbLaws R} now db db' r :
  purge_expired now db = (db', r) ->
  forall k, rows db' !! k = if is_ok r
                            then v ← rows db !! k; if row_expired now v then None else Some v
                            else rows db !! k.
Proof.
  unfold purge_expired. cbv [mbind io_bind lift]. intros H.
  destruct (purge_scan now db) as [ks|e] eqn:Es; [|by injection H as <- <-].
  intros k. rewrite (purge_delete_rows _ _ _ _ H). destruct (is_ok r); [|done]. cbn [andb].
  pose proof (purge_scan_elem _ _ _ k Es) as Hk.
  destruct (rows db !! k) as [v|] eqn:Ev; cbn [mbind option_bind].
  - destruct (row_expired now v) eqn:Ee.
    + rewrite bool_decide_eq_true_2; [done|]. apply Hk. eauto.
    + rewrite bool_decide_eq_false_2; [done|]. intros (v' & [= <-] & ?)%Hk. congruence.
  - by destruct (bool_decide _).
Qed.

(** [purge_expired] without interference: a success removes exactly the
    rows whose value decodes to a passed expiry, so rows that do not decode
    stay, and a reload at that time or later loads the same entries; a failure
    changes nothing. *)
Theorem purge_expired_exact `{R : Redb} {RL : RedbLaws R} now db db' r :
  purge_expired now db = (db', r) ->
  (forall k, rows db' !! k = if is_ok r
                             then v ← rows db !! k; if row_expired now v then None else Some v
                             else rows db !! k) /\
  (forall now' kv x, now <= now' -> load_row now' kv = Some x ->
     rows db' !! kv.1 = Some kv.2 <-> rows db !! kv.1 = Some kv.2).
Proof.
  intros H. pose proof (purge_expired_rows _ _ _ _ H) as Hrows. split; [exact Hrows|]. intros now' [k v] x Hn Hl. cbn [fst snd]. rewrite Hrows.
  destruct (is_ok r); [|done]. destruct (rows db !! k) as [v'|]; cbn [mbind option_bind]; [|done].
  destruct (row_expired now v') eqn:Ee; [|done]. split; [done|]. intros [= ->].
  apply load_row_expired in Hl. cbn [snd] in Hl. unfold row_expired in Ee, Hl.
  destruct (dec_val v) as [val|]; [|done]. apply Z.leb_le in Ee. apply Z.leb_gt in Hl. lia.
Qed.

(** C35. The purge reads and deletes in two transactions.  When the write-behind
    task commits a fresh answer for an expired key between the two, the purge
    deletes the fresh row: it is gone from the store although it has not
    expired. *)
Theorem purge_deletes_fresh_row `{R : Redb} {RL : RedbLaws R} now db ks k v old db1 db2 n :
  key_wf k -> cached_wf v ->
  rows db !! enc_key k = Some old -> row_expired now old = true ->
  purge_scan now db = Ok ks ->
  write_batch [(k, v)] db = (db1, Ok tt) ->
  purge_delete ks db1 = (db2, Ok n) ->
  now < expires_unix v ->
  rows db1 !! enc_key k = Some (enc_val v) /\ row_expired now (enc_val v) = false /\
  rows db2 !! enc_key k = None.
Proof.
  intros Hk Hv Hold Hexp Hs Hw Hd Hlt. split; [|split].
  - rewrite (write_batch_rows _ _ _ _ Hw). apply lookup_insert_eq.
  - unfold row_expired. rewrite dec_enc_val by done. apply Z.leb_gt. lia.
  - rewrite (purge_delete_rows _ _ _ _ Hd). cbn [is_ok andb].
    rewrite bool_decide_eq_true_2; [done|]. apply (purge_scan_elem _ _ _ _ Hs). eauto.
Qed.

(** ** Worked examples *)

Section Witnesses.
#[local] Existing Instance MemDb.redb.

Definition key_a : CacheKey := mk_key (str "a.com") 1.
Definition old_a : CachedResponse := mk_cached [x01; x02] 60 1000.
Definition new_a : CachedResponse := mk_cached [x03; x04] 60 2060.

Lemma key_a_wf : key_wf key_a.
Proof. split; [repeat constructor|vm_compute; split; congruence]. Qed.
Lemma new_a_wf : cached_wf new_a.
Proof. split; vm_compute; split; congruence. Qed.

Lemma row_codec_roundtrip_witness :
  dec_key (enc_key key_a) = Some key_a /\ dec_val (enc_val new_a) = Some new_a.
Proof.
  destruct (row_codec_roundtrip key_a new_a [] []) as (H1 & _ & H2 & _).
  split; [apply H1, key_a_wf|apply H2, new_a_wf].
Defined.

Definition db_new : gmap bytes bytes := {[enc_key key_a := enc_val new_a]}.

Lemma write_batch_atomic_witness :
  rows db_new = foldl (fun m '(k, v) => <[enc_key k := enc_val v]> m) ∅ [(key_a, old_a); (key_a, new_a)].
Proof.
  refine (write_batch_atomic (RL := MemDb.memdb_laws) [(key_a, old_a); (key_a, new_a)] ∅ db_new (Ok tt) _).
  vm_refl.
Defined.

Lemma writer_buffer_bounded_witness : w_buf (run_writer ∅ [Item (key_a, new_a); Closed]) = [].
Proof.
  refine (proj2 (writer_buffer_bounded ∅ [Item (key_a, new_a); Closed]) _). reflexivity.
Defined.

Lemma persist_reload_witness :
  (key_a, mk_cached [x03; x04] 60 2060) ∈ [(key_a, mk_cached [x03; x04] 60 2060)].
Proof.
  refine (proj2 (persist_reload (RL := MemDb.memdb_laws) ∅ [Item (key_a, old_a); Tick; Item (key_a, new_a)]
    [(key_a, old_a)] key_a new_a [] 2000 _ MemDb.never_fails eq_refl _ _ _ _
    (mk_cached [x03; x04] 60 2060)) _).
  - intros k v H. cbn [items_of] in H.
    apply elem_of_cons in H as [[= -> ->]|[[= -> ->]|H%elem_of_nil]%elem_of_cons]; [..|done].
    + split; [apply key_a_wf|split; vm_compute; split; congruence].
    + split; [apply key_a_wf|apply new_a_wf].
  - intros v. apply not_elem_of_nil.
  - by eexists _, _.
  - vm_refl.
  - split; vm_refl.
Defined.

Lemma purge_expired_exact_witness : rows (∅ : gmap bytes bytes) !! enc_key key_a = None.
Proof.
  refine (proj1 (purge_expired_exact (RL := MemDb.memdb_laws) 1500 {[enc_key key_a := enc_val old_a]} ∅
    (Ok 1) _) (enc_key key_a)).
  vm_refl.
Defined.

Lemma purge_deletes_fresh_row_witness :
  rows db_new !! enc_key key_a = Some (enc_val new_a) /\
  row_expired 2000 (enc_val new_a) = false /\ rows (∅ : gmap bytes bytes) !! enc_key key_a = None.
Proof.
  refine (purge_deletes_fresh_row (RL := MemDb.memdb_laws) 2000 {[enc_key key_a := enc_val old_a]}
    [enc_key key_a] key_a new_a (enc_val old_a) db_new ∅ 1 key_a_wf new_a_wf _ _ _ _ _ _);
    vm_refl.
Defined.
End Witnesses.
