(* ===== verification/Upstream.v ===== *)
(** * Upstream forwarding ([src/upstream.rs])

    The resolver pool: UDP exchange with TCP fallback, validation of replies,
    the time to live a reply is cached for, and the loop over the servers.
    The network is a script: what each operation of each attempt yields. *)

From S2P Require Import Prelude RustStr NetAddr Fs Config Hickory Cache.

(** ** Data *)

(** The rate limiter ([governor]) and the semaphore ([tokio]) only delay a
    query; they are represented by their limits. *)
Record Upstream := mk_upstream {
  up_servers : list SocketAddr;
  up_timeout_ms : Z;
  up_qps : Z;
  up_permits : Z;
  up_min_ttl : Z;
  up_max_ttl : Z;
  up_negative_ttl : Z;
}.

(** [Upstream::new]. *)
Definition upstream_new (cfg : UpstreamConfig) (servers : list SocketAddr)
    (min_ttl max_ttl negative_ttl : Z) : Upstream := {|
  up_servers := servers;
  up_timeout_ms := timeout_ms cfg;
  up_qps := Z.max (max_qps cfg) 1;
  up_permits := Z.max (max_concurrent cfg) 1;
  up_min_ttl := min_ttl;
  up_max_ttl := max_ttl;
  up_negative_ttl := negative_ttl;
|}.

(** [Upstream::set_servers]. *)
Definition set_servers (servers : list SocketAddr) (up : Upstream) : Upstream :=
  mk_upstream servers (up_timeout_ms up) (up_qps up) (up_permits up)
    (up_min_ttl up) (up_max_ttl up) (up_negative_ttl up).

(** What the operations of one attempt yield.  [u_recv] is the datagram that
    arrives in time; [t_stream] is everything the server sends on the TCP
    connection before it stalls or closes. *)
Record Exchange := mk_exchange {
  u_bind : result error unit;
  u_connect : result error unit;
  u_send : result error unit;
  u_recv : result error bytes;
  t_connect : result error unit;
  t_write_len : result error unit;
  t_write : result error unit;
  t_flush : result error unit;
  t_stream : bytes;
}.

(** What leaves the machine. *)
Inductive NetEvent :=
| UdpSend (server : SocketAddr) (data : bytes)
| TcpSend (server : SocketAddr) (data : bytes).

Abbreviation trace := (list NetEvent).

Definition emit (ev : NetEvent) : io trace error unit := fun tr => (tr ++ [ev], Ok tt).

(** [read_exact] on what is left of a stream. *)
Definition read_exact (n : nat) (stream : bytes) : result error (bytes * bytes) :=
  if (n <=? length stream)%nat then Ok (take n stream, drop n stream) else Err Io.

(** ** Exchanges *)

Definition query_tcp (x : Exchange) (server : SocketAddr) (query : bytes) : io trace error bytes :=
  _ ← lift (t_connect x);
  let len := to_be 2 (as_u 16 (Z.of_nat (length query))) in
  _ ← lift (t_write_len x); _ ← emit (TcpSend server len);
  _ ← lift (t_write x); _ ← emit (TcpSend server query);
  _ ← lift (t_flush x);
  '(len_buf, stream) ← lift (read_exact 2 (t_stream x));
  let resp_len := Z.to_nat (from_be len_buf) in
  '(buf, _) ← lift (read_exact resp_len stream);
  mret buf.

Definition UDP_BUF : nat := 4096.

(** The TC bit of a reply. *)
Definition truncated (buf : bytes) : bool :=
  (3 <=? length buf)%nat && negb (Z.land (byte_to_Z (nth 2 buf x00)) 0x02 =? 0).

Definition query_udp (x : Exchange) (server : SocketAddr) (query : bytes) : io trace error bytes :=
  _ ← lift (u_bind x);
  _ ← lift (u_connect x);
  _ ← lift (u_send x); _ ← emit (UdpSend server query);
  data ← lift (u_recv x);
  let buf := take UDP_BUF data in
  if truncated buf then query_tcp x server query else mret buf.

Section Resolve.
Context `{HK : Hickory}.

(** ** Validation *)

Definition valid_response (query resp : bytes) : bool :=
  match from_vec query, from_vec resp with
  | Some q, Some r =>
    let qv := view q in let rv := view r in
    if negb (bool_decide (m_type rv = MtResponse)) || negb (m_id rv =? m_id qv) then false
    else match head (m_queries qv), head (m_queries rv) with
         | Some qq, Some rq =>
           name_eqb (query_name qq) (query_name rq)
           && rtype_eqb (query_type qq) (query_type rq)
           && class_eqb (query_class qq) (query_class rq)
         | _, _ => false
         end
  | _, _ => false
  end.

(** ** Time to live *)

(** [Iterator::min]. *)
Fixpoint min_of (l : list Z) : option Z :=
  match l with
  | [] => None
  | x :: l' => Some (match min_of l' with Some y => Z.min x y | None => x end)
  end.

(** [None] is the panic of [clamp]. *)
Definition effective_ttl (up : Upstream) (w : bytes) : option Z :=
  let ttl :=
    match from_vec w with
    | Some msg =>
      let v := view msg in
      if rcode_eqb (m_response_code v) NXDomain || bool_decide (length (m_answers v) = 0%nat)
      then up_negative_ttl up
      else default (up_negative_ttl up) (min_of (rr_ttl <$> m_answers v))
    | None => up_negative_ttl up
    end in
  clamp ttl (up_min_ttl up) (up_max_ttl up).

(** [now] is [now_unix()]; the sum wraps in the release build. *)
Definition to_cached (up : Upstream) (now : Z) (w : bytes) : option CachedResponse :=
  ttl ← effective_ttl up w;
  Some (mk_cached w ttl (as_u 64 (now + ttl))).

(** ** The server loop *)

Definition mismatch : error := Msg (str "upstream response did not match query").

Fixpoint try_servers (up : Upstream) (net : nat -> Exchange) (now : Z) (query : bytes)
    (i : nat) (servers : list SocketAddr) (last_err : error) : io trace error CachedResponse :=
  match servers with
  | [] => lift (Err last_err)
  | server :: servers' => fun tr =>
    match query_udp (net i) server query tr with
    | (tr', Ok w) =>
      if valid_response query w
      then (tr', ok_or (to_cached up now w) Panicked)
      else try_servers up net now query (S i) servers' mismatch tr'
    | (tr', Err e) => try_servers up net now query (S i) servers' e tr'
    end
  end.

Definition resolve (up : Upstream) (net : nat -> Exchange) (now : Z) (query : bytes) :
    io trace error CachedResponse :=
  let servers := up_servers up in
  if bool_decide (servers = []) then lift (Err (Msg (str "no upstream servers configured")))
  else try_servers up net now query 0 servers (Msg (str "upstream unreachable")).
End Resolve.

(** ** Lemmas *)

(** One attempt from an empty trace: its events and its result. *)
Definition attempt (x : Exchange) (server : SocketAddr) (query : bytes) : trace * result error bytes :=
  query_udp x server query [].

Lemma query_tcp_trace x server query tr :
  query_tcp x server query tr =
  (tr ++ (query_tcp x server query []).1, (query_tcp x server query []).2).
Proof.
  unfold query_tcp. cbv [mbind io_bind lift emit mret io_ret].
  destruct (t_connect x) as [[]|]; [|by rewrite app_nil_r].
  destruct (t_write_len x) as [[]|]; [|by rewrite app_nil_r].
  destruct (t_write x) as [[]|]; [|done].
  destruct (t_flush x) as [[]|]; [|by rewrite <-(assoc_L (++))].
  destruct (read_exact 2 (t_stream x)) as [[b s]|]; [|by rewrite <-(assoc_L (++))].
  destruct (read_exact _ s) as [[b' s']|]; by rewrite <-(assoc_L (++)).
Qed.

Lemma query_udp_trace x server query tr :
  query_udp x server query tr = (tr ++ (attempt x server query).1, (attempt x server query).2).
Proof.
  unfold attempt, query_udp. cbv [mbind io_bind lift emit mret io_ret].
  destruct (u_bind x) as [[]|]; [|by rewrite app_nil_r].
  destruct (u_connect x) as [[]|]; [|by rewrite app_nil_r].
  destruct (u_send x) as [[]|]; [|by rewrite app_nil_r].
  destruct (u_recv x) as [data|]; [|done]. cbv zeta.
  destruct (truncated _); [|done].
  rewrite query_tcp_trace, (query_tcp_trace _ _ _ ([] ++ _)). cbn [fst snd].
  by rewrite <-(assoc_L (++)).
Qed.

(** An exchange whose operations fail with ordinary errors. *)
Definition calm (x : Exchange) : Prop :=
  u_bind x <> Err Panicked /\ u_connect x <> Err Panicked /\ u_send x <> Err Panicked /\
  u_recv x <> Err Panicked /\ t_connect x <> Err Panicked /\ t_write_len x <> Err Panicked /\
  t_write x <> Err Panicked /\ t_flush x <> Err Panicked.

Lemma query_tcp_calm x server query tr : calm x -> (query_tcp x server query tr).2 <> Err Panicked.
Proof.
  intros (_ & _ & _ & _ & H1 & H2 & H3 & H4). unfold query_tcp.
  cbv [mbind io_bind lift emit mret io_ret].
  destruct (t_connect x) as [[]|]; [|simpl; congruence].
  destruct (t_write_len x) as [[]|]; [|simpl; congruence].
  destruct (t_write x) as [[]|]; [|simpl; congruence].
  destruct (t_flush x) as [[]|]; [|simpl; congruence].
  unfold read_exact. destruct (2 <=? _)%nat; [|done]. by destruct (_ <=? _)%nat.
Qed.

Lemma attempt_calm x server query : calm x -> (attempt x server query).2 <> Err Panicked.
Proof.
  intros Hx. pose proof Hx as (H1 & H2 & H3 & H4 & _). unfold attempt, query_udp.
  cbv [mbind io_bind lift emit mret io_ret].
  destruct (u_bind x) as [[]|]; [|simpl; congruence].
  destruct (u_connect x) as [[]|]; [|simpl; congruence].
  destruct (u_send x) as [[]|]; [|simpl; congruence].
  destruct (u_recv x) as [data|]; [|simpl; congruence]. cbv zeta.
  destruct (truncated _); [by apply query_tcp_calm|done].
Qed.

Section ResolveLemmas.
Context `{HK : Hickory}.

(** The reply of an attempt, if it arrives and validates. *)
Definition accepted (x : Exchange) (server : SocketAddr) (query : bytes) : option bytes :=
  match (attempt x server query).2 with
  | Ok w => if valid_response query w then Some w else None
  | Err _ => None
  end.

(** The events of the attempts on a list of servers. *)
Fixpoint attempt_events (net : nat -> Exchange) (query : bytes) (i : nat)
    (servers : list SocketAddr) : trace :=
  match servers with
  | [] => []
  | s :: servers' => (attempt (net i) s query).1 ++ attempt_events net query (S i) servers'
  end.

(** The position, server and reply of the first accepted attempt. *)
Fixpoint first_accepted (net : nat -> Exchange) (query : bytes) (i : nat)
    (servers : list SocketAddr) : option (nat * bytes) :=
  match servers with
  | [] => None
  | s :: servers' =>
    match accepted (net i) s query with
    | Some w => Some (0%nat, w)
    | None => '(k, w) ← first_accepted net query (S i) servers'; Some (S k, w)
    end
  end.

Lemma try_servers_spec up net now query i servers e tr :
  exists e', try_servers up net now query i servers e tr =
  match first_accepted net query i servers with
  | Some (k, w) => (tr ++ attempt_events net query i (take (S k) servers),
                    ok_or (to_cached up now w) Panicked)
  | None => (tr ++ attempt_events net query i servers, Err e')
  end.
Proof.
  revert i e tr. induction servers as [|s servers IH]; intros i e tr; cbn [try_servers first_accepted].
  { exists e. cbn [attempt_events]. by rewrite app_nil_r. }
  rewrite query_udp_trace. unfold accepted.
  destruct ((attempt (net i) s query).2) as [w|e1].
  - destruct (valid_response query w).
    + exists e. cbn [take attempt_events]. by rewrite take_0, app_nil_r.
    + destruct (IH (S i) mismatch (tr ++ (attempt (net i) s query).1)) as [e' ->].
      exists e'. destruct (first_accepted _ _ _ _) as [[k w']|]; cbn [mbind option_bind take attempt_events];
        by rewrite (assoc_L (++)).
  - destruct (IH (S i) e1 (tr ++ (attempt (net i) s query).1)) as [e' ->].
    exists e'. destruct (first_accepted _ _ _ _) as [[k w']|]; cbn [mbind option_bind take attempt_events];
      by rewrite (assoc_L (++)).
Qed.

Lemma first_accepted_Some net query i servers k w :
  first_accepted net query i servers = Some (k, w) ->
  (exists s, servers !! k = Some s /\ accepted (net (i + k)%nat) s query = Some w) /\
  (forall j s, (j < k)%nat -> servers !! j = Some s -> accepted (net (i + j)%nat) s query = None).
Proof.
  revert i k. induction servers as [|s servers IH]; intros i k; cbn [first_accepted]; [done|].
  destruct (accepted (net i) s query) as [w'|] eqn:E.
  - intros [= <- ->]. rewrite Nat.add_0_r. split; [by exists s|lia].
  - destruct (first_accepted net query (S i) servers) as [[k' w'']|] eqn:F; [|done].
    intros [= <- ->]. destruct (IH _ _ F) as [(s' & Hs' & Ha) Hbefore].
    rewrite Nat.add_succ_r. split; [by exists s'|].
    intros [|j] s'' Hj; simpl; [rewrite Nat.add_0_r; by intros [= <-]|].
    intros Hl. rewrite Nat.add_succ_r. apply (Hbefore j); [lia|done].
Qed.

Lemma first_accepted_None net query i servers :
  first_accepted net query i servers = None ->
  forall j s, servers !! j = Some s -> accepted (net (i + j)%nat) s query = None.
Proof.
  revert i. induction servers as [|s servers IH]; intros i; cbn [first_accepted]; [done|].
  destruct (accepted (net i) s query) as [w'|] eqn:E; [done|].
  destruct (first_accepted net query (S i) servers) as [[k' w'']|] eqn:F; [done|].
  intros _ [|j] s'; simpl; [rewrite Nat.add_0_r; by intros [= <-]|].
  rewrite Nat.add_succ_r. apply (IH _ F).
Qed.

Lemma resolve_spec up net now query tr :
  up_servers up <> [] ->
  exists e', resolve up net now query tr =
  match first_accepted net query 0 (up_servers up) with
  | Some (k, w) => (tr ++ attempt_events net query 0 (take (S k) (up_servers up)),
                    ok_or (to_cached up now w) Panicked)
  | None => (tr ++ attempt_events net query 0 (up_servers up), Err e')
  end.
Proof.
  intros Hne. unfold resolve. rewrite bool_decide_eq_false_2 by done. apply try_servers_spec.
Qed.

Lemma to_cached_wire up now w v :
  to_cached up now w = Some v ->
  wire v = w /\ effective_ttl up w = Some (ttl_secs v) /\ expires_unix v = as_u 64 (now + ttl_secs v).
Proof.
  unfold to_cached. destruct (effective_ttl up w); [|done]. by intros [= <-].
Qed.

Lemma effective_ttl_bounds up w t :
  effective_ttl up w = Some t -> up_min_ttl up <= t <= up_max_ttl up.
Proof.
  unfold effective_ttl, clamp. case_decide; [|done]. intros [= <-].
  repeat match goal with |- context [if ?b then _ else _] => destruct b eqn:? end; lia.
Qed.

Lemma resolve_ok up net now query tr tr' v :
  resolve up net now query tr = (tr', Ok v) ->
  exists k s, up_servers up !! k = Some s /\ accepted (net k) s query = Some (wire v) /\
    to_cached up now (wire v) = Some v /\
    (forall j s', (j < k)%nat -> up_servers up !! j = Some s' -> accepted (net j) s' query = None) /\
    tr' = tr ++ attempt_events net query 0 (take (S k) (up_servers up)).
Proof.
  intros H. destruct (decide (up_servers up = [])) as [E|Hne].
  { unfold resolve in H. by rewrite bool_decide_eq_true_2 in H. }
  destruct (resolve_spec up net now query tr Hne) as [e' Hr]. rewrite Hr in H.
  destruct (first_accepted net query 0 (up_servers up)) as [[k w]|] eqn:F; [|done].
  destruct (to_cached up now w) as [c|] eqn:C; [|done]. injection H as <- <-.
  destruct (to_cached_wire _ _ _ _ C) as (-> & _).
  apply first_accepted_Some in F as [(s & Hs & Ha) Hb]. eauto 10.
Qed.

Lemma accepted_valid x s query w : accepted x s query = Some w -> valid_response query w = true.
Proof.
  unfold accepted. destruct ((attempt x s query).2) as [w'|]; [|done].
  destruct (valid_response query w') eqn:V; [|done]. by intros [= <-].
Qed.

Lemma resolve_valid up net now query tr tr' v :
  resolve up net now query tr = (tr', Ok v) -> valid_response query (wire v) = true.
Proof. intros (k & s & _ & Ha & _)%resolve_ok. by eapply accepted_valid. Qed.

Lemma to_cached_total up now w : up_min_ttl up <= up_max_ttl up -> is_Some (to_cached up now w).
Proof. intros H. unfold to_cached, effective_ttl. rewrite clamp_Some by done. simpl. eauto. Qed.

(** With ordered bounds and ordinary network errors nothing panics. *)
Lemma resolve_calm up net now query tr :
  up_min_ttl up <= up_max_ttl up -> (forall i, calm (net i)) ->
  (resolve up net now query tr).2 <> Err Panicked.
Proof.
  intros Hm Hnet. unfold resolve. case_bool_decide; [done|].
  assert (Msg (str "upstream unreachable") <> Panicked) as He by done. revert He.
  generalize (Msg (str "upstream unreachable")) as e. generalize 0%nat as i. revert tr.
  generalize (up_servers up) as servers. induction servers as [|s servers IH]; intros tr i e He;
    cbn [try_servers]; [simpl; congruence|].
  rewrite query_udp_trace. pose proof (attempt_calm (net i) s query (Hnet i)) as Ha.
  destruct (attempt (net i) s query) as [t [w|e1]]; cbn [fst snd] in *.
  - destruct (valid_response query w); [|by apply IH].
    destruct (to_cached_total up now w Hm) as [c ->]. done.
  - apply IH. congruence.
Qed.

Lemma min_of_spec l m :
  min_of l = Some m <-> m ∈ l /\ (forall x, x ∈ l -> m <= x).
Proof.
  revert m. induction l as [|x l IH]; intros m; cbn [min_of].
  { split; [done|]. intros [H _]. by apply elem_of_nil in H. }
  destruct (min_of l) as [y|] eqn:E.
  - destruct (proj1 (IH y) eq_refl) as [Hy Hmin]. split.
    + intros [= <-]. split.
      * destruct (Z.min_spec x y) as [[_ ->]|[_ ->]]; [left|by right].
      * intros z [->|Hz]%elem_of_cons; [lia|]. specialize (Hmin z Hz). lia.
    + intros [Hm H]. pose proof (H x ltac:(left)). pose proof (H y ltac:(by right)).
      f_equal. apply elem_of_cons in Hm as [->|Hm]; [lia|]. specialize (Hmin m Hm). lia.
  - assert (l = []) as -> by (destruct l; [done|]; simpl in E; by destruct (min_of l)).
    split.
    + intros [= <-]. split; [left|]. intros z Hz%list_elem_of_singleton. lia.
    + intros [->%list_elem_of_singleton _]. done.
Qed.
End ResolveLemmas.

#[export] Hint Resolve resolve_valid accepted_valid : rdns.

(** ** Properties *)

Section Properties.
Context `{HK : Hickory}.

(** C9. Only genuine answers are returned: a reply [resolve] accepts parses, is
    a response, carries the transaction id of the query, and repeats its first
    question (name, type and class); and it is, byte for byte, what one of the
    configured servers sent. *)
Theorem resolve_returns_valid {HL : HickoryLaws HK} up net now query tr tr' v :
  resolve up net now query tr = (tr', Ok v) ->
  (exists k s, up_servers up !! k = Some s /\ (attempt (net k) s query).2 = Ok (wire v)) /\
  exists q r qq rq,
    from_vec query = Some q /\ from_vec (wire v) = Some r /\
    m_type (view r) = MtResponse /\ m_id (view r) = m_id (view q) /\
    head (m_queries (view q)) = Some qq /\ head (m_queries (view r)) = Some rq /\
    name_eqb (query_name qq) (query_name rq) = true /\
    query_type qq = query_type rq /\ class_eqb (query_class qq) (query_class rq) = true.
Proof.
  intros H. destruct (resolve_ok _ _ _ _ _ _ _ H) as (k & s & Hs & Ha & _). split.
  { exists k, s. split; [done|]. unfold accepted in Ha.
    destruct ((attempt (net k) s query).2); [|done]. destruct (valid_response _ _); congruence. }
  apply resolve_valid in H. unfold valid_response in H.
  destruct (from_vec query) as [q|]; [|done]. destruct (from_vec (wire v)) as [r|]; [|done].
  destruct (bool_decide (m_type (view r) = MtResponse)) eqn:Et; [|done].
  destruct (Z.eqb_spec (m_id (view r)) (m_id (view q))); [|done]. cbn [negb orb] in H.
  destruct (head (m_queries (view q))) as [qq|] eqn:Eq; [|done].
  destruct (head (m_queries (view r))) as [rq|] eqn:Er; [|done].
  rewrite !andb_true_iff, rtype_eqb_eq in H. apply bool_decide_eq_true in Et.
  exists q, r, qq, rq. naive_solver.
Qed.

(** Servers are tried in order and the first valid reply wins: every server
    before the winner gave no valid reply, no server after it was contacted,
    and the packets sent are exactly those of the attempts up to it. *)
Theorem resolve_first_wins up net now query tr tr' v :
  resolve up net now query tr = (tr', Ok v) ->
  exists k s, up_servers up !! k = Some s /\ accepted (net k) s query = Some (wire v) /\
    (forall j s', (j < k)%nat -> up_servers up !! j = Some s' -> accepted (net j) s' query = None) /\
    tr' = tr ++ attempt_events net query 0 (take (S k) (up_servers up)).
Proof. intros (k & s & ? & ? & _ & ? & ?)%resolve_ok. eauto 10. Qed.

(** Completeness: with a sane configuration ([min_ttl <= max_ttl])
    [resolve] succeeds exactly when some server's attempt yields a valid reply,
    and a failed one has tried every server. *)
Theorem resolve_succeeds_iff up net now query tr :
  up_min_ttl up <= up_max_ttl up ->
  (is_ok (resolve up net now query tr).2 = true <->
   exists k s, up_servers up !! k = Some s /\ accepted (net k) s query <> None) /\
  (is_ok (resolve up net now query tr).2 = false ->
   (resolve up net now query tr).1 = tr ++ attempt_events net query 0 (up_servers up)).
Proof.
  intros Hm. destruct (decide (up_servers up = [])) as [E|Hne].
  { unfold resolve. rewrite bool_decide_eq_true_2, E by done. simpl.
    rewrite app_nil_r. split; [|done]. split; [done|]. by intros (k & s & ? & _). }
  destruct (resolve_spec up net now query tr Hne) as [e' ->].
  destruct (first_accepted net query 0 (up_servers up)) as [[k w]|] eqn:F.
  - apply first_accepted_Some in F as [(s & Hs & Ha) _].
    destruct (to_cached_total up now w Hm) as [c ->].
    split; [|done]. split; [|done]. intros _. exists k, s. cbn [Nat.add] in Ha. by rewrite Ha.
  - split; [|done]. split; [done|]. intros (k & s & Hs & Ha).
    by pose proof (first_accepted_None _ _ _ _ F _ _ Hs).
Qed.

(** C30. The time to live of a cached reply: the smallest answer TTL, or
    [negative_ttl] for NXDOMAIN, an empty answer section or an unparseable
    reply, clamped into [min_ttl, max_ttl]; when the bounds are the wrong way
    round the clamp panics on every reply. *)
Theorem effective_ttl_spec up w :
  (up_max_ttl up < up_min_ttl up -> effective_ttl up w = None) /\
  (up_min_ttl up <= up_max_ttl up ->
   exists base t, effective_ttl up w = Some t /\ up_min_ttl up <= t <= up_max_ttl up /\
     t = Z.max (up_min_ttl up) (Z.min base (up_max_ttl up)) /\
     match from_vec w with
     | Some m =>
       if rcode_eqb (m_response_code (view m)) NXDomain then base = up_negative_ttl up
       else match m_answers (view m) with
            | [] => base = up_negative_ttl up
            | _ => (exists r, r ∈ m_answers (view m) /\ rr_ttl r = base) /\
                   (forall r, r ∈ m_answers (view m) -> base <= rr_ttl r)
            end
     | None => base = up_negative_ttl up
     end).
Proof.
  unfold effective_ttl. split; [by intros; apply clamp_None|]. intros Hm.
  rewrite clamp_Some by done. do 2 eexists. split; [done|]. split; [lia|]. split; [done|].
  destruct (from_vec w) as [m|]; [|done].
  destruct (rcode_eqb _ _); [done|]. cbn [orb].
  destruct (m_answers (view m)) as [|a l]; [done|].
  rewrite bool_decide_eq_false_2 by done.
  destruct (min_of (rr_ttl <$> a :: l)) as [x|] eqn:E; [|done].
  apply min_of_spec in E as [Hx Hmin]. cbn [default]. split.
  - apply list_elem_of_fmap in Hx as (r & -> & Hr). eauto.
  - intros r Hr. apply Hmin, list_elem_of_fmap. eauto.
Qed.

(** Expiry bookkeeping: before the year 2^63 the stored expiry is the fetch
    time plus the TTL without wrapping, so the remaining lifetime a restart
    computes from it at any later time fits its 32-bit field and is at most
    the original TTL. *)
Theorem to_cached_expiry up now w v later :
  0 <= now < 2 ^ 63 -> is_u 32 (up_min_ttl up) -> is_u 32 (up_max_ttl up) ->
  to_cached up now w = Some v ->
  now <= later < expires_unix v ->
  wire v = w /\ cached_wf v /\ expires_unix v = now + ttl_secs v /\
  as_u 32 (expires_unix v - later) = expires_unix v - later /\
  0 < expires_unix v - later <= ttl_secs v.
Proof.
  intros Hnow Hmin Hmax Hc Hl. apply to_cached_wire in Hc as (Hw & Ht & He).
  unfold effective_ttl in Ht. 
  match type of Ht with clamp ?b _ _ = _ => set (base := b) in Ht end.
  destruct (decide (up_min_ttl up <= up_max_ttl up)) as [Hm|Hm].
  2: { rewrite (proj2 (clamp_None base _ _)) in Ht by lia. done. }
  rewrite clamp_Some in Ht by done. injection Ht as Ht. unfold is_u in *.
  assert (is_u 64 (now + ttl_secs v)) as H64 by (unfold is_u; lia).
  rewrite as_u_id in He by done.
  split; [done|]. split; [split; unfold is_u in *; lia|]. split; [done|].
  split; [|lia]. apply as_u_id. unfold is_u. lia.
Qed.
End Properties.

(** C40. TCP framing: on success the connection has carried the two-byte length
    of the query and the query, which the reader on the other side decodes to
    the query (queries fit in 65535 bytes), and the reply is exactly the first
    frame of what the server sent. *)
Theorem query_tcp_framing x server query tr tr' buf :
  Z.of_nat (length query) < 2 ^ 16 ->
  query_tcp x server query tr = (tr', Ok buf) ->
  exists len rest,
    tr' = tr ++ [TcpSend server len; TcpSend server query] /\
    read_exact 2 (len ++ query) = Ok (len, query) /\
    read_exact (Z.to_nat (from_be len)) query = Ok (query, []) /\
    t_stream x = to_be 2 (Z.of_nat (length buf)) ++ buf ++ rest.
Proof.
  intros Hq. unfold query_tcp. cbv [mbind io_bind lift emit mret io_ret].
  destruct (t_connect x) as [[]|]; [|done]. destruct (t_write_len x) as [[]|]; [|done].
  destruct (t_write x) as [[]|]; [|done]. destruct (t_flush x) as [[]|]; [|done].
  destruct (read_exact 2 (t_stream x)) as [[lb s]|] eqn:E1; [|done].
  destruct (read_exact (Z.to_nat (from_be lb)) s) as [[b rest]|] eqn:E2; [|done].
  intros [= <- <-]. unfold read_exact in E1, E2.
  destruct (Nat.leb_spec 2 (length (t_stream x))); [|done]. injection E1 as <- <-.
  set (lb := take 2 (t_stream x)) in *. set (s := drop 2 (t_stream x)) in *.
  destruct (Nat.leb_spec (Z.to_nat (from_be lb)) (length s)); [|done]. injection E2 as <- <-.
  exists (to_be 2 (as_u 16 (Z.of_nat (length query)))), (drop (Z.to_nat (from_be lb)) s).
  rewrite as_u_id by (unfold is_u; lia).
  split; [by rewrite <-(assoc_L (++))|]. split; [|split].
  - unfold read_exact. by rewrite length_app, length_to_be.
  - rewrite from_to_be_id, Nat2Z.id by (unfold is_u; simpl; lia).
    unfold read_exact. by rewrite Nat.leb_refl, firstn_all, skipn_all.
  - rewrite length_take_le by done.
    assert (length lb = 2%nat) as Hlb by (unfold lb; rewrite length_take; lia).
    pose proof (from_be_bound lb) as Hb. rewrite Z2Nat.id by lia.
    rewrite take_drop. rewrite <-Hlb, to_from_be. unfold lb, s. by rewrite take_drop.
Qed.

(** A truncated UDP reply is never passed on: what [query_udp] returns is
    either a datagram cut to the 4096-byte buffer whose TC bit is clear, or the
    reply of the TCP exchange with the same server. *)
Theorem query_udp_not_truncated x server query tr tr' buf :
  query_udp x server query tr = (tr', Ok buf) ->
  exists data, u_recv x = Ok data /\
    (if truncated (take UDP_BUF data)
     then query_tcp x server query (tr ++ [UdpSend server query]) = (tr', Ok buf)
     else buf = take UDP_BUF data /\ (length buf <= UDP_BUF)%nat /\ truncated buf = false /\
          tr' = tr ++ [UdpSend server query]).
Proof.
  unfold query_udp. cbv [mbind io_bind lift emit mret io_ret].
  destruct (u_bind x) as [[]|]; [|done]. destruct (u_connect x) as [[]|]; [|done].
  destruct (u_send x) as [[]|]; [|done]. destruct (u_recv x) as [data|]; [|done].
  cbv zeta. intros H. exists data. split; [done|].
  destruct (truncated (take UDP_BUF data)) eqn:T; [done|]. injection H as <- <-.
  rewrite length_take. split; [done|]. split; [lia|]. done.
Qed.

(** ** Worked examples *)

Section Witnesses.
#[local] Existing Instance Mini.hickory.

Definition question : Mini.MQuery := Mini.mk_query (str "a.com") 1 1.

(** A query for [a.com], and the answer of a server: two A records. *)
Definition query_wire : bytes := default []
  (Mini.mto_vec (0x1234, (false, (0, (true, (false, (0, ([question], [])))))))).
Definition answer_wire : bytes := default []
  (Mini.mto_vec (0x1234, (true, (0, (true, (true, (0, ([question],
    [Mini.mk_rr (str "a.com") 300 [1; 2; 3; 4]; Mini.mk_rr (str "a.com") 120 [1; 2; 3; 5]])))))))).
(** A reply with the wrong id. *)
Definition spoofed_wire : bytes := to_be 2 0x9999 ++ drop 2 answer_wire.

Definition server1 : SocketAddr := SockV4 (ipv4 [1; 1; 1; 1]) 53.
Definition server2 : SocketAddr := SockV4 (ipv4 [8; 8; 8; 8]) 53.

Definition udp_reply (r : result error bytes) : Exchange :=
  mk_exchange (Ok tt) (Ok tt) (Ok tt) r (Ok tt) (Ok tt) (Ok tt) (Ok tt) [].
Definition tcp_reply (w : bytes) : Exchange :=
  mk_exchange (Ok tt) (Ok tt) (Ok tt) (Ok [x00; x00; x02]) (Ok tt) (Ok tt) (Ok tt) (Ok tt)
    (to_be 2 (Z.of_nat (length w)) ++ w).

(** The first server's reply is spoofed, the second answers. *)
Definition sample_net (i : nat) : Exchange :=
  match i with
  | O => udp_reply (Ok spoofed_wire)
  | _ => udp_reply (Ok answer_wire)
  end.

Definition sample_upstream : Upstream :=
  upstream_new (cfg_upstream default_config) [server1; server2] 30 86400 60.

Definition sample_cached : CachedResponse := mk_cached answer_wire 120 1120.

Lemma sample_resolve :
  resolve sample_upstream sample_net 1000 query_wire [] =
  ([UdpSend server1 query_wire; UdpSend server2 query_wire], Ok sample_cached).
Proof. vm_refl. Qed.

Lemma resolve_returns_valid_witness :
  exists k s, up_servers sample_upstream !! k = Some s /\
    (attempt (sample_net k) s query_wire).2 = Ok (wire sample_cached).
Proof.
  exact (proj1 (resolve_returns_valid (HL := Mini.mini_laws) _ _ _ _ _ _ _ sample_resolve)).
Defined.

Lemma resolve_first_wins_witness :
  exists k s, up_servers sample_upstream !! k = Some s /\
    accepted (sample_net k) s query_wire = Some (wire sample_cached) /\
    (forall j s', (j < k)%nat -> up_servers sample_upstream !! j = Some s' ->
       accepted (sample_net j) s' query_wire = None) /\
    [UdpSend server1 query_wire; UdpSend server2 query_wire] =
    [] ++ attempt_events sample_net query_wire 0 (take (S k) (up_servers sample_upstream)).
Proof. exact (resolve_first_wins _ _ _ _ _ _ _ sample_resolve). Defined.

Lemma resolve_succeeds_iff_witness :
  exists k s, up_servers sample_upstream !! k = Some s /\
    accepted (sample_net k) s query_wire <> None.
Proof.
  refine (proj1 (proj1 (resolve_succeeds_iff sample_upstream sample_net 1000 query_wire [] _)) _).
  - vm_compute. congruence.
  - vm_refl.
Defined.

Lemma effective_ttl_spec_witness :
  effective_ttl (mk_upstream [] 1 1 1 100 10 60) answer_wire = None.
Proof. refine (proj1 (effective_ttl_spec (mk_upstream [] 1 1 1 100 10 60) answer_wire) _). vm_refl. Defined.

Lemma to_cached_expiry_witness :
  as_u 32 (expires_unix sample_cached - 1100) = 20.
Proof.
  refine (proj1 (proj2 (proj2 (proj2 (to_cached_expiry sample_upstream 1000 answer_wire sample_cached 1100
    _ _ _ _ _))))); [split; vm_compute; congruence..|vm_refl|split; vm_compute; congruence].
Defined.

Lemma query_tcp_framing_witness :
  exists len rest,
    (query_tcp (tcp_reply answer_wire) server1 query_wire []).1 =
      [] ++ [TcpSend server1 len; TcpSend server1 query_wire] /\
    read_exact 2 (len ++ query_wire) = Ok (len, query_wire) /\
    read_exact (Z.to_nat (from_be len)) query_wire = Ok (query_wire, []) /\
    t_stream (tcp_reply answer_wire) = to_be 2 (Z.of_nat (length answer_wire)) ++ answer_wire ++ rest.
Proof. refine (query_tcp_framing (tcp_reply answer_wire) server1 query_wire [] _ answer_wire _ _); vm_refl. Defined.

Lemma query_udp_not_truncated_witness :
  exists data, u_recv (tcp_reply answer_wire) = Ok data /\
    if truncated (take UDP_BUF data)
    then query_tcp (tcp_reply answer_wire) server1 query_wire ([] ++ [UdpSend server1 query_wire])
         = query_udp (tcp_reply answer_wire) server1 query_wire []
    else False.
Proof.
  refine (let '(ex_intro _ d (conj Hd H)) := query_udp_not_truncated (tcp_reply answer_wire)
    server1 query_wire [] (query_udp (tcp_reply answer_wire) server1 query_wire []).1 answer_wire _
    in ex_intro _ d (conj Hd _)).
  - vm_refl.
  - injection Hd as <-. exact H.
Defined.
End Witnesses.
