(* ===== verification/Qlog.v ===== *)
(** * The query log ([src/qlog.rs])

    Log records and their columns, segment files and their names, the batching
    writer, the size cap, and the query front end.  The Parquet encoder and
    the DataFusion engine are parameters. *)

From S2P Require Import Prelude RustStr Fmt Fs Config.

(** ** Data *)

Record LogRecord := mk_log {
  ts_ms : Z;        (* i64 *)
  client : rstring;
  domain : rstring;
  qtype : rstring;
  action : rstring;
  latency_ms : Z;   (* u32 *)
}.

(** The arrays of a record batch, in the order of [schema]. *)
Record RecordBatch := mk_batch {
  col_ts : list Z;
  col_client : list rstring;
  col_domain : list rstring;
  col_qtype : list rstring;
  col_action : list rstring;
  col_latency : list Z;
}.

Definition LOG_CHANNEL_CAP : Z := 100000.

Class LogEngine := {
  (* the bytes emitted, and whether the encoder got to its end *)
  parquet_encode : RecordBatch -> bytes * result error unit;
  (* directory, memory limit in bytes, SQL text; yields the JSON rows *)
  datafusion_query : rstring -> Z -> rstring -> Fs -> result error bytes;
}.

(** ** Segments *)

(** [build_batch]: one row per record. *)
Definition build_batch (recs : list LogRecord) : RecordBatch := {|
  col_ts := ts_ms <$> recs;
  col_client := client <$> recs;
  col_domain := domain <$> recs;
  col_qtype := qtype <$> recs;
  col_action := action <$> recs;
  col_latency := latency_ms <$> recs;
|}.

(** The file name of a segment. *)
Definition segment_name (now seq : Z) : rstring :=
  str "qlog-" ++ zero_pad 14 (fmt_dec now) ++ str "-" ++ zero_pad 6 (fmt_dec seq) ++ str ".parquet".

(** [Path::join] of a relative name. *)
Definition path_join (dir name : rstring) : rstring :=
  match last dir with
  | None => name
  | Some c => if c =? 47 then dir ++ name else dir ++ [47] ++ name
  end.

(** The name of a path inside a directory; [None] if it is elsewhere. *)
Definition entry_name (dir p : rstring) : option rstring :=
  name ← strip_prefix (path_join dir []) p;
  if bool_decide (name = []) || bool_decide (47 ∈ name) then None else Some name.

(** [Path::extension] of a file name. *)
Definition extension (name : rstring) : option rstring :=
  match break_at 46 (reverse name) with
  | (rext, Some (_ :: _)) => Some (reverse rext)
  | _ => None
  end.

(** Is this path a segment of the log directory? *)
Definition is_segment (dir p : rstring) : bool :=
  match entry_name dir p with
  | Some name => bool_decide (extension name = Some (str "parquet"))
  | None => false
  end.

(** The segments with their sizes; an entry whose metadata cannot be read
    ([visible] is false) is skipped. *)
Definition list_segments (dir : rstring) (visible : rstring -> bool) (fs : Fs) : list (rstring * Z) :=
  (fun '(p, d) => (p, Z.of_nat (length d))) <$>
  filter (fun '(p, _) => is_segment dir p && visible p = true) (map_to_list (files fs)).

(** The order of [files.sort_by]: by path. *)
Definition path_le (a b : rstring * Z) : Prop := str_le a.1 b.1.
#[export] Instance path_le_dec : RelDecision path_le.
Proof. intros a b. unfold path_le. apply _. Defined.

(** The deletion loop of [enforce_retention]. *)
Fixpoint retention_loop (max_bytes : Z) (segs : list (rstring * Z)) (total : Z) (fs : Fs) : Fs :=
  match segs with
  | [] => fs
  | (path, size) :: segs' =>
    if total <=? max_bytes then fs
    else match fs_remove_file path fs with
         | (fs', Ok _) => retention_loop max_bytes segs' (total - size) fs'
         | (fs', Err _) => retention_loop max_bytes segs' total fs'
         end
  end.

Definition sum_sizes (segs : list (rstring * Z)) : Z := foldr Z.add 0 (snd <$> segs).

(** [enforce_retention]; [read_dir] itself may fail. *)
Definition enforce_retention (dir : rstring) (visible : rstring -> bool) (max_bytes : Z) :
    io Fs error unit := fun fs =>
  match next_fault fs with
  | NoFault =>
    let fs := set_files (files fs) fs in
    let segs := merge_sort path_le (list_segments dir visible fs) in
    (retention_loop max_bytes segs (sum_sizes segs) fs, Ok tt)
  | _ => (set_files (files fs) fs, Err Io)
  end.

Section Writer.
Context `{LE : LogEngine} (visible : rstring -> bool).

(** [write_segment]; [seq] is the value [SEQ.fetch_add] returned. *)
Definition write_segment (dir : rstring) (recs : list LogRecord) (max_bytes now seq : Z) :
    io Fs error unit :=
  let batch := build_batch recs in
  let name := segment_name now seq in
  let final_path := path_join dir name in
  let tmp_path := path_join dir (name ++ str ".tmp") in
  let '(data, encoded) := parquet_encode batch in
  _ ← fs_write tmp_path data;
  _ ← lift encoded;
  _ ← fs_rename tmp_path final_path;
  enforce_retention dir visible max_bytes.

(** The writer task: the file system, the static [SEQ], and the buffer.  An
    event carries the clock of the flush it may cause. *)
Record LogWriter := mk_log_writer {
  lw_fs : Fs;
  lw_seq : Z;
  lw_buf : list LogRecord;
  lw_done : bool;
}.

Inductive log_event :=
| LogItem (r : LogRecord) (now : Z)
| LogClosed (now : Z)
| LogTick (now : Z).

(** [flush]: the buffer is taken first, so a failed segment is dropped. *)
Definition log_flush (cfg : QlogConfig) (now : Z) (w : LogWriter) : LogWriter :=
  if bool_decide (lw_buf w = []) then w
  else
    let '(fs', _) := write_segment (qlog_dir cfg) (lw_buf w) (max_bytes cfg) now (lw_seq w) (lw_fs w) in
    mk_log_writer fs' (as_u 64 (lw_seq w + 1)) [] (lw_done w).

Definition log_step (cfg : QlogConfig) (w : LogWriter) (ev : log_event) : LogWriter :=
  let flush_rows := Z.max (flush_rows cfg) 1 in
  if lw_done w then w
  else match ev with
       | LogItem r now =>
         let w' := mk_log_writer (lw_fs w) (lw_seq w) (lw_buf w ++ [r]) false in
         if flush_rows <=? Z.of_nat (length (lw_buf w')) then log_flush cfg now w' else w'
       | LogClosed now =>
         let w' := log_flush cfg now w in mk_log_writer (lw_fs w') (lw_seq w') (lw_buf w') true
       | LogTick now => log_flush cfg now w
       end.

(** [run_writer]; [created] is whether [create_dir_all] succeeded. *)
Definition run_log_writer (cfg : QlogConfig) (created : bool) (fs : Fs) (seq : Z)
    (evs : list log_event) : LogWriter :=
  if created then foldl (log_step cfg) (mk_log_writer fs seq [] false) evs
  else mk_log_writer fs seq [] true.

(** ** Queries *)

(** [has_segments]. *)
Definition has_segments (dir : rstring) (fs : Fs) : bool :=
  match next_fault fs with
  | NoFault => existsb (is_segment dir) (map_to_list (files fs)).*1
  | _ => false
  end.

(** The SQL text of [query]. *)
Definition query_sql (where_sql : rstring) (limit : Z) : rstring :=
  str "SELECT CAST(ts AS VARCHAR) AS ts, client, domain, qtype, action, latency_ms FROM logs "
  ++ where_sql ++ str " ORDER BY ts DESC LIMIT " ++ fmt_dec limit.

Definition query (dir : rstring) (mem_limit_mb : Z) (where_sql : rstring) (limit : Z) (fs : Fs) :
    result error bytes :=
  if negb (has_segments dir fs) then Ok (as_bytes (str "[]"))
  else datafusion_query dir (as_u 64 (Z.max mem_limit_mb 16 * 1024 * 1024)) (query_sql where_sql limit) fs.
End Writer.

(** ** Lemmas *)

Lemma entry_name_join dir name :
  name <> [] -> 47 ∉ name -> entry_name dir (path_join dir name) = Some name.
Proof.
  intros Hne Hs. unfold entry_name.
  assert (path_join dir name = path_join dir [] ++ name) as ->.
  { unfold path_join. destruct (last dir) as [c|] eqn:E.
    - by destruct (c =? 47); rewrite <-?(assoc_L (++)), ?app_nil_r.
    - done. }
  rewrite (proj2 (strip_prefix_Some _ _ _) eq_refl). cbn [mbind option_bind].
  by rewrite !bool_decide_eq_false_2.
Qed.

Lemma fixed_digits_dec n z : Forall (fun c => 48 <= c <= 57) (fixed_digits 10 n z).
Proof.
  revert z. induction n as [|n IH]; intros z; cbn [fixed_digits]; [done|].
  apply Forall_app. split; [apply IH|]. constructor; [|done].
  pose proof (Z.mod_pos_bound z 10). unfold digit_char.
  destruct (Z.ltb_spec (z mod 10) 10); lia.
Qed.

Lemma fmt_dec_digits w z : Forall (fun c => 48 <= c <= 57) (zero_pad w (fmt_dec z)).
Proof.
  apply Forall_app. split; [|apply fixed_digits_dec]. by apply Forall_replicate.
Qed.

Lemma digits_no c w z : ~ 48 <= c <= 57 -> c ∉ zero_pad w (fmt_dec z).
Proof. intros Hc Hin. pose proof (fmt_dec_digits w z) as H. rewrite Forall_forall in H. eauto. Qed.

Lemma segment_name_no_slash now seq : 47 ∉ segment_name now seq.
Proof.
  unfold segment_name. rewrite !not_elem_of_app.
  repeat split; try (apply digits_no; lia); vm_compute; set_solver.
Qed.

Lemma tmp_extension name : name <> [] -> extension (name ++ str ".tmp") = Some (str "tmp").
Proof.
  intros Hne. unfold extension. rewrite reverse_app.
  change (reverse (str ".tmp")) with [112; 109; 116; 46].
  cbn [app break_at Z.eqb]. destruct (reverse name) as [|c r] eqn:E; [|done].
  apply (f_equal reverse) in E. by rewrite reverse_involutive in E.
Qed.

Lemma tmp_not_segment dir name : name <> [] -> 47 ∉ name -> is_segment dir (path_join dir (name ++ str ".tmp")) = false.
Proof.
  intros Hne Hs. unfold is_segment. rewrite entry_name_join, tmp_extension; [done|done| |].
  - by destruct name.
  - rewrite not_elem_of_app. split; [done|]. vm_compute. set_solver.
Qed.

Lemma fs_remove_file_files p fs fs' r :
  fs_remove_file p fs = (fs', r) -> files fs' = if is_ok r then delete p (files fs) else files fs.
Proof.
  unfold fs_remove_file. destruct (next_fault fs); [|by intros [= <- <-]..].
  destruct (files fs !! p); by intros [= <- <-].
Qed.

Lemma retention_loop_only max segs total fs p :
  files (retention_loop max segs total fs) !! p = files fs !! p \/
  (p ∈ segs.*1 /\ files (retention_loop max segs total fs) !! p = None).
Proof.
  revert total fs. induction segs as [|[q n] segs IH]; intros total fs; cbn [retention_loop fmap list_fmap fst]; [auto|].
  destruct (total <=? max); [auto|].
  destruct (fs_remove_file q fs) as [fs' r] eqn:E. apply fs_remove_file_files in E.
  destruct r as [[]|e]; cbn [is_ok] in E.
  - destruct (IH (total - n) fs') as [H|[H1 H2]]; [|right; split; [by right|done]].
    rewrite H, E. destruct (decide (p = q)) as [->|Hpq].
    + right. split; [left|]. apply lookup_delete_eq.
    + left. by apply lookup_delete_ne.
  - destruct (IH total fs') as [H|[H1 H2]]; [|right; split; [by right|done]].
    left. by rewrite H, E.
Qed.

Lemma list_segments_elem dir visible fs p n :
  (p, n) ∈ list_segments dir visible fs <->
  exists d, files fs !! p = Some d /\ is_segment dir p = true /\ visible p = true /\ n = Z.of_nat (length d).
Proof.
  unfold list_segments. rewrite list_elem_of_fmap. split.
  - intros ([q d] & [= -> ->] & [Hs Hin]%list_elem_of_filter).
    apply elem_of_map_to_list in Hin. apply andb_true_iff in Hs as [? ?]. eauto 10.
  - intros (d & Hd & Hs & Hv & ->). exists (p, d). split; [done|].
    apply list_elem_of_filter. rewrite Hs, Hv. by rewrite elem_of_map_to_list.
Qed.

Lemma list_segments_NoDup dir visible fs : NoDup (list_segments dir visible fs).*1.
Proof.
  unfold list_segments. rewrite <-list_fmap_compose.
  rewrite (list_fmap_ext _ fst) by (by intros ? [? ?] _).
  eapply sublist_NoDup; [apply (NoDup_fst_map_to_list (files fs))|].
  apply (fmap_sublist fst), sublist_filter.
Qed.

Lemma enforce_retention_only dir visible max fs fs' r p :
  enforce_retention dir visible max fs = (fs', r) ->
  files fs' !! p = files fs !! p \/ (is_segment dir p = true /\ files fs' !! p = None).
Proof.
  unfold enforce_retention. destruct (next_fault fs); intros [= <- <-]; [|auto..].
  set (segs := merge_sort _ _). set (fs1 := set_files _ _).
  destruct (retention_loop_only max segs (sum_sizes segs) fs1 p) as [H|[H1 H2]]; [auto|].
  right. split; [|done]. apply list_elem_of_fmap in H1 as ([q n] & -> & Hin).
  unfold segs in Hin. rewrite merge_sort_Permutation in Hin.
  by apply list_segments_elem in Hin as (? & ? & ? & _).
Qed.

(** With no faults left, the loop deletes the shortest prefix that brings the
    total under the cap. *)
Lemma retention_loop_prefix max segs fs :
  0 <= max -> faults fs = [] -> NoDup segs.*1 ->
  (forall p n, (p, n) ∈ segs -> is_Some (files fs !! p)) ->
  exists k,
    sum_sizes (drop k segs) <= max /\
    (forall j, (j < k)%nat -> max < sum_sizes (drop j segs)) /\
    forall p, files (retention_loop max segs (sum_sizes segs) fs) !! p =
      if bool_decide (p ∈ (take k segs).*1) then None else files fs !! p.
Proof.
  intros Hmax. revert fs. induction segs as [|[q n] segs IH]; intros fs Hf Hnd Hin.
  { exists 0%nat. split; [done|]. split; [lia|]. intros p. done. }
  cbn [retention_loop]. destruct (Z.leb_spec (sum_sizes ((q, n) :: segs)) max) as [Hle|Hgt].
  { exists 0%nat. split; [done|]. split; [lia|]. intros p. done. }
  apply NoDup_cons in Hnd as [Hq Hnd]. cbn [fst] in Hq.
  assert (fs_remove_file q fs = (set_files (delete q (files fs)) fs, Ok tt)) as ->.
  { unfold fs_remove_file, next_fault. rewrite Hf. simpl.
    destruct (Hin q n) as [d ->]; [left|done]. }
  change (sum_sizes ((q, n) :: segs)) with (n + sum_sizes segs) in *.
  replace (n + sum_sizes segs - n) with (sum_sizes segs) by lia.
  destruct (IH (set_files (delete q (files fs)) fs)) as (k & Hk & Hmin & Hfiles).
  { by destruct fs; simpl in *; subst. }
  { done. }
  { intros p m Hp. cbn [set_files files]. rewrite lookup_delete_ne; [eapply Hin; by right|].
    intros <-. apply Hq, list_elem_of_fmap. by exists (q, m). }
  exists (S k). split; [done|]. split.
  { intros [|j] Hj; [done|]. apply (Hmin j). lia. }
  intros p. rewrite Hfiles. cbn [set_files files take fmap list_fmap fst].
  destruct (decide (p = q)) as [->|Hpq].
  - rewrite lookup_delete_eq, (bool_decide_eq_true_2 (q ∈ q :: _)) by left. by case_bool_decide.
  - rewrite lookup_delete_ne by done. by rewrite (bool_decide_ext _ (p ∈ q :: (take k segs).*1)) by set_solver.
Qed.

(** What a call of [write_segment] leaves in the directory, whatever faults
    occur. *)
Lemma write_segment_spec `{LE : LogEngine} visible dir recs max now seq fs fs' r p :
  write_segment visible dir recs max now seq fs = (fs', r) ->
  if is_segment dir p then
    files fs' !! p = files fs !! p \/ files fs' !! p = None \/
    (p = path_join dir (segment_name now seq) /\
     parquet_encode (build_batch recs) = (default [] (files fs' !! p), Ok tt))
  else p <> path_join dir (segment_name now seq ++ str ".tmp") ->
       p <> path_join dir (segment_name now seq) -> files fs' !! p = files fs !! p.
Proof.
  unfold write_segment. set (final := path_join dir (segment_name now seq)).
  set (tmp := path_join dir (segment_name now seq ++ str ".tmp")).
  assert (is_segment dir tmp = false) as Htmp.
  { apply tmp_not_segment; [by unfold segment_name|apply segment_name_no_slash]. }
  destruct (parquet_encode (build_batch recs)) as [data enc] eqn:Eenc.
  cbv [mbind io_bind lift]. destruct (fs_write tmp data fs) as [fs1 [[]|e]] eqn:Ew.
  2: { intros [= <- <-]. destruct (is_segment dir p) eqn:Ep.
       - left. eapply fs_write_other; [done|]. congruence.
       - intros Hp _. by eapply fs_write_other. }
  pose proof (fs_write_ok _ _ _ _ Ew) as Hw.
  assert (p <> tmp -> files fs1 !! p = files fs !! p) as Hother
    by (intros Hp; rewrite Hw; by rewrite lookup_insert_ne).
  destruct enc as [[]|e].
  2: { intros [= <- <-]. destruct (is_segment dir p) eqn:Ep; [left; apply Hother; congruence|auto]. }
  destruct (fs_rename tmp final fs1) as [fs2 [[]|e]] eqn:Er.
  2: { intros [= <- <-]. apply fs_rename_err in Er. rewrite Er.
       destruct (is_segment dir p) eqn:Ep; [left; apply Hother; congruence|auto]. }
  apply fs_rename_ok in Er as (d & Hd & Er). rewrite Hw, lookup_insert_eq in Hd. injection Hd as <-.
  assert (p <> tmp -> p <> final -> files fs2 !! p = files fs !! p) as Hother2.
  { intros Hp Hf. rewrite Er, lookup_insert_ne, lookup_delete_ne by done. auto. }
  intros Hret. apply (enforce_retention_only _ _ _ _ _ _ p) in Hret.
  destruct (is_segment dir p) eqn:Ep.
  - assert (p <> tmp) by congruence. destruct Hret as [->|[_ ->]]; [|auto].
    destruct (decide (p = final)) as [->|Hf]; [|left; auto].
    right. right. split; [done|]. by rewrite Er, lookup_insert_eq.
  - intros Hp Hf. destruct Hret as [->|[? _]]; [|done]. auto.
Qed.

Lemma write_segment_other `{LE : LogEngine} visible dir recs max now seq fs fs' r p :
  write_segment visible dir recs max now seq fs = (fs', r) -> entry_name dir p = None -> same_file fs fs' p.
Proof.
  intros Hw He. pose proof (write_segment_spec visible _ _ _ _ _ _ _ _ p Hw) as H.
  unfold is_segment in H. rewrite He in H. apply H; intros ->.
  - rewrite entry_name_join in He; [done|by unfold segment_name|].
    rewrite not_elem_of_app. split; [apply segment_name_no_slash|]. vm_compute. set_solver.
  - rewrite entry_name_join in He; [done|by unfold segment_name|apply segment_name_no_slash].
Qed.

(** ** Properties *)

(** Segment names sort chronologically: for clock values of at most 14
    digits and sequence numbers of at most 6, the later segment has the
    strictly greater name. *)
Theorem segment_names_chronological now1 seq1 now2 seq2 :
  0 <= now1 -> now2 < 10 ^ 14 -> 0 <= seq1 < 10 ^ 6 -> 0 <= seq2 < 10 ^ 6 ->
  now1 < now2 \/ (now1 = now2 /\ seq1 < seq2) ->
  str_lt (segment_name now1 seq1) (segment_name now2 seq2).
Proof.
  intros H1 H2 Hs1 Hs2 Hlt. unfold segment_name, fmt_dec.
  rewrite (zero_pad_fixed 10 14 now1), (zero_pad_fixed 10 14 now2) by lia.
  rewrite (zero_pad_fixed 10 6 seq1), (zero_pad_fixed 10 6 seq2) by lia.
  apply str_lt_prefix. destruct Hlt as [Hlt|[-> Hlt]].
  - apply str_lt_app; [by rewrite !length_fixed_digits|]. apply fixed_digits_lt; lia.
  - do 2 apply str_lt_prefix.
    apply str_lt_app; [by rewrite !length_fixed_digits|]. apply fixed_digits_lt; lia.
Qed.

(** C37. The size cap: when the file operations succeed, [enforce_retention]
    deletes the shortest run of oldest segments (in name order) that brings
    the directory under [max_bytes]; every newer segment and every other file
    stays. *)
Theorem retention_keeps_newest dir visible max fs fs' r :
  0 <= max -> faults fs = [] ->
  enforce_retention dir visible max fs = (fs', r) ->
  exists k, let segs := merge_sort path_le (list_segments dir visible fs) in
    sum_sizes (drop k segs) <= max /\
    (forall j, (j < k)%nat -> max < sum_sizes (drop j segs)) /\
    (forall p, files fs' !! p = if bool_decide (p ∈ (take k segs).*1) then None else files fs !! p) /\
    Sorted path_le segs /\ segs ≡ₚ list_segments dir visible fs.
Proof.
  intros Hmax Hf. unfold enforce_retention, next_fault. rewrite Hf. cbn [head default].
  intros [= <- _]. set (fs1 := set_files (files fs) fs).
  assert (list_segments dir visible fs1 = list_segments dir visible fs) as -> by done.
  set (segs := merge_sort path_le (list_segments dir visible fs)).
  pose proof (merge_sort_Permutation path_le (list_segments dir visible fs)) as Hp. fold segs in Hp.
  destruct (retention_loop_prefix max segs fs1 Hmax) as (k & Hk & Hmin & Hfiles).
  - unfold fs1. simpl. by rewrite Hf.
  - rewrite Hp. apply list_segments_NoDup.
  - intros p n Hin. rewrite Hp in Hin. apply list_segments_elem in Hin as (d & Hd & _).
    unfold fs1. simpl. eauto.
  - exists k. split; [done|]. split; [done|]. split; [exact Hfiles|]. split; [|done].
    apply Sorted_merge_sort. intros a b. apply str_le_total.
Qed.

(** C39. Readers never see a half-written segment: whatever faults occur, every
    segment file afterwards is one that was there before with the same
    content, or the new one with the complete encoding; segments otherwise
    only disappear, and no file but segments and the temporary one changes. *)
Theorem write_segment_complete `{LE : LogEngine} visible dir recs max now seq fs fs' r p :
  write_segment visible dir recs max now seq fs = (fs', r) ->
  if is_segment dir p then
    files fs' !! p = files fs !! p \/ files fs' !! p = None \/
    (p = path_join dir (segment_name now seq) /\
     parquet_encode (build_batch recs) = (default [] (files fs' !! p), Ok tt))
  else p <> path_join dir (segment_name now seq ++ str ".tmp") ->
       p <> path_join dir (segment_name now seq) -> files fs' !! p = files fs !! p.
Proof. apply write_segment_spec. Qed.

(** The log buffer is bounded and segments are numbered without reuse: the
    task never holds [flush_rows] records after a turn of its loop, also when
    writes fail, and each flush takes the next sequence number. *)
Theorem log_writer_bounded `{LE : LogEngine} visible cfg created fs seq evs ev :
  let w := run_log_writer visible cfg created fs seq evs in
  let w' := log_step visible cfg w ev in
  Z.of_nat (length (lw_buf w)) < Z.max (flush_rows cfg) 1 /\
  (lw_seq w' = lw_seq w \/ (lw_seq w' = as_u 64 (lw_seq w + 1) /\ lw_buf w' = [])).
Proof.
  assert (forall w now, lw_buf (log_flush visible cfg now w) = []) as Hflush.
  { intros w now. unfold log_flush. case_bool_decide; [done|]. by destruct (write_segment _ _ _ _ _ _ _). }
  assert (forall w now, lw_seq (log_flush visible cfg now w) = lw_seq w \/
            lw_seq (log_flush visible cfg now w) = as_u 64 (lw_seq w + 1)) as Hseq.
  { intros w now. unfold log_flush. case_bool_decide; [auto|]. destruct (write_segment _ _ _ _ _ _ _). auto. }
  cbv zeta. split.
  - unfold run_log_writer. destruct created; [|simpl; lia].
    assert (Z.of_nat (length (lw_buf (mk_log_writer fs seq [] false))) < Z.max (flush_rows cfg) 1) as H
      by (simpl; lia).
    revert H. generalize (mk_log_writer fs seq [] false).
    induction evs as [|e evs IH]; intros w H; [done|]. cbn [foldl]. apply IH.
    unfold log_step. destruct (lw_done w); [done|]. destruct e; cbv zeta.
    + destruct (Z.leb_spec (Z.max (flush_rows cfg) 1) (Z.of_nat (length (lw_buf
        (mk_log_writer (lw_fs w) (lw_seq w) (lw_buf w ++ [r]) false))))); [rewrite Hflush; simpl; lia|done].
    + cbn [lw_buf]. rewrite Hflush. simpl. lia.
    + rewrite Hflush. simpl. lia.
  - generalize (run_log_writer visible cfg created fs seq evs) as w. intros w.
    unfold log_step. destruct (lw_done w); [auto|]. destruct ev; cbv zeta.
    + destruct (_ <=? _); [|auto]. rewrite Hflush.
      destruct (Hseq (mk_log_writer (lw_fs w) (lw_seq w) (lw_buf w ++ [r]) false) now) as [->| ->]; auto.
    + cbn [lw_buf lw_seq]. rewrite Hflush. destruct (Hseq w now) as [->| ->]; auto.
    + rewrite Hflush. destruct (Hseq w now) as [->| ->]; auto.
Qed.

(** The records delivered before the channel closes. *)
Fixpoint log_items (evs : list log_event) : list LogRecord :=
  match evs with
  | [] => []
  | LogItem r _ :: evs' => r :: log_items evs'
  | LogClosed _ :: _ => []
  | LogTick _ :: evs' => log_items evs'
  end.

Section LogOrder.
Context `{LE : LogEngine} (visible : rstring -> bool) (cfg : QlogConfig).

(** Writing segments one after the other, each with its clock. *)
Definition segments_from (fs : Fs) (seq : Z) (segs : list (Z * list LogRecord)) : Fs * Z :=
  foldl (fun '(fs, seq) '(now, recs) =>
    ((write_segment visible (qlog_dir cfg) recs (max_bytes cfg) now seq fs).1, as_u 64 (seq + 1))) (fs, seq) segs.

Definition rows_cap : Z := Z.max (flush_rows cfg) 1.

(** What is on disk is [fs] with segments written which, with the buffer, are
    the records received, in order. *)
Definition logged (fs : Fs) (seq : Z) (w : LogWriter) (received : list LogRecord) : Prop :=
  exists segs, (lw_fs w, lw_seq w) = segments_from fs seq segs /\
    Forall (fun s => 0 < Z.of_nat (length s.2) <= rows_cap) segs /\
    (segs ≫= snd) ++ lw_buf w = received.

Lemma logged_flush fs seq now w received :
  Z.of_nat (length (lw_buf w)) <= rows_cap -> logged fs seq w received ->
  logged fs seq (log_flush visible cfg now w) received /\ lw_buf (log_flush visible cfg now w) = [].
Proof.
  intros Hl (segs & Hf & Hok & Hi). unfold log_flush. case_bool_decide as Hb.
  { split; [by exists segs|done]. }
  destruct (write_segment _ _ _ _ _ _ _) as [fs' r] eqn:E. split; [|done].
  exists (segs ++ [(now, lw_buf w)]). cbn [lw_fs lw_seq lw_buf]. unfold segments_from in *.
  rewrite foldl_app, <-Hf. cbn [foldl]. rewrite E. split; [done|]. split.
  - apply Forall_app. split; [done|]. apply Forall_singleton. cbn [snd].
    destruct (lw_buf w); [done|cbn [length] in *; lia].
  - rewrite bind_app. cbn [mbind list_bind snd]. by rewrite !app_nil_r.
Qed.

Lemma logged_run fs seq w received evs :
  lw_done w = false -> Z.of_nat (length (lw_buf w)) < rows_cap -> logged fs seq w received ->
  let w' := foldl (log_step visible cfg) w evs in
  logged fs seq w' (received ++ log_items evs) /\ Z.of_nat (length (lw_buf w')) < rows_cap /\
  (lw_done w' = true -> lw_buf w' = []).
Proof.
  assert (forall evs w, lw_done w = true -> foldl (log_step visible cfg) w evs = w) as Hstop.
  { clear. induction evs as [|ev evs IH]; intros w Hw; [done|]. cbn [foldl].
    unfold log_step at 2. rewrite Hw. by apply IH. }
  assert (forall now w, lw_done (log_flush visible cfg now w) = lw_done w) as Hdone.
  { intros now w0. unfold log_flush. case_bool_decide; [done|]. by destruct (write_segment _ _ _ _ _ _ _). }
  assert (Z.of_nat 0 < rows_cap) as H0 by (unfold rows_cap; lia).
  cbv zeta. revert w received. induction evs as [|ev evs IH]; intros w received Hd Hl Hw.
  { cbn. rewrite app_nil_r. split; [done|]. split; [done|congruence]. }
  cbn [foldl]. destruct ev as [x now|now|now]; cbn [log_items];
    match goal with |- context [log_step visible cfg w ?ev] =>
      let s := eval unfold log_step in (log_step visible cfg w ev) in
      change (log_step visible cfg w ev) with s; rewrite Hd; fold rows_cap; cbv zeta end.
  - set (w1 := mk_log_writer _ _ (lw_buf w ++ [x]) false).
    assert (logged fs seq w1 (received ++ [x])) as Hw1.
    { destruct Hw as (segs & Hf & Hok & <-). exists segs. by rewrite <-(assoc_L (++)). }
    change (received ++ x :: log_items evs) with (received ++ [x] ++ log_items evs). rewrite (assoc_L (++)).
    destruct (Z.leb_spec rows_cap (Z.of_nat (length (lw_buf w1)))).
    + destruct (logged_flush fs seq now w1 (received ++ [x])) as [Hw2 Hb]; [|exact Hw1|].
      { unfold w1. cbn [lw_buf]. rewrite length_app. cbn [length]. lia. }
      apply IH; [by rewrite Hdone|by rewrite Hb|done].
    + by apply IH.
  - rewrite !Hstop, app_nil_r by done. cbn [lw_buf lw_done].
    destruct (logged_flush fs seq now w received) as [(segs & Hs) Hb]; [lia|done|].
    rewrite Hb in *. split; [|done]. by exists segs.
  - destruct (logged_flush fs seq now w received) as [Hw2 Hb]; [lia|done|].
    apply IH; [by rewrite Hdone|by rewrite Hb|done].
Qed.
End LogOrder.

(** C38. The log task writes what it receives, once and in order: whatever it
    receives and whichever operations fail, the file system is the one it
    started from with segments written one after the other, under consecutive
    sequence numbers; each has between one record and [flush_rows]; and the
    records of the segments, with those still in the buffer, are exactly the
    records received before the channel closed.  The buffer stays below
    [flush_rows], and is empty once the task has ended.  If the directory
    cannot be made nothing is written. *)
Theorem log_writer_in_order `{LE : LogEngine} visible cfg created fs seq evs :
  let w := run_log_writer visible cfg created fs seq evs in
  if created then
    (exists segs, (lw_fs w, lw_seq w) = segments_from visible cfg fs seq segs /\
       Forall (fun s => 0 < Z.of_nat (length s.2) <= Z.max (flush_rows cfg) 1) segs /\
       (segs ≫= snd) ++ lw_buf w = log_items evs) /\
    Z.of_nat (length (lw_buf w)) < Z.max (flush_rows cfg) 1 /\ (lw_done w = true -> lw_buf w = [])
  else lw_fs w = fs /\ lw_buf w = [].
Proof.
  unfold run_log_writer. destruct created; [|done]. cbv zeta.
  refine (logged_run visible cfg fs seq (mk_log_writer fs seq [] false) [] evs eq_refl _ _).
  - unfold rows_cap. cbn [lw_buf length]. lia.
  - by exists [].
Qed.

(** ** Worked examples *)

Section Witnesses.
(** An encoder that writes the number of rows. *)
#[local] Instance row_count : LogEngine := {|
  parquet_encode b := (to_be 4 (Z.of_nat (length (col_ts b))), Ok tt);
  datafusion_query _ _ _ _ := Ok [];
|}.

Lemma segment_names_chronological_witness :
  str_lt (segment_name 1700000000000 7) (segment_name 1700000000001 3).
Proof. refine (segment_names_chronological _ _ _ _ _ _ _ _ _); vm_compute; intuition congruence. Defined.

Definition log_fs : Fs := mk_fs
  {[ str "logs/qlog-00000000000001-000000.parquet" := [x00; x01; x02];
     str "logs/qlog-00000000000002-000001.parquet" := [x00; x01];
     str "logs/notes.txt" := [x00; x01; x02; x03; x04] ]} [].

Lemma retention_keeps_newest_witness :
  exists k, let segs := merge_sort path_le (list_segments (str "logs") (fun _ => true) log_fs) in
    sum_sizes (drop k segs) <= 4 /\ (forall j, (j < k)%nat -> 4 < sum_sizes (drop j segs)).
Proof.
  refine (let '(ex_intro _ k (conj H1 (conj H2 _))) :=
    retention_keeps_newest (str "logs") (fun _ => true) 4 log_fs _ _ _ eq_refl (surjective_pairing _)
    in ex_intro _ k (conj H1 H2)).
  vm_compute. congruence.
Defined.

Definition one_record : LogRecord :=
  mk_log 5 (str "1.2.3.4") (str "a.com") (str "A") (str "cached") 0.

Lemma write_segment_complete_witness :
  let p := str "logs/qlog-00000000000005-000002.parquet" in
  let fs' := (write_segment (fun _ => true) (str "logs") [one_record] 100 5 2 log_fs).1 in
  is_segment (str "logs") p = true /\
  (files fs' !! p = files log_fs !! p \/ files fs' !! p = None \/
   (p = path_join (str "logs") (segment_name 5 2) /\
    parquet_encode (build_batch [one_record]) = (default [] (files fs' !! p), Ok tt))).
Proof.
  intros p fs'. split; [vm_refl|].
  exact (write_segment_complete (fun _ => true) (str "logs") [one_record] 100 5 2 log_fs _ _ p
    (surjective_pairing _)).
Defined.
End Witnesses.
