(* ===== verification/Stats.v ===== *)
(** * Runtime counters ([src/stats.rs])

    Six wrapping 64-bit counters and the snapshot the web UI reads.  The cache
    hit rate is computed in [f64], which [SpecFloat] of the standard library
    specifies bit by bit. *)

From Stdlib Require Import SpecFloat.
From S2P Require Import Prelude.

Record Stats := mk_stats {
  queries : Z;
  blocked : Z;
  cache_hits : Z;
  forwarded : Z;
  upstream_errors : Z;
  dropped : Z;
  started : Z;        (* the instant of the start, in seconds *)
}.

(** [Stats::default]. *)
Definition stats_default (now : Z) : Stats := mk_stats 0 0 0 0 0 0 now.

Inductive counter := Queries | Blocked | CacheHits | Forwarded | UpstreamErrors | Dropped.

(** [fetch_add(1)] on an [AtomicU64]: it wraps. *)
Definition fetch_add (x : Z) : Z := as_u 64 (x + 1).

Definition bump (c : counter) (s : Stats) : Stats :=
  let 'mk_stats q b h f e d t := s in
  match c with
  | Queries => mk_stats (fetch_add q) b h f e d t
  | Blocked => mk_stats q (fetch_add b) h f e d t
  | CacheHits => mk_stats q b (fetch_add h) f e d t
  | Forwarded => mk_stats q b h (fetch_add f) e d t
  | UpstreamErrors => mk_stats q b h f (fetch_add e) d t
  | Dropped => mk_stats q b h f e (fetch_add d) t
  end.

Record StatsSnapshot := mk_snapshot {
  ss_queries : Z;
  ss_blocked : Z;
  ss_cache_hits : Z;
  ss_forwarded : Z;
  ss_upstream_errors : Z;
  ss_dropped : Z;
  cache_hit_rate : spec_float;
  uptime_secs : Z;
  cache_entries : Z;
}.

(** [z as f64] of an unsigned integer, and [f64] division: 53 bits of
    precision, exponents below 1024, ties to even. *)
Definition f64_of_u (z : Z) : spec_float := binary_normalize 53 1024 z 0 false.
Definition f64_div (a b : spec_float) : spec_float := SFdiv 53 1024 a b.

(** [Stats::snapshot]. *)
Definition snapshot (s : Stats) (now entries : Z) : StatsSnapshot :=
  let hits := cache_hits s in
  let fwd := forwarded s in
  let lookups := as_u 64 (hits + fwd) in
  {| ss_queries := queries s;
     ss_blocked := blocked s;
     ss_cache_hits := hits;
     ss_forwarded := fwd;
     ss_upstream_errors := upstream_errors s;
     ss_dropped := dropped s;
     cache_hit_rate := if 0 <? lookups then f64_div (f64_of_u hits) (f64_of_u lookups)
                       else S754_zero false;
     uptime_secs := Z.max 0 (now - started s);
     cache_entries := entries |}.

(** ** Accounting *)

(** Every counted query is blocked, answered from the cache, forwarded or
    failed; the equation is modulo the width of the counters. *)
Definition balanced (s : Stats) : Prop :=
  as_u 64 (queries s) = as_u 64 (blocked s + cache_hits s + forwarded s + upstream_errors s).

Lemma balanced_default now : balanced (stats_default now).
Proof. reflexivity. Qed.

(** One query and one outcome keep the balance. *)
Lemma balanced_bump c s :
  c <> Queries -> c <> Dropped -> balanced s -> balanced (bump c (bump Queries s)).
Proof.
  destruct s as [q b h f e d t]. unfold balanced, fetch_add, as_u. intros Hq Hd.
  destruct c; try done; cbn [bump queries blocked cache_hits forwarded upstream_errors];
    unfold fetch_add, as_u; intros H; Z.div_mod_to_equations; lia.
Qed.

Lemma balanced_dropped s : balanced s -> balanced (bump Dropped s).
Proof. by destruct s. Qed.

(** The counters stay 64-bit integers. *)
Definition stats_typed (s : Stats) : Prop :=
  Forall (is_u 64) [queries s; blocked s; cache_hits s; forwarded s; upstream_errors s; dropped s].

Lemma stats_default_typed now : stats_typed (stats_default now).
Proof. repeat constructor; done. Qed.

Lemma bump_typed c s : stats_typed s -> stats_typed (bump c s).
Proof.
  destruct s as [q b h f e d t0]. unfold stats_typed. rewrite !Forall_cons.
  assert (forall z, is_u 64 (fetch_add z)) by (intros z; by apply as_u_is_u).
  destruct c; cbn; naive_solver.
Qed.

(** ** Worked examples *)

Example rate_three_quarters :
  cache_hit_rate (snapshot (mk_stats 4 0 3 1 0 0 0) 9 1) = f64_div (f64_of_u 3) (f64_of_u 4).
Proof. reflexivity. Qed.
Example rate_value : f64_div (f64_of_u 3) (f64_of_u 4) = S754_finite false 6755399441055744 (-53).
Proof. reflexivity. Qed.
Example rate_no_lookups : cache_hit_rate (snapshot (stats_default 0) 9 0) = S754_zero false.
Proof. reflexivity. Qed.
