(* ===== verification/State.v ===== *)
(** * Shared state ([src/state.rs])

    The state the DNS path and the web API share, with the [tokio] channels and
    the semaphore it holds as parameters. *)

From S2P Require Import Prelude RustStr Config Blocklist Hickory Cache Upstream Qlog Stats.

(** ** Bounded channels and semaphores ([tokio::sync]) *)

(** A [Sender]; the receiving task is elsewhere. *)
Class Mpsc := {
  Sender : Type -> Type;
  channel : forall A, Z -> Sender A;
  try_send : forall A, Sender A -> A -> Sender A * bool;
  sent : forall A, Sender A -> list A;   (* ghost: everything accepted so far *)
}.
Arguments channel {_} A.
Arguments try_send {_ A}.
Arguments sent {_ A}.

(** A refused item is dropped and leaves the channel as it was. *)
Class MpscLaws (M : Mpsc) : Prop := {
  channel_sent A n : sent (channel A n) = [];
  try_send_spec A (c : Sender A) x c' b :
    try_send c x = (c', b) -> sent c' = sent c ++ (if b then [x] else []);
}.

Class Semaphores := {
  Semaphore : Type;
  sem_new : Z -> Semaphore;
  try_acquire : Semaphore -> option Semaphore;   (* [try_acquire_owned] *)
  release : Semaphore -> Semaphore;              (* dropping the permit *)
  available_permits : Semaphore -> Z;
}.

Class SemaphoreLaws (S : Semaphores) : Prop := {
  sem_new_permits n : 0 <= n -> available_permits (sem_new n) = n;
  sem_nonneg s : 0 <= available_permits s;
  try_acquire_Some s s' :
    try_acquire s = Some s' -> available_permits s = available_permits s' + 1;
  try_acquire_None s : try_acquire s = None -> available_permits s = 0;
  release_permits s : available_permits (release s) = available_permits s + 1;
}.

(** ** The state *)

Record AppState `{MK : Moka, MP : Mpsc, SM : Semaphores} := mk_state {
  st_config : Config;
  st_blocklist : Blocklist;
  st_cache : DnsCache;
  st_inflight : Semaphore;
  st_persist : Sender (CacheKey * CachedResponse);
  st_qlog : option (Sender LogRecord);
  st_upstream : Upstream;
  st_stats : Stats;
  st_config_path : rstring;
}.
Arguments AppState {_ _ _}.
Arguments mk_state {_ _ _}.

(** ** Concrete channels and semaphores for the worked examples *)

Module MemSync.
(** A channel that nobody drains: its capacity and what it accepted. *)
Instance mpsc : Mpsc := {|
  Sender A := (Z * list A)%type;
  channel A n := (n, []);
  try_send A '(n, l) x := if Z.of_nat (length l) <? n then ((n, l ++ [x]), true) else ((n, l), false);
  sent A := snd;
|}.

Lemma mpsc_laws : MpscLaws mpsc.
Proof.
  split; [done|]. intros A [n l] x c' b. cbn [try_send mpsc sent snd].
  destruct (_ <? n); intros [= <- <-]; simpl; by rewrite ?app_nil_r.
Qed.

(** The number of free permits. *)
Instance sems : Semaphores := {|
  Semaphore := nat;
  sem_new := Z.to_nat;
  try_acquire n := match n with O => None | S n' => Some n' end;
  release := S;
  available_permits := Z.of_nat;
|}.

Lemma sems_laws : SemaphoreLaws sems.
Proof.
  split; simpl.
  - intros n Hn. by rewrite Z2Nat.id.
  - intros s. lia.
  - intros [|n] s' [=]. subst. lia.
  - by intros [|n].
  - intros s. lia.
Qed.
End MemSync.
