(* ===== verification/Dns.v ===== *)
(** * The DNS query path ([src/dns.rs])

    The handler of one query, the messages it builds, the admission of UDP
    packets and the loop of a TCP connection.  Clocks and the network are what
    a [HandleEnv] says; the crates are the classes of the other files. *)

From S2P Require Import Prelude RustStr NetAddr Fs Config Blocklist Hickory Cache Upstream Qlog Stats State.

(** ** Replies *)

(** [patch_id]: overwrite the first two bytes. *)
Definition patch_id (wire : bytes) (id : Z) : bytes :=
  if (2 <=? length wire)%nat
  then <[1%nat := byte_of_Z (Z.land id 0xff)]> (<[0%nat := byte_of_Z (Z.shiftr id 8)]> wire)
  else wire.

Section Replies.
Context `{HK : Hickory}.

Definition base_response (request : Message) (query : Query) : Message :=
  let resp := response (m_id (view request)) (m_op_code (view request)) in
  let resp := set_recursion_desired (m_recursion_desired (view request)) resp in
  let resp := set_recursion_available true resp in
  add_query query resp.

Definition build_blocked (request : Message) (query : Query) (dns : DnsConfig) : bytes :=
  let resp := base_response request query in
  if bool_decide (sinkhole_mode dns = str "nxdomain") then
    default [] (to_vec (set_response_code NXDomain resp))
  else
    let resp :=
      if rtype_eqb (query_type query) RT_A then
        add_answer (from_rdata (query_name query) (sinkhole_ttl dns) (rdata_A (sinkhole_ipv4 dns))) resp
      else if rtype_eqb (query_type query) RT_AAAA then
        add_answer (from_rdata (query_name query) (sinkhole_ttl dns) (rdata_AAAA (sinkhole_ipv6 dns))) resp
      else resp in
    default [] (to_vec resp).

Definition build_response_code (request : Message) (query : Query) (code : ResponseCode) : bytes :=
  let resp := base_response request query in
  default [] (to_vec (set_response_code code resp)).
End Replies.

(** ** The handler *)

(** What one call of [handle] reads from outside: the clock of the cache and
    [now_unix] in seconds, [now_ms], the elapsed milliseconds, the network. *)
Record HandleEnv := mk_env {
  env_clock : Z;
  env_unix : Z;
  env_ms : Z;
  env_elapsed : Z;
  env_net : nat -> Exchange;
}.

(** [Aborted]: a panic, which ends the process. *)
Inductive outcome := Aborted | Done (reply : option bytes).

Section Handle.
Context `{U : Unicode, HK : Hickory, MK : Moka, MP : Mpsc, SM : Semaphores}.

(** Updates of single fields of the state. *)
Definition on_stats (f : Stats -> Stats) (st : AppState) : AppState :=
  mk_state (st_config st) (st_blocklist st) (st_cache st) (st_inflight st) (st_persist st)
    (st_qlog st) (st_upstream st) (f (st_stats st)) (st_config_path st).
Definition set_cache (c : DnsCache) (st : AppState) : AppState :=
  mk_state (st_config st) (st_blocklist st) c (st_inflight st) (st_persist st)
    (st_qlog st) (st_upstream st) (st_stats st) (st_config_path st).
Definition set_persist (p : Sender (CacheKey * CachedResponse)) (st : AppState) : AppState :=
  mk_state (st_config st) (st_blocklist st) (st_cache st) (st_inflight st) p
    (st_qlog st) (st_upstream st) (st_stats st) (st_config_path st).
Definition set_qlog (q : option (Sender LogRecord)) (st : AppState) : AppState :=
  mk_state (st_config st) (st_blocklist st) (st_cache st) (st_inflight st) (st_persist st)
    q (st_upstream st) (st_stats st) (st_config_path st).
Definition set_inflight (s : Semaphore) (st : AppState) : AppState :=
  mk_state (st_config st) (st_blocklist st) (st_cache st) s (st_persist st)
    (st_qlog st) (st_upstream st) (st_stats st) (st_config_path st).

(** The name a query is matched and cached under. *)
Definition query_domain (query : Query) : rstring :=
  to_lowercase (trim_end_by (Z.eqb DOT) (name_to_string (query_name query))).

Definition query_key (query : Query) : CacheKey :=
  mk_key (query_domain query) (rtype_code (query_type query)).

(** The init closure of [try_get_with]: resolve, then offer the entry to the
    write-behind task. *)
Definition fetch (env : HandleEnv) (up : Upstream) (data : bytes) (key : CacheKey)
    (s : trace * Sender (CacheKey * CachedResponse)) :
    (trace * Sender (CacheKey * CachedResponse)) * result error CachedResponse :=
  let '(tr, persist) := s in
  match resolve up (env_net env) (env_unix env) data tr with
  | (tr', Ok resp) =>
    let '(persist', _) := try_send persist (key, resp) in ((tr', persist'), Ok resp)
  | (tr', Err e) => ((tr', persist), Err e)
  end.

(** The response and action of a query; [None] when it panics. *)
Definition answer (env : HandleEnv) (data : bytes) (request : Message) (query : Query)
    (w : AppState * trace) : (AppState * trace) * option (bytes * rstring) :=
  let '(st, tr) := w in
  let name := query_domain query in
  if is_blocked (st_blocklist st) name then
    ((on_stats (bump Blocked) st, tr),
     Some (build_blocked request query (cfg_dns (st_config st)), str "blocked"))
  else
    let key := mk_key name (rtype_code (query_type query)) in
    let id := m_id (view request) in
    let '(cache, hit) := moka_get (st_cache st) (env_clock env) key in
    let st := set_cache cache st in
    match hit with
    | Some cached =>
      ((on_stats (bump CacheHits) st, tr), Some (patch_id (wire cached) id, str "cached"))
    | None =>
      let '(cache, (tr, persist), result) :=
        moka_try_get_with _ (st_cache st) (env_clock env) key
          (fetch env (st_upstream st) data key) (tr, st_persist st) in
      let st := set_persist persist (set_cache cache st) in
      match result with
      | Ok cached =>
        ((on_stats (bump Forwarded) st, tr), Some (patch_id (wire cached) id, str "forwarded"))
      | Err Panicked => ((st, tr), None)
      | Err _ =>
        ((on_stats (bump UpstreamErrors) st, tr),
         Some (build_response_code request query ServFail, str "error"))
      end
    end.

(** The log record of an answered query. *)
Definition log_record (env : HandleEnv) (cfg : QlogConfig) (client : option IpAddr)
    (query : Query) (action : rstring) : LogRecord :=
  let client_str :=
    if log_client_ip cfg then match client with Some ip => show_ip ip | None => [] end else [] in
  mk_log (env_ms env) client_str (query_domain query) (rtype_to_string (query_type query))
    action (as_u 32 (env_elapsed env)).

Definition log_query (rec : LogRecord) (st : AppState) : AppState :=
  match st_qlog st with
  | Some tx => let '(tx', _) := try_send tx rec in set_qlog (Some tx') st
  | None => st
  end.

Definition handle (env : HandleEnv) (data : bytes) (client : option IpAddr)
    (w : AppState * trace) : (AppState * trace) * outcome :=
  match from_vec data with
  | None => (w, Done None)
  | Some request =>
    match head (m_queries (view request)) with
    | None => (w, Done None)
    | Some query =>
      let '(st, tr) := w in
      let st := on_stats (bump Queries) st in
      match answer env data request query (st, tr) with
      | ((st', tr'), Some (resp, action)) =>
        let rec := log_record env (cfg_qlog (st_config st)) client query action in
        ((log_query rec st', tr'), Done (Some resp))
      | (w', None) => (w', Aborted)
      end
    end
  end.
End Handle.

(** ** Listeners *)

(** [worker_count]; [parallelism] is [available_parallelism], if known. *)
Definition worker_count (configured : Z) (parallelism : option Z) : Z :=
  if 0 <? configured then configured else default 1 parallelism.

Definition sock_ip (a : SocketAddr) : IpAddr :=
  match a with SockV4 ip _ => V4 ip | SockV6 ip _ _ => V6 ip end.

Section Listeners.
Context `{U : Unicode, HK : Hickory, MK : Moka, MP : Mpsc, SM : Semaphores}.

(** The UDP side of a running server: the shared state, the spawned tasks that
    hold a permit, and the replies handed to the socket. *)
Record Server := mk_server {
  sv_state : AppState;
  sv_net : trace;
  sv_tasks : list (bytes * SocketAddr);
  sv_sent : list (SocketAddr * bytes);
}.

(** [udp_worker], up to the spawn: the datagram is cut to the buffer, and
    dropped when no permit is free. *)
Definition udp_recv (datagram : bytes) (peer : SocketAddr) (sv : Server) : Server :=
  let st := sv_state sv in
  match try_acquire (st_inflight st) with
  | Some s =>
    let data := take 4096 datagram in
    mk_server (set_inflight s st) (sv_net sv) (sv_tasks sv ++ [(data, peer)]) (sv_sent sv)
  | None => mk_server (on_stats (bump Dropped) st) (sv_net sv) (sv_tasks sv) (sv_sent sv)
  end.

(** A spawned task: handle, send the reply if there is one, drop the permit.
    [None] when the process aborts or there is no such task. *)
Definition udp_task (i : nat) (env : HandleEnv) (sv : Server) : option Server :=
  '(data, peer) ← sv_tasks sv !! i;
  match handle env data (Some (sock_ip peer)) (sv_state sv, sv_net sv) with
  | ((st, tr), Done r) =>
    let sent := match r with Some resp => [(peer, resp)] | None => [] end in
    Some (mk_server (set_inflight (release (st_inflight st)) st) tr
            (delete i (sv_tasks sv)) (sv_sent sv ++ sent))
  | (_, Aborted) => None
  end.

(** The part of a turn of [tcp_conn] that holds a permit; [None] when there
    was none to take. *)
Definition tcp_query (env : HandleEnv) (data : bytes) (client : IpAddr) (w : AppState * trace) :
    (AppState * trace) * option outcome :=
  let '(st, tr) := w in
  match try_acquire (st_inflight st) with
  | None => ((on_stats (bump Dropped) st, tr), None)
  | Some permit =>
    match handle env data (Some client) (set_inflight permit st, tr) with
    | ((st, tr), Done r) => ((set_inflight (release (st_inflight st)) st, tr), Some (Done r))
    | (w, Aborted) => (w, Some Aborted)
    end
  end.

(** The steps of a running server, for the environments [E] that can occur:
    a packet arrives, a task runs, a TCP connection asks. *)
Inductive server_step (E : HandleEnv -> Prop) : Server -> Server -> Prop :=
| UdpRecv datagram peer sv : server_step E sv (udp_recv datagram peer sv)
| UdpTask i env sv sv' : E env -> udp_task i env sv = Some sv' -> server_step E sv sv'
| TcpQuery env data client st tr tasks sent st' tr' r :
  E env -> tcp_query env data client (st, tr) = ((st', tr'), r) -> r <> Some Aborted ->
  server_step E (mk_server st tr tasks sent) (mk_server st' tr' tasks sent).

(** A frame on a TCP connection, as the replies are written. *)
Definition frame (resp : bytes) : bytes := to_be 2 (as_u 16 (Z.of_nat (length resp))) ++ resp.

(** How a connection ended. *)
Inductive conn_end := ConnClosed | ConnDropped | ConnAborted.

(** [tcp_conn] on the bytes that arrive before the peer closes or stalls.
    [wrote i] is how much of the [i]th reply could be written: all of it
    ([None]), or that many bytes before an error or a timeout.  [None] is out of
    fuel. *)
Fixpoint tcp_conn (fuel : nat) (envs : nat -> HandleEnv) (wrote : nat -> option nat) (i : nat)
    (client : IpAddr) (stream : bytes) (w : AppState * trace) (out : bytes) :
    option ((AppState * trace) * bytes * conn_end) :=
  match fuel with
  | O => None
  | S fuel' =>
    match read_exact 2 stream with
    | Err _ => Some (w, out, ConnClosed)
    | Ok (len_buf, stream) =>
      let len := Z.to_nat (from_be len_buf) in
      match read_exact len stream with
      | Err _ => Some (w, out, ConnClosed)
      | Ok (buf, stream) =>
        match tcp_query (envs i) buf client w with
        | (w, None) => Some (w, out, ConnDropped)
        | (w, Some Aborted) => Some (w, out, ConnAborted)
        | (w, Some (Done None)) => tcp_conn fuel' envs wrote (S i) client stream w out
        | (w, Some (Done (Some resp))) =>
          match wrote i with
          | None => tcp_conn fuel' envs wrote (S i) client stream w (out ++ frame resp)
          | Some n => Some (w, out ++ take n (frame resp), ConnClosed)
          end
        end
      end
    end
  end.

(** Every turn of the loop consumes at least the length prefix. *)
Definition conn_fuel (stream : bytes) : nat := S (length stream).
End Listeners.

(** ** Reply lemmas *)

Lemma patch_id_spec w id :
  (2 <= length w)%nat -> is_u 16 id -> patch_id w id = to_be 2 id ++ drop 2 w.
Proof.
  intros Hw Hid. unfold patch_id. rewrite (proj2 (Nat.leb_le _ _)) by done.
  destruct w as [|a [|b w]]; simpl in Hw; [lia..|]. cbn.
  f_equal. f_equal. rewrite Z.shiftr_0_r.
  rewrite <-(byte_of_Z_mod id). f_equal. apply (Z.land_ones id 8). lia.
Qed.

Section ReplyLemmas.
Context `{HK : Hickory} {HL : HickoryLaws HK}.

(** A parsed wire with another id is the same message with that id. *)
Lemma patch_id_parse w m id :
  from_vec w = Some m -> is_u 16 id ->
  exists m', from_vec (patch_id w id) = Some m' /\ view m' = with_id id (view m).
Proof using HL.
  intros Hw Hid. destruct (from_vec_header w m Hw) as [Hl _].
  rewrite patch_id_spec by (done || lia). by apply from_vec_patch.
Qed.

Lemma patch_id_same w m : from_vec w = Some m -> patch_id w (m_id (view m)) = w.
Proof using HL.
  intros Hw. destruct (from_vec_header w m Hw) as (Hl & Hid & Ht).
  rewrite patch_id_spec by (done || lia). rewrite <-Ht. apply take_drop.
Qed.

Lemma view_base_response request query :
  view (base_response request query) =
  mk_view _ (m_id (view request)) MtResponse (m_op_code (view request))
    (m_recursion_desired (view request)) true NoError [query] [].
Proof using HL.
  unfold base_response. by autorewrite with rdns_rw.
Qed.

(** The message [build_blocked] serialises. *)
Lemma build_blocked_msg request query dns :
  exists msg, build_blocked request query dns = default [] (to_vec msg) /\
    view msg = mk_view _ (m_id (view request)) MtResponse (m_op_code (view request))
      (m_recursion_desired (view request)) true
      (if bool_decide (sinkhole_mode dns = str "nxdomain") then NXDomain else NoError) [query]
      (if bool_decide (sinkhole_mode dns = str "nxdomain") then []
       else if rtype_eqb (query_type query) RT_A
            then [from_rdata (query_name query) (sinkhole_ttl dns) (rdata_A (sinkhole_ipv4 dns))]
       else if rtype_eqb (query_type query) RT_AAAA
            then [from_rdata (query_name query) (sinkhole_ttl dns) (rdata_AAAA (sinkhole_ipv6 dns))]
       else []).
Proof using HL.
  unfold build_blocked. case_bool_decide; (eexists; split; [reflexivity|]).
  - autorewrite with rdns_rw. by rewrite view_base_response.
  - by destruct (rtype_eqb (query_type query) RT_A), (rtype_eqb (query_type query) RT_AAAA);
      autorewrite with rdns_rw; rewrite view_base_response.
Qed.

(** A built reply that serialises parses back to the message built. *)
Lemma to_vec_default m r :
  default [] (to_vec m) = r -> r <> [] ->
  Z.of_nat (length r) < 2 ^ 16 /\ exists m', from_vec r = Some m' /\ view m' = view m.
Proof using HL.
  intros <- Hr. destruct (to_vec m) as [w|] eqn:E; [|done]. by apply to_vec_from_vec.
Qed.
End ReplyLemmas.

(** ** What [handle] does, case by case *)

Section HandleSpec.
Context `{U : Unicode, HK : Hickory, MK : Moka, MP : Mpsc, SM : Semaphores}.

(** The five ways a query is answered, as effects on the state and the
    network: blocked, served from the cache, fetched, failed, panicked. *)
Inductive answer_spec (env : HandleEnv) (data : bytes) (request : Message) (query : Query)
    (st : AppState) (tr : trace) : AppState * trace -> option (bytes * rstring) -> Prop :=
| SpecBlocked :
  is_blocked (st_blocklist st) (query_domain query) = true ->
  answer_spec env data request query st tr (on_stats (bump Blocked) st, tr)
    (Some (build_blocked request query (cfg_dns (st_config st)), str "blocked"))
| SpecServed c v d cnt act :
  is_blocked (st_blocklist st) (query_domain query) = false ->
  moka_entries (st_cache st) !! query_key query = Some (v, d) -> live (env_clock env) d ->
  moka_entries c ⊆ moka_entries (st_cache st) -> moka_expiry c = moka_expiry (st_cache st) ->
  (cnt, act) ∈ [(CacheHits, str "cached"); (Forwarded, str "forwarded")] ->
  answer_spec env data request query st tr (on_stats (bump cnt) (set_cache c st), tr)
    (Some (patch_id (wire v) (m_id (view request)), act))
| SpecFetched c v tr' :
  is_blocked (st_blocklist st) (query_domain query) = false ->
  resolve (st_upstream st) (env_net env) (env_unix env) data tr = (tr', Ok v) ->
  moka_entries c ⊆ <[query_key query :=
    (v, deadline (st_cache st) (env_clock env) (query_key query) v)]> (moka_entries (st_cache st)) ->
  moka_expiry c = moka_expiry (st_cache st) ->
  answer_spec env data request query st tr
    (on_stats (bump Forwarded)
       (set_persist (try_send (st_persist st) (query_key query, v)).1 (set_cache c st)), tr')
    (Some (patch_id (wire v) (m_id (view request)), str "forwarded"))
| SpecFailed c e tr' :
  is_blocked (st_blocklist st) (query_domain query) = false ->
  resolve (st_upstream st) (env_net env) (env_unix env) data tr = (tr', Err e) -> e <> Panicked ->
  moka_entries c ⊆ moka_entries (st_cache st) -> moka_expiry c = moka_expiry (st_cache st) ->
  answer_spec env data request query st tr
    (on_stats (bump UpstreamErrors) (set_cache c st), tr')
    (Some (build_response_code request query ServFail, str "error"))
| SpecPanicked c tr' :
  is_blocked (st_blocklist st) (query_domain query) = false ->
  resolve (st_upstream st) (env_net env) (env_unix env) data tr = (tr', Err Panicked) ->
  moka_entries c ⊆ moka_entries (st_cache st) -> moka_expiry c = moka_expiry (st_cache st) ->
  answer_spec env data request query st tr (set_cache c st, tr') None.

Context {ML : MokaLaws MK}.

Lemma answer_ok env data request query st tr w' o :
  answer env data request query (st, tr) = (w', o) ->
  answer_spec env data request query st tr w' o.
Proof using ML.
  unfold answer. destruct (is_blocked _ _) eqn:Eb.
  { intros [= <- <-]. by constructor. }
  change (mk_key (query_domain query) (rtype_code (query_type query))) with (query_key query).
  destruct (moka_get (st_cache st) (env_clock env) (query_key query)) as [c1 hit] eqn:Eg.
  destruct (moka_get_spec _ _ _ _ _ Eg) as (Hsub & Hexp & Hhit). destruct hit as [v|].
  { destruct (Hhit v eq_refl) as (d & Hd & Hlive). intros [= <- <-].
    eapply SpecServed; eauto. left. }
  cbn [set_cache st_cache st_upstream st_persist].
  destruct (moka_try_get_with _ c1 _ _ _ _) as [[c2 [tr2 p2]] r] eqn:Et.
  destruct (moka_try_get_with_spec _ _ _ _ _ _ _ _ _ Et) as [Hexp2 Hcases].
  rewrite Hexp in Hexp2.
  change (set_cache c2 (set_cache c1 st)) with (set_cache c2 st).
  destruct Hcases as [(v & d & Hd & Hlive & Hs & -> & Hsub2)|[Hinit Hsub2]].
  - injection Hs as -> ->. change (set_persist (st_persist st) (set_cache c2 st)) with (set_cache c2 st).
    intros [= <- <-]. eapply (SpecServed _ _ _ _ _ _ c2 v d Forwarded); eauto.
    + by eapply lookup_weaken.
    + by trans (moka_entries c1).
    + right. left.
  - unfold fetch in Hinit. destruct (resolve _ _ _ _ _) as [tr' [v|e]] eqn:Er.
    + destruct (try_send (st_persist st) (query_key query, v)) as [p' b] eqn:Ep.
      injection Hinit as -> -> ->. intros [= <- <-].
      replace p' with (try_send (st_persist st) (query_key query, v)).1 by (by rewrite Ep).
      eapply SpecFetched; eauto. trans (<[query_key query := (v, deadline c1 (env_clock env) (query_key query) v)]>
        (moka_entries c1)); [done|].
      unfold deadline. rewrite Hexp. by apply insert_mono.
    + injection Hinit as -> -> ->.
      change (set_persist (st_persist st) (set_cache c2 st)) with (set_cache c2 st).
      assert (moka_entries c2 ⊆ moka_entries (st_cache st)) by (by trans (moka_entries c1)).
      destruct (decide (e = Panicked)) as [->|He].
      * intros [= <- <-]. by eapply (SpecPanicked _ _ _ _ _ _ c2).
      * intros H'. assert ((w', o) = (on_stats (bump UpstreamErrors) (set_cache c2 st), tr',
          Some (build_response_code request query ServFail, str "error"))) as [= -> ->]
          by (destruct e; done).
        by eapply SpecFailed.
Qed.

(** What each label of the query log means: [blocked] for blocked names,
    [cached] for unblocked ones that the cache has, [forwarded] and [error] for
    the rest, with the replies and the counters that go with them. *)
Definition outcome_of (env : HandleEnv) (st : AppState) (request : Message) (query : Query) (r : bytes)
    (cnt : counter) (act : rstring) : Prop :=
  let hit := (moka_get (st_cache st) (env_clock env) (query_key query)).2 in
  let id := m_id (view request) in
  if is_blocked (st_blocklist st) (query_domain query) then
    act = str "blocked" /\ cnt = Blocked /\ r = build_blocked request query (cfg_dns (st_config st))
  else match hit with
       | Some v => act = str "cached" /\ cnt = CacheHits /\ r = patch_id (wire v) id
       | None =>
         (act = str "forwarded" /\ cnt = Forwarded /\ exists v, r = patch_id (wire v) id) \/
         (act = str "error" /\ cnt = UpstreamErrors /\ r = build_response_code request query ServFail)
       end.

Lemma answer_outcome env data request query f st tr w1 r act :
  answer env data request query (on_stats f st, tr) = (w1, Some (r, act)) ->
  exists cnt, st_qlog w1.1 = st_qlog (on_stats f st) /\ st_stats w1.1 = bump cnt (f (st_stats st)) /\
    outcome_of env st request query r cnt act.
Proof.
  unfold answer, outcome_of.
  change (mk_key (query_domain query) (rtype_code (query_type query))) with (query_key query).
  cbn [on_stats st_blocklist st_cache st_config]. destruct (is_blocked _ _).
  { intros [= <- <- <-]. by exists Blocked. }
  destruct (moka_get _ _ _) as [c1 [v|]]; cbn [snd].
  { intros [= <- <- <-]. by exists CacheHits. }
  destruct (moka_try_get_with _ _ _ _ _ _) as [[c2 [tr2 p2]] [v|e]].
  { intros [= <- <- <-]. exists Forwarded. split; [done|]. split; [done|]. left. eauto. }
  destruct e; intros [= <- <- <-]; exists UpstreamErrors; (split; [done|]; split; [done|]); by right.
Qed.

(** A packet that is not a query leaves no trace; any other is counted,
    answered and logged. *)
Lemma handle_ok env data client st tr w' o :
  handle env data client (st, tr) = (w', o) ->
  (o = Done None /\ w' = (st, tr) /\
   (forall request, from_vec data = Some request -> m_queries (view request) = [])) \/
  (exists request query qs w1 a,
     from_vec data = Some request /\ m_queries (view request) = query :: qs /\
     answer_spec env data request query (on_stats (bump Queries) st) tr w1 a /\
     match a with
     | Some (resp, action) =>
       o = Done (Some resp) /\
       w' = (log_query (log_record env (cfg_qlog (st_config st)) client query action) w1.1, w1.2)
     | None => o = Aborted /\ w' = w1
     end).
Proof using ML.
  unfold handle. destruct (from_vec data) as [request|] eqn:Ep.
  2: { intros [= <- <-]. left. done. }
  destruct (m_queries (view request)) as [|query qs] eqn:Eq; cbn [head].
  { intros [= <- <-]. left. split; [done|]. split; [done|]. by intros ? [= <-]. }
  destruct (answer _ _ _ _ _) as [[st1 tr1] a] eqn:Ea. apply answer_ok in Ea.
  intros H. right. exists request, query, qs, (st1, tr1), a. split; [done|]. split; [done|].
  split; [done|]. destruct a as [[resp action]|]; by injection H as <- <-.
Qed.
End HandleSpec.

(** ** Invariants of the state *)

Section Invariants.
Context `{U : Unicode, HK : Hickory, MK : Moka, MP : Mpsc, SM : Semaphores}.

(** A predicate on the entries the cache may still serve. *)
Definition entries_inv (P : CacheKey -> CachedResponse -> option Z -> Prop) (st : AppState) : Prop :=
  forall k v d, moka_entries (st_cache st) !! k = Some (v, d) -> P k v d.

(** The wire is a reply that validated against a query with this key. *)
Definition genuine (k : CacheKey) (v : CachedResponse) : Prop :=
  exists data q qq, from_vec data = Some q /\ head (m_queries (view q)) = Some qq /\
    query_key qq = k /\ valid_response data (wire v) = true.

(** Entries and persisted rows are genuine replies. *)
Definition state_sound (st : AppState) : Prop :=
  entries_inv (fun k v _ => genuine k v) st /\
  forall k v, (k, v) ∈ sent (st_persist st) -> genuine k v.

(** Entries leave the cache at most one second, and the [slack] of a warm load,
    after their expiry. *)
Definition state_fresh (slack : Z) (st : AppState) : Prop :=
  moka_expiry (st_cache st) = expire_after_create /\
  is_u 32 (up_min_ttl (st_upstream st)) /\ is_u 32 (up_max_ttl (st_upstream st)) /\
  entries_inv (fun _ v d => exists t, d = Some t /\ t <= expires_unix v + 1 + slack) st.

(** The cache and the wall clock agree, before the year 2^63. *)
Definition synced (env : HandleEnv) : Prop :=
  env_clock env = env_unix env /\ 0 <= env_unix env < 2 ^ 63.

(** [r] is a reply to [query] of [request]: a response with its id, whose
    question has its type and a name equal to one with its normalised form. *)
Definition reply_for (request : Message) (query : Query) (r : bytes) : Prop :=
  exists m rq qq,
    from_vec r = Some m /\ m_type (view m) = MtResponse /\ m_id (view m) = m_id (view request) /\
    head (m_queries (view m)) = Some rq /\
    rtype_code (query_type rq) = rtype_code (query_type query) /\
    query_domain qq = query_domain query /\ name_eqb (query_name qq) (query_name rq) = true.

Lemma entries_inv_sub P st c :
  entries_inv P st -> moka_entries c ⊆ moka_entries (st_cache st) -> entries_inv P (set_cache c st).
Proof. intros H Hsub k v d Hk. eapply H, lookup_weaken; done. Qed.

Section Laws.
Context {HL : HickoryLaws HK} {ML : MokaLaws MK} {PL : MpscLaws MP} {SL : SemaphoreLaws SM}.

Lemma patch_reply_for request query v :
  is_u 16 (m_id (view request)) -> genuine (query_key query) v ->
  reply_for request query (patch_id (wire v) (m_id (view request))).
Proof using HL.
  intros Hid (d0 & q0 & qq & Hd0 & Hq0 & Hk & Hv). unfold valid_response in Hv. rewrite Hd0, Hq0 in Hv.
  destruct (from_vec (wire v)) as [m0|] eqn:Em; [|done].
  destruct (bool_decide (m_type (view m0) = MtResponse)) eqn:Et; [|done]. apply bool_decide_eq_true in Et.
  destruct (Z.eqb_spec (m_id (view m0)) (m_id (view q0))); [|done]. cbn [negb orb] in Hv.
  destruct (head (m_queries (view m0))) as [rq|] eqn:Erq; [|done].
  rewrite !andb_true_iff, rtype_eqb_eq in Hv. destruct Hv as [[Hn Ht] _].
  destruct (patch_id_parse _ _ _ Em Hid) as (m & Hm & Hvm). injection Hk as Hk1 Hk2.
  exists m, rq, qq. rewrite Hvm. cbn [with_id m_type m_id m_queries]. rewrite <-Ht. auto 20.
Qed.

Lemma built_reply_for request query msg a b c d e :
  view msg = mk_view _ (m_id (view request)) MtResponse a b c d [query] e ->
  default [] (to_vec msg) <> [] -> reply_for request query (default [] (to_vec msg)).
Proof using HL.
  intros Hmsg Hne. destruct (to_vec_default msg _ eq_refl Hne) as (_ & m & Hm & Hv).
  exists m, query, query. rewrite Hv, Hmsg. cbn [m_type m_id m_queries head]. auto 20 using name_eqb_refl.
Qed.

Lemma answer_entries P env data request query st tr w1 a :
  answer_spec env data request query st tr w1 a ->
  entries_inv P st ->
  (forall v tr', resolve (st_upstream st) (env_net env) (env_unix env) data tr = (tr', Ok v) ->
     P (query_key query) v (deadline (st_cache st) (env_clock env) (query_key query) v)) ->
  entries_inv P w1.1.
Proof.
  intros Ha H Hnew. destruct Ha; try (by apply entries_inv_sub).
  - exact H.
  - intros k v' d Hk. cbn in Hk. eapply lookup_weaken in Hk; [|done].
    apply lookup_insert_Some in Hk as [[<- [= <- <-]]|[_ Hk]]; eauto.
Qed.

(** Logging touches nothing but the log channel. *)
Lemma log_query_as rec st : exists q, log_query rec st = set_qlog q st.
Proof.
  unfold log_query. destruct (st_qlog st) as [tx|] eqn:E.
  - destruct (try_send tx rec) as [tx' b]. eauto.
  - exists None. rewrite <-E. by destruct st.
Qed.

Section LogFrame.
Context (rec : LogRecord) (st : AppState).
Lemma log_query_cache : st_cache (log_query rec st) = st_cache st.
Proof. by destruct (log_query_as rec st) as [q ->]. Qed.
Lemma log_query_persist : st_persist (log_query rec st) = st_persist st.
Proof. by destruct (log_query_as rec st) as [q ->]. Qed.
Lemma log_query_stats : st_stats (log_query rec st) = st_stats st.
Proof. by destruct (log_query_as rec st) as [q ->]. Qed.
Lemma log_query_inflight : st_inflight (log_query rec st) = st_inflight st.
Proof. by destruct (log_query_as rec st) as [q ->]. Qed.
Lemma log_query_upstream : st_upstream (log_query rec st) = st_upstream st.
Proof. by destruct (log_query_as rec st) as [q ->]. Qed.
End LogFrame.
#[local] Hint Rewrite log_query_cache log_query_persist log_query_stats log_query_inflight
  log_query_upstream : rdns_rw.

(** What a handled query leaves alone, and what it does to the counters. *)
Lemma answer_frame env data request query st tr w1 a :
  answer_spec env data request query st tr w1 a ->
  st_inflight w1.1 = st_inflight st /\ st_upstream w1.1 = st_upstream st /\
  moka_expiry (st_cache w1.1) = moka_expiry (st_cache st) /\
  (a <> None -> exists c, c <> Queries /\ c <> Dropped /\ st_stats w1.1 = bump c (st_stats st)).
Proof.
  destruct 1; cbn; (split; [done|]; split; [done|]; split; [done|]); 
    try (intros _; eexists; split; [|split; [|reflexivity]]; done); [|done].
  intros _. exists cnt. match goal with H : _ ∈ _ |- _ => rename H into Hin end.
  by apply elem_of_cons in Hin as [[= -> ->]|[[= -> ->]|?%elem_of_nil]%elem_of_cons].
Qed.

(** A fetched entry is genuine: it validated against the packet it answers. *)
Lemma fetched_genuine env data request query qs up tr tr' v :
  from_vec data = Some request -> m_queries (view request) = query :: qs ->
  resolve up (env_net env) (env_unix env) data tr = (tr', Ok v) ->
  genuine (query_key query) v.
Proof.
  intros Hp Hq Hr. exists data, request, query. rewrite Hq. eauto with rdns.
Qed.

Lemma answer_persist env data request query st tr w1 a x :
  answer_spec env data request query st tr w1 a ->
  x ∈ sent (st_persist w1.1) -> x ∈ sent (st_persist st) \/
  exists v tr', x = (query_key query, v) /\
    resolve (st_upstream st) (env_net env) (env_unix env) data tr = (tr', Ok v).
Proof using PL.
  destruct 1 as [| |c v tr' _ Hr _ _| |]; cbn; auto.
  destruct (try_send (st_persist st) (query_key query, v)) as [p b] eqn:E. cbn [fst].
  apply try_send_spec in E as ->. intros [?|Hin]%elem_of_app; [auto|].
  destruct b; [|by apply elem_of_nil in Hin]. apply list_elem_of_singleton in Hin as ->. eauto.
Qed.

Lemma handle_sound env data client st tr w' o :
  handle env data client (st, tr) = (w', o) -> state_sound st -> state_sound w'.1.
Proof using ML PL.
  intros [(_ & -> & _)|(request & query & qs & w1 & a & Hp & Hq & Ha & Hw)]%handle_ok [He Hpst]; [done|].
  assert (state_sound w1.1) as Hs1.
  { split.
    - apply (answer_entries _ _ _ _ _ _ _ _ _ Ha He). intros v tr' Hr. by eapply fetched_genuine.
    - intros k v Hin. destruct (answer_persist _ _ _ _ _ _ _ _ _ Ha Hin) as [?|(v' & tr' & [= -> ->] & Hr)];
        [by apply Hpst|by eapply fetched_genuine]. }
  destruct a as [[resp action]|]; destruct Hw as [_ ->]; [|done]. cbn [fst].
  unfold state_sound, entries_inv. by autorewrite with rdns_rw.
Qed.

(** What was just fetched gets a deadline at most one second after its expiry. *)
Lemma fetched_deadline env cache up data k tr tr' v :
  synced env -> moka_expiry cache = expire_after_create ->
  is_u 32 (up_min_ttl up) -> is_u 32 (up_max_ttl up) ->
  resolve up (env_net env) (env_unix env) data tr = (tr', Ok v) ->
  exists t, deadline cache (env_clock env) k v = Some t /\ t <= expires_unix v + 1.
Proof.
  intros [Hsync Hnow] Hexp Hmin Hmax (i & s & _ & _ & Hc & _)%resolve_ok.
  unfold deadline. rewrite Hexp. apply to_cached_wire in Hc as (_ & Ht & ->).
  apply effective_ttl_bounds in Ht. unfold is_u in *.
  eexists. split; [done|]. rewrite as_u_id by (unfold is_u; lia). rewrite Hsync. lia.
Qed.

Lemma handle_fresh slack env data client st tr w' o :
  0 <= slack -> synced env -> handle env data client (st, tr) = (w', o) ->
  state_fresh slack st -> state_fresh slack w'.1.
Proof using ML.
  intros Hs Hsync [(_ & -> & _)|(request & query & qs & w1 & a & Hp & Hq & Ha & Hw)]%handle_ok
    (Hexp & Hmin & Hmax & He); [done|].
  destruct (answer_frame _ _ _ _ _ _ _ _ Ha) as (_ & Eup & Eexp & _).
  assert (state_fresh slack w1.1) as Hs1.
  { unfold state_fresh. rewrite Eup, Eexp. repeat (split; [done|]).
    apply (answer_entries _ _ _ _ _ _ _ _ _ Ha He). intros v tr' Hr.
    destruct (fetched_deadline _ _ _ _ (query_key query) _ _ _ Hsync Hexp Hmin Hmax Hr) as (t & ? & ?).
    exists t. split; [done|lia]. }
  destruct a as [[resp action]|]; destruct Hw as [_ ->]; [|done]. cbn [fst].
  unfold state_fresh, entries_inv. by autorewrite with rdns_rw.
Qed.

Lemma handle_frame env data client st tr w' o :
  handle env data client (st, tr) = (w', o) ->
  st_inflight w'.1 = st_inflight st /\
  (o <> Aborted -> balanced (st_stats st) -> balanced (st_stats w'.1)).
Proof using ML.
  intros [(_ & -> & _)|(request & query & qs & w1 & a & Hp & Hq & Ha & Hw)]%handle_ok; [done|].
  destruct (answer_frame _ _ _ _ _ _ _ _ Ha) as (Ei & _ & _ & Hc).
  destruct a as [[resp action]|]; destruct Hw as [-> ->]; [|done]. cbn [fst].
  autorewrite with rdns_rw. split; [done|]. intros _ Hb.
  destruct Hc as (c & H1 & H2 & ->); [done|]. by apply balanced_bump.
Qed.

(** A sound state answers each packet with a reply for it. *)
Lemma reply_genuine env data client st tr w' r :
  state_sound st ->
  handle env data client (st, tr) = (w', Done (Some r)) -> r <> [] ->
  exists request query qs,
    from_vec data = Some request /\ m_queries (view request) = query :: qs /\
    reply_for request query r.
Proof using HL ML.
  intros [He _] Hh Hne. apply handle_ok in Hh as [(? & _)|
    (request & query & qs & w1 & a & Hp & Hq & Ha & Hw)]; [done|].
  exists request, query, qs. split; [done|]. split; [done|].
  destruct (from_vec_header _ _ Hp) as (_ & Hid & _).
  destruct Ha as [|c v d cnt act|c v tr'| |]; destruct Hw as [Ho _]; try done; injection Ho as ->.
  - destruct (build_blocked_msg request query (cfg_dns (st_config st))) as (msg & E & Hv).
    cbn [on_stats st_config] in Hne |- *. rewrite E in Hne |- *. by eapply built_reply_for.
  - apply patch_reply_for; [done|]. by eapply He.
  - apply patch_reply_for; [done|]. by eapply fetched_genuine.
  - eapply built_reply_for; [|done]. autorewrite with rdns_rw. by rewrite view_base_response.
Qed.

(** Taking and returning a permit around [handle]. *)
Lemma tcp_query_cases env data client st tr w' o :
  tcp_query env data client (st, tr) = (w', o) ->
  (try_acquire (st_inflight st) = None /\ w' = (on_stats (bump Dropped) st, tr) /\ o = None) \/
  exists permit w1 o1, try_acquire (st_inflight st) = Some permit /\
    handle env data (Some client) (set_inflight permit st, tr) = (w1, o1) /\ o = Some o1 /\
    w' = match o1 with
         | Done _ => (set_inflight (release (st_inflight w1.1)) w1.1, w1.2)
         | Aborted => w1
         end.
Proof.
  unfold tcp_query. destruct (try_acquire (st_inflight st)) as [permit|].
  2: { intros [= <- <-]. by left. }
  destruct (handle _ _ _ _) as [[st1 tr1] [|r]] eqn:E; intros [= <- <-]; right; eauto 10.
Qed.

(** An invariant of the state that survives the bookkeeping of the listeners
    and every answered query holds in every reachable state of the server. *)
Lemma step_inv (E : HandleEnv -> Prop) (I : AppState -> Prop) sv sv' :
  (forall s st, I st -> I (set_inflight s st)) ->
  (forall st, I st -> I (on_stats (bump Dropped) st)) ->
  (forall env data client st tr w' r, E env ->
     handle env data client (st, tr) = (w', Done r) -> I st -> I w'.1) ->
  rtc (server_step E) sv sv' -> I (sv_state sv) -> I (sv_state sv').
Proof.
  intros Hsem Hdrop Hhandle. induction 1 as [|sv sv1 sv' Hstep _ IH]; [done|].
  intros HI. apply IH. destruct Hstep as [d p sv|i env sv sv1 HE Ht|env data client st tr ts se st1 tr1 r HE Hq Hr].
  - unfold udp_recv. destruct (try_acquire _); cbn [sv_state]; auto.
  - unfold udp_task in Ht. apply bind_Some in Ht as ([data peer] & _ & Ht).
    destruct (handle _ _ _ _) as [[st tr] [|r]] eqn:Eh; [done|]. injection Ht as <-. cbn [sv_state].
    apply Hsem. by apply Hhandle in Eh.
  - cbn [sv_state] in *. apply tcp_query_cases in Hq as [(_ & [= -> ->] & _)|
      (permit & [st2 tr2] & o1 & _ & Eh & -> & Hw)]; [auto|].
    destruct o1 as [|r1]; [done|]. injection Hw as -> ->. apply Hsem. cbn [fst].
    apply Hhandle in Eh; auto.
Qed.

(** Permits are taken and returned in pairs. *)
Lemma permits_conserved E sv sv' :
  rtc (server_step E) sv sv' ->
  available_permits (st_inflight (sv_state sv')) + Z.of_nat (length (sv_tasks sv')) =
  available_permits (st_inflight (sv_state sv)) + Z.of_nat (length (sv_tasks sv)).
Proof using ML SL.
  induction 1 as [|sv sv1 sv' Hstep _ IH]; [done|]. rewrite IH. clear IH.
  destruct Hstep as [d p sv|i env sv sv1 HE Ht|env data client st tr ts se st1 tr1 r HE Hq Hr].
  - unfold udp_recv. destruct (try_acquire _) as [s|] eqn:Ea; [|done].
    apply try_acquire_Some in Ea. cbn [sv_state sv_tasks set_inflight st_inflight].
    rewrite length_app. simpl. lia.
  - unfold udp_task in Ht. apply bind_Some in Ht as ([data peer] & Hi & Ht).
    destruct (handle _ _ _ _) as [[st tr] [|r]] eqn:Eh; [done|]. injection Ht as <-.
    apply handle_frame in Eh as [Ei _]. cbn [sv_state sv_tasks set_inflight st_inflight fst] in *.
    rewrite release_permits, Ei, length_delete by eauto. apply lookup_lt_Some in Hi. lia.
  - cbn [sv_state sv_tasks]. f_equal.
    apply tcp_query_cases in Hq as [(_ & [= -> ->] & _)|
      (permit & [st2 tr2] & o1 & Ea & Eh & -> & Hw)]; [done|].
    destruct o1 as [|r1]; [done|]. injection Hw as -> ->.
    apply handle_frame in Eh as [Ei _]. apply try_acquire_Some in Ea.
    cbn [set_inflight st_inflight fst] in *. rewrite release_permits, Ei. lia.
Qed.
End Laws.
End Invariants.
#[export] Hint Rewrite @log_query_cache @log_query_persist @log_query_stats @log_query_inflight
  @log_query_upstream : rdns_rw.

(** ** TCP lemmas *)

Lemma read_exact_app n a b : length a = n -> read_exact n (a ++ b) = Ok (a, b).
Proof.
  intros <-. unfold read_exact. rewrite length_app.
  rewrite (proj2 (Nat.leb_le _ _)) by lia. by rewrite take_app_length, drop_app_length.
Qed.

Lemma read_exact_shorter n s a b : read_exact n s = Ok (a, b) -> length s = (n + length b)%nat.
Proof.
  unfold read_exact. destruct (Nat.leb_spec n (length s)); [|done]. intros [= _ <-].
  rewrite length_drop. lia.
Qed.

Lemma read_frame q s :
  Z.of_nat (length q) < 2 ^ 16 ->
  exists len_buf, read_exact 2 (frame q ++ s) = Ok (len_buf, q ++ s) /\
    read_exact (Z.to_nat (from_be len_buf)) (q ++ s) = Ok (q, s).
Proof.
  intros Hq. exists (to_be 2 (as_u 16 (Z.of_nat (length q)))). unfold frame. split.
  - rewrite <-(assoc_L (++)). apply read_exact_app, length_to_be.
  - apply read_exact_app. rewrite as_u_id by (unfold is_u; lia).
    rewrite from_to_be_id by (unfold is_u; simpl; lia). by rewrite Nat2Z.id.
Qed.

(** What is left of a stream holds no complete frame. *)
Definition incomplete (rest : bytes) : Prop :=
  match read_exact 2 rest with
  | Ok (len_buf, s) => is_ok (read_exact (Z.to_nat (from_be len_buf)) s) = false
  | Err _ => True
  end.

Section TcpLemmas.
Context `{U : Unicode, HK : Hickory, MK : Moka, MP : Mpsc, SM : Semaphores}.


#[local] Ltac log_eq H :=
  do 2 f_equal;
  match goal with |- log_query ?r _ = set_inflight _ (log_query _ ?x) => exact (H r x) end.

(** The handler does not look at the permits. *)
Lemma handle_set_inflight env data client s st tr :
  handle env data client (set_inflight s st, tr) =
  let '((st', tr'), o) := handle env data client (st, tr) in ((set_inflight s st', tr'), o).
Proof.
  unfold handle. destruct (from_vec data) as [request|]; [|done].
  destruct (head _) as [query|]; [|done]. unfold answer.
  cbn [on_stats set_inflight set_cache set_persist st_blocklist st_cache st_config st_upstream st_persist].
  assert (forall rec st, log_query rec (set_inflight s st) = set_inflight s (log_query rec st)) as Hlog.
  { intros rec st'. unfold log_query. cbn [set_inflight st_qlog]. destruct (st_qlog st'); [|done].
    by destruct (try_send _ _). }
  destruct (is_blocked _ _); [log_eq Hlog|].
  destruct (moka_get _ _ _) as [c [v|]]; [log_eq Hlog|].
  destruct (moka_try_get_with _ _ _ _ _ _) as [[c' [tr' p]] [v|e]].
  - log_eq Hlog.
  - destruct e; [done|..]; log_eq Hlog.
Qed.

(** The replies to a list of queries handled in order; [None] if one panics. *)
Fixpoint serve_all (envs : nat -> HandleEnv) (i : nat) (client : IpAddr) (qs : list bytes)
    (w : AppState * trace) : option (list bytes) :=
  match qs with
  | [] => Some []
  | q :: qs' =>
    match handle (envs i) q (Some client) w with
    | (w', Done r) =>
      rs ← serve_all envs (S i) client qs' w';
      Some (match r with Some resp => resp :: rs | None => rs end)
    | (_, Aborted) => None
    end
  end.

Lemma tcp_conn_enough fuel envs wrote i client stream w out :
  (length stream < fuel)%nat -> is_Some (tcp_conn fuel envs wrote i client stream w out).
Proof.
  revert i stream w out. induction fuel as [|fuel IH]; intros i stream w out Hf; [lia|].
  cbn [tcp_conn]. destruct (read_exact 2 stream) as [[lb s]|] eqn:E1; [|done].
  apply read_exact_shorter in E1.
  destruct (read_exact _ s) as [[buf s']|] eqn:E2; [|done]. apply read_exact_shorter in E2.
  destruct (tcp_query _ _ _ _) as [w' [[|[resp|]]|]]; [done| | |done].
  - destruct (wrote i); [done|]. apply IH. lia.
  - apply IH. lia.
Qed.

Context {ML : MokaLaws MK} {SL : SemaphoreLaws SM}.

(** With a permit to take, a query on a connection is a call of [handle]. *)
Lemma tcp_query_permit env data client s st tr :
  1 <= available_permits s ->
  match handle env data (Some client) (st, tr) with
  | ((st', tr'), Done r) => exists s',
    tcp_query env data client (set_inflight s st, tr) = ((set_inflight s' st', tr'), Some (Done r)) /\
    available_permits s' = available_permits s
  | (_, Aborted) => True
  end.
Proof using SL.
  intros Hs. destruct (handle env data (Some client) (st, tr)) as [[st' tr'] [|r]] eqn:Eh; [done|].
  unfold tcp_query. cbn [set_inflight st_inflight].
  destruct (try_acquire s) as [permit|] eqn:Ea; [|apply try_acquire_None in Ea; lia].
  change (set_inflight permit (set_inflight s st)) with (set_inflight permit st).
  rewrite handle_set_inflight, Eh. exists (release permit). split; [done|].
  rewrite release_permits. apply try_acquire_Some in Ea. lia.
Qed.

Lemma tcp_conn_all envs client qs : forall fuel i rest s st tr out replies,
  (forall q, q ∈ qs -> Z.of_nat (length q) < 2 ^ 16) -> incomplete rest ->
  1 <= available_permits s ->
  serve_all envs i client qs (st, tr) = Some replies ->
  (length (concat (frame <$> qs) ++ rest) < fuel)%nat ->
  exists w', tcp_conn fuel envs (fun _ => None) i client (concat (frame <$> qs) ++ rest)
    (set_inflight s st, tr) out = Some (w', out ++ concat (frame <$> replies), ConnClosed).
Proof using SL.
  induction qs as [|q qs IH]; intros fuel i rest s st tr out replies Hlen Hrest Hs Hserve Hfuel;
    (destruct fuel as [|fuel]; [lia|]); cbn [fmap list_fmap concat serve_all] in *.
  - injection Hserve as <-. cbn [app tcp_conn fmap list_fmap concat]. unfold incomplete in Hrest.
    destruct (read_exact 2 rest) as [[lb s']|]; [|rewrite app_nil_r; eauto].
    destruct (read_exact _ s') as [[? ?]|]; [done|]. rewrite app_nil_r. eauto.
  - rewrite <-(assoc_L (++)) in *. cbn [tcp_conn].
    destruct (read_frame q (concat (frame <$> qs) ++ rest)) as (lb & E1 & E2); [apply Hlen; left|].
    rewrite E1, E2. pose proof (tcp_query_permit (envs i) q client s st tr Hs) as Hq.
    destruct (handle (envs i) q (Some client) (st, tr)) as [[st' tr'] [|r]]; [done|].
    destruct Hq as (s' & -> & Hs'). apply read_exact_shorter in E1, E2.
    destruct (serve_all envs (S i) client qs (st', tr')) as [rs|] eqn:Er; [|done].
    cbn [mbind option_bind] in Hserve. injection Hserve as <-.
    destruct r as [resp|].
    + destruct (IH fuel (S i) rest s' st' tr' (out ++ frame resp) rs) as [w' Hw'];
        try done; [by intros ? ?; apply Hlen; right|lia|rewrite E1, E2 in Hfuel; lia|].
      exists w'. rewrite Hw'. cbn [fmap list_fmap concat]. by rewrite <-(assoc_L (++)).
    + apply IH; try done; [by intros ? ?; apply Hlen; right|lia|rewrite E1, E2 in Hfuel; lia].
Qed.
End TcpLemmas.

(** ** Properties *)

Section Properties.
Context `{U : Unicode, HK : Hickory, MK : Moka, MP : Mpsc, SM : Semaphores}.
Context {HL : HickoryLaws HK} {ML : MokaLaws MK} {PL : MpscLaws MP} {SL : SemaphoreLaws SM}.

(** C10. A blocked name never reaches the network: its query is answered with
    the locally built reply, no packet is sent, the cache and the store are
    not touched, and the query counts as blocked. *)
Theorem blocked_never_leaves env data client st tr request query qs :
  from_vec data = Some request -> m_queries (view request) = query :: qs ->
  is_blocked (st_blocklist st) (query_domain query) = true ->
  exists st', handle env data client (st, tr) =
      ((st', tr), Done (Some (build_blocked request query (cfg_dns (st_config st))))) /\
    st_cache st' = st_cache st /\ st_persist st' = st_persist st /\
    st_stats st' = bump Blocked (bump Queries (st_stats st)).
Proof.
  intros Hp Hq Hb. unfold handle. rewrite Hp, Hq. cbn [head].
  unfold answer. cbn [on_stats st_blocklist]. rewrite Hb. eexists. split; [done|].
  by autorewrite with rdns_rw.
Qed.

(** C32. What a blocked client is told: NXDOMAIN with no answers in the
    [nxdomain] mode, and otherwise NOERROR with the sinkhole address for A and
    AAAA questions and with no answer for any other type; always with the id,
    opcode, RD flag and question of the query.  When the message does not
    serialise the reply is empty. *)
Theorem build_blocked_answer request query dns r :
  build_blocked request query dns = r -> r <> [] ->
  exists m, from_vec r = Some m /\
    view m = mk_view _ (m_id (view request)) MtResponse (m_op_code (view request))
      (m_recursion_desired (view request)) true
      (if bool_decide (sinkhole_mode dns = str "nxdomain") then NXDomain else NoError) [query]
      (if bool_decide (sinkhole_mode dns = str "nxdomain") then []
       else if rtype_eqb (query_type query) RT_A
            then [from_rdata (query_name query) (sinkhole_ttl dns) (rdata_A (sinkhole_ipv4 dns))]
       else if rtype_eqb (query_type query) RT_AAAA
            then [from_rdata (query_name query) (sinkhole_ttl dns) (rdata_AAAA (sinkhole_ipv6 dns))]
       else []).
Proof.
  destruct (build_blocked_msg request query dns) as (msg & -> & Hmsg). intros Hr Hne.
  apply to_vec_default in Hr as (_ & m & Hm & Hv); [|done]. exists m. by rewrite Hv, Hmsg.
Qed.

(** Replies match their query: with a sound cache, every non-empty reply
    is for the packet it answers ([reply_for]): it parses as a response with
    the transaction id of the packet, and asks for the same type and for a
    name that is the same up to normalisation. *)
Theorem handle_reply_matches env data client st tr w' r :
  state_sound st ->
  handle env data client (st, tr) = (w', Done (Some r)) -> r <> [] ->
  exists request query qs,
    from_vec data = Some request /\ m_queries (view request) = query :: qs /\
    reply_for request query r.
Proof. apply reply_genuine. Qed.

(** The cache only ever holds genuine replies: in every state a running
    server reaches, each entry that can be served, and each row handed to the
    write-behind task, is a reply that validated against a query with exactly
    that key. *)
Theorem server_cache_genuine (E : HandleEnv -> Prop) sv sv' :
  rtc (server_step E) sv sv' -> state_sound (sv_state sv) ->
  (forall k v d, moka_entries (st_cache (sv_state sv')) !! k = Some (v, d) -> genuine k v) /\
  (forall k v, (k, v) ∈ sent (st_persist (sv_state sv')) -> genuine k v).
Proof.
  intros Hr H0. apply (step_inv E state_sound sv sv'); try done.
  intros env data client st tr w' r _ Hh. by eapply handle_sound.
Qed.

(** No stale answers: when the clock of the cache and the wall clock agree,
    then in every reachable state a cache hit is served no later than in the
    second of the expiry computed when the reply was fetched, give or take the
    [slack] of the state it started from. *)
Theorem server_hits_fresh slack sv sv' env k c v :
  0 <= slack -> rtc (server_step synced) sv sv' -> state_fresh slack (sv_state sv) -> synced env ->
  moka_get (st_cache (sv_state sv')) (env_clock env) k = (c, Some v) ->
  env_unix env <= expires_unix v + slack.
Proof.
  intros Hslack Hr H0 [Hsync _] Hg.
  assert (state_fresh slack (sv_state sv')) as (_ & _ & _ & He).
  { apply (step_inv synced (state_fresh slack) sv sv'); try done.
    intros env' data client st tr w' r HE Hh. by eapply handle_fresh. }
  destruct (moka_get_spec _ _ _ _ _ Hg) as (_ & _ & Hv).
  destruct (Hv v eq_refl) as (d & Hd & Hlive). destruct (He _ _ _ Hd) as (t & -> & Ht).
  unfold live in Hlive. lia.
Qed.

(** Accounting: in every reachable state the query counter equals, modulo
    2^64, the sum of the blocked, cached, forwarded and failed ones; dropped
    packets are counted apart. *)
Theorem server_accounting (E : HandleEnv -> Prop) sv sv' start :
  rtc (server_step E) sv sv' -> st_stats (sv_state sv) = stats_default start ->
  as_u 64 (queries (st_stats (sv_state sv'))) =
  as_u 64 (blocked (st_stats (sv_state sv')) + cache_hits (st_stats (sv_state sv')) +
           forwarded (st_stats (sv_state sv')) + upstream_errors (st_stats (sv_state sv'))).
Proof.
  intros Hr H0. apply (step_inv E (fun st => balanced (st_stats st)) sv sv'); try done.
  - intros st. apply balanced_dropped.
  - intros env data client st tr w' r _ Hh. apply handle_frame in Hh as [_ Hb]. by apply Hb.
  - rewrite H0. apply balanced_default.
Qed.

(** Concurrency is bounded: a server that starts with [n] permits and no
    tasks never has more than [n] tasks in flight, no permit is lost or
    duplicated, and a packet is dropped exactly when all [n] are in use. *)
Theorem server_inflight_bounded (E : HandleEnv -> Prop) n st tr sv datagram peer :
  available_permits (st_inflight st) = n ->
  rtc (server_step E) (mk_server st tr [] []) sv ->
  Z.of_nat (length (sv_tasks sv)) <= n /\
  available_permits (st_inflight (sv_state sv)) = n - Z.of_nat (length (sv_tasks sv)) /\
  sv_tasks (udp_recv datagram peer sv) =
    sv_tasks sv ++ (if decide (Z.of_nat (length (sv_tasks sv)) = n) then []
                    else [(take 4096 datagram, peer)]).
Proof.
  intros Hn Hr. pose proof (permits_conserved _ _ _ Hr) as Hp. cbn [sv_state sv_tasks length] in Hp.
  rewrite Hn in Hp. pose proof (sem_nonneg (st_inflight (sv_state sv))) as Hnn.
  split; [lia|]. split; [lia|]. unfold udp_recv.
  destruct (try_acquire (st_inflight (sv_state sv))) as [s|] eqn:Ea; cbn [sv_tasks].
  - apply try_acquire_Some in Ea. pose proof (sem_nonneg s). by rewrite decide_False by lia.
  - apply try_acquire_None in Ea. rewrite decide_True by lia. by rewrite app_nil_r.
Qed.


(** C14. The handler is total: with [min_ttl <= max_ttl] and a network that
    fails with ordinary errors it never panics; it stays silent exactly on
    packets that do not parse or carry no question, and then nothing changes. *)
Theorem handle_total env data client st tr :
  up_min_ttl (st_upstream st) <= up_max_ttl (st_upstream st) ->
  (forall i, calm (env_net env i)) ->
  exists w' r, handle env data client (st, tr) = (w', Done r) /\
    (r = None <-> forall request, from_vec data = Some request -> m_queries (view request) = []) /\
    (r = None -> w' = (st, tr)).
Proof.
  intros Hm Hnet. destruct (handle env data client (st, tr)) as [w' o] eqn:Eh.
  apply handle_ok in Eh as [(-> & -> & Hn)|(request & query & qs & w1 & a & Hp & Hq & Ha & Hw)].
  { exists (st, tr), None. done. }
  destruct a as [[resp action]|].
  - destruct Hw as [-> ->]. do 2 eexists. split; [done|]. split; [|done]. split; [done|].
    intros H. specialize (H _ Hp). congruence.
  - exfalso. inversion Ha as [| | | |c tr' _ Hr _ _]; subst.
    pose proof (resolve_calm (st_upstream st) (env_net env) (env_unix env) data tr Hm Hnet) as Hc.
    cbn [on_stats st_upstream] in Hr. by rewrite Hr in Hc.
Qed.

(** C13. A cold miss: when the name is not blocked and its key is not in the
    cache, the query is resolved once.  A valid upstream reply goes to the
    client byte for byte, is offered once to the write-behind task and counts
    as forwarded; a failure gives SERVFAIL, stores nothing and counts as an
    upstream error. *)
Theorem handle_cold_miss env data client st tr request query qs w' o :
  from_vec data = Some request -> m_queries (view request) = query :: qs ->
  is_blocked (st_blocklist st) (query_domain query) = false ->
  moka_entries (st_cache st) !! query_key query = None ->
  handle env data client (st, tr) = (w', o) ->
  match resolve (st_upstream st) (env_net env) (env_unix env) data tr with
  | (tr', Ok v) =>
    o = Done (Some (wire v)) /\ w'.2 = tr' /\
    st_stats w'.1 = bump Forwarded (bump Queries (st_stats st)) /\
    st_persist w'.1 = (try_send (st_persist st) (query_key query, v)).1
  | (tr', Err Panicked) => o = Aborted
  | (tr', Err _) =>
    o = Done (Some (build_response_code request query ServFail)) /\ w'.2 = tr' /\
    st_stats w'.1 = bump UpstreamErrors (bump Queries (st_stats st)) /\
    st_persist w'.1 = st_persist st /\
    moka_entries (st_cache w'.1) ⊆ moka_entries (st_cache st)
  end.
Proof.
  intros Hp Hq Hb Hcold Hh. apply handle_ok in Hh as [(_ & _ & Hn)|
    (request' & query' & qs' & w1 & a & Hp' & Hq' & Ha & Hw)].
  { specialize (Hn _ Hp). congruence. }
  rewrite Hp in Hp'. injection Hp' as <-. rewrite Hq in Hq'. injection Hq' as <- <-.
  destruct Ha as [|c v d cnt act|c v tr' _ Hr _ _|c e tr' _ Hr He|c tr' _ Hr];
    cbn [on_stats st_blocklist st_cache st_upstream] in *; try congruence; rewrite Hr.
  - destruct Hw as [-> ->]. cbn [fst snd].
    autorewrite with rdns_rw. split; [|done]. do 2 f_equal. apply resolve_valid in Hr. unfold valid_response in Hr. rewrite Hp in Hr.
    destruct (from_vec (wire v)) as [m|] eqn:Em; [|done].
    destruct (Z.eqb_spec (m_id (view m)) (m_id (view request))) as [<-|]; [by apply patch_id_same|].
    rewrite orb_true_r in Hr. done.
  - destruct Hw as [-> ->]. cbn [fst snd]. autorewrite with rdns_rw. by destruct e.
  - by destruct Hw.
Qed.


(** C34. The cache key has no class: when a cached reply was validated against a
    question of another class with the same name and type, a query of any class
    is answered from the cache with it, so the class in the reply is the one of
    the earlier question and not the one asked for. *)
Theorem key_ignores_class env data client st tr request query qs data1 request1 query1 qs1 c v :
  from_vec data = Some request -> m_queries (view request) = query :: qs ->
  from_vec data1 = Some request1 -> m_queries (view request1) = query1 :: qs1 ->
  query_domain query1 = query_domain query -> query_type query1 = query_type query ->
  query_class query1 <> query_class query ->
  is_blocked (st_blocklist st) (query_domain query) = false ->
  moka_get (st_cache st) (env_clock env) (query_key query1) = (c, Some v) ->
  valid_response data1 (wire v) = true ->
  exists w' r m rq,
    handle env data client (st, tr) = (w', Done (Some r)) /\ w'.2 = tr /\
    from_vec r = Some m /\ m_id (view m) = m_id (view request) /\ head (m_queries (view m)) = Some rq /\
    query_class rq = query_class query1 /\ query_class rq <> query_class query.
Proof using HL.
  intros Hp Hq Hp1 Hq1 Hn Ht Hc Hb Hg Hv.
  assert (query_key query1 = query_key query) as Hk by (unfold query_key; by rewrite Hn, Ht).
  rewrite Hk in Hg. unfold valid_response in Hv. rewrite Hp1 in Hv.
  destruct (from_vec (wire v)) as [m0|] eqn:Em; [|done]. destruct (_ || _); [done|].
  rewrite Hq1 in Hv. cbn [head] in Hv. destruct (head (m_queries (view m0))) as [rq|] eqn:Erq; [|done].
  apply andb_prop in Hv as [_ Hcl%class_eqb_eq].
  destruct (from_vec_header _ _ Hp) as (_ & Hid & _).
  destruct (patch_id_parse _ _ _ Em Hid) as (m & Hm & Hvm).
  unfold handle. rewrite Hp, Hq. cbn [head]. unfold answer.
  change (mk_key (query_domain query) (rtype_code (query_type query))) with (query_key query).
  cbn [on_stats st_blocklist st_cache]. rewrite Hb, Hg.
  eexists _, _, m, rq. split; [reflexivity|]. split; [done|]. split; [exact Hm|]. rewrite Hvm.
  cbn [with_id m_id m_queries]. split; [done|]. split; [done|]. split; congruence.
Qed.

(** C31. A TCP connection serves its queries in order: given the frames of a list
    of queries (the last one possibly cut short), with a permit free and the
    writes succeeding, the client receives exactly the frames of the replies
    the handler gives to the queries one after the other. *)
Theorem tcp_conn_serves envs client qs rest st tr replies :
  (forall q, q ∈ qs -> Z.of_nat (length q) < 2 ^ 16) -> incomplete rest ->
  1 <= available_permits (st_inflight st) ->
  serve_all envs 0 client qs (st, tr) = Some replies ->
  let stream := concat (frame <$> qs) ++ rest in
  exists w', tcp_conn (conn_fuel stream) envs (fun _ => None) 0 client stream (st, tr) [] =
    Some (w', concat (frame <$> replies), ConnClosed).
Proof.
  intros Hlen Hrest Hs Hserve stream.
  destruct (tcp_conn_all envs client qs (conn_fuel stream) 0 rest (st_inflight st) st tr [] replies)
    as [w' Hw']; try done; [unfold conn_fuel; fold stream; lia|].
  exists w'. destruct st. exact Hw'.
Qed.

(** The connection loop ends on every finite stream, whatever is in it and
    however the writes go: the fuel of one turn per byte, plus one, is enough. *)
Theorem tcp_conn_terminates envs wrote client stream w :
  exists w' out e, tcp_conn (conn_fuel stream) envs wrote 0 client stream w [] = Some (w', out, e).
Proof.
  destruct (tcp_conn_enough (conn_fuel stream) envs wrote 0 client stream w []) as [[[w' out] e] H];
    [unfold conn_fuel; lia|]. eauto.
Qed.
End Properties.

(** ** Worked examples *)

Section Witnesses.
#[local] Existing Instance ascii_tables.
#[local] Existing Instance Mini.hickory.
#[local] Existing Instance MemCache.moka.
#[local] Existing Instance MemSync.mpsc.
#[local] Existing Instance MemSync.sems.

Definition sample_blocklist : Blocklist := mk_blocklist {[str "ads.com"]} ∅.

Definition sample_state_with (up : Upstream) : AppState :=
  mk_state default_config sample_blocklist (build 100) (sem_new 2) (channel _ 10)
    (Some (channel _ 10)) up (stats_default 0) (str "config.toml").
Definition sample_state : AppState := sample_state_with sample_upstream.

Definition sample_env : HandleEnv := mk_env 1000 1000 1000000 3 sample_net.

(** The query of [query_wire] from another client and in class CH, and a query
    for a blocked name. *)
Definition ch_query_wire : bytes := default []
  (Mini.mto_vec (0x77, (false, (0, (true, (false, (0, ([Mini.mk_query (str "a.com") 1 3], [])))))))).
Definition ads_query : Mini.MQuery := Mini.mk_query (str "WWW.Ads.com.") 1 1.
Definition ads_request : @Message Mini.types := (0x55, (false, (0, (true, (false, (0, ([ads_query], []))))))).
Definition ads_query_wire : bytes := default [] (Mini.mto_vec ads_request).

Definition after_first : AppState * trace := (handle sample_env query_wire None (sample_state, [])).1.

(** A configuration with [min_ttl > max_ttl] is accepted at start, and the
    first valid upstream reply ends the process. *)
Theorem inverted_ttl_aborts :
  let up := upstream_new (cfg_upstream default_config) [server1; server2] 300 60 60 in
  (handle sample_env query_wire None (sample_state_with up, [])).2 = Aborted.
Proof. intros up. vm_refl. Qed.

Lemma sample_sound : state_sound sample_state.
Proof. split; [by intros k v d|]. intros k v Hin. by change ((k, v) ∈ []) in Hin; apply elem_of_nil in Hin. Qed.
Lemma sample_fresh : state_fresh 0 sample_state.
Proof. split; [done|]. split; [vm_compute; intuition congruence|]. split; [vm_compute; intuition congruence|]. by intros k v d. Qed.
Lemma sample_synced : synced sample_env.
Proof. split; [done|]. split; [done|]. vm_refl. Qed.
Lemma sample_calm i : calm (env_net sample_env i).
Proof. by destruct i. Qed.

(** A packet arrives and its task runs. *)
Definition peer : SocketAddr := SockV4 (ipv4 [10; 0; 0; 7]) 40000.
Definition server_0 : Server := mk_server sample_state [] [] [].
Definition server_1 : Server := udp_recv query_wire peer server_0.
Definition server_2 : Server := default server_1 (udp_task 0 sample_env server_1).

Lemma sample_run : rtc (server_step synced) server_0 server_2.
Proof.
  apply (rtc_l _ _ server_1); [apply UdpRecv|]. apply rtc_once.
  apply (UdpTask _ 0 sample_env server_1 server_2); [apply sample_synced|vm_refl].
Qed.

Lemma blocked_never_leaves_witness :
  exists st', handle sample_env ads_query_wire None (sample_state, []) =
      ((st', []), Done (Some (build_blocked ads_request ads_query (cfg_dns default_config)))).
Proof.
  refine (let '(ex_intro _ st' (conj H _)) :=
    blocked_never_leaves sample_env ads_query_wire None sample_state [] ads_request ads_query [] _ _ _
    in ex_intro _ st' H); vm_refl.
Defined.

Lemma build_blocked_answer_witness :
  exists m, from_vec (build_blocked ads_request ads_query (cfg_dns default_config)) = Some m /\
    m_answers (view m) = [Mini.mk_rr (str "WWW.Ads.com.") 60 [0; 0; 0; 0]].
Proof.
  refine (let '(ex_intro _ m (conj H1 H2)) :=
    build_blocked_answer (HL := Mini.mini_laws) ads_request ads_query (cfg_dns default_config) _ eq_refl _
    in ex_intro _ m (conj H1 _)).
  - vm_compute. congruence.
  - rewrite H2. vm_refl.
Defined.

Lemma sample_first : exists w, handle sample_env query_wire None (sample_state, []) = (w, Done (Some answer_wire)).
Proof. exists after_first. vm_refl. Qed.

Lemma handle_reply_matches_witness :
  exists request query qs,
    from_vec query_wire = Some request /\ m_queries (view request) = query :: qs /\
    reply_for request query answer_wire.
Proof.
  destruct sample_first as [w Hw].
  refine (handle_reply_matches (HL := Mini.mini_laws) (ML := MemCache.memcache_laws) _ _ _ _ _ _ _ sample_sound Hw _).
  vm_compute. congruence.
Defined.

Lemma server_cache_genuine_witness : genuine (mk_key (str "a.com") 1) sample_cached.
Proof.
  refine (proj2 (server_cache_genuine (ML := MemCache.memcache_laws) (PL := MemSync.mpsc_laws) synced _ _
    sample_run sample_sound) _ _ _).
  apply (bool_decide_unpack _). vm_compute. exact I.
Defined.

Lemma server_hits_fresh_witness : 1100 <= expires_unix sample_cached.
Proof.
  refine (server_hits_fresh (ML := MemCache.memcache_laws) 0 server_0 server_2 (mk_env 1100 1100 0 0 sample_net)
    (mk_key (str "a.com") 1) (st_cache (sv_state server_2)) sample_cached _ sample_run sample_fresh _ _).
  - done.
  - split; [done|]. split; [done|]. vm_refl.
  - vm_refl.
Defined.

Lemma server_accounting_witness :
  let s := st_stats (sv_state server_2) in
  as_u 64 (queries s) = as_u 64 (blocked s + cache_hits s + forwarded s + upstream_errors s).
Proof. exact (server_accounting (ML := MemCache.memcache_laws) synced _ _ 0 sample_run eq_refl). Defined.

Lemma server_inflight_bounded_witness :
  Z.of_nat (length (sv_tasks server_2)) <= 2 /\
  available_permits (st_inflight (sv_state server_2)) = 2 - Z.of_nat (length (sv_tasks server_2)).
Proof.
  refine (let '(conj H1 (conj H2 _)) := server_inflight_bounded (ML := MemCache.memcache_laws)
    (SL := MemSync.sems_laws) synced 2 sample_state [] server_2 [] peer eq_refl sample_run in conj H1 H2).
Defined.

Lemma handle_total_witness :
  exists w' r, handle sample_env [x00] None (sample_state, []) = (w', Done r) /\
    (r = None -> w' = (sample_state, [])).
Proof.
  refine (let '(ex_intro _ w (ex_intro _ r (conj H1 (conj _ H2)))) :=
    handle_total (ML := MemCache.memcache_laws) sample_env [x00] None sample_state [] _ sample_calm
    in ex_intro _ w (ex_intro _ r (conj H1 H2))).
  vm_compute. congruence.
Defined.

Lemma handle_cold_miss_witness :
  st_stats after_first.1 = bump Forwarded (bump Queries (stats_default 0)).
Proof.
  destruct sample_first as [w Hw].
  pose proof (handle_cold_miss (HL := Mini.mini_laws) (ML := MemCache.memcache_laws)
    sample_env query_wire None sample_state [] (default ads_request (Mini.mfrom_vec query_wire)) question []
    after_first (Done (Some answer_wire))) as H.
  change (resolve _ _ _ _ _) with (resolve sample_upstream sample_net 1000 query_wire []) in H.
  rewrite sample_resolve in H. refine (proj1 (proj2 (proj2 (H _ _ _ _ _)))); vm_refl.
Defined.


(** The CH query after the IN query. *)
Lemma key_ignores_class_witness :
  exists w' r m rq, handle sample_env ch_query_wire None after_first = (w', Done (Some r)) /\
    from_vec r = Some m /\ head (m_queries (view m)) = Some rq /\ query_class rq = 1.
Proof.
  destruct (key_ignores_class (HL := Mini.mini_laws) sample_env ch_query_wire None after_first.1 after_first.2
    (default ads_request (Mini.mfrom_vec ch_query_wire)) (Mini.mk_query (str "a.com") 1 3) [] query_wire
    (default ads_request (Mini.mfrom_vec query_wire)) question []
    (st_cache after_first.1) sample_cached) as (w' & r & m & rq & H1 & _ & H2 & _ & H3 & H4 & _);
    [vm_refl..|done|vm_refl|vm_refl|vm_refl|].
  exists w', r, m, rq. rewrite <-surjective_pairing in H1. by split.
Defined.

Lemma tcp_conn_serves_witness :
  exists w', tcp_conn (conn_fuel (frame query_wire ++ frame ads_query_wire ++ [x00]))
    (fun _ => sample_env) (fun _ => None) 0 (sock_ip peer)
    (frame query_wire ++ frame ads_query_wire ++ [x00]) (sample_state, []) [] =
  Some (w', frame answer_wire ++
            frame (build_blocked ads_request ads_query (cfg_dns default_config)), ConnClosed).
Proof.
  pose proof (tcp_conn_serves (SL := MemSync.sems_laws) (fun _ => sample_env) (sock_ip peer)
    [query_wire; ads_query_wire] [x00] sample_state []
    [answer_wire; build_blocked ads_request ads_query (cfg_dns default_config)]) as H.
  cbn [fmap list_fmap concat] in H. rewrite !app_nil_r, <-(assoc_L (++)) in H. apply H.
  - intros q Hq. apply elem_of_cons in Hq as [->|Hq%list_elem_of_singleton]; [vm_refl|].
    rewrite Hq. vm_refl.
  - done.
  - vm_compute. congruence.
  - vm_refl.
Defined.
End Witnesses.
