(* ===== verification/Flight.v ===== *)
(** * Concurrent queries ([src/dns.rs], [src/upstream.rs])

    [Dns.handle] runs a query from its arrival to its reply.  Here many calls
    run at once, each cut at the points where it waits or looks at what the
    calls share: a task moves from phase to phase, and any task may move next.
    [try_get_with] is cut at its await, so that several tasks can wait for the
    one that asks upstream. *)

From S2P Require Import Prelude RustStr NetAddr Fs Config Blocklist Hickory Cache Upstream Qlog Stats State Dns.

(** ** [try_get_with] in two halves ([moka])

    What a call finds: a value, nothing (it evaluates [init] and the others
    wait for it), or a call that is evaluating [init] for the key. *)
Inductive entry := Present (v : CachedResponse) | Lead | Follow.

Class SingleFlight `{MK : Moka} := {
  Waiters : Type;
  no_waiters : Waiters;
  enter : DnsCache -> Waiters -> Z -> CacheKey -> (DnsCache * Waiters) * entry;
  settle : DnsCache -> Waiters -> Z -> CacheKey -> result error CachedResponse -> DnsCache * Waiters;
  waiting_keys : Waiters -> gset CacheKey;   (* ghost: the keys being evaluated *)
}.
Arguments SingleFlight : clear implicits.

(** The documentation of [try_get_with]: concurrent calls on a missing key are
    coalesced into one evaluation of [init]; and a call that nobody else
    disturbs is the two halves one after the other. *)
Class SingleFlightLaws (MK : Moka) (F : SingleFlight MK) : Prop := {
  no_waiters_keys : waiting_keys no_waiters = ∅;
  enter_spec c w now k c' w' e :
    enter c w now k = ((c', w'), e) ->
    moka_expiry c' = moka_expiry c /\ moka_entries c' ⊆ moka_entries c /\
    match e with
    | Present v => waiting_keys w' = waiting_keys w /\
                   exists d, moka_entries c !! k = Some (v, d) /\ live now d
    | Lead => (k ∉ waiting_keys w) /\ waiting_keys w' = ({[k]} ∪ waiting_keys w)
    | Follow => k ∈ waiting_keys w /\ waiting_keys w' = waiting_keys w
    end;
  settle_spec c w now k r c' w' :
    settle c w now k r = (c', w') ->
    moka_expiry c' = moka_expiry c /\ waiting_keys w' = (waiting_keys w ∖ {[k]}) /\
    moka_entries c' ⊆
      match r with
      | Ok v => <[k := (v, deadline c now k v)]> (moka_entries c)
      | Err _ => moka_entries c
      end;
  alone S c w now k (init : S -> S * result error CachedResponse) s :
    k ∉ waiting_keys w ->
    moka_try_get_with S c now k init s =
      match enter c w now k with
      | ((c', _), Present v) => (c', s, Ok v)
      | ((c', w'), _) => let '(s', r) := init s in ((settle c' w' now k r).1, s', r)
      end;
}.

(** ** Tasks *)

(** Who waits for the reply; a connection is named by a number. *)
Inductive Origin := UdpFrom (peer : SocketAddr) | TcpFrom (conn : nat) (ip : IpAddr).

Definition client_ip (o : Origin) : IpAddr :=
  match o with UdpFrom peer => sock_ip peer | TcpFrom _ ip => ip end.

Section Flight.
Context `{U : Unicode, HK : Hickory, MK : Moka, MP : Mpsc, SM : Semaphores, F : !SingleFlight MK}.

(** The locals of [handle] that outlive an await. *)
Record Job := mk_job {
  j_request : Message;
  j_query : Query;
  j_cfg : Config;      (* the snapshot [cfg] *)
}.

Definition job_key (j : Job) : CacheKey := query_key (j_query j).

(** Where a task is: not started; parsed and counted; not blocked; not in the
    cache; leading the evaluation for its key and waiting for an upstream
    permit; asking, with the servers it loaded; waiting for the leader; with the
    result of [try_get_with]; with its response. *)
Inductive phase :=
| Spawned
| Counted (j : Job)
| Looking (j : Job)
| Missed (j : Job)
| Leading (j : Job)
| Asking (j : Job) (up : Upstream)
| Following (j : Job)
| Landed (j : Job) (r : result error CachedResponse)
| Answered (j : Job) (response : bytes) (action : rstring).

Record Task := mk_task { t_data : bytes; t_origin : Origin; t_phase : phase }.

(** A running server: the shared state, the packets sent upstream, the calls of
    [try_get_with] in evaluation, the semaphore of [Upstream], the tasks that
    hold a permit, and the calls that returned with what they returned. *)
Record Conc := mk_conc {
  cc_state : AppState;
  cc_net : trace;
  cc_waiters : Waiters;
  cc_up : Semaphore;
  cc_tasks : list Task;
  cc_done : list (Origin * bytes * option bytes);
}.

Definition at_phase (ph : phase) (t : Task) : Task := mk_task (t_data t) (t_origin t) ph.

Definition set_phase (i : nat) (ph : phase) (tasks : list Task) : list Task :=
  alter (at_phase ph) i tasks.

(** The result of an evaluation goes to all who wait for it. *)
Definition wake_task (k : CacheKey) (r : result error CachedResponse) (t : Task) : Task :=
  match t_phase t with
  | Following j => if decide (job_key j = k) then at_phase (Landed j r) t else t
  | _ => t
  end.
Definition wake (k : CacheKey) (r : result error CachedResponse) (tasks : list Task) : list Task :=
  wake_task k r <$> tasks.

(** A step of task [i] that touches the shared state only. *)
Definition goto (i : nat) (ph : phase) (st : AppState) (c : Conc) : Conc :=
  mk_conc st (cc_net c) (cc_waiters c) (cc_up c) (set_phase i ph (cc_tasks c)) (cc_done c).

(** The call returns: the reply goes out and the permit is dropped. *)
Definition finish (i : nat) (t : Task) (r : option bytes) (st : AppState) (c : Conc) : Conc :=
  mk_conc (set_inflight (release (st_inflight st)) st) (cc_net c) (cc_waiters c) (cc_up c)
    (delete i (cc_tasks c)) (cc_done c ++ [(t_origin t, t_data t, r)]).

(** ** Admission *)

(** A packet arrives at a UDP worker, or a frame on a TCP connection. *)
Definition accept (o : Origin) (packet : bytes) (c : Conc) : Conc :=
  let st := cc_state c in
  match try_acquire (st_inflight st) with
  | Some s =>
    let data := match o with UdpFrom _ => take 4096 packet | TcpFrom _ _ => packet end in
    mk_conc (set_inflight s st) (cc_net c) (cc_waiters c) (cc_up c)
      (cc_tasks c ++ [mk_task data o Spawned]) (cc_done c)
  | None =>
    mk_conc (on_stats (bump Dropped) st) (cc_net c) (cc_waiters c) (cc_up c) (cc_tasks c) (cc_done c)
  end.

(** ** The pieces of [handle] *)

(** Parse, count, load the configuration. *)
Definition start_call (i : nat) (t : Task) (c : Conc) : Conc :=
  let st := cc_state c in
  match from_vec (t_data t) with
  | None => finish i t None st c
  | Some request =>
    match head (m_queries (view request)) with
    | None => finish i t None st c
    | Some query =>
      goto i (Counted (mk_job request query (st_config st))) (on_stats (bump Queries) st) c
    end
  end.

Definition match_blocklist (i : nat) (j : Job) (c : Conc) : Conc :=
  let st := cc_state c in
  if is_blocked (st_blocklist st) (query_domain (j_query j)) then
    goto i (Answered j (build_blocked (j_request j) (j_query j) (cfg_dns (j_cfg j))) (str "blocked"))
      (on_stats (bump Blocked) st) c
  else goto i (Looking j) st c.

Definition lookup_cache (env : HandleEnv) (i : nat) (j : Job) (c : Conc) : Conc :=
  let '(cache, hit) := moka_get (st_cache (cc_state c)) (env_clock env) (job_key j) in
  let st := set_cache cache (cc_state c) in
  match hit with
  | Some cached =>
    goto i (Answered j (patch_id (wire cached) (m_id (view (j_request j)))) (str "cached"))
      (on_stats (bump CacheHits) st) c
  | None => goto i (Missed j) st c
  end.

(** The call of [try_get_with]. *)
Definition begin_get_with (env : HandleEnv) (i : nat) (j : Job) (c : Conc) : Conc :=
  let st := cc_state c in
  let '((cache, waiters), e) := enter (st_cache st) (cc_waiters c) (env_clock env) (job_key j) in
  let ph := match e with
            | Present v => Landed j (Ok v)
            | Lead => Leading j
            | Follow => Following j
            end in
  mk_conc (set_cache cache st) (cc_net c) waiters (cc_up c) (set_phase i ph (cc_tasks c)) (cc_done c).

(** [resolve] up to the load of the servers; there is no step while all the
    upstream permits are taken. *)
Definition begin_resolve (i : nat) (j : Job) (c : Conc) : option Conc :=
  permit ← try_acquire (cc_up c);
  Some (mk_conc (cc_state c) (cc_net c) (cc_waiters c) permit
          (set_phase i (Asking j (st_upstream (cc_state c))) (cc_tasks c)) (cc_done c)).

(** The rest of [resolve] and of the init closure, which do not wait for
    anything but the network; the upstream permit is dropped and [try_get_with]
    settles.  [None]: a panic ends the process. *)
Definition end_resolve (env : HandleEnv) (i : nat) (t : Task) (j : Job) (up : Upstream) (c : Conc) :
    option Conc :=
  match resolve up (env_net env) (env_unix env) (t_data t) (cc_net c) with
  | (_, Err Panicked) => None
  | (tr, r) =>
    let st := cc_state c in
    let persist := match r with
                   | Ok resp => (try_send (st_persist st) (job_key j, resp)).1
                   | Err _ => st_persist st
                   end in
    let '(cache, waiters) := settle (st_cache st) (cc_waiters c) (env_clock env) (job_key j) r in
    Some (mk_conc (set_persist persist (set_cache cache st)) tr waiters (release (cc_up c))
            (wake (job_key j) r (set_phase i (Landed j r) (cc_tasks c))) (cc_done c))
  end.

(** The [match] on the result of [try_get_with]. *)
Definition end_get_with (i : nat) (j : Job) (r : result error CachedResponse) (c : Conc) : Conc :=
  let st := cc_state c in
  match r with
  | Ok cached =>
    goto i (Answered j (patch_id (wire cached) (m_id (view (j_request j)))) (str "forwarded"))
      (on_stats (bump Forwarded) st) c
  | Err _ =>
    goto i (Answered j (build_response_code (j_request j) (j_query j) ServFail) (str "error"))
      (on_stats (bump UpstreamErrors) st) c
  end.

(** Log, reply, drop the permit. *)
Definition reply (env : HandleEnv) (i : nat) (t : Task) (j : Job) (response : bytes)
    (action : rstring) (c : Conc) : Conc :=
  let rec := log_record env (cfg_qlog (j_cfg j)) (Some (client_ip (t_origin t))) (j_query j) action in
  finish i t (Some response) (log_query rec (cc_state c)) c.

(** One step of task [i]; [None] when it has to wait, or panics. *)
Definition poll (env : HandleEnv) (i : nat) (c : Conc) : option Conc :=
  t ← cc_tasks c !! i;
  match t_phase t with
  | Spawned => Some (start_call i t c)
  | Counted j => Some (match_blocklist i j c)
  | Looking j => Some (lookup_cache env i j c)
  | Missed j => Some (begin_get_with env i j c)
  | Leading j => begin_resolve i j c
  | Asking j up => end_resolve env i t j up c
  | Following _ => None
  | Landed j r => Some (end_get_with i j r c)
  | Answered j response action => Some (reply env i t j response action c)
  end.

(** A server that has nothing to do yet. *)
Definition conc_start (st : AppState) : Conc :=
  mk_conc st [] no_waiters (sem_new (up_permits (st_upstream st))) [] [].

(** A step of some task, and any step: a query arrives, or a task moves. *)
Inductive poll_step (E : HandleEnv -> Prop) (c c' : Conc) : Prop :=
| PollStep i env : E env -> poll env i c = Some c' -> poll_step E c c'.

Inductive conc_step (E : HandleEnv -> Prop) (c : Conc) : Conc -> Prop :=
| Arrive o packet : conc_step E c (accept o packet c)
| Turn c' : poll_step E c c' -> conc_step E c c'.

(** ** What a step does, case by case *)

Inductive poll_spec (env : HandleEnv) (i : nat) (t : Task) (c : Conc) : Conc -> Prop :=
| PollSilent :
  t_phase t = Spawned ->
  (forall request, from_vec (t_data t) = Some request -> m_queries (view request) = []) ->
  poll_spec env i t c (finish i t None (cc_state c) c)
| PollCounted j :
  t_phase t = Spawned -> from_vec (t_data t) = Some (j_request j) ->
  head (m_queries (view (j_request j))) = Some (j_query j) ->
  poll_spec env i t c (goto i (Counted j) (on_stats (bump Queries) (cc_state c)) c)
| PollBlocked j :
  t_phase t = Counted j -> is_blocked (st_blocklist (cc_state c)) (query_domain (j_query j)) = true ->
  poll_spec env i t c
    (goto i (Answered j (build_blocked (j_request j) (j_query j) (cfg_dns (j_cfg j))) (str "blocked"))
       (on_stats (bump Blocked) (cc_state c)) c)
| PollLooking j :
  t_phase t = Counted j -> is_blocked (st_blocklist (cc_state c)) (query_domain (j_query j)) = false ->
  poll_spec env i t c (goto i (Looking j) (cc_state c) c)
| PollHit j cache v d :
  t_phase t = Looking j ->
  moka_entries (st_cache (cc_state c)) !! job_key j = Some (v, d) -> live (env_clock env) d ->
  moka_entries cache ⊆ moka_entries (st_cache (cc_state c)) ->
  moka_expiry cache = moka_expiry (st_cache (cc_state c)) ->
  poll_spec env i t c
    (goto i (Answered j (patch_id (wire v) (m_id (view (j_request j)))) (str "cached"))
       (on_stats (bump CacheHits) (set_cache cache (cc_state c))) c)
| PollMissed j cache :
  t_phase t = Looking j ->
  moka_entries cache ⊆ moka_entries (st_cache (cc_state c)) ->
  moka_expiry cache = moka_expiry (st_cache (cc_state c)) ->
  poll_spec env i t c (goto i (Missed j) (set_cache cache (cc_state c)) c)
| PollEnter j cache waiters ph :
  t_phase t = Missed j ->
  moka_entries cache ⊆ moka_entries (st_cache (cc_state c)) ->
  moka_expiry cache = moka_expiry (st_cache (cc_state c)) ->
  ((exists v d, ph = Landed j (Ok v) /\ waiting_keys waiters = waiting_keys (cc_waiters c) /\
      moka_entries (st_cache (cc_state c)) !! job_key j = Some (v, d) /\ live (env_clock env) d) \/
   (ph = Leading j /\ (job_key j ∉ waiting_keys (cc_waiters c)) /\
      waiting_keys waiters = ({[job_key j]} ∪ waiting_keys (cc_waiters c))) \/
   (ph = Following j /\ job_key j ∈ waiting_keys (cc_waiters c) /\
      waiting_keys waiters = waiting_keys (cc_waiters c))) ->
  poll_spec env i t c
    (mk_conc (set_cache cache (cc_state c)) (cc_net c) waiters (cc_up c)
       (set_phase i ph (cc_tasks c)) (cc_done c))
| PollAcquired j permit :
  t_phase t = Leading j -> try_acquire (cc_up c) = Some permit ->
  poll_spec env i t c
    (mk_conc (cc_state c) (cc_net c) (cc_waiters c) permit
       (set_phase i (Asking j (st_upstream (cc_state c))) (cc_tasks c)) (cc_done c))
| PollResolved j up tr r cache waiters :
  t_phase t = Asking j up ->
  resolve up (env_net env) (env_unix env) (t_data t) (cc_net c) = (tr, r) -> r <> Err Panicked ->
  waiting_keys waiters = (waiting_keys (cc_waiters c) ∖ {[job_key j]}) ->
  moka_expiry cache = moka_expiry (st_cache (cc_state c)) ->
  moka_entries cache ⊆
    match r with
    | Ok v => <[job_key j := (v, deadline (st_cache (cc_state c)) (env_clock env) (job_key j) v)]>
                (moka_entries (st_cache (cc_state c)))
    | Err _ => moka_entries (st_cache (cc_state c))
    end ->
  poll_spec env i t c
    (mk_conc (set_persist (match r with
                           | Ok v => (try_send (st_persist (cc_state c)) (job_key j, v)).1
                           | Err _ => st_persist (cc_state c)
                           end) (set_cache cache (cc_state c)))
       tr waiters (release (cc_up c))
       (wake (job_key j) r (set_phase i (Landed j r) (cc_tasks c))) (cc_done c))
| PollForwarded j v :
  t_phase t = Landed j (Ok v) ->
  poll_spec env i t c
    (goto i (Answered j (patch_id (wire v) (m_id (view (j_request j)))) (str "forwarded"))
       (on_stats (bump Forwarded) (cc_state c)) c)
| PollFailed j e :
  t_phase t = Landed j (Err e) ->
  poll_spec env i t c
    (goto i (Answered j (build_response_code (j_request j) (j_query j) ServFail) (str "error"))
       (on_stats (bump UpstreamErrors) (cc_state c)) c)
| PollReply j response action rec :
  t_phase t = Answered j response action ->
  rec = log_record env (cfg_qlog (j_cfg j)) (Some (client_ip (t_origin t))) (j_query j) action ->
  poll_spec env i t c (finish i t (Some response) (log_query rec (cc_state c)) c).

Context {ML : MokaLaws MK} {FL : SingleFlightLaws MK F}.

Lemma poll_ok env i c c' :
  poll env i c = Some c' -> exists t, cc_tasks c !! i = Some t /\ poll_spec env i t c c'.
Proof using ML FL.
  unfold poll. intros (t & Hi & H)%bind_Some. exists t. split; [done|].
  destruct (t_phase t) as [|j|j|j|j|j up|j|j r|j resp act] eqn:Et; try done; try injection H as <-.
  - unfold start_call. destruct (from_vec (t_data t)) as [request|] eqn:Ep;
      [|apply PollSilent; [done|by rewrite Ep]].
    destruct (m_queries (view request)) as [|query qs] eqn:Eq; cbn [head].
    + apply PollSilent; [done|]. rewrite Ep. by intros ? [= <-].
    + apply (PollCounted _ _ _ _ (mk_job request query _)); cbn [j_request j_query]; try done. by rewrite Eq.
  - unfold match_blocklist. destruct (is_blocked _ _) eqn:Eb; [by apply PollBlocked|by apply PollLooking].
  - unfold lookup_cache. destruct (moka_get _ _ _) as [cache [v|]] eqn:Eg;
      destruct (moka_get_spec _ _ _ _ _ Eg) as (Hs & He & Hv).
    + destruct (Hv v eq_refl) as (d & ? & ?). by eapply PollHit.
    + by apply PollMissed.
  - unfold begin_get_with. destruct (enter _ _ _ _) as [[cache waiters] e] eqn:Ee.
    apply enter_spec in Ee as (He & Hs & Hc). apply (PollEnter _ _ _ _ j); [done..|].
    destruct e as [v| |]; [left|right; left; by destruct Hc|right; right; by destruct Hc].
    destruct Hc as (? & d & ? & ?). by exists v, d.
  - apply bind_Some in H as (permit & ? & [= <-]). by apply (PollAcquired _ _ _ _ j).
  - unfold end_resolve in H. destruct (resolve _ _ _ _ _) as [tr r] eqn:Er.
    destruct (settle (st_cache (cc_state c)) (cc_waiters c) (env_clock env) (job_key j) r)
      as [cache waiters] eqn:Es.
    destruct (settle_spec _ _ _ _ _ _ _ Es) as (He & Hw & Hs).
    assert (r <> Err Panicked /\ Some c' = Some (mk_conc
      (set_persist (match r with
                    | Ok v => (try_send (st_persist (cc_state c)) (job_key j, v)).1
                    | Err _ => st_persist (cc_state c)
                    end) (set_cache cache (cc_state c)))
       tr waiters (release (cc_up c))
       (wake (job_key j) r (set_phase i (Landed j r) (cc_tasks c))) (cc_done c))) as [Hr [= ->]].
    { destruct r as [v|e]; [|destruct e; [done|..]]; by rewrite <-H. }
    by eapply PollResolved.
  - destruct r as [v|e]; [by apply PollForwarded|by eapply PollFailed].
  - by eapply PollReply.
Qed.
End Flight.

(** ** Lists of tasks *)

Section Tasks.
Context `{U : Unicode, HK : Hickory, MK : Moka, MP : Mpsc, SM : Semaphores, F : !SingleFlight MK}.
Implicit Types (tasks : list Task) (t : Task) (w : phase -> nat).

(** The sum of a weight of the phases. *)
Definition total (w : phase -> nat) (tasks : list Task) : nat :=
  sum_list_with (fun t => w (t_phase t)) tasks.

Lemma set_phase_at tasks i t ph :
  tasks !! i = Some t -> set_phase i ph tasks ≡ₚ at_phase ph t :: delete i tasks.
Proof.
  intros Hi. unfold set_phase.
  rewrite (delete_Permutation (alter _ i tasks) i (at_phase ph t))
    by (by rewrite list_lookup_alter_eq, Hi).
  f_equiv. clear Hi. revert i. induction tasks as [|t' tasks IH]; intros [|i]; try done.
  simpl. by f_equiv.
Qed.

Lemma total_set w tasks i t ph :
  tasks !! i = Some t -> (total w (set_phase i ph tasks) + w (t_phase t) = total w tasks + w ph)%nat.
Proof.
  intros Hi. unfold total. rewrite (set_phase_at _ _ _ ph Hi).
  rewrite (delete_Permutation tasks i t Hi) at 2. simpl. lia.
Qed.

Lemma total_delete w tasks i t :
  tasks !! i = Some t -> (total w (delete i tasks) + w (t_phase t) = total w tasks)%nat.
Proof.
  intros Hi. unfold total. rewrite (delete_Permutation tasks i t Hi) at 2. simpl. lia.
Qed.

Lemma total_snoc w tasks t : total w (tasks ++ [t]) = (total w tasks + w (t_phase t))%nat.
Proof. unfold total. rewrite sum_list_with_app. simpl. lia. Qed.

Lemma total_wake_le w k r tasks :
  (forall j, w (Landed j r) <= w (Following j))%nat -> (total w (wake k r tasks) <= total w tasks)%nat.
Proof.
  intros Hw. induction tasks as [|t tasks IH]; [done|]. unfold total in *. simpl.
  assert (w (t_phase (wake_task k r t)) <= w (t_phase t))%nat; [|lia].
  unfold wake_task. destruct (t_phase t) eqn:Et; try (rewrite Et; lia).
  case_decide; [apply Hw|rewrite Et; lia].
Qed.

Lemma total_wake w k r tasks :
  (forall j, w (Landed j r) = w (Following j)) -> total w (wake k r tasks) = total w tasks.
Proof.
  intros Hw. induction tasks as [|t tasks IH]; [done|]. unfold total in *. simpl. rewrite IH. f_equal.
  unfold wake_task. destruct (t_phase t) eqn:Et; try (by rewrite Et). case_decide; [apply Hw|by rewrite Et].
Qed.

Lemma length_set_phase i ph tasks : length (set_phase i ph tasks) = length tasks.
Proof. apply length_alter. Qed.

Lemma Forall_set_phase (P : Task -> Prop) tasks i t ph :
  tasks !! i = Some t -> P (at_phase ph t) -> Forall P tasks -> Forall P (set_phase i ph tasks).
Proof.
  intros Hi Ht H. rewrite (set_phase_at _ _ _ ph Hi). constructor; [done|by apply Forall_delete].
Qed.

Lemma Forall_wake (P Q : Task -> Prop) k r tasks :
  (forall t, P t -> Q (wake_task k r t)) -> Forall P tasks -> Forall Q (wake k r tasks).
Proof. intros H HP. apply Forall_fmap. by apply (Forall_impl P). Qed.

(** The keys of the tasks that lead an evaluation. *)
Definition leader (t : Task) : option CacheKey :=
  match t_phase t with Leading j | Asking j _ => Some (job_key j) | _ => None end.
Definition leaders (tasks : list Task) : list CacheKey := omap leader tasks.

Lemma leaders_wake k r tasks : leaders (wake k r tasks) = leaders tasks.
Proof.
  unfold leaders, wake. induction tasks as [|t tasks IH]; [done|]. csimpl. rewrite IH.
  replace (leader (wake_task k r t)) with (leader t); [done|]. unfold wake_task, leader.
  destruct (t_phase t) eqn:Et; rewrite ?Et; try done. case_decide; [done|by rewrite Et].
Qed.

Lemma leaders_at tasks i t :
  tasks !! i = Some t -> leaders tasks ≡ₚ option_list (leader t) ++ leaders (delete i tasks).
Proof.
  intros Hi. unfold leaders. rewrite (delete_Permutation tasks i t Hi) at 1. simpl.
  by destruct (leader t).
Qed.

Lemma leaders_set tasks i t ph :
  tasks !! i = Some t ->
  leaders (set_phase i ph tasks) ≡ₚ option_list (leader (at_phase ph t)) ++ leaders (delete i tasks).
Proof. intros Hi. unfold leaders. rewrite (set_phase_at _ _ _ ph Hi). simpl. by destruct (leader _). Qed.
End Tasks.

(** ** Permits, leaders and followers *)

Section FlightInv.
Context `{U : Unicode, HK : Hickory, MK : Moka, MP : Mpsc, SM : Semaphores, F : !SingleFlight MK}.

(** Weights: holding an upstream permit; counted as a query, but not yet with
    an outcome; the steps a task has left, at most. *)
Definition asking (ph : phase) : nat := match ph with Asking _ _ => 1 | _ => 0 end.
Definition open_call (ph : phase) : nat :=
  match ph with Spawned | Answered _ _ _ => 0 | _ => 1 end.
Definition rank (ph : phase) : nat :=
  match ph with
  | Spawned => 8 | Counted _ => 7 | Looking _ => 6 | Missed _ => 5 | Leading _ => 4
  | Asking _ _ => 3 | Following _ => 3 | Landed _ _ => 2 | Answered _ _ _ => 1
  end.

(** A task that follows does so for a key in evaluation. *)
Definition follows (w : Waiters) (t : Task) : Prop :=
  forall j, t_phase t = Following j -> job_key j ∈ waiting_keys w.

(** [n] permits of the server and [m] of the upstream. *)
Record flight_inv (n m : Z) (c : Conc) : Prop := {
  fi_permits : available_permits (st_inflight (cc_state c)) + Z.of_nat (length (cc_tasks c)) = n;
  fi_upstream : available_permits (cc_up c) + Z.of_nat (total asking (cc_tasks c)) = m;
  fi_leaders : leaders (cc_tasks c) ≡ₚ elements (waiting_keys (cc_waiters c));
  fi_followers : Forall (follows (cc_waiters c)) (cc_tasks c);
}.

(** Counted queries are the ones with an outcome and the open calls. *)
Definition accounted (c : Conc) : Prop :=
  let s := st_stats (cc_state c) in
  as_u 64 (queries s) =
  as_u 64 (blocked s + cache_hits s + forwarded s + upstream_errors s +
           Z.of_nat (total open_call (cc_tasks c))).

Context {ML : MokaLaws MK} {SL : SemaphoreLaws SM} {FL : SingleFlightLaws MK F}.

#[local] Ltac step_cbn := cbn [goto finish accept cc_state cc_net cc_waiters cc_up cc_tasks cc_done
  on_stats set_cache set_persist set_inflight st_inflight st_stats st_cache st_upstream st_persist] in *.

(** The three ways into [try_get_with]. *)
#[local] Ltac enter_cases :=
  try match goal with H : _ \/ _ |- _ =>
    destruct H as [(v & d & -> & Hw & Hd & Hlive)|[(-> & Hk & Hw)|(-> & Hk & Hw)]] end.

(** The weights of the moved task before and after a step. *)
#[local] Ltac weigh w Hi Ht :=
  first
    [ match goal with |- context [set_phase ?i ?ph ?ts] =>
        let H := fresh in pose proof (total_set w ts i _ ph Hi) as H; rewrite Ht in H; cbn [asking open_call rank] in H end
    | let H := fresh in pose proof (total_delete w _ _ _ Hi) as H; rewrite Ht in H; cbn [asking open_call rank] in H ].

Lemma poll_permits env i t c c' :
  cc_tasks c !! i = Some t -> poll_spec env i t c c' ->
  available_permits (st_inflight (cc_state c')) + Z.of_nat (length (cc_tasks c')) =
  available_permits (st_inflight (cc_state c)) + Z.of_nat (length (cc_tasks c)).
Proof using SL.
  intros Hi Hp. pose proof (lookup_lt_Some _ _ _ Hi) as Hlt.
  destruct Hp; step_cbn; autorewrite with rdns_rw;
    unfold wake; rewrite ?length_fmap, ?length_set_phase; try done;
    rewrite release_permits, length_delete by eauto; lia.
Qed.

Lemma poll_upstream env i t c c' :
  cc_tasks c !! i = Some t -> poll_spec env i t c c' ->
  available_permits (cc_up c') + Z.of_nat (total asking (cc_tasks c')) =
  available_permits (cc_up c) + Z.of_nat (total asking (cc_tasks c)).
Proof using SL.
  intros Hi Hp. destruct Hp; enter_cases; step_cbn; rewrite ?total_wake by done;
    match goal with Ht : t_phase t = _ |- _ => weigh asking Hi Ht end;
    try match goal with H : try_acquire _ = Some _ |- _ => apply try_acquire_Some in H end;
    rewrite ?release_permits; lia.
Qed.

(** Exactly one leader per key in evaluation, and a follower waits for one. *)
Lemma poll_leaders env i t c c' :
  cc_tasks c !! i = Some t -> poll_spec env i t c c' ->
  leaders (cc_tasks c) ≡ₚ elements (waiting_keys (cc_waiters c)) ->
  leaders (cc_tasks c') ≡ₚ elements (waiting_keys (cc_waiters c')).
Proof.
  intros Hi Hp Hl. rewrite (leaders_at _ _ _ Hi) in Hl.
  destruct Hp; enter_cases; step_cbn; rewrite ?leaders_wake, ?(leaders_set _ _ _ _ Hi);
    match goal with Ht : t_phase t = _ |- _ => unfold leader in *; rewrite Ht in Hl end;
    cbn [at_phase t_phase option_list app] in *; rewrite ?Hw, ?Hl; try done.
  - rewrite elements_union_singleton by done. by rewrite <-Hl.
  - match goal with H : waiting_keys _ = _ |- _ => rewrite H end.
    assert (job_key j ∈ waiting_keys (cc_waiters c)) as Hk
      by (apply elem_of_elements; rewrite <-Hl; left).
    rewrite (union_difference_singleton_L _ _ Hk) in Hl.
    rewrite elements_union_singleton in Hl by set_solver. by apply (inj (cons _)) in Hl.
Qed.

Lemma follows_mono w w' t : waiting_keys w ⊆ waiting_keys w' -> follows w t -> follows w' t.
Proof. intros Hsub H j Hj. by apply Hsub, H. Qed.

Lemma poll_followers env i t c c' :
  cc_tasks c !! i = Some t -> poll_spec env i t c c' ->
  Forall (follows (cc_waiters c)) (cc_tasks c) -> Forall (follows (cc_waiters c')) (cc_tasks c').
Proof.
  intros Hi Hp Hf. destruct Hp; enter_cases; step_cbn;
    try (apply (Forall_set_phase _ _ _ t); [done|by intros ? [=]|done]); try by apply Forall_delete.
  1,2,3: apply (Forall_set_phase _ _ _ t); [done| |
    apply (Forall_impl _ _ _ Hf); intros ?; apply follows_mono; rewrite Hw; set_solver].
  - by intros ? [=].
  - by intros ? [=].
  - intros ? [= <-]. by rewrite Hw.
  - apply (Forall_wake (follows (cc_waiters c)));
      [|apply (Forall_set_phase _ _ _ t); [done|by intros ? [=]|done]].
    intros t' Ht' j'. unfold wake_task. destruct (t_phase t') eqn:E; rewrite ?E; try done.
    case_decide as Hk; [done|]. rewrite E. intros [= <-]. apply Ht' in E.
    match goal with H : waiting_keys _ = _ |- _ => rewrite H end. set_solver.
Qed.

Lemma poll_flight n m env i c c' : poll env i c = Some c' -> flight_inv n m c -> flight_inv n m c'.
Proof using ML SL FL.
  intros (t & Hi & Hp)%poll_ok [H1 H2 H3 H4]. split.
  - by rewrite (poll_permits _ _ _ _ _ Hi Hp).
  - by rewrite (poll_upstream _ _ _ _ _ Hi Hp).
  - by eapply poll_leaders.
  - by eapply poll_followers.
Qed.

Lemma accept_flight n m o packet c : flight_inv n m c -> flight_inv n m (accept o packet c).
Proof using SL.
  intros [H1 H2 H3 H4]. unfold accept. destruct (try_acquire _) as [s|] eqn:Ea; [|by split].
  apply try_acquire_Some in Ea. split; step_cbn.
  - rewrite length_app. simpl. lia.
  - rewrite total_snoc. cbn [t_phase asking]. lia.
  - unfold leaders. rewrite omap_app. cbn. by rewrite app_nil_r.
  - apply Forall_app. split; [done|]. apply Forall_singleton. by intros ? [=].
Qed.

Lemma start_flight n st :
  available_permits (st_inflight st) = n -> 0 <= up_permits (st_upstream st) ->
  flight_inv n (up_permits (st_upstream st)) (conc_start st).
Proof using SL FL.
  intros Hn Hm. split; step_cbn; cbn [conc_start cc_state cc_tasks cc_up cc_waiters].
  - cbn [length]. lia.
  - rewrite sem_new_permits by done. cbn. lia.
  - by rewrite no_waiters_keys, elements_empty.
  - done.
Qed.

(** An outcome closes a call; dropped packets are not calls. *)
Lemma poll_accounted env i c c' : poll env i c = Some c' -> accounted c -> accounted c'.
Proof using ML FL.
  intros (t & Hi & Hp)%poll_ok. unfold accounted.
  destruct Hp; enter_cases; step_cbn; autorewrite with rdns_rw; rewrite ?total_wake by done;
    match goal with Ht : t_phase t = _ |- _ => weigh open_call Hi Ht end;
    destruct (st_stats (cc_state c)) as [nq nb nh nf ne nd t0];
    cbn [bump queries blocked cache_hits forwarded upstream_errors];
    unfold fetch_add, as_u; intros Ha; Z.div_mod_to_equations; lia.
Qed.

Lemma accept_accounted o packet c : accounted c -> accounted (accept o packet c).
Proof.
  unfold accounted, accept. destruct (try_acquire _); step_cbn; [|by destruct (st_stats (cc_state c))].
  rewrite total_snoc. cbn [t_phase open_call]. by rewrite Nat.add_0_r.
Qed.
End FlightInv.

(** ** Replies and cached entries *)

(** What a packet may be answered with: silence exactly when it carries no
    question, and otherwise a reply for its first question (or an empty
    datagram, when a built message does not serialise). *)
Definition acceptable `{U : Unicode, HK : Hickory} (data : bytes) (r : option bytes) : Prop :=
  match r with
  | None => forall request, from_vec data = Some request -> m_queries (view request) = []
  | Some resp => exists request query,
      from_vec data = Some request /\ head (m_queries (view request)) = Some query /\
      (resp <> [] -> reply_for request query resp)
  end.

Section FlightSound.
Context `{U : Unicode, HK : Hickory, MK : Moka, MP : Mpsc, SM : Semaphores, F : !SingleFlight MK}.

Definition job_of (ph : phase) : option Job :=
  match ph with
  | Spawned => None
  | Counted j | Looking j | Missed j | Leading j | Asking j _ | Following j | Landed j _
  | Answered j _ _ => Some j
  end.

(** A job is what its packet parses to. *)
Definition job_sound (data : bytes) (j : Job) : Prop :=
  from_vec data = Some (j_request j) /\ head (m_queries (view (j_request j))) = Some (j_query j).

(** The labels of the query log. *)
Definition labels : list rstring := [str "blocked"; str "cached"; str "forwarded"; str "error"].

(** What a task holds is right for its job; the bounds of the TTLs are the same
    in every snapshot of [up]. *)
Definition phase_sound (up : Upstream) (ph : phase) : Prop :=
  match ph with
  | Asking _ up' => up_min_ttl up' = up_min_ttl up /\ up_max_ttl up' = up_max_ttl up
  | Landed j (Ok v) => genuine (job_key j) v
  | Answered j resp action => action ∈ labels /\ (resp <> [] -> reply_for (j_request j) (j_query j) resp)
  | _ => True
  end.

Definition task_sound (up : Upstream) (t : Task) : Prop :=
  (forall j, job_of (t_phase t) = Some j -> job_sound (t_data t) j) /\ phase_sound up (t_phase t).

Definition done_sound (x : Origin * bytes * option bytes) : Prop := acceptable x.1.2 x.2.

Record conc_sound (c : Conc) : Prop := {
  cs_state : state_sound (cc_state c);
  cs_tasks : Forall (task_sound (st_upstream (cc_state c))) (cc_tasks c);
  cs_done : Forall done_sound (cc_done c);
}.

Context {HL : HickoryLaws HK} {ML : MokaLaws MK} {PL : MpscLaws MP} {FL : SingleFlightLaws MK F}.

#[local] Ltac step_cbn := cbn [goto finish accept cc_state cc_net cc_waiters cc_up cc_tasks cc_done
  on_stats set_cache set_persist set_inflight st_inflight st_stats st_cache st_upstream st_persist] in *.

(** What was fetched for a job is genuine for its key. *)
Lemma job_fetched data j up net now tr tr' v :
  job_sound data j -> resolve up net now data tr = (tr', Ok v) -> genuine (job_key j) v.
Proof. intros [Hp Hq] Hr. exists data, (j_request j), (j_query j). eauto with rdns. Qed.

Lemma blocked_reply_for request query dns :
  build_blocked request query dns <> [] -> reply_for request query (build_blocked request query dns).
Proof using HL.
  destruct (build_blocked_msg request query dns) as (msg & -> & Hv). by eapply built_reply_for.
Qed.

Lemma servfail_reply_for request query code :
  build_response_code request query code <> [] ->
  reply_for request query (build_response_code request query code).
Proof using HL.
  eapply built_reply_for. autorewrite with rdns_rw. by rewrite view_base_response.
Qed.

(** A cached or fetched entry, patched for the client of a job. *)
Lemma job_patched data j v :
  job_sound data j -> genuine (job_key j) v ->
  reply_for (j_request j) (j_query j) (patch_id (wire v) (m_id (view (j_request j)))).
Proof using HL. intros [(_ & Hid & _)%from_vec_header _]. by apply patch_reply_for. Qed.

Lemma wake_sound up k r t :
  (forall v, r = Ok v -> genuine k v) -> task_sound up t -> task_sound up (wake_task k r t).
Proof.
  intros Hr [Hj Hph]. unfold wake_task. destruct (t_phase t) eqn:E; try (by split; rewrite E).
  case_decide as Hk; [|by split; rewrite E]. split; [done|]. cbn [at_phase t_phase phase_sound].
  rewrite Hk. destruct r; auto.
Qed.

Lemma poll_state_sound env i t c c' :
  poll_spec env i t c c' -> task_sound (st_upstream (cc_state c)) t ->
  state_sound (cc_state c) -> state_sound (cc_state c').
Proof using PL.
  intros Hp [Hj _] [He Hs].
  assert (forall cache, moka_entries cache ⊆ moka_entries (st_cache (cc_state c)) ->
    entries_inv (fun k v _ => genuine k v) (set_cache cache (cc_state c))) as Hsub
    by (intros; by apply entries_inv_sub).
  destruct Hp; step_cbn; try (by split; [apply Hsub|]); try done.
  - assert (job_sound (t_data t) j) as Hjob by (apply Hj; by rewrite H). destruct r as [v|e].
    + assert (genuine (job_key j) v) as Hg by (by eapply job_fetched). split.
      * intros k v' d Hk. cbn in Hk. eapply lookup_weaken in Hk; [|done].
        apply lookup_insert_Some in Hk as [[<- [= <- <-]]|[_ Hk]]; [done|by eapply He].
      * intros k v'. cbn [set_persist st_persist].
        destruct (try_send _ _) as [p b] eqn:Es. cbn [fst]. apply try_send_spec in Es as ->.
        intros [?|Hin]%elem_of_app; [by apply Hs|]. destruct b; [|by apply elem_of_nil in Hin].
        by apply list_elem_of_singleton in Hin as [= -> ->].
    + split; [by apply Hsub|done].
  - unfold state_sound, entries_inv in *. cbn. by autorewrite with rdns_rw.
Qed.

Lemma poll_upstream_same env i t c c' :
  poll_spec env i t c c' -> st_upstream (cc_state c') = st_upstream (cc_state c).
Proof. destruct 1; step_cbn; by autorewrite with rdns_rw. Qed.

Lemma poll_tasks_sound env i t c c' :
  cc_tasks c !! i = Some t -> poll_spec env i t c c' -> state_sound (cc_state c) ->
  Forall (task_sound (st_upstream (cc_state c))) (cc_tasks c) ->
  Forall (task_sound (st_upstream (cc_state c))) (cc_tasks c').
Proof using HL.
  intros Hi Hp [He _] Hall. set (up := st_upstream (cc_state c)) in *.
  destruct (Forall_lookup_1 _ _ _ _ Hall Hi) as [Hj Hph].
  assert (forall ph j, job_of (t_phase t) = Some j -> job_of ph = Some j ->
    (job_sound (t_data t) j -> phase_sound up ph) ->
    Forall (task_sound up) (set_phase i ph (cc_tasks c))) as Hmove.
  { intros ph j Ht Hjob Hph'. apply (Forall_set_phase _ _ _ t); [done| |done].
    split; cbn [at_phase t_phase t_data]; [|by apply Hph', Hj]. rewrite Hjob. intros ? [= <-]. by apply Hj. }
  destruct Hp; step_cbn; try match goal with H : t_phase t = _ |- _ => rewrite H in * end;
    try by apply Forall_delete.
  - apply (Forall_set_phase _ _ _ t); [done| |done]. split; [|done]. by intros ? [= <-].
  - eapply Hmove; [done..|]. intros _. split; [by apply (bool_decide_unpack _)|]. intros ?. by apply blocked_reply_for.
  - by eapply Hmove.
  - eapply Hmove; [done..|]. intros Hjob. split; [by apply (bool_decide_unpack _)|]. intros _.
    eapply job_patched; [done|]. by eapply He.
  - by eapply Hmove.
  - destruct_or!; destruct_and?; subst; try (by eapply Hmove).
    destruct H2 as (v & d & -> & _ & Hd & _). eapply Hmove; [done..|]. intros _. by eapply He.
  - by eapply Hmove.
  - assert (forall v, r = Ok v -> genuine (job_key j) v) as Hg.
    { intros v ->. eapply job_fetched; [by apply Hj|done]. }
    eapply Forall_wake; [intros ?; by apply wake_sound|].
    eapply Hmove; [done..|]. intros _. destruct r; cbn; auto.
  - eapply Hmove; [done..|]. intros Hjob. split; [by apply (bool_decide_unpack _)|]. intros _. by eapply job_patched.
  - eapply Hmove; [done..|]. intros _. split; [by apply (bool_decide_unpack _)|]. intros ?. by apply servfail_reply_for.
Qed.

Lemma poll_done_sound env i t c c' :
  poll_spec env i t c c' -> task_sound (st_upstream (cc_state c)) t ->
  Forall done_sound (cc_done c) -> Forall done_sound (cc_done c').
Proof.
  intros Hp [Hj Hph] Hd. destruct Hp; step_cbn; try done; apply Forall_app; (split; [done|]);
    apply Forall_singleton; [done|].
  match goal with H : t_phase t = _ |- _ => rewrite H in * end.
  destruct (Hj j eq_refl) as [? ?], Hph. exists (j_request j), (j_query j). auto.
Qed.

Lemma poll_sound env i c c' : poll env i c = Some c' -> conc_sound c -> conc_sound c'.
Proof using HL ML PL FL.
  intros (t & Hi & Hp)%poll_ok [Hs Ht Hd]. pose proof (Forall_lookup_1 _ _ _ _ Ht Hi) as Hti.
  split; [by eapply poll_state_sound|rewrite (poll_upstream_same _ _ _ _ _ Hp); by eapply poll_tasks_sound|
    by eapply poll_done_sound].
Qed.

Lemma accept_sound o packet c : conc_sound c -> conc_sound (accept o packet c).
Proof.
  intros [Hs Ht Hd]. unfold accept. destruct (try_acquire _); split; try done.
  step_cbn. apply Forall_app. split; [done|]. apply Forall_singleton. by split.
Qed.

Lemma start_sound st : state_sound st -> conc_sound (conc_start st).
Proof. intros Hs. by split. Qed.
End FlightSound.
