(* ===== verification/Service.v ===== *)
(** * The server as a service

    What the concurrent server of [Flight] promises to those who send it
    queries: an abstract service that it refines, progress until every query is
    answered, and the place of [Dns.handle] among its runs. *)

From S2P Require Import Prelude RustStr NetAddr Fs Config Blocklist Hickory Cache Upstream Qlog Stats State Dns Flight.

(** ** The abstract service

    What the server is, seen from outside: it has so many free permits, it owes
    an answer to each query it accepted, and it gives each one an acceptable
    answer, in any order.  It refuses queries only when no permit is free. *)

Abbreviation call := (Origin * bytes)%type.

Record Service := mk_service {
  sp_free : Z;
  sp_pending : list call;
  sp_answered : list (call * option bytes);
}.

Inductive service_step `{U : Unicode, HK : Hickory} (s : Service) : Service -> Prop :=
| SpecAccept o data :
  0 < sp_free s ->
  service_step s (mk_service (sp_free s - 1) (sp_pending s ++ [(o, data)]) (sp_answered s))
| SpecRefuse : sp_free s = 0 -> service_step s s
| SpecAnswer i o data r :
  sp_pending s !! i = Some (o, data) -> acceptable data r ->
  service_step s (mk_service (sp_free s + 1) (delete i (sp_pending s))
                    (sp_answered s ++ [((o, data), r)])).

Section Refinement.
Context `{U : Unicode, HK : Hickory, MK : Moka, MP : Mpsc, SM : Semaphores, F : !SingleFlight MK}.

Definition call_of (t : Task) : call := (t_origin t, t_data t).

Definition service_of (c : Conc) : Service :=
  mk_service (available_permits (st_inflight (cc_state c))) (call_of <$> cc_tasks c) (cc_done c).

#[local] Ltac step_cbn := cbn [goto finish accept cc_state cc_net cc_waiters cc_up cc_tasks cc_done
  on_stats set_cache set_persist set_inflight st_inflight st_stats st_cache st_upstream st_persist] in *.

Lemma calls_set_phase i ph (tasks : list Task) : call_of <$> set_phase i ph tasks = call_of <$> tasks.
Proof.
  revert i. induction tasks as [|t tasks IH]; intros [|i]; try done.
  csimpl. f_equal. apply IH.
Qed.

Lemma calls_wake k r (tasks : list Task) : call_of <$> wake k r tasks = call_of <$> tasks.
Proof.
  unfold wake. rewrite <-list_fmap_compose. apply list_fmap_ext. intros i t _. unfold compose, wake_task.
  destruct (t_phase t); try done. by case_decide.
Qed.

Lemma calls_delete i (tasks : list Task) : call_of <$> delete i tasks = delete i (call_of <$> tasks).
Proof. revert i. induction tasks as [|t tasks IH]; intros [|i]; try done. csimpl. f_equal. apply IH. Qed.

Context {HL : HickoryLaws HK} {ML : MokaLaws MK} {PL : MpscLaws MP} {SL : SemaphoreLaws SM}.
Context {FL : SingleFlightLaws MK F}.

(** A step of a task is invisible, or the answer to a pending query. *)
Lemma poll_refines env i c c' :
  poll env i c = Some c' -> conc_sound c ->
  service_of c' = service_of c \/
  exists i o data r, sp_pending (service_of c) !! i = Some (o, data) /\ acceptable data r /\
    service_of c' = mk_service (sp_free (service_of c) + 1) (delete i (sp_pending (service_of c)))
                      (sp_answered (service_of c) ++ [((o, data), r)]).
Proof using HL ML PL SL FL.
  intros H Hc. destruct (poll_sound _ _ _ _ H Hc) as [_ _ Hdone].
  apply poll_ok in H as (t & Hi & Hp). unfold service_of.
  assert ((call_of <$> cc_tasks c) !! i = Some (t_origin t, t_data t)) as Hcall
    by (by rewrite list_lookup_fmap, Hi).
  destruct Hp; step_cbn; rewrite ?calls_wake, ?calls_set_phase; try (by left);
    right; apply Forall_app in Hdone as [_ Hdone%Forall_inv];
    (eexists i, _, _, _; split; [exact Hcall|]; split; [exact Hdone|]);
    rewrite release_permits, calls_delete; autorewrite with rdns_rw; done.
Qed.

Lemma accept_refines o packet c :
  service_step (service_of c) (service_of (accept o packet c)).
Proof using SL.
  unfold accept, service_of. destruct (try_acquire _) as [s|] eqn:Ea; step_cbn.
  - rewrite fmap_app. apply try_acquire_Some in Ea as Hs.
    replace (available_permits s) with (available_permits (st_inflight (cc_state c)) - 1) by lia.
    apply (SpecAccept (mk_service _ _ _)). cbn. pose proof (sem_nonneg s). lia.
  - apply try_acquire_None in Ea. by apply (SpecRefuse (mk_service _ _ _)).
Qed.

(** An invariant of both kinds of steps holds in every reachable state. *)
Lemma conc_steps_inv (E : HandleEnv -> Prop) (I : Conc -> Prop) c c' :
  (forall o packet c, I c -> I (accept o packet c)) ->
  (forall env i c c', E env -> poll env i c = Some c' -> I c -> I c') ->
  rtc (conc_step E) c c' -> I c -> I c'.
Proof.
  intros Ha Hp. induction 1 as [|c c1 c' Hstep _ IH]; [done|]. intros HI. apply IH.
  destruct Hstep as [o packet|c1 [i env HE Hpoll]]; eauto.
Qed.

(** What the tasks still owe, and what has been answered. *)
Lemma poll_calls env i c c' :
  poll env i c = Some c' ->
  (call_of <$> cc_tasks c') ++ (fst <$> cc_done c') ≡ₚ (call_of <$> cc_tasks c) ++ (fst <$> cc_done c).
Proof using ML FL.
  intros (t & Hi & Hp)%poll_ok.
  destruct Hp; step_cbn; rewrite ?calls_wake, ?calls_set_phase; try done;
    pose proof (fmap_Permutation call_of _ _ (delete_Permutation (cc_tasks c) i t Hi)) as Hc;
    rewrite Hc, fmap_app; csimpl; solve_Permutation.
Qed.
End Refinement.

(** ** Progress *)

Section Progress.
Context `{U : Unicode, HK : Hickory, MK : Moka, MP : Mpsc, SM : Semaphores, F : !SingleFlight MK}.
Context {HL : HickoryLaws HK} {ML : MokaLaws MK} {PL : MpscLaws MP} {SL : SemaphoreLaws SM}.
Context {FL : SingleFlightLaws MK F}.

(** Every step brings its task closer to its reply, and no task further away. *)
Lemma poll_rank env i c c' :
  poll env i c = Some c' -> (total rank (cc_tasks c') < total rank (cc_tasks c))%nat.
Proof using ML FL.
  intros (t & Hi & Hp)%poll_ok.
  assert (forall ph, (rank ph < rank (t_phase t))%nat ->
    (total rank (set_phase i ph (cc_tasks c)) < total rank (cc_tasks c))%nat) as Hset
    by (intros ph Hlt; pose proof (total_set rank _ _ _ ph Hi); lia).
  pose proof (total_delete rank _ _ _ Hi) as Hdel.
  destruct Hp; cbn [goto finish cc_tasks];
    match goal with H : t_phase t = _ |- _ => rewrite H in *; cbn [rank] in * end; try (apply Hset; cbn; lia); try lia.
  - apply Hset. destruct_or!; destruct_and?; subst; cbn; try lia.
    match goal with H : exists _, _ |- _ => destruct H as (? & ? & -> & _) end. cbn. lia.
  - eapply Nat.le_lt_trans; [apply total_wake_le; cbn; lia|]. apply Hset. cbn. lia.
Qed.

Lemma polls_bounded E k c c' :
  nsteps (poll_step E) k c c' -> (k + total rank (cc_tasks c') <= total rank (cc_tasks c))%nat.
Proof using ML FL.
  induction 1 as [c|k c c1 c' [i env _ Hp] _ IH]; [lia|]. apply poll_rank in Hp. lia.
Qed.

Lemma total_rank_le (tasks : list Task) : (total rank tasks <= 8 * length tasks)%nat.
Proof.
  induction tasks as [|t ts IH]; [done|]. unfold total in *. simpl.
  assert (rank (t_phase t) <= 8)%nat by (destruct (t_phase t); cbn; lia). lia.
Qed.

Lemma polls_calls E c c' :
  rtc (poll_step E) c c' ->
  (call_of <$> cc_tasks c') ++ (fst <$> cc_done c') ≡ₚ (call_of <$> cc_tasks c) ++ (fst <$> cc_done c).
Proof using ML FL.
  induction 1 as [|c c1 c' [i env _ Hp] _ IH]; [done|]. by rewrite IH, (poll_calls _ _ _ _ Hp).
Qed.

(** A task waits for nothing but an upstream permit or its leader. *)
Definition waits (t : Task) : Prop :=
  exists j, t_phase t = Leading j \/ t_phase t = Following j.

Lemma poll_ready env i c t :
  cc_tasks c !! i = Some t -> ~ waits t -> task_sound (st_upstream (cc_state c)) t ->
  up_min_ttl (st_upstream (cc_state c)) <= up_max_ttl (st_upstream (cc_state c)) ->
  (forall k, calm (env_net env k)) -> is_Some (poll env i c).
Proof.
  intros Hi Hw [_ Hph] Hm Hnet. unfold poll. rewrite Hi. cbn [mbind option_bind].
  destruct (t_phase t) as [|j|j|j|j|j up|j|j r|j resp act] eqn:Et; try done.
  - destruct Hw. exists j. auto.
  - destruct Hph as [E1 E2]. unfold end_resolve.
    pose proof (resolve_calm up (env_net env) (env_unix env) (t_data t) (cc_net c)) as Hc.
    destruct (resolve _ _ _ _ _) as [tr r]. cbn [snd] in Hc.
    destruct r as [v|e]; [|destruct e; try (by destruct Hc; [lia|done|])];
      by destruct (settle _ _ _ _ _).
  - destruct Hw. exists j. auto.
Qed.

(** While the upstream has permits for anyone, some task can move. *)
Lemma poll_progress env n m c :
  flight_inv n m c -> 1 <= m -> conc_sound c ->
  up_min_ttl (st_upstream (cc_state c)) <= up_max_ttl (st_upstream (cc_state c)) ->
  (forall k, calm (env_net env k)) -> cc_tasks c <> [] ->
  exists i c', poll env i c = Some c'.
Proof using SL.
  intros [_ Hup Hlead Hfol] Hm [_ Hts _] Hbounds Hnet Hne.
  assert (forall t, Decision (waits t)) as Hdec.
  { intros t. destruct (t_phase t) eqn:E; try (left; eexists; eauto; done); right; intros [? [?|?]]; congruence. }
  destruct (decide (Exists (fun t => ~ waits t) (cc_tasks c))) as [Hex|Hall].
  { apply Exists_exists in Hex as (t & [i Hi]%list_elem_of_lookup & Hw).
    destruct (poll_ready env i c t) as [c' Hc']; try done; [|by eauto].
    by eapply Forall_lookup_1. }
  assert (Forall waits (cc_tasks c)) as Hwait.
  { apply not_Exists_Forall in Hall; [|intros ?; apply _]. apply (Forall_impl _ _ _ Hall). intros t. apply dec_stable. }
  assert (total asking (cc_tasks c) = 0%nat) as Hask.
  { clear -Hwait. induction Hwait as [|t ts [j [Ht|Ht]] _ IH]; [done|..]; unfold total in *; simpl; by rewrite Ht. }
  destruct (leaders (cc_tasks c)) as [|k ks] eqn:El.
  - destruct (cc_tasks c) as [|t ts] eqn:Ets; [done|]. exfalso.
    apply Forall_cons in Hwait as [[j [Ht|Ht]] _].
    + unfold leaders in El. cbn in El. unfold leader in El. by rewrite Ht in El.
    + apply Forall_cons in Hfol as [Hf _]. apply Hf, elem_of_elements in Ht.
      rewrite <-Hlead in Ht. by apply elem_of_nil in Ht.
  - assert (k ∈ leaders (cc_tasks c)) as (t & Hin & Hk)%list_elem_of_omap by (rewrite El; left).
    apply list_elem_of_lookup in Hin as [i Hi].
    destruct (Forall_lookup_1 _ _ _ _ Hwait Hi) as [j [Ht|Ht]]; [|by unfold leader in Hk; rewrite Ht in Hk].
    exists i. unfold poll. rewrite Hi. cbn [mbind option_bind]. rewrite Ht. unfold begin_resolve.
    destruct (try_acquire (cc_up c)) as [p|] eqn:Ea; [eauto|]. apply try_acquire_None in Ea. lia.
Qed.
End Progress.

(** ** A call on its own *)

Section Alone.
Context `{U : Unicode, HK : Hickory, MK : Moka, MP : Mpsc, SM : Semaphores, F : !SingleFlight MK}.

(** [c] with the task [i] in another phase and other shared objects. *)
Definition moved (c : Conc) (i : nat) (ph : phase) (st : AppState) (tr : trace) (w : Waiters)
    (up : Semaphore) : Conc :=
  mk_conc st tr w up (set_phase i ph (cc_tasks c)) (cc_done c).

Lemma set_phase_twice i ph ph' (tasks : list Task) :
  set_phase i ph' (set_phase i ph tasks) = set_phase i ph' tasks.
Proof. unfold set_phase. by rewrite list_alter_alter_eq. Qed.

Lemma delete_set_phase i ph (tasks : list Task) : delete i (set_phase i ph tasks) = delete i tasks.
Proof. revert i. induction tasks as [|t tasks IH]; intros [|i]; try done. cbn. f_equal. apply IH. Qed.

Lemma goto_moved i ph ph' st st' c tr w up :
  goto i ph' st' (moved c i ph st tr w up) = moved c i ph' st' tr w up.
Proof. unfold goto, moved. cbn. by rewrite set_phase_twice. Qed.

Lemma moved_lookup c i t ph st tr w up :
  cc_tasks c !! i = Some t -> cc_tasks (moved c i ph st tr w up) !! i = Some (at_phase ph t).
Proof. intros Hi. unfold moved, set_phase. cbn. by rewrite list_lookup_alter_eq, Hi. Qed.

(** Nobody waits for the key. *)
Definition unawaited (k : CacheKey) (t : Task) : Prop :=
  forall j, t_phase t = Following j -> job_key j <> k.

Lemma wake_unawaited k r (tasks : list Task) : Forall (unawaited k) tasks -> wake k r tasks = tasks.
Proof.
  induction 1 as [|t ts Ht _ IH]; [done|]. unfold wake in *. csimpl. rewrite IH. f_equal.
  unfold wake_task. destruct (t_phase t) eqn:E; try done. rewrite decide_False; [done|by apply Ht].
Qed.

Lemma run_l env i c c1 c2 :
  poll env i c = Some c1 -> rtc (poll_step (eq env)) c1 c2 -> rtc (poll_step (eq env)) c c2.
Proof. intros Hp. apply rtc_l. by exists i env. Qed.

Context {SL : SemaphoreLaws SM} {FL : SingleFlightLaws MK F}.

#[local] Ltac poll_moved Hi :=
  unfold poll; rewrite (moved_lookup _ _ _ _ _ _ _ _ Hi); cbn [mbind option_bind at_phase t_phase t_data].

(** One half of [try_get_with], then [resolve], then the other half. *)
Lemma get_with_runs env c i t j st tr w up cache (s : trace * Sender (CacheKey * CachedResponse)) r :
  cc_tasks c !! i = Some t -> (job_key j ∉ waiting_keys w) -> 1 <= available_permits up ->
  Forall (unawaited (job_key j)) (cc_tasks c) -> r <> Err Panicked ->
  moka_try_get_with _ (st_cache st) (env_clock env) (job_key j)
    (fetch env (st_upstream st) (t_data t) (job_key j)) (tr, st_persist st) = (cache, s, r) ->
  exists w' up', waiting_keys w' = waiting_keys w /\ available_permits up' = available_permits up /\
    rtc (poll_step (eq env)) (moved c i (Missed j) st tr w up)
      (moved c i (Landed j r) (set_persist s.2 (set_cache cache st)) s.1 w' up').
Proof using SL FL.
  intros Hi Hk Hup Hun Hr. rewrite (alone _ _ w) by done.
  destruct (enter (st_cache st) w (env_clock env) (job_key j)) as [[c1 w1] e] eqn:Ee.
  destruct (enter_spec _ _ _ _ _ _ _ Ee) as (_ & _ & Hw1).
  assert (poll env i (moved c i (Missed j) st tr w up) = Some (moved c i
    match e with Present v => Landed j (Ok v) | Lead => Leading j | Follow => Following j end
    (set_cache c1 st) tr w1 up)) as Hp1.
  { poll_moved Hi. unfold begin_get_with, moved. cbn [cc_state cc_waiters]. rewrite Ee.
    cbn [cc_net cc_up cc_tasks cc_done]. by rewrite set_phase_twice. }
  destruct e as [v| |]; [| |by destruct Hw1].
  { intros [= <- <- <-]. exists w1, up. destruct Hw1 as [-> _]. split; [done|]. split; [done|].
    apply (run_l _ _ _ _ _ Hp1). by destruct st. }
  destruct Hw1 as [_ Hw1]. unfold fetch.
  destruct (resolve (st_upstream st) (env_net env) (env_unix env) (t_data t) tr) as [tr' r'] eqn:Er.
  set (p := match r' with Ok v => (try_send (st_persist st) (job_key j, v)).1 | Err _ => st_persist st end).
  intros Hs. assert (s = (tr', p) /\ r = r' /\ cache = (settle c1 w1 (env_clock env) (job_key j) r').1)
    as (-> & -> & ->).
  { unfold p. destruct r'; [destruct (try_send _ _)|]; by injection Hs as <- <- <-. }
  clear Hs. destruct (settle c1 w1 (env_clock env) (job_key j) r') as [c2 w2] eqn:Es.
  destruct (try_acquire up) as [up1|] eqn:Ea; [|apply try_acquire_None in Ea; lia].
  exists w2, (release up1). destruct (settle_spec _ _ _ _ _ _ _ Es) as (_ & -> & _).
  split; [rewrite Hw1; set_solver|]. split; [rewrite release_permits; apply try_acquire_Some in Ea; lia|].
  apply (run_l _ _ _ _ _ Hp1).
  apply (run_l _ i _ (moved c i (Asking j (st_upstream st)) (set_cache c1 st) tr w1 up1)).
  { poll_moved Hi. unfold begin_resolve, moved. cbn. rewrite Ea. cbn. by rewrite set_phase_twice. }
  eapply run_l; [|done]. poll_moved Hi. unfold end_resolve, moved.
  cbn [cc_state cc_net cc_waiters cc_up cc_tasks cc_done set_cache st_cache st_persist].
  cbn [at_phase t_data]. rewrite Er, set_phase_twice, wake_unawaited
    by (by apply (Forall_set_phase _ _ _ t); [|by intros ? [=]|]).
  unfold p in *. destruct r' as [v|e]; [|destruct e; [done|..]]; rewrite ?Es; done.
Qed.

(** From the blocklist to the response. *)
Lemma answer_runs env c i t j st tr w up st' tr' resp action :
  cc_tasks c !! i = Some t -> (job_key j ∉ waiting_keys w) -> 1 <= available_permits up ->
  Forall (unawaited (job_key j)) (cc_tasks c) -> j_cfg j = st_config st ->
  answer env (t_data t) (j_request j) (j_query j) (st, tr) = ((st', tr'), Some (resp, action)) ->
  exists w' up', waiting_keys w' = waiting_keys w /\ available_permits up' = available_permits up /\
    rtc (poll_step (eq env)) (moved c i (Counted j) st tr w up)
      (moved c i (Answered j resp action) st' tr' w' up').
Proof using SL FL.
  intros Hi Hk Hup Hun Hcfg. unfold answer.
  change (mk_key (query_domain (j_query j)) (rtype_code (query_type (j_query j)))) with (job_key j).
  assert (poll env i (moved c i (Counted j) st tr w up) =
    Some (match_blocklist i j (moved c i (Counted j) st tr w up))) as H1 by (by poll_moved Hi).
  unfold match_blocklist in H1. rewrite !goto_moved in H1. cbn [moved cc_state] in H1.
  destruct (is_blocked _ _).
  { intros [= <- <- <- <-]. rewrite Hcfg in H1. exists w, up. split; [done|]. split; [done|].
    by apply (run_l _ _ _ _ _ H1). }
  assert (poll env i (moved c i (Looking j) st tr w up) =
    Some (lookup_cache env i j (moved c i (Looking j) st tr w up))) as H2 by (by poll_moved Hi).
  unfold lookup_cache in H2. cbn [moved cc_state] in H2.
  destruct (moka_get _ _ _) as [c1 [v|]]; rewrite goto_moved in H2.
  { intros [= <- <- <- <-]. exists w, up. split; [done|]. split; [done|].
    by apply (run_l _ _ _ _ _ H1), (run_l _ _ _ _ _ H2). }
  destruct (moka_try_get_with _ _ _ _ _ _) as [[c2 [tr2 p2]] r] eqn:Et. intros H.
  destruct (get_with_runs env c i t j (set_cache c1 st) tr w up c2 (tr2, p2) r) as (w' & up' & Hw & Hup' & Hrun);
    try done; [by intros ->|].
  exists w', up'. split; [done|]. split; [done|].
  apply (run_l _ _ _ _ _ H1), (run_l _ _ _ _ _ H2). etrans; [exact Hrun|]. eapply run_l; [|done].
  poll_moved Hi. unfold end_get_with.
  destruct r as [v|e]; [|destruct e; [done|..]]; injection H as <- <- <- <-; by rewrite goto_moved.
Qed.

(** The uninterrupted run of a task does what [Dns.handle] does. *)
Lemma handle_runs env c i t st' tr' r :
  cc_tasks c !! i = Some t -> t_phase t = Spawned ->
  (forall j, job_sound (t_data t) j ->
     (job_key j ∉ waiting_keys (cc_waiters c)) /\ Forall (unawaited (job_key j)) (cc_tasks c)) ->
  1 <= available_permits (cc_up c) ->
  handle env (t_data t) (Some (client_ip (t_origin t))) (cc_state c, cc_net c) = ((st', tr'), Done r) ->
  exists c', rtc (poll_step (eq env)) c c' /\
    cc_state c' = set_inflight (release (st_inflight st')) st' /\ cc_net c' = tr' /\
    cc_tasks c' = delete i (cc_tasks c) /\
    cc_done c' = cc_done c ++ [(t_origin t, t_data t, r)] /\
    waiting_keys (cc_waiters c') = waiting_keys (cc_waiters c) /\
    available_permits (cc_up c') = available_permits (cc_up c).
Proof using SL FL.
  intros Hi Ht Hfree Hup Hh.
  assert (poll env i c = Some (start_call i t c)) as H0 by (unfold poll; by rewrite Hi; cbn; rewrite Ht).
  unfold handle in Hh. unfold start_call in H0.
  destruct (from_vec (t_data t)) as [request|] eqn:Ep;
    [destruct (head (m_queries (view request))) as [query|] eqn:Eq|];
    try by (injection Hh as <- <- <-; eexists; split; [by eapply run_l|]).
  set (j := mk_job request query (st_config (cc_state c))) in *.
  destruct (Hfree j) as [Hk Hun]; [done|].
  destruct (answer _ _ _ _ _) as [[st1 tr1] [[resp action]|]] eqn:Ea; [|done]. injection Hh as <- <- <-.
  destruct (answer_runs env c i t j (on_stats (bump Queries) (cc_state c)) (cc_net c) (cc_waiters c) (cc_up c)
    st1 tr1 resp action) as (w' & up' & Hw & Hup' & Hrun); try done.
  eexists. split.
  - apply (run_l _ _ _ _ _ H0). etrans; [exact Hrun|]. eapply run_l; [|apply rtc_refl]. by poll_moved Hi.
  - unfold reply, finish, moved. cbn [cc_state cc_net cc_tasks cc_done cc_waiters cc_up].
    by rewrite delete_set_phase.
Qed.
End Alone.

(** ** Properties *)

Lemma NoDup_omap_inj {A B} (f : A -> option B) l i i' a a' b :
  NoDup (omap f l) -> l !! i = Some a -> l !! i' = Some a' -> f a = Some b -> f a' = Some b -> i = i'.
Proof.
  revert i i'. induction l as [|x l IH]; [done|]. intros i i' Hnd Hi Hi' Ha Ha'. csimpl in *.
  assert (forall n y, l !! n = Some y -> f y = Some b -> f x <> Some b) as Hx.
  { intros n y Hn Hy E. rewrite E in Hnd. apply NoDup_cons in Hnd as [Hnotin _]. apply Hnotin.
    apply list_elem_of_omap. exists y. split; [by eapply list_elem_of_lookup_2|done]. }
  assert (NoDup (omap f l)) as Hl by (destruct (f x); [by apply NoDup_cons in Hnd as [_ ?]|done]).
  destruct i as [|i], i' as [|i']; simpl in *; simplify_eq; try done.
  - by destruct (Hx _ _ Hi' Ha').
  - by destruct (Hx _ _ Hi Ha).
  - f_equal. by apply (IH i i').
Qed.

Section Properties.
Context `{U : Unicode, HK : Hickory, MK : Moka, MP : Mpsc, SM : Semaphores, F : !SingleFlight MK}.

Lemma polls_conc E c c' : rtc (poll_step E) c c' -> rtc (conc_step E) c c'.
Proof. apply rtc_subrel. intros ??. apply Turn. Qed.

Context {HL : HickoryLaws HK} {ML : MokaLaws MK} {PL : MpscLaws MP} {SL : SemaphoreLaws SM}.
Context {FL : SingleFlightLaws MK F}.

Lemma reach_flight E st c :
  rtc (conc_step E) (conc_start st) c -> 0 <= up_permits (st_upstream st) ->
  flight_inv (available_permits (st_inflight st)) (up_permits (st_upstream st)) c.
Proof.
  intros Hr Hm. eapply (conc_steps_inv E); [..|exact Hr|by apply start_flight].
  - intros o packet c'. apply accept_flight.
  - intros env i c1 c2 _. apply poll_flight.
Qed.

Lemma reach_sound E st c :
  rtc (conc_step E) (conc_start st) c -> state_sound st ->
  conc_sound c /\ st_upstream (cc_state c) = st_upstream st.
Proof.
  intros Hr Hs. apply (conc_steps_inv E (fun c => conc_sound c /\ st_upstream (cc_state c) = st_upstream st)
    _ _) with (3 := Hr); [..|by split; [apply start_sound|]].
  - intros o packet c1 [Hc Hu]. split; [by apply accept_sound|]. unfold accept. by destruct (try_acquire _).
  - intros env i c1 c2 _ Hp [Hc Hu]. split; [by eapply poll_sound|].
    apply poll_ok in Hp as (t & _ & Hp). by rewrite (poll_upstream_same _ _ _ _ _ Hp).
Qed.

(** C5. Identical misses share one upstream query: in every reachable state at
    most one task evaluates a key, whoever waits waits for such a task, and no
    more tasks ask upstream than [max_concurrent] allows. *)
Theorem single_flight (E : HandleEnv -> Prop) st c :
  rtc (conc_step E) (conc_start st) c -> 0 <= up_permits (st_upstream st) ->
  (forall i i' t t' k, cc_tasks c !! i = Some t -> cc_tasks c !! i' = Some t' ->
     leader t = Some k -> leader t' = Some k -> i = i') /\
  (forall i t j, cc_tasks c !! i = Some t -> t_phase t = Following j ->
     exists i' t', cc_tasks c !! i' = Some t' /\ leader t' = Some (job_key j)) /\
  Z.of_nat (total asking (cc_tasks c)) <= up_permits (st_upstream st).
Proof.
  intros Hr Hm. destruct (reach_flight _ _ _ Hr Hm) as [_ Hup Hlead Hfol]. split; [|split].
  - intros i i' t t' k. apply NoDup_omap_inj. fold (leaders (cc_tasks c)). rewrite Hlead. apply NoDup_elements.
  - intros i t j Hi Ht. pose proof (Forall_lookup_1 _ _ _ _ Hfol Hi j Ht) as Hk.
    apply elem_of_elements in Hk. rewrite <-Hlead in Hk.
    apply list_elem_of_omap in Hk as (t' & [i' Hi']%list_elem_of_lookup & Hl'). by exists i', t'.
  - pose proof (sem_nonneg (cc_up c)). lia.
Qed.

(** C16. One exchange serves all who wait.  Only a task that asks uses the
    network or hands anything to the write-behind task.  What [resolve] returns
    goes, at once, to that task and to every task that waits for the same key;
    tasks that wait for another key keep waiting, and no other task moves; and
    a reply is handed to the write-behind task once, however many waited. *)
Theorem flight_shared env i t c c' :
  poll env i c = Some c' -> cc_tasks c !! i = Some t ->
  let store := st_persist (cc_state c) in
  match t_phase t with
  | Asking j up => exists tr r,
      resolve up (env_net env) (env_unix env) (t_data t) (cc_net c) = (tr, r) /\ cc_net c' = tr /\
      sent (st_persist (cc_state c')) = sent store ++
        match r with
        | Ok v => if (try_send store (job_key j, v)).2 then [(job_key j, v)] else []
        | Err _ => []
        end /\
      forall i' t', cc_tasks c !! i' = Some t' ->
        exists t'', cc_tasks c' !! i' = Some t'' /\ t_data t'' = t_data t' /\ t_origin t'' = t_origin t' /\
          t_phase t'' =
            match t_phase t' with
            | Following j' => if decide (job_key j' = job_key j) then Landed j' r else Following j'
            | ph => if decide (i' = i) then Landed j r else ph
            end
  | _ => cc_net c' = cc_net c /\ sent (st_persist (cc_state c')) = sent store
  end.
Proof using ML PL FL.
  intros (t0 & Hi & Hp)%poll_ok Ht store. rewrite Hi in Ht. injection Ht as ->.
  destruct Hp; match goal with H : t_phase t = _ |- _ => rewrite H end;
    cbn [goto finish cc_state cc_net on_stats set_cache set_persist set_inflight st_persist];
    autorewrite with rdns_rw; try done.
  exists tr, r. split; [done|]. split; [done|]. split.
  { destruct r as [v|e]; [|by rewrite app_nil_r]. fold store.
    destruct (try_send store _) as [p b] eqn:Es. by apply try_send_spec in Es. }
  intros i' t' Hi'. cbn [cc_tasks]. unfold wake, set_phase. rewrite list_lookup_fmap, list_lookup_alter.
  destruct (decide (i = i')) as [<-|Hne]; rewrite Hi'; cbn [fmap option_fmap option_map];
    (eexists; split; [reflexivity|]).
  - assert (t' = t) as -> by congruence. rewrite H. cbn [at_phase wake_task t_phase t_data t_origin].
    by rewrite decide_True.
  - unfold wake_task. destruct (t_phase t') eqn:E; rewrite ?E, ?decide_False by done; try done.
    by destruct (decide _).
Qed.

(** C3. The server refines the abstract service: seen as free permits, owed
    answers and given answers, each of its runs is a run of the service, which
    answers every accepted query once, acceptably, and refuses queries only
    when no permit is free. *)
Theorem conc_refines_service (E : HandleEnv -> Prop) st c :
  state_sound st -> rtc (conc_step E) (conc_start st) c ->
  rtc service_step (mk_service (available_permits (st_inflight st)) [] []) (service_of c).
Proof.
  intros Hs Hr. change (mk_service _ [] []) with (service_of (conc_start st)).
  pose proof (start_sound st Hs) as Hc. clear Hs. revert Hc. revert Hr. generalize (conc_start st).
  induction 1 as [|c0 c1 c Hstep _ IH]; intros Hc; [done|].
  destruct Hstep as [o packet|c1 [i env HE Hp]].
  - apply (rtc_l _ _ (service_of (accept o packet c0))); [apply accept_refines|]. apply IH, accept_sound, Hc.
  - specialize (IH (poll_sound _ _ _ _ Hp Hc)).
    destruct (poll_refines _ _ _ _ Hp Hc) as [<-|(k & o & d & r & Hk & Hd & Hs)]; [done|].
    eapply rtc_l; [|exact IH]. rewrite Hs. by constructor.
Qed.

(** C4. The server always drains.  With ordered TTL bounds and ordinary network
    errors, from any reachable state and whatever the scheduler does: a run of
    the tasks takes at most eight steps for each of them; while a task is left,
    some task can move; and when none is left, every query that was pending
    has been answered, once, and all permits are back. *)
Theorem server_drains (E : HandleEnv -> Prop) env st c :
  E env -> (forall k, calm (env_net env k)) -> state_sound st ->
  up_min_ttl (st_upstream st) <= up_max_ttl (st_upstream st) -> 1 <= up_permits (st_upstream st) ->
  rtc (conc_step E) (conc_start st) c ->
  (forall k c', nsteps (poll_step E) k c c' -> (k <= 8 * length (cc_tasks c))%nat) /\
  (forall c', rtc (poll_step E) c c' -> cc_tasks c' <> [] -> exists c'', poll_step E c' c'') /\
  (forall c', rtc (poll_step E) c c' -> cc_tasks c' = [] ->
     available_permits (st_inflight (cc_state c')) = available_permits (st_inflight st) /\
     available_permits (cc_up c') = up_permits (st_upstream st) /\
     fst <$> cc_done c' ≡ₚ (fst <$> cc_done c) ++ (call_of <$> cc_tasks c)).
Proof.
  intros HE Hnet Hs Hm Hup Hr.
  assert (forall c', rtc (poll_step E) c c' -> rtc (conc_step E) (conc_start st) c') as Hreach.
  { intros c' Hr'. etrans; [exact Hr|]. by apply polls_conc. }
  split; [|split].
  - intros k c' Hk%polls_bounded. pose proof (total_rank_le (cc_tasks c)). lia.
  - intros c' Hr' Hne. destruct (reach_sound _ _ _ (Hreach c' Hr') Hs) as [Hsound Hu].
    destruct (poll_progress env _ _ _ (reach_flight _ _ _ (Hreach c' Hr') ltac:(lia)) Hup Hsound)
      as (i & c'' & Hp); [by rewrite Hu|done..|]. exists c''. by exists i env.
  - intros c' Hr' Hnil. destruct (reach_flight _ _ _ (Hreach c' Hr') ltac:(lia)) as [H1 H2 _ _].
    rewrite Hnil in H1, H2. cbn in H1, H2. split; [lia|]. split; [lia|].
    pose proof (polls_calls E c c' Hr') as Hcalls. rewrite Hnil in Hcalls. cbn in Hcalls.
    rewrite Hcalls. apply (comm (++)).
Qed.

(** C18. Concurrency is bounded: with [n] permits at the start there are never
    more than [n] queries in flight, no permit is lost or duplicated, and a
    query is dropped, and counted as dropped, exactly when all [n] are in use. *)
Theorem conc_inflight_bounded (E : HandleEnv -> Prop) st c o packet :
  rtc (conc_step E) (conc_start st) c -> 0 <= up_permits (st_upstream st) ->
  let n := available_permits (st_inflight st) in
  let full := bool_decide (Z.of_nat (length (cc_tasks c)) = n) in
  Z.of_nat (length (cc_tasks c)) <= n /\
  available_permits (st_inflight (cc_state c)) = n - Z.of_nat (length (cc_tasks c)) /\
  cc_tasks (accept o packet c) = cc_tasks c ++
    (if full then []
     else [mk_task (match o with UdpFrom _ => take 4096 packet | TcpFrom _ _ => packet end) o Spawned]) /\
  st_stats (cc_state (accept o packet c)) =
    (if full then bump Dropped (st_stats (cc_state c)) else st_stats (cc_state c)).
Proof.
  intros Hr Hm n full. destruct (reach_flight _ _ _ Hr Hm) as [Hp _ _ _]. fold n in Hp.
  pose proof (sem_nonneg (st_inflight (cc_state c))) as Hnn. split; [lia|]. split; [lia|].
  unfold full, accept. destruct (try_acquire (st_inflight (cc_state c))) as [s|] eqn:Ea.
  - apply try_acquire_Some in Ea. pose proof (sem_nonneg s). by rewrite bool_decide_eq_false_2 by lia.
  - apply try_acquire_None in Ea. rewrite bool_decide_eq_true_2 by lia. cbn. by rewrite app_nil_r.
Qed.

(** C17. Accounting: in every reachable state the query counter equals, modulo
    2^64, the sum of the blocked, cached, forwarded and failed ones and of the
    calls that have been counted and have no outcome yet. *)
Theorem conc_accounting (E : HandleEnv -> Prop) st c start :
  rtc (conc_step E) (conc_start st) c -> st_stats st = stats_default start ->
  let s := st_stats (cc_state c) in
  as_u 64 (queries s) =
  as_u 64 (blocked s + cache_hits s + forwarded s + upstream_errors s +
           Z.of_nat (total open_call (cc_tasks c))).
Proof.
  intros Hr H0. apply (conc_steps_inv E accounted) with (3 := Hr).
  - intros o packet c'. apply accept_accounted.
  - intros env i c1 c2 _. apply poll_accounted.
  - unfold accounted. cbn [conc_start cc_state cc_tasks]. by rewrite H0.
Qed.

(** C15. [Dns.handle] is one of the runs: a task that no other task disturbs,
    whose key nobody evaluates and for which an upstream permit is free, ends in
    the state [handle] computes, with its reply and its effects, and leaves the
    rest of the server as it was. *)
Theorem handle_alone (E : HandleEnv -> Prop) env st c i t st' tr' r :
  rtc (conc_step E) (conc_start st) c -> cc_tasks c !! i = Some t -> t_phase t = Spawned ->
  (forall j, job_sound (t_data t) j -> job_key j ∉ leaders (cc_tasks c)) ->
  Z.of_nat (total asking (cc_tasks c)) < up_permits (st_upstream st) ->
  handle env (t_data t) (Some (client_ip (t_origin t))) (cc_state c, cc_net c) = ((st', tr'), Done r) ->
  exists c', rtc (poll_step (eq env)) c c' /\
    cc_state c' = set_inflight (release (st_inflight st')) st' /\ cc_net c' = tr' /\
    cc_tasks c' = delete i (cc_tasks c) /\ cc_done c' = cc_done c ++ [(t_origin t, t_data t, r)].
Proof.
  intros Hr Hi Ht Hfree Hask Hh. destruct (reach_flight _ _ _ Hr ltac:(lia)) as [_ Hup Hlead Hfol].
  destruct (handle_runs env c i t st' tr' r) as (c' & H1 & H2 & H3 & H4 & H5 & _); try done; [|lia|by exists c'].
  intros j Hj. assert (job_key j ∉ waiting_keys (cc_waiters c)) as Hk.
  { specialize (Hfree j Hj). rewrite Hlead in Hfree. by rewrite elem_of_elements in Hfree. }
  split; [done|]. apply (Forall_impl _ _ _ Hfol). intros t' Ht' j' Hj' Heq. apply Hk. rewrite <-Heq. by apply Ht'.
Qed.
End Properties.

(** ** A concrete single flight for the worked examples *)

Module MemFlight.
#[local] Existing Instance MemCache.moka.

Instance flight : SingleFlight MemCache.moka := {|
  Waiters := gset CacheKey;
  no_waiters := ∅;
  enter c w now k :=
    let '(m, e) := c in
    match MemCache.lookup_live m now k with
    | Some v => ((c, w), Present v)
    | None => if decide (k ∈ w) then ((c, w), Follow) else ((c, {[k]} ∪ w), Lead)
    end;
  settle c w now k r :=
    (match r with Ok v => moka_insert c now k v | Err _ => c end, w ∖ {[k]});
  waiting_keys w := w;
|}.

Lemma flight_laws : SingleFlightLaws MemCache.moka flight.
Proof.
  split; [done|..].
  - intros [m ex] w now k c' w' e. cbn [enter flight].
    destruct (MemCache.lookup_live m now k) as [v|] eqn:E; [|case_decide as Hk]; intros [= <- <- <-];
      (split; [done|]; split; [done|]; split; try done).
    by apply MemCache.lookup_live_Some in E.
  - intros [m ex] w now k r c' w' [= <- <-]. by destruct r.
  - intros S [m ex] w now k init s Hk. cbn [enter flight moka_try_get_with MemCache.moka settle].
    destruct (MemCache.lookup_live m now k) as [v|]; [done|]. rewrite decide_False by done.
    destruct (init s) as [s' [v|e]]; done.
Qed.
End MemFlight.

(** ** Worked examples *)

Section Witnesses.
#[local] Existing Instance ascii_tables.
#[local] Existing Instance Mini.hickory.
#[local] Existing Instance MemCache.moka.
#[local] Existing Instance MemSync.mpsc.
#[local] Existing Instance MemSync.sems.
#[local] Existing Instance MemFlight.flight.

(** The tasks of a schedule move one after the other. *)
Definition schedule (env : HandleEnv) (l : list nat) (c : Conc) : option Conc :=
  foldl (fun oc i => oc ≫= poll env i) (Some c) l.

Lemma schedule_run (E : HandleEnv -> Prop) env l c c' :
  E env -> schedule env l c = Some c' -> rtc (poll_step E) c c'.
Proof.
  intros HE. unfold schedule. revert c. induction l as [|i l IH]; intros c; simpl; [by intros [= <-]|].
  destruct (poll env i c) as [c1|] eqn:Ep.
  - intros H. apply (rtc_l _ _ c1); [by exists i env|by apply IH].
  - assert (foldl (fun oc i => oc ≫= poll env i) None l = None) as -> by (clear; by induction l). done.
Qed.

(** A schedule that no task has to wait in. *)
Lemma schedule_default (E : HandleEnv -> Prop) env l c :
  E env -> (if schedule env l c is Some _ then true else false) = true -> rtc (poll_step E) c (default c (schedule env l c)).
Proof. intros HE. destruct (schedule env l c) eqn:H; [|done]. intros _. by eapply schedule_run. Qed.

(** The same question from two clients: the first leads, the second waits. *)
Definition other_peer : Origin := TcpFrom 0 (V4 (ipv4 [10; 0; 0; 8])).
Definition conc_0 : Conc := conc_start sample_state.
Definition conc_1 : Conc := accept (UdpFrom peer) query_wire conc_0.
Definition conc_2 : Conc := accept other_peer ch_query_wire conc_1.
Definition conc_3 : Conc := default conc_2 (schedule sample_env [0; 0; 0; 1; 0; 1; 1; 0; 1]%nat conc_2).
(** The leader resolves, both reply. *)
Definition conc_4 : Conc := default conc_3 (schedule sample_env [0]%nat conc_3).
Definition conc_5 : Conc := default conc_4 (schedule sample_env [1; 0; 1; 0]%nat conc_4).

Lemma conc_run_2 : rtc (conc_step synced) conc_0 conc_2.
Proof. apply (rtc_l _ _ conc_1); [apply Arrive|]. apply rtc_once, Arrive. Qed.
Lemma conc_run_3 : rtc (conc_step synced) conc_0 conc_3.
Proof.
  etrans; [apply conc_run_2|]. apply polls_conc, schedule_default; [apply sample_synced|vm_refl].
Qed.
Lemma polls_3_5 : rtc (poll_step synced) conc_3 conc_5.
Proof.
  trans conc_4; (apply schedule_default; [apply sample_synced|vm_refl]).
Qed.
Lemma conc_run_5 : rtc (conc_step synced) conc_0 conc_5.
Proof. etrans; [apply conc_run_3|]. apply polls_conc, polls_3_5. Qed.

Example phases_3 : (fun t => rank (t_phase t)) <$> cc_tasks conc_3 = [3; 3]%nat.
Proof. vm_refl. Qed.
Example followers_3 : (fun t => leader t) <$> cc_tasks conc_3 = [Some (mk_key (str "a.com") 1); None].
Proof. vm_refl. Qed.
(** One exchange with upstream, two replies with their own ids. *)
Example sent_5 :
  cc_net conc_5 = [UdpSend server1 query_wire; UdpSend server2 query_wire] /\
  cc_done conc_5 = [(other_peer, ch_query_wire, Some (patch_id answer_wire 0x77));
                    (UdpFrom peer, query_wire, Some answer_wire)].
Proof. split; vm_refl. Qed.

Definition ch_request : @Message Mini.types := default ads_request (Mini.mfrom_vec ch_query_wire).
Definition follower : Task :=
  mk_task ch_query_wire other_peer
    (Following (mk_job ch_request (Mini.mk_query (str "a.com") 1 3) default_config)).

Definition leading_task : Task :=
  mk_task query_wire (UdpFrom peer)
    (Asking (mk_job (default ads_request (Mini.mfrom_vec query_wire)) question default_config) sample_upstream).

Lemma single_flight_witness :
  exists i' t', cc_tasks conc_3 !! i' = Some t' /\ leader t' = Some (mk_key (str "a.com") 1).
Proof.
  refine (proj1 (proj2 (single_flight (ML := MemCache.memcache_laws) (SL := MemSync.sems_laws)
    (FL := MemFlight.flight_laws) synced sample_state conc_3 conc_run_3 _)) 1%nat follower _ _ eq_refl);
    [vm_compute; congruence|vm_refl].
Defined.

Lemma flight_shared_witness :
  exists t'', cc_tasks conc_4 !! 1%nat = Some t'' /\
    t_phase t'' = Landed (mk_job ch_request (Mini.mk_query (str "a.com") 1 3) default_config) (Ok sample_cached).
Proof.
  destruct (flight_shared (ML := MemCache.memcache_laws) (PL := MemSync.mpsc_laws) (FL := MemFlight.flight_laws)
    sample_env 0 leading_task conc_3 conc_4 ltac:(vm_refl) ltac:(vm_refl)) as (tr & r & Hr & _ & _ & H).
  destruct (H 1%nat follower ltac:(vm_refl)) as (t'' & H1 & _ & _ & H2). exists t''. split; [exact H1|].
  change (resolve sample_upstream sample_net 1000 query_wire (cc_net conc_3) = (tr, r)) in Hr.
  replace (cc_net conc_3) with (@nil NetEvent) in Hr by vm_refl.
  rewrite sample_resolve in Hr. injection Hr as <- <-. rewrite H2. vm_refl.
Defined.

Lemma conc_refines_service_witness :
  rtc service_step (mk_service 2 [] []) (service_of conc_5).
Proof.
  exact (conc_refines_service (HL := Mini.mini_laws) (ML := MemCache.memcache_laws) (PL := MemSync.mpsc_laws)
    (SL := MemSync.sems_laws) (FL := MemFlight.flight_laws) synced sample_state conc_5 sample_sound conc_run_5).
Defined.

Lemma server_drains_witness :
  available_permits (st_inflight (cc_state conc_5)) = 2 /\
  fst <$> cc_done conc_5 ≡ₚ [(UdpFrom peer, query_wire); (other_peer, ch_query_wire)].
Proof.
  refine (let '(conj H1 (conj _ H2)) := proj2 (proj2 (server_drains (HL := Mini.mini_laws)
    (ML := MemCache.memcache_laws) (PL := MemSync.mpsc_laws) (SL := MemSync.sems_laws)
    (FL := MemFlight.flight_laws) synced sample_env sample_state conc_3 sample_synced sample_calm sample_sound
    _ _ conc_run_3)) conc_5 polls_3_5 _ in conj H1 _).
  - vm_compute. congruence.
  - vm_compute. congruence.
  - vm_refl.
  - rewrite H2. vm_compute. done.
Defined.

Lemma conc_inflight_bounded_witness :
  Z.of_nat (length (cc_tasks conc_3)) <= 2 /\ available_permits (st_inflight (cc_state conc_3)) = 0.
Proof.
  refine (let '(conj H1 (conj H2 _)) := conc_inflight_bounded (ML := MemCache.memcache_laws)
    (SL := MemSync.sems_laws) (FL := MemFlight.flight_laws) synced sample_state conc_3 other_peer query_wire
    conc_run_3 _ in conj H1 _).
  - vm_compute. congruence.
  - rewrite H2. vm_refl.
Defined.

Lemma conc_accounting_witness :
  let s := st_stats (cc_state conc_3) in
  as_u 64 (queries s) = as_u 64 (blocked s + cache_hits s + forwarded s + upstream_errors s + 2).
Proof.
  exact (conc_accounting (ML := MemCache.memcache_laws) (FL := MemFlight.flight_laws) synced sample_state conc_3 0
    conc_run_3 eq_refl).
Defined.

(** The first query alone. *)
Lemma handle_alone_witness :
  exists c', rtc (poll_step (eq sample_env)) conc_1 c' /\ cc_tasks c' = [] /\
    cc_done c' = [(UdpFrom peer, query_wire, Some answer_wire)].
Proof.
  pose proof (handle_alone (ML := MemCache.memcache_laws) (SL := MemSync.sems_laws)
    (FL := MemFlight.flight_laws) synced sample_env sample_state conc_1 0
    (mk_task query_wire (UdpFrom peer) Spawned)) as H.
  destruct (handle sample_env query_wire (Some (client_ip (UdpFrom peer))) (cc_state conc_1, cc_net conc_1))
    as [[st' tr'] o] eqn:Eh.
  assert (o = Done (Some answer_wire)) as -> by (trans ((st', tr'), o).2; [done|rewrite <-Eh; vm_refl]).
  destruct (H st' tr' (Some answer_wire)) as (c' & H1 & _ & _ & H2 & H3).
  - apply (rtc_once (R := conc_step synced) conc_0 conc_1), Arrive.
  - vm_refl.
  - done.
  - intros j _. by apply not_elem_of_nil.
  - vm_refl.
  - exact Eh.
  - exists c'. split; [exact H1|]. split; [rewrite H2; vm_refl|rewrite H3; vm_refl].
Defined.
End Witnesses.
