(* ===== verification/Web.v ===== *)
(** * The admin API ([src/web.rs])

    The token gate, the route table, the handlers and the SQL the log view
    builds.  [axum] (routing, headers, JSON) is a parameter; a handler returns
    the value that is serialised, or the error that becomes a 400 reply. *)

From S2P Require Import Prelude RustStr Fmt NetAddr NetText Fs Config Blocklist Hickory Cache Upstream Qlog Stats State Dns.

(** ** Requests and the token gate *)

Inductive Method := GET | HEAD | POST | OtherMethod (name : rstring).
#[export] Instance method_eq_dec : EqDecision Method.
Proof. solve_decision. Defined.

(** The headers are as [HeaderValue::to_str] yields them. *)
Record Request := mk_request {
  req_method : Method;
  req_path : rstring;
  hdr_authorization : option rstring;
  hdr_admin_token : option rstring;
}.

(** Does a request carry the token? *)
Definition has_token (token : rstring) (req : Request) : bool :=
  let header_bearer :=
    match hdr_authorization req with
    | Some s => bool_decide (trim (trim_start_str (str "Bearer ") s) = token)
    | None => false
    end in
  let header_token :=
    match hdr_admin_token req with Some s => bool_decide (s = token) | None => false end in
  header_bearer || header_token.

(** [auth]: the request passes ([true]) or is answered with 401. *)
Definition auth (token : rstring) (req : Request) : bool :=
  if negb (starts_with (str "/api") (req_path req)) then true
  else if bool_decide (token = []) then true
  else has_token token req.

Inductive endpoint := Index | GetBlocklist | SetBlocklist | GetConfig | SetConfig | GetStats | GetLogs.

(** [axum]'s method routers: [get] also serves [HEAD]. *)
Definition on_get (e : endpoint) : list (Method * endpoint) := [(GET, e); (HEAD, e)].
Definition on_post (e : endpoint) : list (Method * endpoint) := [(POST, e)].
Definition route (path : rstring) (ms : list (Method * endpoint)) : list (rstring * Method * endpoint) :=
  (fun '(m, e) => (path, m, e)) <$> ms.

(** The routes of [serve]. *)
Definition routes : list (rstring * Method * endpoint) :=
  route (str "/") (on_get Index) ++
  route (str "/api/blocklist") (on_get GetBlocklist ++ on_post SetBlocklist) ++
  route (str "/api/config") (on_get GetConfig ++ on_post SetConfig) ++
  route (str "/api/stats") (on_get GetStats) ++
  route (str "/api/logs") (on_get GetLogs).

(** [axum]'s router: it runs an endpoint only for a request with its path and
    method; anything else gets 404 or 405 ([None]). *)
Class Router := {
  route_match : list (rstring * Method * endpoint) -> Request -> option endpoint;
}.
Class RouterLaws (R : Router) : Prop := {
  route_match_in t req e :
    route_match t req = Some e -> (req_path req, req_method req, e) ∈ t;
}.

(** The layered router of [serve]: the gate runs before the endpoint. *)
Inductive app_result := Unauthorized | NoRoute | Run (e : endpoint).

Definition app `{Router} (token : rstring) (req : Request) : app_result :=
  if auth token req then
    match route_match routes req with Some e => Run e | None => NoRoute end
  else Unauthorized.

(** ** Views *)

Record BlocklistResponse := mk_blocklist_response { count : nat; domains : list rstring }.

Record ConfigView := mk_config_view {
  cv_upstream_servers : list rstring;
  cv_timeout_ms : Z;
  cv_max_qps : Z;
  cv_max_concurrent : Z;
  cv_sinkhole_mode : rstring;
  cv_sinkhole_ipv4 : rstring;
  cv_sinkhole_ipv6 : rstring;
  cv_dns_bind : rstring;
  cv_web_bind : rstring;
  cv_qlog_enabled : bool;
  cv_note : rstring;
}.

Record ConfigUpdate := mk_config_update {
  cu_upstream_servers : list rstring;
  cu_timeout_ms : Z;
  cu_max_qps : Z;
  cu_max_concurrent : Z;
  cu_sinkhole_mode : rstring;
  cu_sinkhole_ipv4 : rstring;
  cu_sinkhole_ipv6 : rstring;
}.

Record LogQuery := mk_log_query {
  lq_limit : option Z;
  lq_domain : option rstring;
  lq_client : option rstring;
  lq_action : option rstring;
}.

Definition blocklist_response (bl : Blocklist) : BlocklistResponse :=
  mk_blocklist_response (Blocklist.len bl) (to_sorted_vec bl).

(** The body of [get_config], on a configuration. *)
Definition config_view (cfg : Config) : ConfigView := {|
  cv_upstream_servers := servers (cfg_upstream cfg);
  cv_timeout_ms := timeout_ms (cfg_upstream cfg);
  cv_max_qps := max_qps (cfg_upstream cfg);
  cv_max_concurrent := max_concurrent (cfg_upstream cfg);
  cv_sinkhole_mode := sinkhole_mode (cfg_dns cfg);
  cv_sinkhole_ipv4 := show_ipv4 (sinkhole_ipv4 (cfg_dns cfg));
  cv_sinkhole_ipv6 := show_ipv6 (sinkhole_ipv6 (cfg_dns cfg));
  cv_dns_bind := dns_bind (cfg_dns cfg);
  cv_web_bind := web_bind (cfg_web cfg);
  cv_qlog_enabled := qlog_enabled (cfg_qlog cfg);
  cv_note := str "Upstream servers + sinkhole apply live. Other fields persist and take effect on restart.";
|}.

(** [sql_escape]. *)
Definition sql_escape (s : rstring) : rstring :=
  filter (fun c => c <> 59 /\ c <> 92) s ≫= fun c => if c =? 39 then [39; 39] else [c].

(** The clauses of [get_logs]. *)
Definition nonempty (o : option rstring) : option rstring :=
  s ← o; if bool_decide (s = []) then None else Some s.

Definition domain_clause (d : rstring) : rstring := str "domain LIKE '%" ++ sql_escape d ++ str "%'".
Definition client_clause (c : rstring) : rstring := str "client = '" ++ sql_escape c ++ str "'".
Definition action_clause (a : rstring) : rstring := str "action = '" ++ sql_escape a ++ str "'".

Definition clauses (q : LogQuery) : list rstring :=
  match nonempty (lq_domain q) with Some d => [domain_clause d] | None => [] end ++
  match nonempty (lq_client q) with Some c => [client_clause c] | None => [] end ++
  match nonempty (lq_action q) with Some a => [action_clause a] | None => [] end.

Definition where_sql (q : LogQuery) : rstring :=
  if bool_decide (clauses q = []) then [] else str "WHERE " ++ join (str " AND ") (clauses q).

Definition log_limit (q : LogQuery) : option Z := clamp (default 200 (lq_limit q)) 1 5000.

(** ** Handlers *)

Section Handlers.
Context `{U : Unicode, MK : Moka, MP : Mpsc, SM : Semaphores, T : Toml, LE : LogEngine}.

Definition store_blocklist (bl : Blocklist) (st : AppState) : AppState :=
  mk_state (st_config st) bl (st_cache st) (st_inflight st) (st_persist st)
    (st_qlog st) (st_upstream st) (st_stats st) (st_config_path st).
Definition store_config (cfg : Config) (st : AppState) : AppState :=
  mk_state cfg (st_blocklist st) (st_cache st) (st_inflight st) (st_persist st)
    (st_qlog st) (st_upstream st) (st_stats st) (st_config_path st).
Definition store_upstream (up : Upstream) (st : AppState) : AppState :=
  mk_state (st_config st) (st_blocklist st) (st_cache st) (st_inflight st) (st_persist st)
    (st_qlog st) up (st_stats st) (st_config_path st).

(** An I/O operation inside a handler. *)
Definition on_fs {A} (f : io Fs error A) : io (AppState * Fs) error A := fun '(st, fs) =>
  let '(fs', r) := f fs in ((st, fs'), r).
Definition modify (f : AppState -> AppState) : io (AppState * Fs) error unit := fun '(st, fs) =>
  ((f st, fs), Ok tt).
Definition gets {A} (f : AppState -> A) : io (AppState * Fs) error A := fun w => (w, Ok (f w.1)).

Definition get_blocklist : io (AppState * Fs) error BlocklistResponse :=
  gets (fun st => blocklist_response (st_blocklist st)).

Definition set_blocklist (text : rstring) : io (AppState * Fs) error BlocklistResponse :=
  let bl := from_text text in
  path ← gets (fun st => blocklist_path (cfg_web (st_config st)));
  _ ← on_fs (write_atomic path (as_bytes (to_file_text bl)));
  let resp := blocklist_response bl in
  _ ← modify (store_blocklist bl);
  mret resp.

Definition get_config : io (AppState * Fs) error ConfigView :=
  gets (fun st => config_view (st_config st)).

(** The first server that does not parse. *)
Fixpoint check_servers (l : list rstring) : result error unit :=
  match l with
  | [] => Ok tt
  | s :: l' =>
    match parse_sockaddr s with
    | None => Err (Msg (str "invalid upstream '" ++ s ++ str "' (expected host:port)"))
    | Some _ => check_servers l'
    end
  end.

(** The new configuration of [set_config], or the first error. *)
Definition apply_update (cfg : Config) (body : ConfigUpdate) : result error Config :=
  let servers := filter (fun s => s <> []) (trim <$> cu_upstream_servers body) in
  _ ← (if bool_decide (servers = [])
       then Err (Msg (str "at least one upstream server is required")) else Ok tt);
  _ ← check_servers servers;
  v4 ← ok_or (parse_ipv4 (cu_sinkhole_ipv4 body)) (Msg (str "invalid sinkhole_ipv4"));
  v6 ← ok_or (parse_ipv6 (cu_sinkhole_ipv6 body)) (Msg (str "invalid sinkhole_ipv6"));
  let d := cfg_dns cfg in
  Ok {| cfg_dns := mk_dns_config (dns_bind d) (workers d) (cu_sinkhole_mode body) v4 v6
                     (sinkhole_ttl d) (max_inflight d);
        cfg_upstream := mk_upstream_config servers (cu_timeout_ms body)
                          (cu_max_concurrent body) (cu_max_qps body);
        cfg_cache := cfg_cache cfg;
        cfg_web := cfg_web cfg;
        cfg_qlog := cfg_qlog cfg |}.

Definition set_config (body : ConfigUpdate) : io (AppState * Fs) error ConfigView :=
  cfg ← gets (fun st => st_config st);
  cfg ← lift (apply_update cfg body);
  path ← gets (fun st => st_config_path st);
  _ ← on_fs (save cfg path);
  let addrs := upstream_addrs cfg in
  _ ← modify (fun st => store_upstream (set_servers addrs (st_upstream st)) st);
  _ ← modify (store_config cfg);
  get_config.

Definition get_stats (now : Z) : io (AppState * Fs) error StatsSnapshot :=
  gets (fun st => snapshot (st_stats st) now (moka_entry_count (st_cache st))).

(** [get_logs]: JSON text, or the error of a 500 reply. *)
Definition get_logs (q : LogQuery) : io (AppState * Fs) error bytes := fun '(st, fs) =>
  let cfg := st_config st in
  if negb (qlog_enabled (cfg_qlog cfg)) then ((st, fs), Ok (as_bytes (str "[]")))
  else
    match log_limit q with
    | None => ((st, fs), Err Panicked)
    | Some limit =>
      ((st, fs), Qlog.query (qlog_dir (cfg_qlog cfg)) (mem_limit_mb (cfg_qlog cfg)) (where_sql q) limit fs)
    end.
End Handlers.

(** [AppError] becomes a 400 reply whose text is the outermost message of the
    error; [other] is the text of an operating system error. *)
Definition app_error_response (other : error -> rstring) (e : error) : Z * rstring :=
  (400, match e with Msg m => m | Context m _ => m | e => other e end).

(** ** SQL text

    How SQL reads a quoted string: a doubled quote stands for one, a single
    one ends it. *)

(** The value of a literal, after its opening quote, and the text after it. *)
Fixpoint sql_literal (s : rstring) : option (rstring * rstring) :=
  match s with
  | [] => None
  | c :: s1 =>
    if c =? 39 then
      match s1 with
      | d :: s2 =>
        if d =? 39 then '(v, rest) ← sql_literal s2; Some (39 :: v, rest) else Some ([], s1)
      | [] => Some ([], [])
      end
    else '(v, rest) ← sql_literal s1; Some (c :: v, rest)
  end.

(** The text outside the literals, each of which shows as its two quotes;
    [true]: inside a literal. *)
Fixpoint sql_skeleton (in_literal : bool) (s : rstring) : rstring :=
  match s with
  | [] => []
  | c :: s1 =>
    if in_literal then
      if c =? 39 then
        match s1 with
        | d :: s2 => if d =? 39 then sql_skeleton true s2 else 39 :: sql_skeleton false s1
        | [] => [39]
        end
      else sql_skeleton true s1
    else c :: sql_skeleton (c =? 39) s1
  end.

Lemma skeleton_plain p t : 39 ∉ p -> sql_skeleton false (p ++ t) = p ++ sql_skeleton false t.
Proof.
  induction p as [|c p IH]; [done|]. intros [Hc Hp]%not_elem_of_cons. simpl.
  destruct (Z.eqb_spec c 39); [congruence|]. by rewrite IH.
Qed.

Lemma skeleton_escaped s t : sql_skeleton true (sql_escape s ++ t) = sql_skeleton true t.
Proof.
  unfold sql_escape. induction s as [|c s IH]; [done|].
  rewrite filter_cons. case_decide as Hc; [|done]. rewrite bind_cons, <-(assoc_L (++)).
  destruct (Z.eqb_spec c 39) as [->|Hne]; [exact IH|]. simpl.
  destruct (Z.eqb_spec c 39); [done|exact IH].
Qed.

(** Reading a clause: its name, the literal, and the rest of the text. *)
Lemma skeleton_clause name pre s post t :
  39 ∉ name -> 39 ∉ pre -> 39 ∉ post -> head t <> Some 39 ->
  sql_skeleton false (name ++ 39 :: pre ++ sql_escape s ++ post ++ 39 :: t) =
  name ++ [39; 39] ++ sql_skeleton false t.
Proof.
  intros Hn Hpre Hpost Ht. rewrite skeleton_plain by done. f_equal. cbn [app sql_skeleton Z.eqb Pos.eqb].
  f_equal.
  assert (forall p u, 39 ∉ p -> sql_skeleton true (p ++ u) = sql_skeleton true u) as Hskip.
  { induction p as [|c p IH]; intros u; [done|]. intros [Hc Hp]%not_elem_of_cons. simpl.
    destruct (Z.eqb_spec c 39); [congruence|]. auto. }
  rewrite Hskip, skeleton_escaped, Hskip by done. cbn [sql_skeleton Z.eqb Pos.eqb].
  destruct t as [|d t]; [done|]. destruct (Z.eqb_spec d 39); [by subst|done].
Qed.

Lemma skeleton_domain d t : head t <> Some 39 ->
  sql_skeleton false (domain_clause d ++ t) = str "domain LIKE ''" ++ sql_skeleton false t.
Proof.
  intros Ht. pose proof (skeleton_clause (str "domain LIKE ") [37] d [37] t) as H.
  unfold domain_clause. rewrite <-!(assoc_L (++)).
  refine (eq_trans (H _ _ _ Ht) _); [by apply (bool_decide_unpack _)..|done].
Qed.
Lemma skeleton_client d t : head t <> Some 39 ->
  sql_skeleton false (client_clause d ++ t) = str "client = ''" ++ sql_skeleton false t.
Proof.
  intros Ht. pose proof (skeleton_clause (str "client = ") [] d [] t) as H.
  unfold client_clause. rewrite <-!(assoc_L (++)).
  refine (eq_trans (H _ _ _ Ht) _); [by apply (bool_decide_unpack _)..|done].
Qed.
Lemma skeleton_action d t : head t <> Some 39 ->
  sql_skeleton false (action_clause d ++ t) = str "action = ''" ++ sql_skeleton false t.
Proof.
  intros Ht. pose proof (skeleton_clause (str "action = ") [] d [] t) as H.
  unfold action_clause. rewrite <-!(assoc_L (++)).
  refine (eq_trans (H _ _ _ Ht) _); [by apply (bool_decide_unpack _)..|done].
Qed.

(** The same filters, with the value [x] in each. *)
Definition shape (q : LogQuery) : LogQuery := {|
  lq_limit := lq_limit q;
  lq_domain := (fun _ => [120]) <$> nonempty (lq_domain q);
  lq_client := (fun _ => [120]) <$> nonempty (lq_client q);
  lq_action := (fun _ => [120]) <$> nonempty (lq_action q);
|}.

Lemma app_single {A} (x : A) l : [x] ++ l = x :: l.
Proof. done. Qed.

Lemma skeleton_where q t : head t <> Some 39 ->
  sql_skeleton false (where_sql q ++ t) = sql_skeleton false (where_sql (shape q) ++ t).
Proof.
  intros Ht. unfold where_sql, clauses, shape. cbn [lq_domain lq_client lq_action].
  assert (forall o, nonempty ((fun _ => [120]) <$> nonempty o) = (fun _ => [120]) <$> nonempty o) as E.
  { intros o. by destruct (nonempty o). }
  rewrite !E.
  assert (39 ∉ str "WHERE ") as HW by by apply (bool_decide_unpack _).
  assert (39 ∉ str " AND ") as HA by by apply (bool_decide_unpack _).
  destruct (nonempty (lq_domain q)) as [d|], (nonempty (lq_client q)) as [c|], (nonempty (lq_action q)) as [a|];
    cbn [fmap option_fmap option_map]; rewrite ?app_nil_l, ?app_nil_r, ?app_single;
    rewrite ?bool_decide_eq_false_2 by done; cbn [join]; rewrite <-?(assoc_L (++)); [..|done];
    rewrite !(skeleton_plain (str "WHERE ")) by done; f_equal;
    repeat first
      [ rewrite !skeleton_domain by done | rewrite !skeleton_client by done
      | rewrite !skeleton_action by done | rewrite !(skeleton_plain (str " AND ")) by done ]; done.
Qed.

(** ** Lemmas about the handlers *)

Lemma check_servers_Ok l : check_servers l = Ok tt <-> Forall (fun s => is_Some (parse_sockaddr s)) l.
Proof.
  induction l as [|s l IH]; cbn [check_servers]; [by split|].
  rewrite Forall_cons, <-IH. destruct (parse_sockaddr s); [naive_solver|].
  split; [done|]. by intros [[? ?] _].
Qed.

Lemma check_servers_first l1 s l2 :
  Forall (fun s => is_Some (parse_sockaddr s)) l1 -> parse_sockaddr s = None ->
  check_servers (l1 ++ s :: l2) =
  Err (Msg (str "invalid upstream '" ++ s ++ str "' (expected host:port)")).
Proof.
  intros H Hs. induction H as [|x l1 [a Hx] H IH]; simpl; [by rewrite Hs|].
  by rewrite Hx.
Qed.

(** The servers a submitted configuration keeps. *)
Definition kept_servers (body : ConfigUpdate) : list rstring :=
  filter (fun s => s <> []) (trim <$> cu_upstream_servers body).

Definition updated (cfg : Config) (body : ConfigUpdate) (v4 : Ipv4Addr) (v6 : Ipv6Addr) : Config :=
  let d := cfg_dns cfg in
  mk_config
    (mk_dns_config (dns_bind d) (workers d) (cu_sinkhole_mode body) v4 v6 (sinkhole_ttl d) (max_inflight d))
    (mk_upstream_config (kept_servers body) (cu_timeout_ms body) (cu_max_concurrent body) (cu_max_qps body))
    (cfg_cache cfg) (cfg_web cfg) (cfg_qlog cfg).

Lemma apply_update_Ok cfg body cfg' :
  apply_update cfg body = Ok cfg' <->
  kept_servers body <> [] /\ Forall (fun s => is_Some (parse_sockaddr s)) (kept_servers body) /\
  exists v4 v6, parse_ipv4 (cu_sinkhole_ipv4 body) = Some v4 /\
    parse_ipv6 (cu_sinkhole_ipv6 body) = Some v6 /\ cfg' = updated cfg body v4 v6.
Proof.
  unfold apply_update. fold (kept_servers body). rewrite <-check_servers_Ok. split.
  - case_bool_decide; cbn [mbind result_bind]; [done|].
    destruct (check_servers (kept_servers body)) as [[]|]; [|done].
    destruct (parse_ipv4 _) as [v4|]; [|done]. destruct (parse_ipv6 _) as [v6|]; [|done].
    cbn [ok_or mbind result_bind]. intros [= <-]. eauto 10.
  - intros (Hne & Hc & v4 & v6 & E4 & E6 & ->).
    rewrite bool_decide_eq_false_2 by done. cbn [mbind result_bind]. by rewrite Hc, E4, E6.
Qed.

(** No server of an accepted configuration is lost on the way to the pool. *)
Lemma upstream_addrs_all cfg :
  Forall (fun s => is_Some (parse_sockaddr s)) (servers (cfg_upstream cfg)) ->
  length (upstream_addrs cfg) = length (servers (cfg_upstream cfg)) /\
  forall i s, servers (cfg_upstream cfg) !! i = Some s -> upstream_addrs cfg !! i = parse_sockaddr s.
Proof.
  unfold upstream_addrs. induction 1 as [|s l [a Ha] H [IH1 IH2]]; [done|].
  cbn [omap list_omap]. rewrite Ha. cbn [length]. split; [by rewrite IH1|].
  intros [|i] s'; [by intros [= <-]|]. apply IH2.
Qed.

(** What the configuration page sends back when nothing was edited. *)
Definition resubmit (v : ConfigView) : ConfigUpdate := {|
  cu_upstream_servers := cv_upstream_servers v;
  cu_timeout_ms := cv_timeout_ms v;
  cu_max_qps := cv_max_qps v;
  cu_max_concurrent := cv_max_concurrent v;
  cu_sinkhole_mode := cv_sinkhole_mode v;
  cu_sinkhole_ipv4 := cv_sinkhole_ipv4 v;
  cu_sinkhole_ipv6 := cv_sinkhole_ipv6 v;
|}.

Lemma kept_servers_idemp (l : list rstring) :
  filter (fun s => s <> []) (trim <$> filter (fun s => s <> []) (trim <$> l)) =
  filter (fun s => s <> []) (trim <$> l).
Proof.
  induction l as [|s l IH]; [done|]. cbn [fmap list_fmap]. rewrite filter_cons.
  case_decide as Hs; [|done]. cbn [fmap list_fmap]. rewrite trim_idemp, filter_cons, decide_True by done.
  by f_equal.
Qed.

Section HandlerLemmas.
Context `{U : Unicode, MK : Moka, MP : Mpsc, SM : Semaphores, T : Toml}.

Lemma on_fs_run {A} (f : io Fs error A) st fs : on_fs f (st, fs) = ((st, (f fs).1), (f fs).2).
Proof. unfold on_fs. by destruct (f fs). Qed.

Lemma set_blocklist_run text st fs :
  let bl := from_text text in
  let path := blocklist_path (cfg_web (st_config st)) in
  set_blocklist text (st, fs) =
  match write_atomic path (as_bytes (to_file_text bl)) fs with
  | (fs', Ok _) => ((store_blocklist bl st, fs'), Ok (blocklist_response bl))
  | (fs', Err e) => ((st, fs'), Err e)
  end.
Proof.
  cbv zeta. unfold set_blocklist. cbv [mbind io_bind gets mret io_ret modify]. cbn [fst].
  rewrite on_fs_run. by destruct (write_atomic _ _ fs) as [fs' [[]|e]].
Qed.

Lemma set_config_run body st fs :
  set_config body (st, fs) =
  match apply_update (st_config st) body with
  | Err e => ((st, fs), Err e)
  | Ok cfg =>
    match save cfg (st_config_path st) fs with
    | (fs', Ok _) =>
      ((store_config cfg (store_upstream (set_servers (upstream_addrs cfg) (st_upstream st)) st), fs'),
       Ok (config_view cfg))
    | (fs', Err e) => ((st, fs'), Err e)
    end
  end.
Proof.
  unfold set_config. cbv [mbind io_bind gets lift modify get_config]. cbn [fst].
  destruct (apply_update (st_config st) body) as [cfg|e]; [|done].
  rewrite on_fs_run. by destruct (save cfg _ fs) as [fs' [[]|e]].
Qed.
End HandlerLemmas.

(** ** Properties *)

(** C22. The token gate: with a token configured, a request that does not carry
    it runs no endpoint but the static page, whatever its path. *)
Theorem api_needs_token `{R : Router} {RL : RouterLaws R} token req e :
  token <> [] -> has_token token req = false -> app token req = Run e -> e = Index.
Proof.
  intros Ht Hno. unfold app, auth. rewrite Hno, (bool_decide_eq_false_2 (token = [])) by done.
  destruct (starts_with (str "/api") (req_path req)) eqn:Hp; [done|]. cbn [negb].
  destruct (route_match routes req) as [e'|] eqn:Em; [|done]. intros [= <-].
  apply route_match_in in Em. unfold routes, route, on_get, on_post in Em.
  cbn [app fmap list_fmap] in Em.
  repeat (apply elem_of_cons in Em as [Em|Em]; [injection Em as Ep _ ->; rewrite Ep in Hp; try done; by vm_compute in Hp|]).
  by apply elem_of_nil in Em.
Qed.

(** Clients that send the token get in: as [Authorization: Bearer <token>],
    when the token is not padded with spaces and does not itself start with
    "Bearer ", or verbatim in [X-Admin-Token]. *)
Theorem token_accepted token req :
  (hdr_authorization req = Some (str "Bearer " ++ token) -> trimmed token ->
   starts_with (str "Bearer ") token = false -> auth token req = true) /\
  (hdr_admin_token req = Some token -> auth token req = true).
Proof.
  unfold auth. destruct (negb _); [done|]. case_bool_decide; [done|]. unfold has_token. split.
  - intros -> Htrim Hb.
    assert (trim_start_str (str "Bearer ") (str "Bearer " ++ token) = token) as ->.
    { unfold trim_start_str.
      change (length (str "Bearer " ++ token)) with (S (6 + length token)). cbn [trim_start_str_fuel].
      rewrite (proj2 (strip_prefix_Some _ _ _) eq_refl). cbn [Nat.add trim_start_str_fuel].
      by rewrite (proj2 (strip_prefix_None _ _) Hb). }
    by rewrite trim_id, bool_decide_eq_true_2.
  - intros ->. by rewrite (bool_decide_eq_true_2 (token = token)), orb_true_r.
Qed.

(** C28. User text stays inside its quotes: the SQL of the log query has the
    same text outside string literals as the one with the value [x] in each
    filter that is set, whatever the client sends. *)
Theorem log_sql_no_injection q limit :
  sql_skeleton false (query_sql (where_sql q) limit) =
  sql_skeleton false (query_sql (where_sql (shape q)) limit).
Proof.
  unfold query_sql. rewrite !(skeleton_plain (str "SELECT CAST(ts AS VARCHAR) AS ts, client, domain, qtype, action, latency_ms FROM logs "))
    by (by apply (bool_decide_unpack _)).
  f_equal. by rewrite skeleton_where.
Qed.

(** What the database compares with: the literal made from a value reads
    back as the value without its semicolons and backslashes, and ends where
    its closing quote is. *)
Theorem sql_escape_reads_back s pre rest :
  39 ∉ pre -> head rest <> Some 39 ->
  sql_literal (pre ++ sql_escape s ++ 39 :: rest) =
  Some (pre ++ filter (fun c => c <> 59 /\ c <> 92) s, rest).
Proof.
  intros Hpre Hrest.
  assert (sql_literal (sql_escape s ++ 39 :: rest) = Some (filter (fun c => c <> 59 /\ c <> 92) s, rest)) as E.
  { unfold sql_escape. induction s as [|c s IH].
    - simpl. destruct rest as [|d rest]; [done|]. destruct (Z.eqb_spec d 39); [by subst|done].
    - rewrite !filter_cons. case_decide as Hc; [|done]. rewrite bind_cons, <-(assoc_L (++)).
      destruct (Z.eqb_spec c 39) as [->|Hne]; simpl; [by rewrite IH|].
      destruct (Z.eqb_spec c 39); [done|]. by rewrite IH. }
  induction pre as [|c pre IH]; [exact E|]. apply not_elem_of_cons in Hpre as [Hc Hpre]. simpl.
  destruct (Z.eqb_spec c 39); [congruence|]. by rewrite IH.
Qed.

(** The row limit of a log query is always within [1, 5000] and the clamp
    never panics; 200 is the default. *)
Theorem log_limit_bounds q :
  exists n, log_limit q = Some n /\ 1 <= n <= 5000 /\ (lq_limit q = None -> n = 200) /\
    (forall m, lq_limit q = Some m -> 1 <= m <= 5000 -> n = m).
Proof.
  unfold log_limit. rewrite clamp_Some by lia. eexists. split; [done|]. split; [lia|]. split.
  - by intros ->.
  - intros m -> Hm. simpl. lia.
Qed.

(** Validation of a submitted configuration, in the order of the code: no
    server left after trimming; the first server that is not an address with a
    port, by name; the IPv4 and then the IPv6 sinkhole address. *)
Theorem apply_update_errors cfg body :
  (kept_servers body = [] ->
   apply_update cfg body = Err (Msg (str "at least one upstream server is required"))) /\
  (forall l1 s l2, kept_servers body = l1 ++ s :: l2 ->
   Forall (fun s => is_Some (parse_sockaddr s)) l1 -> parse_sockaddr s = None ->
   apply_update cfg body = Err (Msg (str "invalid upstream '" ++ s ++ str "' (expected host:port)"))) /\
  (kept_servers body <> [] -> Forall (fun s => is_Some (parse_sockaddr s)) (kept_servers body) ->
   (parse_ipv4 (cu_sinkhole_ipv4 body) = None ->
    apply_update cfg body = Err (Msg (str "invalid sinkhole_ipv4"))) /\
   (forall v4, parse_ipv4 (cu_sinkhole_ipv4 body) = Some v4 ->
    parse_ipv6 (cu_sinkhole_ipv6 body) = None ->
    apply_update cfg body = Err (Msg (str "invalid sinkhole_ipv6")))).
Proof.
  unfold apply_update. fold (kept_servers body). split; [|split].
  - intros ->. done.
  - intros l1 s l2 E H1 Hs. rewrite E, bool_decide_eq_false_2 by by destruct l1.
    cbn [mbind result_bind]. by rewrite check_servers_first.
  - intros Hne Hall%check_servers_Ok. rewrite bool_decide_eq_false_2 by done.
    cbn [mbind result_bind]. rewrite Hall. cbn [mbind result_bind]. split; [by intros ->|].
    by intros v4 -> ->.
Qed.

(** C25. Saving the configuration page unchanged changes nothing: what
    [get_config] shows of a configuration that was accepted is accepted again,
    and gives the same configuration, sinkhole addresses included. *)
Theorem config_resubmit_stable cfg body cfg' :
  apply_update cfg body = Ok cfg' ->
  apply_update cfg' (resubmit (config_view cfg')) = Ok cfg'.
Proof.
  intros (Hne & Hall & v4 & v6 & H4 & H6 & ->)%apply_update_Ok. apply apply_update_Ok.
  unfold resubmit, config_view, updated, kept_servers in *.
  cbn [cu_upstream_servers cu_sinkhole_ipv4 cu_sinkhole_ipv6 cu_timeout_ms cu_max_qps cu_max_concurrent
    cu_sinkhole_mode cv_upstream_servers cv_sinkhole_ipv4 cv_sinkhole_ipv6 cv_timeout_ms cv_max_qps
    cv_max_concurrent cv_sinkhole_mode cfg_dns cfg_upstream sinkhole_ipv4 sinkhole_ipv6 servers].
  rewrite kept_servers_idemp. split; [done|]. split; [done|]. exists v4, v6.
  rewrite parse_show_ipv4 by (by eapply parse_ipv4_ok). rewrite parse_show_ipv6 by (by eapply parse_ipv6_ok). done.
Qed.

(** C24. [set_config] is all or nothing: after an error the running
    configuration, the upstream pool and the file are as before; after a
    success the file loads back as the new configuration, the pool has every
    submitted server in order, and the reply shows the new configuration. *)
Theorem set_config_atomic `{U : Unicode, MK : Moka, MP : Mpsc, SM : Semaphores, T : Toml} {TL : TomlLaws T}
    body st fs st' fs' r :
  with_extension (str "tmp") (st_config_path st) <> st_config_path st ->
  set_config body (st, fs) = ((st', fs'), r) ->
  match r with
  | Err _ => st' = st /\ files fs' !! st_config_path st = files fs !! st_config_path st
  | Ok v => exists cfg, apply_update (st_config st) body = Ok cfg /\
      st_config st' = cfg /\ v = config_view cfg /\
      length (up_servers (st_upstream st')) = length (kept_servers body) /\
      (forall i s, kept_servers body !! i = Some s ->
         up_servers (st_upstream st') !! i = parse_sockaddr s) /\
      st_blocklist st' = st_blocklist st /\ st_stats st' = st_stats st /\
      (forall fs2 cfg', load_or_create (st_config_path st) fs' = (fs2, Ok cfg') -> cfg' = cfg)
  end.
Proof.
  intros Hne. rewrite set_config_run. destruct (apply_update (st_config st) body) as [cfg|e] eqn:Ea.
  2: { by intros [= <- <- <-]. }
  destruct (save cfg (st_config_path st) fs) as [fs1 [[]|e]] eqn:Es; intros [= <- <- <-].
  - exists cfg. apply apply_update_Ok in Ea as (_ & Hall & v4 & v6 & _ & _ & ->).
    destruct (upstream_addrs_all (updated (st_config st) body v4 v6) Hall) as [Hl Hi].
    repeat (split; [done|]). intros fs2 cfg' Hload. by eapply load_saved.
  - split; [done|]. by eapply save_err_file.
Qed.

(** [set_blocklist] is all or nothing: after an error the list in use and
    the file are as before; after a success the list in use is the parsed
    text, the file holds its listing, and the reply counts its entries. *)
Theorem set_blocklist_atomic `{U : Unicode, MK : Moka, MP : Mpsc, SM : Semaphores} text st fs st' fs' r :
  let path := blocklist_path (cfg_web (st_config st)) in
  with_extension (str "tmp") path <> path ->
  set_blocklist text (st, fs) = ((st', fs'), r) ->
  match r with
  | Err _ => st' = st /\ files fs' !! path = files fs !! path
  | Ok v => st' = store_blocklist (from_text text) st /\
      files fs' !! path = Some (as_bytes (to_file_text (from_text text))) /\
      count v = Blocklist.len (from_text text) /\ domains v = to_sorted_vec (from_text text)
  end.
Proof.
  intros path Hne. rewrite set_blocklist_run. fold path.
  destruct (write_atomic path _ fs) as [fs1 r1] eqn:Ew.
  destruct (write_atomic_spec _ _ _ _ _ Hne Ew) as (Hf & _ & _).
  destruct r1 as [[]|e]; intros [= <- <- <-]; cbn [is_ok] in Hf; done.
Qed.

(** ** Worked examples *)

Section Witnesses.
#[local] Existing Instance ascii_tables.
#[local] Existing Instance Mini.hickory.
#[local] Existing Instance MemCache.moka.
#[local] Existing Instance MemSync.mpsc.
#[local] Existing Instance MemSync.sems.
#[local] Existing Instance digit_toml.

(** Exact matching on the table. *)
Fixpoint exact_match (t : list (rstring * Method * endpoint)) (req : Request) : option endpoint :=
  match t with
  | [] => None
  | (p, m, e) :: t' =>
    if bool_decide (p = req_path req /\ m = req_method req) then Some e else exact_match t' req
  end.
#[local] Instance exact_router : Router := {| route_match := exact_match |}.
Lemma exact_router_laws : RouterLaws exact_router.
Proof.
  split. intros t req e. cbn [route_match exact_router]. induction t as [|[[p m] e'] t IH]; [done|].
  cbn [exact_match]. case_bool_decide as H; [|intros Hm; right; by apply IH].
  destruct H as [-> ->]. intros [= ->]. left.
Qed.

Lemma api_needs_token_witness :
  exists e, app (str "secret") (mk_request GET (str "/") None None) = Run e /\ e = Index.
Proof.
  exists Index. split; [vm_refl|].
  refine (api_needs_token (RL := exact_router_laws) (str "secret") (mk_request GET (str "/") None None)
    Index _ _ _); [vm_compute; congruence|reflexivity|vm_refl].
Defined.

Lemma token_accepted_witness :
  auth (str "s3cret") (mk_request POST (str "/api/config") (Some (str "Bearer s3cret")) None) = true /\
  auth (str "s3cret") (mk_request POST (str "/api/config") None (Some (str "s3cret"))) = true.
Proof.
  split.
  - refine (proj1 (token_accepted (str "s3cret")
      (mk_request POST (str "/api/config") (Some (str "Bearer s3cret")) None)) eq_refl _ eq_refl). split; intros c [= <-]; done.
  - exact (proj2 (token_accepted (str "s3cret") (mk_request POST (str "/api/config") None (Some (str "s3cret")))) eq_refl).
Defined.

Lemma sql_escape_reads_back_witness :
  sql_literal (str "%" ++ sql_escape (str "o'x; --") ++ str "'") = Some (str "%o'x --", []).
Proof. refine (sql_escape_reads_back (str "o'x; --") (str "%") [] _ _); [by apply (bool_decide_unpack _)|done]. Defined.

Lemma log_limit_bounds_witness : exists n, log_limit (mk_log_query (Some 7) None None None) = Some n /\ n = 7.
Proof.
  destruct (log_limit_bounds (mk_log_query (Some 7) None None None)) as (n & H & _ & _ & Hn).
  exists n. split; [exact H|]. apply Hn; [reflexivity|lia].
Defined.

Definition bad_update : ConfigUpdate :=
  mk_config_update [str " 9.9.9.9:53 "; str "dns.google"; str "x"] 1 1 1 (str "nxdomain") (str "1.2.3") (str "::").
Definition good_update : ConfigUpdate :=
  mk_config_update [str " 9.9.9.9:53 "; []; str "[2620:fe::fe]:53"] 1500 100 64 (str "nxdomain")
    (str "0.0.0.0") (str "::").

Lemma apply_update_errors_witness :
  apply_update default_config bad_update =
  Err (Msg (str "invalid upstream 'dns.google' (expected host:port)")).
Proof.
  refine (proj1 (proj2 (apply_update_errors default_config bad_update)) [str "9.9.9.9:53"]
    (str "dns.google") [str "x"] _ _ _); [vm_refl| |vm_refl].
  constructor; [|constructor]. by eexists.
Defined.

Lemma config_resubmit_stable_witness :
  exists cfg, apply_update default_config good_update = Ok cfg /\
    apply_update cfg (resubmit (config_view cfg)) = Ok cfg.
Proof.
  assert (is_ok (apply_update default_config good_update) = true) as Hok by vm_refl.
  destruct (apply_update default_config good_update) as [cfg|e] eqn:E; [|discriminate Hok].
  exists cfg. split; [reflexivity|]. exact (config_resubmit_stable default_config good_update cfg E).
Defined.

Lemma set_config_atomic_witness :
  let '((st', fs'), r) := set_config good_update (sample_state, mk_fs ∅ []) in
  up_servers (st_upstream st') !! 1%nat = Some (SockV6 (ipv6 [0x2620; 0xfe; 0; 0; 0; 0; 0; 0xfe]) 53 0).
Proof.
  destruct (set_config good_update (sample_state, mk_fs ∅ [])) as [[st' fs'] r] eqn:E.
  pose proof (set_config_atomic (TL := digit_toml_laws) good_update sample_state (mk_fs ∅ []) st' fs' r
    ltac:(vm_compute; congruence) E) as H.
  destruct r as [v|e].
  - destruct H as (cfg & _ & _ & _ & _ & Hi & _). rewrite (Hi 1%nat (str "[2620:fe::fe]:53") ltac:(vm_refl)).
    vm_refl.
  - apply (f_equal (fun x => is_ok x.2)) in E. vm_compute in E. congruence.
Defined.

Lemma set_blocklist_atomic_witness :
  let '((st', fs'), r) := set_blocklist (str "ads.com") (sample_state, mk_fs ∅ [NoFault; Refused]) in
  st' = sample_state /\ files fs' !! str "blocklist.txt" = None.
Proof.
  destruct (set_blocklist (str "ads.com") (sample_state, mk_fs ∅ [NoFault; Refused])) as [[st' fs'] r] eqn:E.
  pose proof (set_blocklist_atomic (str "ads.com") sample_state (mk_fs ∅ [NoFault; Refused]) st' fs' r
    ltac:(vm_compute; congruence) E) as H.
  destruct r as [v|e]; [|exact H].
  apply (f_equal (fun x => is_ok x.2)) in E. vm_compute in E. congruence.
Defined.
End Witnesses.
