(* ===== verification/Main.v ===== *)
(** * Startup ([src/main.rs])

    The configuration path, the admin token, the warm load of the cache, and
    the state the listeners and the admin API start from. *)

From S2P Require Import Prelude RustStr Fmt NetAddr Fs Config Blocklist Hickory Cache Upstream Qlog Stats State Dns Web.

(** The first argument after the program name, else the environment variable,
    else [config.toml]. *)
Definition config_path_of (args : list rstring) (rust_dns_config : option rstring) : rstring :=
  match args !! 1%nat with
  | Some p => p
  | None => default (str "config.toml") rust_dns_config
  end.

(** [random_token]; [urandom] is the 32 bytes read, if they could be. *)
Definition random_token (urandom : option bytes) (nanos pid : Z) : rstring :=
  match urandom with
  | Some buf => buf ≫= fun b => zero_pad 2 (fmt_hex (byte_to_Z b))
  | None => zero_pad 32 (fmt_hex (Z.lxor nanos pid))
  end.

Definition with_token (token : rstring) (cfg : Config) : Config :=
  mk_config (cfg_dns cfg) (cfg_upstream cfg) (cfg_cache cfg)
    (mk_web_config (web_bind (cfg_web cfg)) token (blocklist_path (cfg_web cfg))) (cfg_qlog cfg).

(** The credentials the program refuses to run with. *)
Definition weak_token (token : rstring) : bool :=
  bool_decide (token = []) || bool_decide (token = str "change-me").

(** What the start finds outside the file system: the store file, the clocks
    and the source of randomness. *)
Record StartEnv `{R : Redb} := mk_start_env {
  se_urandom : option bytes;
  se_nanos : Z;
  se_pid : Z;
  se_disk : Disk;
  se_unix : Z;            (* now_unix when the rows are read *)
  se_clock : nat -> Z;    (* the cache's clock when the n-th entry is inserted *)
  se_started : Z;         (* the clock when the state is built *)
}.
Arguments mk_start_env {_}.

Section Start.
Context `{U : Unicode, HK : Hickory, MK : Moka, MP : Mpsc, SM : Semaphores, T : Toml, R : Redb}.

(** The token block of [main]. *)
Definition ensure_token (env : StartEnv) (path : rstring) (cfg : Config) : io Fs error Config :=
  if weak_token (admin_token (cfg_web cfg)) then
    let token := random_token (se_urandom env) (se_nanos env) (se_pid env) in
    let cfg := with_token token cfg in
    _ ← save cfg path;
    mret cfg
  else mret cfg.

(** Warm load: at most [max_entries] rows go into the cache; an unreadable
    store leaves it empty. *)
Fixpoint insert_entries (clock : nat -> Z) (n : nat) (c : DnsCache)
    (entries : list (CacheKey * CachedResponse)) : DnsCache :=
  match entries with
  | [] => c
  | (k, v) :: entries' => insert_entries clock (S n) (moka_insert c (clock n) k v) entries'
  end.

Definition warm_load (env : StartEnv) (cfg : CacheConfig) (db : Database) (c : DnsCache) : DnsCache :=
  match read_all_valid (se_unix env) db with
  | Ok entries => insert_entries (se_clock env) 0 c (take (Z.to_nat (max_entries cfg)) entries)
  | Err _ => c
  end.

(** [main], up to the listeners: the shared state, the store and the address
    to listen on. *)
Definition startup (env : StartEnv) (path : rstring) : io Fs error (AppState * Database * SocketAddr) :=
  cfg ← load_or_create path;
  cfg ← ensure_token env path cfg;
  blocklist ← from_file (blocklist_path (cfg_web cfg));
  let cache := build (max_entries (cfg_cache cfg)) in
  store ← lift (store_open (db_path (cfg_cache cfg)) (se_disk env));
  let cache := warm_load env (cfg_cache cfg) store cache in
  let persist_tx := channel (CacheKey * CachedResponse) PERSIST_CHANNEL_CAP in
  let qlog_tx := if qlog_enabled (cfg_qlog cfg) then Some (channel LogRecord LOG_CHANNEL_CAP) else None in
  let inflight := sem_new (Z.max (max_inflight (cfg_dns cfg)) 1) in
  let upstream := upstream_new (cfg_upstream cfg) (upstream_addrs cfg) (min_ttl (cfg_cache cfg))
                    (max_ttl (cfg_cache cfg)) (negative_ttl (cfg_cache cfg)) in
  let state := mk_state cfg blocklist cache inflight persist_tx qlog_tx upstream
                 (stats_default (se_started env)) path in
  addr ← lift (ok_or (parse_sockaddr (dns_bind (cfg_dns cfg)))
                 (Context (str "invalid dns.bind: " ++ dns_bind (cfg_dns cfg)) InvalidData));
  mret (state, store, addr).

(** The period of the purge task. *)
Definition purge_period (cfg : CacheConfig) : Z := Z.max (purge_interval_secs cfg) 30.
End Start.

(** ** Lemmas *)

Lemma hex_byte_fixed b : zero_pad 2 (fmt_hex (byte_to_Z b)) = fixed_digits 16 2 (byte_to_Z b).
Proof. apply zero_pad_fixed; [lia..|]. pose proof (byte_to_Z_bound b). done. Qed.

Lemma digit_char_inj a b : 0 <= a < 16 -> 0 <= b < 16 -> digit_char a = digit_char b -> a = b.
Proof. unfold digit_char. intros. destruct (Z.ltb_spec a 10), (Z.ltb_spec b 10); lia. Qed.

Lemma hex_byte_inj a b :
  zero_pad 2 (fmt_hex (byte_to_Z a)) = zero_pad 2 (fmt_hex (byte_to_Z b)) -> a = b.
Proof.
  rewrite !hex_byte_fixed. cbn [fixed_digits]. simpl. intros [= H1 H2].
  pose proof (byte_to_Z_bound a). pose proof (byte_to_Z_bound b).
  apply digit_char_inj in H1, H2; try (apply Z.mod_pos_bound; lia).
  rewrite <-(byte_of_to_Z a), <-(byte_of_to_Z b). f_equal.
  rewrite !Z.mod_small in H1 by (split; [apply Z.div_pos; lia|apply Z.div_lt_upper_bound; lia]).
  rewrite (Z.div_mod (byte_to_Z a) 16), (Z.div_mod (byte_to_Z b) 16) by lia. lia.
Qed.

Lemma length_hex_bytes buf :
  length (buf ≫= fun b => zero_pad 2 (fmt_hex (byte_to_Z b))) = (2 * length buf)%nat.
Proof.
  induction buf as [|b buf IH]; [done|].
  rewrite bind_cons, length_app, IH, hex_byte_fixed, length_fixed_digits. simpl. lia.
Qed.

Lemma hex_bytes_inj l1 l2 :
  (l1 ≫= fun b => zero_pad 2 (fmt_hex (byte_to_Z b))) =
  (l2 ≫= fun b => zero_pad 2 (fmt_hex (byte_to_Z b))) -> l1 = l2.
Proof.
  revert l2. induction l1 as [|a l1 IH]; intros [|b l2] H; [done| | |].
  - apply (f_equal length) in H. rewrite !length_hex_bytes in H. done.
  - apply (f_equal length) in H. rewrite !length_hex_bytes in H. done.
  - rewrite !bind_cons in H. apply app_inj_1 in H as [H1 H2].
    + apply hex_byte_inj in H1 as ->. f_equal. by apply IH.
    + by rewrite !hex_byte_fixed, !length_fixed_digits.
Qed.

Lemma token_not_weak urandom nanos pid :
  (forall buf, urandom = Some buf -> length buf = 32%nat) ->
  weak_token (random_token urandom nanos pid) = false.
Proof.
  intros Hbuf. assert (32 <= length (random_token urandom nanos pid))%nat as Hl.
  { unfold random_token. destruct urandom as [buf|].
    - rewrite length_hex_bytes, (Hbuf buf eq_refl). lia.
    - unfold zero_pad. rewrite length_app, length_replicate. lia. }
  unfold weak_token. apply orb_false_iff. split; apply bool_decide_eq_false; intros E; rewrite E in Hl.
  - simpl in Hl. lia.
  - vm_compute in Hl. lia.
Qed.

(** The file holds a configuration. *)
Definition holds `{T : Toml} (path : rstring) (cfg : Config) (fs : Fs) : Prop :=
  exists d t, files fs !! path = Some d /\ from_utf8 d = Some t /\ toml_from_str t = Some cfg.

Section StartLemmas.
Context `{U : Unicode, HK : Hickory, MK : Moka, MP : Mpsc, SM : Semaphores, T : Toml, R : Redb}.

Lemma load_holds path cfg fs fs' cfg' :
  holds path cfg fs -> load_or_create path fs = (fs', Ok cfg') ->
  cfg' = cfg /\ files fs' = files fs.
Proof.
  intros (d & t & Hd & Hu & Ht). unfold load_or_create, path_exists.
  rewrite bool_decide_eq_true_2 by eauto. intros (fs1 & s & Hr & Hp)%io_bind_ok.
  apply with_context_ok in Hr. unfold lift in Hp. injection Hp as -> Hp.
  pose proof (fs_read_files _ _ _ _ Hr) as Hf. split; [|done].
  unfold fs_read_to_string in Hr. rewrite Hd, Hu in Hr.
  destruct (next_fault fs); [|done..]. injection Hr as _ <-. rewrite Ht in Hp. by injection Hp.
Qed.

Lemma from_file_keeps p path fs fs' bl d :
  from_file p fs = (fs', Ok bl) -> files fs !! path = Some d -> files fs' !! path = Some d.
Proof.
  intros H Hd. unfold from_file in H. apply io_bind_ok in H as (fs1 & [] & H1 & H).
  apply io_bind_ok in H as (fs2 & text & H2 & H3). apply with_context_ok, fs_read_files in H2.
  injection H3 as <- _. rewrite H2. clear H2.
  destruct (path_exists p fs) eqn:Ep; [by injection H1 as <-|].
  apply with_context_ok, fs_write_ok in H1. rewrite H1.
  rewrite lookup_insert_ne; [done|]. intros ->. unfold path_exists in Ep.
  apply bool_decide_eq_false in Ep. eauto.
Qed.

Lemma holds_same path cfg fs fs' : same_file fs fs' path -> holds path cfg fs -> holds path cfg fs'.
Proof. intros Hf (d & t & Hd & H). exists d, t. by rewrite Hf. Qed.

Lemma load_keeps path cfg fs fs' r :
  holds path cfg fs -> load_or_create path fs = (fs', r) -> files fs' = files fs.
Proof.
  intros (d & t & Hd & _). unfold load_or_create, path_exists.
  rewrite bool_decide_eq_true_2 by eauto. cbv [mbind io_bind lift with_context].
  destruct (fs_read_to_string path fs) as [fs1 [s|e]] eqn:Er; apply fs_read_files in Er;
    by intros [= <- _].
Qed.

Lemma from_file_other p path fs fs' r :
  from_file p fs = (fs', r) -> p <> path -> same_file fs fs' path.
Proof.
  unfold from_file, same_file. cbv [mbind io_bind with_context].
  intros H Hp. destruct (path_exists p fs).
  - cbn in H. destruct (fs_read_to_string p fs) as [fs2 [s|e]] eqn:Er; apply fs_read_files in Er;
      injection H as <- _; by rewrite Er.
  - destruct (fs_write p _ fs) as [fs1 [[]|e]] eqn:Ew; (eapply fs_write_other in Ew; [|by apply not_eq_sym]);
      unfold same_file in Ew; [|by injection H as <- _].
    destruct (fs_read_to_string p fs1) as [fs2 [s|e]] eqn:Er; apply fs_read_files in Er;
      injection H as <- _; by rewrite Er.
Qed.

(** A start on a file that holds a configuration with a strong token, also one
    that fails on the way, leaves the file alone and runs that configuration. *)
Lemma startup_keeps env path cfg fs fs' r :
  holds path cfg fs -> weak_token (admin_token (cfg_web cfg)) = false ->
  blocklist_path (cfg_web cfg) <> path -> startup env path fs = (fs', r) ->
  holds path cfg fs' /\
  forall st db addr, r = Ok (st, db, addr) -> st_config st = cfg /\ st_config_path st = path.
Proof.
  intros Hh Hw Hb H. unfold startup in H. cbv [mbind io_bind] in H.
  destruct (load_or_create path fs) as [fs1 [cfg1|e]] eqn:El.
  2: { injection H as <- <-. split; [|done]. apply (holds_same _ _ fs); [|done].
       unfold same_file. by rewrite (load_keeps _ _ _ _ _ Hh El). }
  destruct (load_holds _ _ _ _ _ Hh El) as [-> Hf1].
  unfold ensure_token in H. rewrite Hw in H. cbn [mret io_ret] in H.
  destruct (from_file (blocklist_path (cfg_web cfg)) fs1) as [fs2 [bl|e]] eqn:Eb;
    (assert (holds path cfg fs2) as Hh2; [apply (holds_same _ _ fs1);
      [by eapply from_file_other|apply (holds_same _ _ fs); [unfold same_file; by rewrite Hf1|done]]|]).
  2: { by injection H as <- <-. }
  unfold lift in H. destruct (store_open _ _) as [db|e]; [|by injection H as <- <-].
  cbv [ok_or] in H. destruct (parse_sockaddr _) as [a|]; injection H as <- <-; (split; [done|]); [|done].
  by intros ? ? ? [= <- <- <-].
Qed.

Section TomlSafe.
Context {TL : TomlLaws T}.

Lemma save_holds cfg path fs fs' :
  with_extension (str "tmp") path <> path -> save cfg path fs = (fs', Ok tt) -> holds path cfg fs'.
Proof using TL.
  intros Hne (t & Ht & Hw)%save_ok. destruct (write_atomic_spec _ _ _ _ _ Hne Hw) as (Hf & _ & _).
  cbn [is_ok] in Hf. exists (as_bytes t), t. split; [done|]. split.
  - apply from_utf8_as_bytes. by eapply toml_valid.
  - by apply toml_roundtrip.
Qed.

Lemma load_or_create_holds path fs fs' cfg :
  with_extension (str "tmp") path <> path ->
  load_or_create path fs = (fs', Ok cfg) -> holds path cfg fs'.
Proof using TL.
  intros Hne. unfold load_or_create. destruct (path_exists path fs) eqn:Ep.
  - intros (fs1 & s & Hr & Hp)%io_bind_ok. apply with_context_ok in Hr.
    unfold lift in Hp. injection Hp as -> Hp. pose proof (fs_read_files _ _ _ _ Hr) as Hf.
    unfold fs_read_to_string in Hr. destruct (next_fault fs); [|done..].
    destruct (files fs !! path) as [d|] eqn:Ed; [|done]. injection Hr as _ Hu.
    destruct (from_utf8 d) as [t|] eqn:Et; [|done]. injection Hu as <-.
    destruct (toml_from_str t) as [c|] eqn:Ec; [|done]. injection Hp as <-.
    exists d, t. by rewrite Hf.
  - intros (fs1 & [] & Hs & Hr)%io_bind_ok. injection Hr as <- <-. by apply save_holds in Hs.
Qed.

(** After the token block the token is strong, and the file holds the
    configuration in use. *)
Lemma ensure_token_spec env path cfg fs fs' cfg' :
  with_extension (str "tmp") path <> path ->
  (forall buf, se_urandom env = Some buf -> length buf = 32%nat) ->
  holds path cfg fs -> ensure_token env path cfg fs = (fs', Ok cfg') ->
  holds path cfg' fs' /\ weak_token (admin_token (cfg_web cfg')) = false.
Proof using TL.
  intros Hne Hbuf Hh. unfold ensure_token. destruct (weak_token _) eqn:Ew.
  - intros (fs1 & [] & Hs & Hr)%io_bind_ok. injection Hr as <- <-. split; [by apply save_holds in Hs|].
    by apply token_not_weak.
  - by intros [= <- <-].
Qed.
End TomlSafe.

Section WarmLoad.
Context {ML : MokaLaws MK}.

Lemma insert_entries_spec clock n c entries :
  moka_expiry (insert_entries clock n c entries) = moka_expiry c /\
  forall k v d, moka_entries (insert_entries clock n c entries) !! k = Some (v, d) ->
    moka_entries c !! k = Some (v, d) \/ ((k, v) ∈ entries /\ exists i, d = deadline c (clock i) k v).
Proof using ML.
  revert n c. induction entries as [|[k0 v0] entries IH]; intros n c; [by auto|]. cbn [insert_entries].
  destruct (moka_insert_spec c (clock n) k0 v0) as [Hsub Hexp].
  destruct (IH (S n) (moka_insert c (clock n) k0 v0)) as [E H].
  split; [congruence|]. intros k v d [Hk|[Hin [i ->]]]%H.
  - eapply lookup_weaken in Hk; [|done]. apply lookup_insert_Some in Hk as [[<- [= <- <-]]|[_ Hk]]; [|auto].
    right. split; [left|by exists n].
  - right. split; [by right|]. exists i. unfold deadline. by rewrite Hexp.
Qed.

Lemma read_all_valid_from {RL : RedbLaws R} now db out x :
  read_all_valid now db = Ok out -> x ∈ out ->
  exists kb vb, rows db !! kb = Some vb /\ load_row now (kb, vb) = Some x.
Proof.
  intros Hr Hx. destruct (begin_read db) as [r|] eqn:Er; [|unfold read_all_valid in Hr; by rewrite Er in Hr].
  destruct (r_open_table r) as [t|] eqn:Et.
  - assert (readable db) as Hread by (by exists r, t).
    by apply (read_all_valid_elem _ _ _ x Hread Hr).
  - unfold read_all_valid in Hr. rewrite Er in Hr. cbn [mbind result_bind] in Hr.
    rewrite Et in Hr. injection Hr as <-. by apply elem_of_nil in Hx.
Qed.

(** An entry of the warm cache comes from a row that has not expired. *)
Lemma warm_load_spec {RL : RedbLaws R} env cfg db n :
  let c := warm_load env cfg db (build n) in
  moka_expiry c = expire_after_create /\
  forall k v d, moka_entries c !! k = Some (v, d) ->
    (exists i, d = Some (se_clock env i + Z.max (ttl_secs v) 1)) /\
    exists kb vb, rows db !! kb = Some vb /\ load_row (se_unix env) (kb, vb) = Some (k, v).
Proof using ML.
  cbv zeta. unfold warm_load, build. destruct (read_all_valid (se_unix env) db) as [out|] eqn:Er.
  - destruct (insert_entries_spec (se_clock env) 0 (moka_new n expire_after_create)
      (take (Z.to_nat (max_entries cfg)) out)) as [E H]. rewrite moka_new_expiry in E.
    split; [done|]. intros k v d Hk. destruct (H _ _ _ Hk) as [Hk'|[Hin [i ->]]].
    + by rewrite moka_new_entries in Hk'.
    + unfold deadline. rewrite moka_new_expiry. split; [by exists i|].
      apply (read_all_valid_from _ _ _ _ Er). eapply elem_of_sublist; [done|].
      apply sublist_take.
  - rewrite moka_new_expiry. split; [done|]. intros k v d Hk. by rewrite moka_new_entries in Hk.
Qed.
End WarmLoad.

Lemma startup_path env path fs fs' st db addr :
  startup env path fs = (fs', Ok (st, db, addr)) -> st_config_path st = path.
Proof.
  unfold startup. intros (fs1 & cfg & _ & H)%io_bind_ok.
  apply io_bind_ok in H as (fs2 & cfg2 & _ & H). apply io_bind_ok in H as (fs3 & bl & _ & H).
  apply io_bind_ok in H as (fs4 & store & _ & H). apply io_bind_ok in H as (fs5 & a & _ & H).
  by injection H as _ <-.
Qed.

(** A row that decodes to a genuine reply, if it decodes. *)
Definition genuine_row (kb vb : bytes) : Prop :=
  forall k v, dec_key kb = Some k -> dec_val vb = Some v -> genuine k v.

Lemma load_row_genuine now kb vb m k v :
  rows_inv genuine_row m -> m !! kb = Some vb -> load_row now (kb, vb) = Some (k, v) -> genuine k v.
Proof.
  intros Hg Hrow Hl. unfold load_row in Hl. cbn [fst snd] in Hl.
  destruct (dec_key kb) as [key|] eqn:Ek; [|done].
  destruct (dec_val vb) as [val|] eqn:Ev; [|done]. destruct (_ <? _); [|done].
  injection Hl as <- <-. exact (Hg _ _ Hrow _ _ Ek Ev).
Qed.

(** The parts a successful start puts together. *)
Lemma startup_parts env path fs fs' st db addr :
  startup env path fs = (fs', Ok (st, db, addr)) ->
  exists fs1 cfg fs2,
    load_or_create path fs = (fs1, Ok cfg) /\
    ensure_token env path cfg fs1 = (fs2, Ok (st_config st)) /\
    from_file (blocklist_path (cfg_web (st_config st))) fs2 = (fs', Ok (st_blocklist st)) /\
    st_cache st = warm_load env (cfg_cache (st_config st)) db (build (max_entries (cfg_cache (st_config st)))) /\
    st_inflight st = sem_new (Z.max (max_inflight (cfg_dns (st_config st))) 1) /\
    st_persist st = channel _ PERSIST_CHANNEL_CAP /\
    st_qlog st = (if qlog_enabled (cfg_qlog (st_config st)) then Some (channel LogRecord LOG_CHANNEL_CAP) else None) /\
    st_stats st = stats_default (se_started env) /\
    store_open (db_path (cfg_cache (st_config st))) (se_disk env) = Ok db /\
    st_upstream st = upstream_new (cfg_upstream (st_config st)) (upstream_addrs (st_config st))
      (min_ttl (cfg_cache (st_config st))) (max_ttl (cfg_cache (st_config st)))
      (negative_ttl (cfg_cache (st_config st))) /\
    parse_sockaddr (dns_bind (cfg_dns (st_config st))) = Some addr.
Proof.
  unfold startup. intros (fs1 & cfg & H1 & H)%io_bind_ok.
  apply io_bind_ok in H as (fs2 & cfg2 & H2 & H). apply io_bind_ok in H as (fs3 & bl & H3 & H).
  apply io_bind_ok in H as (fs4 & store & H4 & H). apply io_bind_ok in H as (fs5 & a & H5 & H).
  unfold lift in H4, H5. injection H4 as <- H4. injection H5 as <- H5. injection H as <- <- <- <-.
  exists fs1, cfg, fs2. cbn [st_config st_blocklist st_cache st_inflight st_persist st_qlog st_stats st_upstream].
  repeat (split; [done|]). destruct (parse_sockaddr _); [by injection H5 as ->|done].
Qed.

(** After a start the token is strong and the file holds the configuration. *)
Lemma startup_holds {TL : TomlLaws T} env path fs fs' st db addr :
  with_extension (str "tmp") path <> path ->
  (forall buf, se_urandom env = Some buf -> length buf = 32%nat) ->
  startup env path fs = (fs', Ok (st, db, addr)) ->
  holds path (st_config st) fs' /\ weak_token (admin_token (cfg_web (st_config st))) = false.
Proof.
  intros Hne Hbuf (fs1 & cfg & fs2 & H1 & H2 & H3 & _)%startup_parts.
  apply load_or_create_holds in H1; [|done].
  destruct (ensure_token_spec _ _ _ _ _ _ Hne Hbuf H1 H2) as [(d & t & Hd & Ht) Hw].
  split; [|done]. exists d, t. split; [|done]. by apply (from_file_keeps _ _ _ _ _ _ H3).
Qed.

(** The warm load is over [slack] seconds after the rows were read. *)
Definition loads_within (slack : Z) (env : StartEnv) : Prop :=
  forall i, se_clock env i <= se_unix env + slack.

(** What a start establishes about the cache and the channel. *)
Lemma startup_state_inv {ML : MokaLaws MK} {PL : MpscLaws MP} {RL : RedbLaws R} slack env path fs fs' st db addr :
  startup env path fs = (fs', Ok (st, db, addr)) -> loads_within slack env ->
  is_u 32 (min_ttl (cfg_cache (st_config st))) -> is_u 32 (max_ttl (cfg_cache (st_config st))) ->
  state_fresh slack st /\ (rows_inv genuine_row (rows db) -> state_sound st) /\ sent (st_persist st) = [].
Proof.
  intros (fs1 & cfg & fs2 & _ & _ & _ & Hc & _ & Hp & _ & _ & _ & Hup & _)%startup_parts Hsync Hmin Hmax.
  destruct (warm_load_spec env (cfg_cache (st_config st)) db (max_entries (cfg_cache (st_config st))))
    as [Hexp He]. rewrite <-Hc in Hexp, He.
  assert (sent (st_persist st) = []) as Hsent by (by rewrite Hp, channel_sent).
  split; [|split; [|done]].
  - split; [done|]. rewrite Hup. split; [done|]. split; [done|]. intros k v d Hk.
    destruct (He _ _ _ Hk) as [[i ->] (kb & vb & _ & Hl)]. eexists. split; [done|]. specialize (Hsync i).
    unfold load_row in Hl. cbn [fst snd] in Hl. destruct (dec_key kb); [|done].
    destruct (dec_val vb) as [val|]; [|done].
    destruct (Z.ltb_spec (se_unix env) (expires_unix val)); [|done]. injection Hl as _ <-.
    cbn [ttl_secs expires_unix].
    assert (as_u 32 (expires_unix val - se_unix env) <= expires_unix val - se_unix env)
      by (apply Z.mod_le; lia).
    lia.
  - intros Hg. split.
    + intros k v d Hk. destruct (He _ _ _ Hk) as [_ (kb & vb & Hrow & Hl)].
      by eapply load_row_genuine.
    + intros k v Hin. rewrite Hsent in Hin. by apply elem_of_nil in Hin.
Qed.
End StartLemmas.

(** ** Properties *)

(** The generated token: 64 characters that determine the 32 random bytes,
    and in every case, also when [/dev/urandom] cannot be read, a token the
    program accepts. *)
Theorem random_token_strong urandom nanos pid :
  (forall buf, urandom = Some buf -> length buf = 32%nat) ->
  weak_token (random_token urandom nanos pid) = false /\
  (forall buf, urandom = Some buf -> length (random_token urandom nanos pid) = 64%nat) /\
  (forall b1 b2 n p, random_token (Some b1) nanos pid = random_token (Some b2) n p -> b1 = b2).
Proof.
  intros Hbuf. split; [by apply token_not_weak|]. split.
  - intros buf Hb. rewrite Hb. unfold random_token. by rewrite length_hex_bytes, (Hbuf buf Hb).
  - intros b1 b2 n p. apply hex_bytes_inj.
Qed.

Section Properties.
Context `{U : Unicode, HK : Hickory, MK : Moka, MP : Mpsc, SM : Semaphores, T : Toml, R : Redb}.

(** C23. The admin API never starts open: after a successful start the token in
    use is neither empty nor "change-me", and the configuration file holds
    exactly the configuration in use, so the next start keeps the token. *)
Theorem startup_secures_token {TL : TomlLaws T} env path fs fs' st db addr :
  with_extension (str "tmp") path <> path ->
  (forall buf, se_urandom env = Some buf -> length buf = 32%nat) ->
  startup env path fs = (fs', Ok (st, db, addr)) ->
  weak_token (admin_token (cfg_web (st_config st))) = false /\
  forall fs2 cfg', load_or_create path fs' = (fs2, Ok cfg') -> cfg' = st_config st.
Proof.
  intros Hne Hbuf Hs. destruct (startup_holds _ _ _ _ _ _ _ Hne Hbuf Hs) as [Hh Hw].
  split; [done|]. intros fs3 cfg' Hl. by apply (load_holds path (st_config st) fs' fs3 cfg').
Qed.

Context {ML : MokaLaws MK} {PL : MpscLaws MP} {SL : SemaphoreLaws SM} {RL : RedbLaws R}.

(** The state a start hands to the listeners satisfies what the running
    server keeps invariant: the warm cache holds only rows that have not
    expired, with deadlines that pass their expiry by the duration of the load
    and the second [expire_after_create] rounds up to, at most; a store of genuine
    replies gives a cache of genuine replies; the counters are zero and there
    is at least one permit. *)
Theorem startup_establishes_invariants slack env path fs fs' st db addr :
  startup env path fs = (fs', Ok (st, db, addr)) ->
  loads_within slack env ->
  is_u 32 (min_ttl (cfg_cache (st_config st))) -> is_u 32 (max_ttl (cfg_cache (st_config st))) ->
  state_fresh slack st /\
  (rows_inv genuine_row (rows db) -> state_sound st) /\
  st_stats st = stats_default (se_started env) /\
  available_permits (st_inflight st) = Z.max (max_inflight (cfg_dns (st_config st))) 1.
Proof.
  intros Hst Hsync Hmin Hmax.
  destruct (startup_state_inv _ _ _ _ _ _ _ _ Hst Hsync Hmin Hmax) as (Hf & Hs & _).
  apply startup_parts in Hst as (fs1 & cfg & fs2 & _ & _ & _ & _ & Hi & _ & _ & Hst & _ & _).
  split; [done|]. split; [done|]. split; [done|]. by rewrite Hi, sem_new_permits by lia.
Qed.

(** Soundness survives a restart: whatever writes fail, a store of genuine
    replies that the write-behind task has been fed genuine entries is still a
    store of genuine replies, so the cache the next start loads from it is
    sound. *)
Theorem restart_keeps_genuine db evs env path fs fs' st db' addr :
  rows_inv genuine_row (rows db) ->
  (forall k v, (k, v) ∈ items_of evs -> genuine k v /\ key_wf k /\ cached_wf v) ->
  disk_rows (se_disk env) = rows (w_db (run_writer db evs)) ->
  startup env path fs = (fs', Ok (st, db', addr)) ->
  rows_inv genuine_row (rows db') /\
  forall k v d, moka_entries (st_cache st) !! k = Some (v, d) -> genuine k v.
Proof.
  intros Hdb Hitems Hdisk Hstart.
  assert (rows_inv genuine_row (rows (w_db (run_writer db evs)))) as Hrows.
  { apply writer_run_inv.
    - split; [done|]. intros k v Hin. by apply elem_of_nil in Hin.
    - intros k v Hin k' v' Hk Hv. destruct (Hitems k v Hin) as (Hg & Hkw & Hvw).
      rewrite dec_enc_key in Hk by done. rewrite dec_enc_val in Hv by done.
      by injection Hk as <-; injection Hv as <-. }
  apply startup_parts in Hstart as (fs1 & cfg & fs2 & _ & _ & _ & Hc & _ & _ & _ & _ & Hr%store_open_rows & _).
  rewrite <-Hdisk, <-Hr in Hrows. split; [done|].
  intros k v d Hk. rewrite Hc in Hk. destruct (warm_load_spec env (cfg_cache (st_config st))
    db' (max_entries (cfg_cache (st_config st)))) as [_ He].
  destruct (He _ _ _ Hk) as (_ & kb & vb & Hrow & Hl). by eapply load_row_genuine.
Qed.
End Properties.


(** ** Worked examples *)

Section Witnesses.
#[local] Existing Instance ascii_tables.
#[local] Existing Instance Mini.hickory.
#[local] Existing Instance MemCache.moka.
#[local] Existing Instance MemSync.mpsc.
#[local] Existing Instance MemSync.sems.
#[local] Existing Instance digit_toml.
#[local] Existing Instance MemDb.redb.

Definition sample_random : bytes := replicate 16 x0f ++ replicate 16 xa5.
Definition sample_start : StartEnv := mk_start_env (Some sample_random) 0 0 ∅ 1000 (fun _ => 1000) 1000.

Lemma sample_random_32 buf : se_urandom sample_start = Some buf -> length buf = 32%nat.
Proof. by intros [= <-]. Qed.

Lemma random_token_strong_witness : length (random_token (Some sample_random) 0 0) = 64%nat.
Proof.
  refine (proj1 (proj2 (random_token_strong (Some sample_random) 0 0 sample_random_32)) _ eq_refl).
Defined.

Definition first_start : Fs * result error (AppState * Database * SocketAddr) :=
  startup sample_start (str "config.toml") (mk_fs ∅ []).

Lemma startup_secures_token_witness :
  match first_start with
  | (_, Ok (st, _, _)) => weak_token (admin_token (cfg_web (st_config st))) = false
  | (_, Err _) => False
  end.
Proof.
  destruct first_start as [fs' [[[st db] addr]|e]] eqn:E.
  - refine (proj1 (startup_secures_token (TL := digit_toml_laws) sample_start (str "config.toml") (mk_fs ∅ [])
      fs' st db addr _ sample_random_32 E)). vm_compute. congruence.
  - apply (f_equal (fun x => is_ok x.2)) in E. vm_compute in E. congruence.
Defined.

Lemma startup_establishes_invariants_witness :
  match first_start with
  | (_, Ok (st, _, _)) => state_fresh 0 st
  | (_, Err _) => False
  end.
Proof.
  destruct first_start as [fs' [[[st db] addr]|e]] eqn:E.
  - assert (option_map (fun x => cfg_cache (st_config x.1.1)) (ok first_start.2) = Some (cfg_cache default_config)) as Hc
      by vm_refl. rewrite E in Hc. injection Hc as Hc.
    refine (proj1 (startup_establishes_invariants (ML := MemCache.memcache_laws) (PL := MemSync.mpsc_laws)
      (SL := MemSync.sems_laws) (RL := MemDb.memdb_laws) 0 sample_start (str "config.toml") (mk_fs ∅ [])
      fs' st db addr E _ _ _)); [done|..]; rewrite Hc; vm_compute; intuition congruence.
  - apply (f_equal (fun x => is_ok x.2)) in E. vm_compute in E. congruence.
Defined.

(** The store one fetched reply leaves behind, and the start that loads it: the
    entry goes into the cache three seconds after the rows were read. *)
Definition left_behind : gmap bytes bytes := {[enc_key key_a := enc_val sample_cached]}.
Definition second_env : StartEnv := mk_start_env (Some sample_random) 0 0 left_behind 1030 (fun _ => 1033) 1033.
Definition second_start : Fs * result error (AppState * Database * SocketAddr) :=
  startup second_env (str "config.toml") first_start.1.

Lemma stored_a_genuine : genuine key_a sample_cached.
Proof.
  exists query_wire, (default ads_request (Mini.mfrom_vec query_wire)), question.
  split; [vm_refl|]. split; [vm_refl|]. split; [vm_refl|]. vm_refl.
Qed.

Lemma stored_a_wf : key_wf key_a /\ cached_wf sample_cached.
Proof. split; split; try (vm_compute; intuition congruence). repeat constructor. Qed.

Lemma restart_keeps_genuine_witness :
  match second_start with
  | (_, Ok (st, _, _)) =>
    forall k v d, moka_entries (st_cache st) !! k = Some (v, d) -> genuine k v
  | (_, Err _) => False
  end.
Proof.
  destruct second_start as [fs' [[[st db] addr]|e]] eqn:E.
  - refine (proj2 (restart_keeps_genuine (ML := MemCache.memcache_laws) (RL := MemDb.memdb_laws)
      ∅ [Item (key_a, sample_cached); Tick] second_env (str "config.toml") first_start.1 fs' st db addr _ _ _ E)).
    + by intros kb vb Hk.
    + intros k v Hin. apply list_elem_of_singleton in Hin as [= -> ->].
      split; [apply stored_a_genuine|apply stored_a_wf].
    + vm_refl.
  - apply (f_equal (fun x => is_ok x.2)) in E. vm_compute in E. congruence.
Defined.
End Witnesses.
