(* ===== verification/Listen.v ===== *)
(** * Opening the sockets ([src/dns.rs], [src/web.rs], the end of [main])

    The listeners are opened by a sequence of socket calls, any of which may
    fail.  The calls are recorded in the order they are made, and a script says
    which fail; what the kernel does with the sockets is outside the model. *)

From S2P Require Import Prelude RustStr NetAddr Fs Config Blocklist Hickory Cache Upstream Qlog Stats State Dns Main.

Inductive SockDomain := DomainIpv4 | DomainIpv6.

(** The calls of [socket2] and [tokio]. *)
Inductive SockCall :=
| SocketNew (d : SockDomain)
| SetReuseAddress
| SetReusePort
| SetNonblocking
| SocketBind (addr : SocketAddr)
| FromStd
| TcpBind (addr : SocketAddr).

(** The script of failures, the calls made so far, and what has been spawned:
    the UDP workers, the TCP accept loop, the purge task, the web server. *)
Record Sockets := mk_sockets {
  sk_script : list bool;      (* [true]: the next call fails *)
  sk_calls : list SockCall;
  sk_udp : list SocketAddr;
  sk_tcp : option SocketAddr;
  sk_purge : option Z;
  sk_web : option SocketAddr;
}.

Definition sock_call (c : SockCall) : io Sockets error unit := fun s =>
  let s' := mk_sockets (tail (sk_script s)) (sk_calls s ++ [c]) (sk_udp s) (sk_tcp s) (sk_purge s) (sk_web s) in
  (s', if default false (head (sk_script s)) then Err Io else Ok tt).

(** [tokio::spawn] of a worker, of the accept loop, of the purge task, and the
    web server once it accepts. *)
Definition spawn_worker (a : SocketAddr) : io Sockets error unit := fun s =>
  (mk_sockets (sk_script s) (sk_calls s) (sk_udp s ++ [a]) (sk_tcp s) (sk_purge s) (sk_web s), Ok tt).
Definition spawn_accept (a : SocketAddr) : io Sockets error unit := fun s =>
  (mk_sockets (sk_script s) (sk_calls s) (sk_udp s) (Some a) (sk_purge s) (sk_web s), Ok tt).
Definition spawn_purge (secs : Z) : io Sockets error unit := fun s =>
  (mk_sockets (sk_script s) (sk_calls s) (sk_udp s) (sk_tcp s) (Some secs) (sk_web s), Ok tt).
Definition accept_web (a : SocketAddr) : io Sockets error unit := fun s =>
  (mk_sockets (sk_script s) (sk_calls s) (sk_udp s) (sk_tcp s) (sk_purge s) (Some a), Ok tt).

(** [reuseport_udp]. *)
Definition sock_domain (addr : SocketAddr) : SockDomain :=
  if is_ipv4 addr then DomainIpv4 else DomainIpv6.

Definition reuseport_udp (addr : SocketAddr) : io Sockets error unit :=
  _ ← sock_call (SocketNew (sock_domain addr));
  _ ← sock_call SetReuseAddress;
  _ ← sock_call SetReusePort;
  _ ← sock_call SetNonblocking;
  _ ← sock_call (SocketBind addr);
  sock_call FromStd.

(** The loop of [spawn_udp]: the workers spawned before a failure stay. *)
Fixpoint spawn_workers (n : nat) (addr : SocketAddr) : io Sockets error unit :=
  match n with
  | O => mret tt
  | S n' =>
    _ ← reuseport_udp addr;
    _ ← spawn_worker addr;
    spawn_workers n' addr
  end.

Definition spawn_udp (addr : SocketAddr) (workers : Z) (parallelism : option Z) : io Sockets error unit :=
  spawn_workers (Z.to_nat (worker_count workers parallelism)) addr.

(** [spawn_tcp]. *)
Definition spawn_tcp (addr : SocketAddr) : io Sockets error unit :=
  _ ← sock_call (TcpBind addr);
  spawn_accept addr.

(** [web::serve], up to the accept loop of [axum]. *)
Definition serve (cfg : WebConfig) : io Sockets error unit :=
  addr ← lift (ok_or (parse_sockaddr (web_bind cfg)) InvalidData);
  _ ← sock_call (TcpBind addr);
  accept_web addr.

(** A spawned task whose error is only logged. *)
Definition detached {W E A} (f : io W E A) : io W E unit := fun w => ((f w).1, Ok tt).

(** The end of [main], from the listeners on. *)
Definition listen (cfg : Config) (addr : SocketAddr) (parallelism : option Z) : io Sockets error unit :=
  _ ← spawn_udp addr (workers (cfg_dns cfg)) parallelism;
  _ ← spawn_tcp addr;
  _ ← spawn_purge (purge_period (cfg_cache cfg));
  detached (serve (cfg_web cfg)).

(** The purge task: the first tick passes, each later one purges; a failed
    purge is only logged. *)
Definition purge_task `{R : Redb} (ticks : list Z) (db : Database) : Database :=
  foldl (fun db now => (purge_expired now db).1) db (tail ticks).

(** Every purge of such a run succeeds. *)
Fixpoint purges_ok `{R : Redb} (times : list Z) (db : Database) : bool :=
  match times with
  | [] => true
  | now :: times' => is_ok (purge_expired now db).2 && purges_ok times' (purge_expired now db).1
  end.

(** ** Lemmas *)

(** The calls that open one worker's socket. *)
Definition udp_calls (addr : SocketAddr) : list SockCall :=
  [SocketNew (sock_domain addr); SetReuseAddress; SetReusePort; SetNonblocking; SocketBind addr; FromStd].

Lemma sock_call_run c s s' r :
  sock_call c s = (s', r) ->
  sk_calls s' = sk_calls s ++ [c] /\ sk_udp s' = sk_udp s /\ sk_tcp s' = sk_tcp s /\
  sk_purge s' = sk_purge s /\ sk_web s' = sk_web s.
Proof. unfold sock_call. by intros [= <- _]. Qed.

Lemma reuseport_udp_run addr s s' r :
  reuseport_udp addr s = (s', r) ->
  sk_udp s' = sk_udp s /\ sk_tcp s' = sk_tcp s /\ sk_purge s' = sk_purge s /\ sk_web s' = sk_web s /\
  exists p, sk_calls s' = sk_calls s ++ p /\ p `prefix_of` udp_calls addr /\ (is_ok r = true -> p = udp_calls addr).
Proof.
  unfold reuseport_udp. cbv [mbind io_bind sock_call]. cbn [sk_script sk_calls sk_udp sk_tcp sk_purge sk_web].
  repeat (match goal with |- context [if default false (head ?l) then _ else _] =>
    destruct (default false (head l)) end; cbv beta iota);
    intros [= <- <-]; cbn [sk_calls sk_udp sk_tcp sk_purge sk_web]; rewrite <-?(assoc_L (++));
    (repeat (split; [done|])); eexists; (split; [reflexivity|]); (split; [|done]); by eexists.
Qed.

Lemma spawn_workers_run n addr s s' r :
  spawn_workers n addr s = (s', r) ->
  sk_tcp s' = sk_tcp s /\ sk_purge s' = sk_purge s /\ sk_web s' = sk_web s /\
  exists k p, sk_udp s' = sk_udp s ++ replicate k addr /\
    sk_calls s' = sk_calls s ++ concat (replicate k (udp_calls addr)) ++ p /\
    match r with
    | Ok _ => k = n /\ p = []
    | Err _ => (k < n)%nat /\ p `prefix_of` udp_calls addr
    end.
Proof.
  revert s. induction n as [|n IH]; intros s.
  { intros [= <- <-]. do 3 (split; [done|]). exists 0%nat, []. by rewrite !app_nil_r. }
  cbn [spawn_workers]. cbv [mbind io_bind]. destruct (reuseport_udp addr s) as [s1 r1] eqn:E1.
  destruct (reuseport_udp_run _ _ _ _ E1) as (Hu & Ht & Hp & Hw & q & Hc & Hq & Hok).
  destruct r1 as [[]|e].
  - cbn [spawn_worker]. intros H. apply IH in H as (Ht' & Hp' & Hw' & k & p & Hu' & Hc' & Hr).
    cbn [sk_udp sk_tcp sk_purge sk_web sk_calls] in *. rewrite Ht', Hp', Hw'. do 3 (split; [done|]).
    exists (S k), p. rewrite Hu', Hc', Hu, Hc, (Hok eq_refl). cbn [replicate concat].
    rewrite <-!(assoc_L (++)). do 2 (split; [done|]). destruct r; destruct Hr; split; [lia|done|lia|done].
  - intros [= <- <-]. do 3 (split; [done|]). exists 0%nat, q. rewrite Hu, app_nil_r. do 2 (split; [done|]).
    split; [lia|done].
Qed.

(** None of the next [n] calls fails. *)
Definition clear (n : nat) (script : list bool) : bool := forallb negb (take n script).

Lemma clear_S n script :
  clear (S n) script = negb (default false (head script)) && clear n (tail script).
Proof. unfold clear. destruct script; [|done]. by destruct n. Qed.

Lemma clear_add n m script : clear (n + m) script = clear n script && clear m (drop n script).
Proof.
  unfold clear. revert script. induction n as [|n IH]; intros script; [by destruct script|].
  destruct script as [|b l]; [by destruct m|]. cbn [Nat.add take drop forallb]. by rewrite IH, andb_assoc.
Qed.

(** [f] makes [n] calls, stops at the first that fails, and else succeeds. *)
Definition takes {A} (n : nat) (f : io Sockets error A) : Prop := forall s,
  is_ok (f s).2 = clear n (sk_script s) /\
  (is_ok (f s).2 = true -> sk_script (f s).1 = drop n (sk_script s)).

Lemma takes_call c : takes 1 (sock_call c).
Proof. intros s. unfold sock_call. cbn [fst snd sk_script]. rewrite clear_S. by destruct (sk_script s) as [|[] l]. Qed.

Lemma takes_bind {A B} n m (f : io Sockets error A) (g : A -> io Sockets error B) :
  takes n f -> (forall a, takes m (g a)) -> takes (n + m) (mbind g f).
Proof.
  intros Hf Hg s. destruct (Hf s) as [H1 H2]. cbv [mbind io_bind]. rewrite clear_add, <-H1, <-drop_drop.
  destruct (f s) as [s1 [a|e]]; cbn [fst snd is_ok andb] in *; [|done]. rewrite <-(H2 eq_refl). apply Hg.
Qed.

Lemma takes_none {A} (f : io Sockets error A) :
  (forall s, is_ok (f s).2 = true /\ sk_script (f s).1 = sk_script s) -> takes 0 f.
Proof. intros Hf s. by destruct (Hf s) as [-> ->]. Qed.

Lemma takes_reuseport_udp addr : takes 6 (reuseport_udp addr).
Proof. unfold reuseport_udp. do 5 (apply (takes_bind 1); [apply takes_call|intros []]). apply takes_call. Qed.

Lemma takes_spawn_workers n addr : takes (n * 6) (spawn_workers n addr).
Proof.
  induction n as [|n IH]; [by apply takes_none|]. cbn [spawn_workers Nat.mul].
  apply takes_bind; [apply takes_reuseport_udp|intros []]. apply (takes_bind 0); [by apply takes_none|by intros []].
Qed.

(** [main] goes on exactly if no call of the DNS listeners failed. *)
Lemma listen_ok cfg addr parallelism s :
  is_ok (listen cfg addr parallelism s).2 =
  clear (Z.to_nat (worker_count (workers (cfg_dns cfg)) parallelism) * 6 + 1) (sk_script s).
Proof.
  unfold listen, spawn_udp, spawn_tcp. set (n := Z.to_nat _).
  destruct (takes_spawn_workers n addr s) as [H1 H2]. cbv [mbind io_bind]. rewrite clear_add, <-H1.
  destruct (spawn_workers n addr s) as [s1 [[]|e]]; [|done]. cbn [fst snd is_ok andb] in *. rewrite <-(H2 eq_refl).
  destruct (takes_call (TcpBind addr) s1) as [<- _]. by destruct (sock_call (TcpBind addr) s1) as [s2 [[]|e]].
Qed.

(** ** Properties *)

(** C29. The listeners come up together or not at all: [main] goes on exactly if
    none of the socket calls of the DNS listeners failed.  On a success there is
    one UDP worker per core (or the configured number), all on the DNS address,
    each on a socket of its own that was made shareable and non-blocking before
    it was bound; TCP accepts on the same address, the purge task runs at most
    every 30 seconds, and the web server is up exactly if its own address could
    be opened.  On a failure of a DNS socket [main] returns the error, and
    neither TCP, nor the purge task, nor the web server has been started. *)
Theorem listen_spec cfg addr parallelism script s r :
  listen cfg addr parallelism (mk_sockets script [] [] None None None) = (s, r) ->
  let n := Z.to_nat (worker_count (workers (cfg_dns cfg)) parallelism) in
  is_ok r = clear (n * 6 + 1) script /\
  match r with
  | Ok _ =>
    sk_udp s = replicate n addr /\ sk_tcp s = Some addr /\
    sk_purge s = Some (purge_period (cfg_cache cfg)) /\ 30 <= purge_period (cfg_cache cfg) /\
    (forall a, sk_web s = Some a -> parse_sockaddr (web_bind (cfg_web cfg)) = Some a) /\
    exists rest, sk_calls s = concat (replicate n (udp_calls addr)) ++ TcpBind addr :: rest
  | Err _ => sk_tcp s = None /\ sk_purge s = None /\ sk_web s = None
  end.
Proof.
  intros H n. split.
  { pose proof (listen_ok cfg addr parallelism (mk_sockets script [] [] None None None)) as Hok. by rewrite H in Hok. }
  unfold listen in H. cbv [mbind io_bind] in H. unfold spawn_udp in H. fold n in H.
  destruct (spawn_workers n addr _) as [s1 r1] eqn:E1.
  destruct (spawn_workers_run _ _ _ _ _ E1) as (Ht & Hp & Hw & k & p & Hu & Hc & Hr).
  cbn [sk_udp sk_tcp sk_purge sk_web sk_calls app] in *. destruct r1 as [[]|e]; [|by injection H as <- <-].
  destruct Hr as [-> ->]. rewrite app_nil_r in Hc. unfold spawn_tcp in H. cbv [mbind io_bind] in H.
  destruct (sock_call (TcpBind addr) s1) as [s2 r2] eqn:E2.
  destruct (sock_call_run _ _ _ _ E2) as (Hc2 & Hu2 & Ht2 & Hp2 & Hw2).
  destruct r2 as [[]|e]; [|injection H as <- <-; by rewrite Ht2, Hp2, Hw2].
  cbn [spawn_accept spawn_purge] in H. unfold detached, serve in H. cbv [mbind io_bind lift ok_or] in H.
  cbn [sk_script sk_calls sk_udp sk_tcp sk_purge sk_web] in H.
  destruct (parse_sockaddr (web_bind (cfg_web cfg))) as [w|] eqn:Ew; [|injection H as <- <-].
  2: { cbn. rewrite Hu2, Hu, Hw2, Hw, Hc2, Hc. split_and!; try done; [unfold purge_period; lia|by eexists]. }
  destruct (sock_call (TcpBind w) _) as [s3 r3] eqn:E3.
  destruct (sock_call_run _ _ _ _ E3) as (Hc3 & Hu3 & Ht3 & Hp3 & Hw3).
  cbn [sk_script sk_calls sk_udp sk_tcp sk_purge sk_web] in *.
  destruct r3 as [[]|e]; injection H as <- <-; cbn [accept_web fst sk_calls sk_udp sk_tcp sk_purge sk_web];
    rewrite Hu3, Hu2, Hu, Ht3, Hp3, Hc3, Hc2, Hc, <-(assoc_L (++)); split_and!;
    try done; try (unfold purge_period; lia); try by eexists.
  intros a. by rewrite Hw3, Hw2, Hw.
Qed.

(** The purge task never deletes a row that is in date at its ticks, invents
    none, and, when its transactions succeed, leaves none that had expired by
    the last tick. *)
Theorem purge_task_rows `{R : Redb} {RL : RedbLaws R} ticks db kb vb :
  (rows (purge_task ticks db) !! kb = Some vb -> rows db !! kb = Some vb) /\
  (rows db !! kb = Some vb -> Forall (fun now => row_expired now vb = false) (tail ticks) ->
   rows (purge_task ticks db) !! kb = Some vb) /\
  (purges_ok (tail ticks) db = true ->
   Exists (fun now => row_expired now vb = true) (tail ticks) -> rows (purge_task ticks db) !! kb <> Some vb).
Proof.
  unfold purge_task. generalize (tail ticks) as l. clear ticks.
  assert (forall now db, rows (purge_expired now db).1 !! kb = Some vb -> rows db !! kb = Some vb) as Hsub.
  { intros now db0. destruct (purge_expired now db0) as [db1 r] eqn:E. cbn [fst].
    rewrite (purge_expired_rows _ _ _ _ E kb). destruct (is_ok r); [|done].
    destruct (rows db0 !! kb) as [v|]; [|done]. cbn [mbind option_bind]. by destruct (row_expired now v). }
  intros l. revert db. induction l as [|now l IH]; intros db; cbn [foldl purges_ok].
  { split; [done|]. split; [done|]. intros _ H. by apply Exists_nil in H. }
  destruct (IH (purge_expired now db).1) as (H1 & H2 & H3). split; [intros H; exact (Hsub _ _ (H1 H))|]. split.
  - intros Hrow [Hn Hl]%Forall_cons. apply H2; [|done].
    destruct (purge_expired now db) as [db1 r] eqn:E. cbn [fst].
    rewrite (purge_expired_rows _ _ _ _ E kb), Hrow. cbn [mbind option_bind]. rewrite Hn. by destruct (is_ok r).
  - intros [Hr Hok]%andb_prop [Hn|Hl]%Exists_cons; [|by apply H3]. intros Hin%H1. destruct (purge_expired now db) as [db1 r] eqn:E. cbn [fst snd] in *.
    rewrite (purge_expired_rows _ _ _ _ E kb), Hr in Hin. destruct (rows db !! kb) as [v|]; [|done].
    cbn [mbind option_bind] in Hin. destruct (row_expired now v) eqn:Ev; [done|]. congruence.
Qed.

(** ** Witnesses *)

Module Samples.
Definition dns_addr : SocketAddr := SockV4 (ipv4 [127; 0; 0; 1]) 5353.
(** Six calls per worker, then TCP, then the web server. *)
Definition opened : Sockets * result error unit :=
  listen default_config dns_addr (Some 2) (mk_sockets [] [] [] None None None).
(** The second worker's [bind] fails. *)
Definition refused : Sockets * result error unit :=
  listen default_config dns_addr (Some 2) (mk_sockets (replicate 10 false ++ [true]) [] [] None None None).
Definition old_rows : gmap bytes bytes := {[enc_key Cache.key_a := enc_val Cache.old_a]}.
End Samples.

Lemma listen_spec_witness :
  sk_udp Samples.opened.1 = replicate 2 Samples.dns_addr /\ is_ok Samples.refused.2 = false.
Proof.
  split; [|by vm_compute].
  assert (listen default_config Samples.dns_addr (Some 2) (mk_sockets [] [] [] None None None) =
    (Samples.opened.1, Ok tt)) as H by (vm_compute; reflexivity).
  exact (proj1 (proj2 (listen_spec _ _ _ _ _ _ H))).
Defined.

Lemma purge_task_rows_witness :
  rows (Redb := MemDb.redb) (purge_task (R := MemDb.redb) [0; 1500] Samples.old_rows) !! enc_key Cache.key_a <>
    Some (enc_val Cache.old_a).
Proof.
  apply (purge_task_rows (R := MemDb.redb) (RL := MemDb.memdb_laws)).
  - vm_compute. reflexivity.
  - apply Exists_cons_hd. vm_compute. reflexivity.
Defined.
