(* ===== verification/Admin.v ===== *)
(** * Overlapping admin calls ([src/web.rs], [src/config.rs])

    The handlers of [Web] run from their request to their reply.  Nothing
    serialises them: two updates may run on two threads.  Here a call is cut
    where it touches the file system or the shared state, and the calls
    interleave.  A call on its own is the handler of [Web]; two at once can
    leave the file and the running state apart. *)

From S2P Require Import Prelude RustStr Fmt NetAddr Fs Config Blocklist Hickory Cache Upstream Qlog Stats State Dns Web Main.

Inductive AdminCall := CallConfig (body : ConfigUpdate) | CallBlocklist (text : rstring).

Inductive AdminReply :=
| ReplyConfig (v : ConfigView)
| ReplyBlocklist (r : BlocklistResponse)
| ReplyError (e : error).

(** What a call stores once its file is written. *)
Inductive Commit := CommitConfig (cfg : Config) | CommitBlocklist (bl : Blocklist).

(** Where a call is: received; validated, about to write its temporary file;
    about to rename it; about to store; (configuration only) the pool is set;
    the configuration is stored; replied. *)
Inductive AdminPhase :=
| AdReceived (call : AdminCall)
| AdWriting (path : rstring) (data : bytes) (k : Commit)
| AdRenaming (path : rstring) (k : Commit)
| AdCommit (k : Commit)
| AdPooled (cfg : Config)
| AdStored
| AdReplied (r : AdminReply).

Definition tmp_of (path : rstring) : rstring := with_extension (str "tmp") path.

(** [save] adds context to an I/O error, [set_blocklist] does not. *)
Definition save_error (path : rstring) (k : Commit) (e : error) : AdminReply :=
  ReplyError (match k with
              | CommitConfig _ => Context (str "writing config " ++ path) e
              | CommitBlocklist _ => e
              end).

Section Admin.
Context `{U : Unicode, MK : Moka, MP : Mpsc, SM : Semaphores, T : Toml}.

(** The part of a handler before its first I/O: load, validate, serialise. *)
Definition receive (st : AppState) (call : AdminCall) : AdminPhase :=
  match call with
  | CallConfig body =>
    match apply_update (st_config st) body with
    | Err e => AdReplied (ReplyError e)
    | Ok cfg =>
      match toml_to_string cfg with
      | None => AdReplied (ReplyError (Context (str "serializing config") InvalidData))
      | Some text => AdWriting (st_config_path st) (as_bytes text) (CommitConfig cfg)
      end
    end
  | CallBlocklist text =>
    let bl := from_text text in
    AdWriting (blocklist_path (cfg_web (st_config st))) (as_bytes (to_file_text bl)) (CommitBlocklist bl)
  end.

(** One step of a call. *)
Definition admin_poll (ph : AdminPhase) (w : AppState * Fs) : (AppState * Fs) * AdminPhase :=
  let '(st, fs) := w in
  match ph with
  | AdReceived call => (w, receive st call)
  | AdWriting path data k =>
    match fs_write (tmp_of path) data fs with
    | (fs', Ok _) => ((st, fs'), AdRenaming path k)
    | (fs', Err e) => ((st, fs'), AdReplied (save_error path k e))
    end
  | AdRenaming path k =>
    match fs_rename (tmp_of path) path fs with
    | (fs', Ok _) => ((st, fs'), AdCommit k)
    | (fs', Err e) => ((st, fs'), AdReplied (save_error path k e))
    end
  | AdCommit (CommitBlocklist bl) =>
    ((store_blocklist bl st, fs), AdReplied (ReplyBlocklist (blocklist_response bl)))
  | AdCommit (CommitConfig cfg) =>
    ((store_upstream (set_servers (upstream_addrs cfg) (st_upstream st)) st, fs), AdPooled cfg)
  | AdPooled cfg => ((store_config cfg st, fs), AdStored)
  | AdStored => (w, AdReplied (ReplyConfig (config_view (st_config st))))
  | AdReplied r => (w, AdReplied r)
  end.

(** Calls in progress on the shared state and files. *)
Record Admin := mk_admin { ad_world : AppState * Fs; ad_calls : list AdminPhase }.

Definition admin_turn (a : Admin) (i : nat) : Admin :=
  match ad_calls a !! i with
  | Some ph =>
    let '(w, ph') := admin_poll ph (ad_world a) in mk_admin w (<[i := ph']> (ad_calls a))
  | None => a
  end.

Inductive admin_step (a : Admin) : Admin -> Prop :=
| AdminArrives call : admin_step a (mk_admin (ad_world a) (ad_calls a ++ [AdReceived call]))
| AdminTurns i : admin_step a (admin_turn a i).

(** The turns of a schedule. *)
Definition admin_schedule (l : list nat) (a : Admin) : Admin := foldl admin_turn a l.

(** A call that nothing disturbs, for as many steps as any call takes. *)
Definition admin_alone (call : AdminCall) (w : AppState * Fs) : (AppState * Fs) * AdminPhase :=
  Nat.iter 6 (fun '(w, ph) => admin_poll ph w) (w, AdReceived call).

Definition config_reply (r : result error ConfigView) : AdminReply :=
  match r with Ok v => ReplyConfig v | Err e => ReplyError e end.
Definition blocklist_reply (r : result error BlocklistResponse) : AdminReply :=
  match r with Ok v => ReplyBlocklist v | Err e => ReplyError e end.

(** ** Properties *)

(** A call that nothing disturbs is the handler of [Web]: the same replies,
    state, files and errors, for every script of faults. *)
Lemma admin_alone_handler body text w :
  admin_alone (CallConfig body) w =
    (let '(w', r) := set_config body w in (w', AdReplied (config_reply r))) /\
  admin_alone (CallBlocklist text) w =
    (let '(w', r) := set_blocklist text w in (w', AdReplied (blocklist_reply r))).
Proof.
  destruct w as [st fs]. rewrite set_config_run, set_blocklist_run. unfold admin_alone. split.
  - cbn [Nat.iter nat_rect admin_poll receive]. unfold save.
    destruct (apply_update (st_config st) body) as [cfg|e]; [|done].
    cbv [mbind io_bind lift ok_or with_context]. destruct (toml_to_string cfg) as [t|]; [|done].
    cbn [admin_poll]. unfold write_atomic. cbv [mbind io_bind]. fold (tmp_of (st_config_path st)).
    destruct (fs_write _ _ fs) as [fs1 [[]|e]]; [|done]. cbn [admin_poll].
    destruct (fs_rename _ _ fs1) as [fs2 [[]|e]]; done.
  - cbn [Nat.iter nat_rect admin_poll receive]. cbv zeta. unfold write_atomic. cbv [mbind io_bind].
    fold (tmp_of (blocklist_path (cfg_web (st_config st)))).
    destruct (fs_write _ _ fs) as [fs1 [[]|e]]; [|done]. cbn [admin_poll].
    destruct (fs_rename _ _ fs1) as [fs2 [[]|e]]; done.
Qed.

Section Overlap.
Context (st : AppState) (bodyA bodyB : ConfigUpdate) (cfgA cfgB : Config) (textA textB : rstring).
Context (HA : apply_update (st_config st) bodyA = Ok cfgA) (HB : apply_update (st_config st) bodyB = Ok cfgB).
Context (HtA : toml_to_string cfgA = Some textA) (HtB : toml_to_string cfgB = Some textB).

(** Both calls are received and validated against the same configuration. *)
Lemma both_received m fl :
  admin_schedule [0; 1]%nat (mk_admin (st, mk_fs m fl) [AdReceived (CallConfig bodyA); AdReceived (CallConfig bodyB)]) =
  mk_admin (st, mk_fs m fl)
    [AdWriting (st_config_path st) (as_bytes textA) (CommitConfig cfgA);
     AdWriting (st_config_path st) (as_bytes textB) (CommitConfig cfgB)].
Proof using HA HB HtA HtB.
  unfold admin_schedule. cbn [foldl admin_turn ad_calls ad_world lookup list_lookup admin_poll receive
    insert list_insert]. by rewrite HA, HB, HtA, HtB.
Qed.

(** C26. Overlapping updates split the file from the running state: with no
    fault at all, two accepted updates can end with one configuration in the
    file, the other in force, and both clients told that the latter is the
    current one; the next restart silently switches to the former. *)
Theorem overlap_splits_config {TL : TomlLaws T} m :
  tmp_of (st_config_path st) <> st_config_path st ->
  let a := admin_schedule ([0; 1] ++ [0; 0; 1; 1; 1; 1; 0; 0; 0; 1])%nat
    (mk_admin (st, mk_fs m []) [AdReceived (CallConfig bodyA); AdReceived (CallConfig bodyB)]) in
  ad_calls a = [AdReplied (ReplyConfig (config_view cfgA)); AdReplied (ReplyConfig (config_view cfgA))] /\
  st_config (ad_world a).1 = cfgA /\
  holds (st_config_path st) cfgB (ad_world a).2.
Proof using HA HB HtA HtB.
  intros Hne a. unfold a, admin_schedule. rewrite foldl_app. fold (admin_schedule [0; 1]%nat).
  change (foldl admin_turn ?x [0; 1]%nat) with (admin_schedule [0; 1]%nat x). rewrite both_received.
  set (path := st_config_path st) in *. set (tmp := tmp_of path) in *.
  set (m1 := <[path := as_bytes textA]> (delete tmp (<[tmp := as_bytes textA]> m))).
  set (m2 := <[path := as_bytes textB]> (delete tmp (<[tmp := as_bytes textB]> m1))).
  assert (forall k ph, admin_poll (AdWriting path k ph) (st, mk_fs m []) =
    ((st, mk_fs (<[tmp := k]> m) []), AdRenaming path ph)) as W1 by done.
  assert (admin_poll (AdRenaming path (CommitConfig cfgA)) (st, mk_fs (<[tmp := as_bytes textA]> m) []) =
    ((st, mk_fs m1 []), AdCommit (CommitConfig cfgA))) as R1.
  { unfold admin_poll, fs_rename. cbn. fold tmp. by rewrite lookup_insert_eq. }
  assert (admin_poll (AdRenaming path (CommitConfig cfgB)) (st, mk_fs (<[tmp := as_bytes textB]> m1) []) =
    ((st, mk_fs m2 []), AdCommit (CommitConfig cfgB))) as R2.
  { unfold admin_poll, fs_rename. cbn. fold tmp. by rewrite lookup_insert_eq. }
  cbn [foldl admin_turn ad_calls ad_world lookup list_lookup insert list_insert].
  rewrite W1. cbn [admin_turn ad_calls ad_world lookup list_lookup insert list_insert]. rewrite R1.
  cbn [admin_turn ad_calls ad_world lookup list_lookup insert list_insert].
  change (admin_poll (AdWriting path (as_bytes textB) (CommitConfig cfgB)) (st, mk_fs m1 []))
    with ((st, mk_fs (<[tmp := as_bytes textB]> m1) []), AdRenaming path (CommitConfig cfgB)).
  cbn [admin_turn ad_calls ad_world lookup list_lookup insert list_insert]. rewrite R2.
  cbn [admin_turn ad_calls ad_world lookup list_lookup insert list_insert admin_poll].
  split; [done|]. split; [done|]. cbn [snd]. exists (as_bytes textB), textB. unfold m2. cbn [files].
  split; [apply lookup_insert_eq|]. split; [apply from_utf8_as_bytes; by eapply toml_valid|by apply toml_roundtrip].
Qed.

(** A failing update damages a concurrent one: B has written its temporary
    file, A's write to the same file is cut short, and B renames what A left.
    A is told that its update failed; B is told that it succeeded; the
    configuration file is a prefix of A's text. *)
Theorem overlap_tears_file m n :
  tmp_of (st_config_path st) <> st_config_path st ->
  let a := admin_schedule ([0; 1] ++ [1; 0; 1; 1; 1; 1])%nat
    (mk_admin (st, mk_fs m [NoFault; Torn n; NoFault])
       [AdReceived (CallConfig bodyA); AdReceived (CallConfig bodyB)]) in
  ad_calls a = [AdReplied (save_error (st_config_path st) (CommitConfig cfgA) Io);
                AdReplied (ReplyConfig (config_view cfgB))] /\
  st_config (ad_world a).1 = cfgB /\
  files (ad_world a).2 !! st_config_path st = Some (take n (as_bytes textA)).
Proof using HA HB HtA HtB.
  intros Hne a. unfold a, admin_schedule. rewrite foldl_app.
  change (foldl admin_turn ?x [0; 1]%nat) with (admin_schedule [0; 1]%nat x). rewrite both_received.
  set (path := st_config_path st) in *. set (tmp := tmp_of path) in *.
  set (m1 := <[tmp := take n (as_bytes textA)]> (<[tmp := as_bytes textB]> m)).
  assert (admin_poll (AdRenaming path (CommitConfig cfgB)) (st, mk_fs m1 [NoFault]) =
    ((st, mk_fs (<[path := take n (as_bytes textA)]> (delete tmp m1)) []), AdCommit (CommitConfig cfgB))) as R.
  { unfold admin_poll, fs_rename. cbn. fold tmp. unfold m1. by rewrite lookup_insert_eq. }
  cbn [foldl admin_turn ad_calls ad_world lookup list_lookup insert list_insert].
  change (admin_poll (AdWriting path (as_bytes textB) (CommitConfig cfgB)) (st, mk_fs m [NoFault; Torn n; NoFault]))
    with ((st, mk_fs (<[tmp := as_bytes textB]> m) [Torn n; NoFault]), AdRenaming path (CommitConfig cfgB)).
  cbn [admin_turn ad_calls ad_world lookup list_lookup insert list_insert].
  change (admin_poll (AdWriting path (as_bytes textA) (CommitConfig cfgA))
      (st, mk_fs (<[tmp := as_bytes textB]> m) [Torn n; NoFault]))
    with ((st, mk_fs m1 [NoFault]), AdReplied (save_error path (CommitConfig cfgA) Io)).
  cbn [admin_turn ad_calls ad_world lookup list_lookup insert list_insert]. rewrite R.
  cbn [admin_turn ad_calls ad_world lookup list_lookup insert list_insert admin_poll].
  split; [done|]. split; [done|]. cbn [snd files]. apply lookup_insert_eq.
Qed.
End Overlap.

(** ** What holds without torn writes *)

(** The bytes are a complete configuration. *)
Definition complete (d : bytes) : Prop := exists t cfg, from_utf8 d = Some t /\ toml_from_str t = Some cfg.

(** The blocklist and its temporary file are other files. *)
Record apart (path bl : rstring) : Prop := {
  ap_tmp : tmp_of path <> path;
  ap_bl : bl <> path /\ bl <> tmp_of path;
  ap_bl_tmp : tmp_of bl <> path /\ tmp_of bl <> tmp_of path;
}.

(** A call writes complete configurations to the configuration file, and
    blocklists to the blocklist. *)
Definition call_ok (path bl : rstring) (ph : AdminPhase) : Prop :=
  match ph with
  | AdWriting p d (CommitConfig cfg) => p = path /\ complete d /\ blocklist_path (cfg_web cfg) = bl
  | AdRenaming p (CommitConfig cfg) => p = path /\ blocklist_path (cfg_web cfg) = bl
  | AdCommit (CommitConfig cfg) | AdPooled cfg => blocklist_path (cfg_web cfg) = bl
  | AdWriting p _ (CommitBlocklist _) | AdRenaming p (CommitBlocklist _) => p = bl
  | _ => True
  end.

Definition no_torn (fs : Fs) : Prop := Forall (fun f => f = NoFault \/ f = Refused) (faults fs).

(** Between two steps. *)
Record world_ok (path bl : rstring) (w : AppState * Fs) : Prop := {
  wo_faults : no_torn w.2;
  wo_file : exists d, files w.2 !! path = Some d /\ complete d;
  wo_tmp : forall d, files w.2 !! tmp_of path = Some d -> complete d;
  wo_path : st_config_path w.1 = path;
  wo_bl : blocklist_path (cfg_web (st_config w.1)) = bl;
}.

Lemma no_torn_tail fs m : no_torn fs -> no_torn (set_files m fs).
Proof. unfold no_torn, set_files. cbn. destruct (faults fs); [done|]. by intros [_ ?]%Forall_cons. Qed.

Lemma no_torn_next fs : no_torn fs -> next_fault fs = NoFault \/ next_fault fs = Refused.
Proof. unfold no_torn, next_fault. destruct (faults fs); [by left|]. by intros [? _]%Forall_cons. Qed.

Lemma receive_ok {TL : TomlLaws T} path bl w call :
  world_ok path bl w -> call_ok path bl (receive w.1 call).
Proof.
  intros [_ _ _ Hp Hb]. destruct call as [body|text]; cbn [receive]; [|done].
  destruct (apply_update _ _) as [cfg|e] eqn:Eu; [|done].
  destruct (toml_to_string cfg) as [t|] eqn:Et; [|done].
  apply apply_update_Ok in Eu as (_ & _ & v4 & v6 & _ & _ & ->). split; [done|]. split; [|done].
  exists t. eexists. split; [apply from_utf8_as_bytes; by eapply toml_valid|by apply toml_roundtrip].
Qed.

(** Writing the temporary file, refused or not. *)
Lemma write_ok path bl st fs p d fs' r k :
  apart path bl -> world_ok path bl (st, fs) -> call_ok path bl (AdWriting p d k) ->
  fs_write (tmp_of p) d fs = (fs', r) -> world_ok path bl (st, fs').
Proof.
  intros [H1 [H2 H3] [H4 H5]] [Hf (d0 & Hd0 & Hc) Ht Hp Hb] Hk. unfold fs_write.
  destruct (no_torn_next fs Hf) as [-> | ->]; intros [= <- _]; (split; [by apply no_torn_tail|..]); try done;
    cbn [snd files set_files]; eauto.
  - exists d0. split; [|done]. rewrite lookup_insert_ne; [done|].
    destruct k; cbn in Hk; [by destruct Hk as (-> & _)|by subst].
  - intros d'. destruct k as [cfg|b]; cbn in Hk.
    + destruct Hk as (-> & Hcd & _). rewrite lookup_insert_eq. by intros [= <-].
    + subst p. rewrite lookup_insert_ne by done. apply Ht.
Qed.

(** The rename moves a complete file or the blocklist. *)
Lemma rename_ok path bl st fs p fs' r k :
  apart path bl -> world_ok path bl (st, fs) -> call_ok path bl (AdRenaming p k) ->
  fs_rename (tmp_of p) p fs = (fs', r) -> world_ok path bl (st, fs').
Proof.
  intros [H1 [H2 H3] [H4 H5]] [Hf (d0 & Hd0 & Hc) Ht Hp Hb] Hk. unfold fs_rename.
  destruct (no_torn_next fs Hf) as [-> | ->]; [destruct (files fs !! tmp_of p) as [d|] eqn:Ed|];
    intros [= <- _]; (split; [by apply no_torn_tail|..]); try done; cbn [snd files set_files]; eauto.
  - destruct k as [cfg|b]; cbn in Hk.
    + destruct Hk as (-> & _). exists d. rewrite lookup_insert_eq. auto.
    + subst p. exists d0. by rewrite lookup_insert_ne, lookup_delete_ne.
  - intros d'. destruct k as [cfg|b]; cbn in Hk.
    + destruct Hk as (-> & _). by rewrite lookup_insert_ne, lookup_delete_eq.
    + subst p. rewrite lookup_insert_ne, lookup_delete_ne by done. apply Ht.
Qed.

Lemma poll_files_ok {TL : TomlLaws T} path bl w ph w' ph' :
  apart path bl -> world_ok path bl w -> call_ok path bl ph -> admin_poll ph w = (w', ph') ->
  world_ok path bl w' /\ call_ok path bl ph'.
Proof.
  intros Ha Hw Hc. pose proof Hw as [Hf Hd Ht Hp Hb]. destruct w as [st fs]. cbn [fst snd] in *.
  destruct ph as [call|p d k|p k|[cfg|b]|cfg| |r]; cbn [admin_poll]; try (intros [= <- <-]; by split).
  - intros [= <- <-]. split; [done|]. by apply (receive_ok path bl (st, fs)).
  - destruct (fs_write _ _ _) as [fs1 [[]|e]] eqn:Ew; intros [= <- <-];
      (split; [by eapply write_ok|]); [|done]. destruct k; [by destruct Hc as (? & _ & ?)|done].
  - destruct (fs_rename _ _ _) as [fs1 [[]|e]] eqn:Ew; intros [= <- <-];
      (split; [by eapply rename_ok|]); [|done]. destruct k; [by destruct Hc|done].
Qed.

(** C27. As long as no write is cut short, overlapping admin calls keep the
    configuration file complete: in every interleaving the file holds a
    configuration that parses, although not always the one in force. *)
Theorem overlap_keeps_file_complete {TL : TomlLaws T} st fs path bl a :
  apart path bl -> world_ok path bl (st, fs) -> rtc admin_step (mk_admin (st, fs) []) a ->
  exists cfg, holds path cfg (ad_world a).2.
Proof.
  intros Ha Hw Hr.
  assert (world_ok path bl (ad_world a) /\ Forall (call_ok path bl) (ad_calls a)) as [[_ (d & Hd & t & cfg & H) _ _ _] _].
  2: { exists cfg, d, t. auto. }
  assert (world_ok path bl (ad_world (mk_admin (st, fs) [])) /\
    Forall (call_ok path bl) (ad_calls (mk_admin (st, fs) []))) as H0 by done.
  revert H0. induction Hr as [|a1 a2 a3 Hstep _ IH]; [done|]. intros [H1 H2]. apply IH.
  destruct Hstep as [call|i].
  - split; [done|]. apply Forall_app. split; [done|]. by apply Forall_singleton.
  - unfold admin_turn. destruct (ad_calls a1 !! i) as [ph|] eqn:Ei; [|done].
    destruct (admin_poll ph (ad_world a1)) as [w' ph'] eqn:Ep.
    destruct (poll_files_ok _ _ _ _ _ _ Ha H1 (Forall_lookup_1 _ _ _ _ H2 Ei) Ep). split; [done|].
    by apply Forall_insert.
Qed.
End Admin.

(** ** Worked examples *)

Section Witnesses.
#[local] Existing Instance ascii_tables.
#[local] Existing Instance MemCache.moka.
#[local] Existing Instance MemSync.mpsc.
#[local] Existing Instance MemSync.sems.
#[local] Existing Instance digit_toml.

Definition update_to (server : rstring) : ConfigUpdate :=
  mk_config_update [server] 1000 50 8 (str "zero_ip") (str "0.0.0.0") (str "::").
Definition updated_to (server : rstring) : Config :=
  match apply_update default_config (update_to server) with Ok c => c | Err _ => default_config end.
Definition text_of (cfg : Config) : rstring := default [] (toml_to_string cfg).

Definition body1 : ConfigUpdate := update_to (str "9.9.9.9:53").
Definition body2 : ConfigUpdate := update_to (str "8.8.4.4:53").
Definition config1 : Config := updated_to (str "9.9.9.9:53").
Definition config2 : Config := updated_to (str "8.8.4.4:53").

Definition two_updates (fl : list fault) : Admin :=
  mk_admin (sample_state, mk_fs ∅ fl) [AdReceived (CallConfig body1); AdReceived (CallConfig body2)].
Definition split_run : Admin := admin_schedule ([0; 1] ++ [0; 0; 1; 1; 1; 1; 0; 0; 0; 1])%nat (two_updates []).
Definition torn_run : Admin :=
  admin_schedule ([0; 1] ++ [1; 0; 1; 1; 1; 1])%nat (two_updates [NoFault; Torn 0; NoFault]).

Lemma body1_ok : apply_update (st_config sample_state) body1 = Ok config1.
Proof. vm_refl. Qed.
Lemma body2_ok : apply_update (st_config sample_state) body2 = Ok config2.
Proof. vm_refl. Qed.
Lemma text_of_ok cfg : toml_to_string cfg = Some (text_of cfg).
Proof. done. Qed.
Lemma sample_tmp : tmp_of (st_config_path sample_state) <> st_config_path sample_state.
Proof. vm_compute. congruence. Qed.

Lemma overlap_splits_config_witness :
  st_config (ad_world split_run).1 = config1 /\
  holds (st_config_path sample_state) config2 (ad_world split_run).2 /\
  servers (cfg_upstream config1) <> servers (cfg_upstream config2).
Proof.
  destruct (overlap_splits_config (TL := digit_toml_laws) sample_state body1 body2 config1 config2
    (text_of config1) (text_of config2) body1_ok body2_ok (text_of_ok _) (text_of_ok _) ∅ sample_tmp)
    as (_ & H1 & H2).
  split; [exact H1|]. split; [exact H2|]. vm_compute. congruence.
Defined.

Lemma overlap_tears_file_witness :
  files (ad_world torn_run).2 !! st_config_path sample_state = Some (take 0 (as_bytes (text_of config1))).
Proof.
  exact (proj2 (proj2 (overlap_tears_file sample_state body1 body2 config1 config2
    (text_of config1) (text_of config2) body1_ok body2_ok (text_of_ok _) (text_of_ok _) ∅ 0 sample_tmp))).
Defined.

(** The files of a running program: both updates are in progress. *)
Lemma overlap_keeps_file_complete_witness :
  exists cfg, holds (str "config.toml") cfg
    (ad_world (admin_schedule [0; 1; 0; 0; 1]%nat
       (mk_admin (sample_state, after_first_run) [AdReceived (CallConfig body1); AdReceived (CallConfig body2)]))).2.
Proof.
  refine (overlap_keeps_file_complete (TL := digit_toml_laws) sample_state after_first_run (str "config.toml")
    (str "blocklist.txt") _ _ _ _).
  - split; [|split|split]; vm_compute; congruence.
  - split; [by constructor| | |done|done].
    + destruct (load_or_create_holds (TL := digit_toml_laws) config_path (mk_fs ∅ []) after_first_run default_config)
        as (d & t & Hd & Hu & Ht); [vm_compute; congruence|vm_refl|].
      exists d. split; [exact Hd|]. by exists t, default_config.
    + intros d Hd. assert (files after_first_run !! tmp_of (str "config.toml") = None) as E by vm_refl.
      cbn [snd] in Hd. rewrite E in Hd. congruence.
  - set (calls := [AdReceived (CallConfig body1); AdReceived (CallConfig body2)]).
    apply (rtc_l _ _ (mk_admin (sample_state, after_first_run) [AdReceived (CallConfig body1)]));
      [apply (AdminArrives (mk_admin _ []))|].
    apply (rtc_l _ _ (mk_admin (sample_state, after_first_run) calls));
      [apply (AdminArrives (mk_admin _ [AdReceived (CallConfig body1)]))|].
    unfold admin_schedule. do 5 (eapply rtc_l; [apply AdminTurns|]). apply rtc_refl.
Defined.
End Witnesses.
