(* ===== verification/System.v ===== *)
(** * The whole program

    The parts put together: the concurrent server, the admin API, the
    write-behind task, the log task, the purge, and restarts interleave as steps
    on one state, and what the program promises is an invariant of all of
    them. *)

From S2P Require Import Prelude RustStr NetAddr Fs Config Blocklist Hickory Cache Upstream Qlog Stats State Dns Flight Service Web Main.

Section System.
Context `{U : Unicode, HK : Hickory, MK : Moka, MP : Mpsc, SM : Semaphores, F : !SingleFlight MK}.
Context `{T : Toml, R : Redb, LE : LogEngine} (visible : rstring -> bool) (slack : Z).

(** The log task without the file system: the configuration it was given, the
    next sequence number, its buffer, whether it has ended, and how many of the
    records sent to it it has received. *)
Record LogTask := mk_log_task {
  lt_cfg : QlogConfig;
  lt_seq : Z;
  lt_buf : list LogRecord;
  lt_done : bool;
  lt_received : nat;
}.

(** The server, the file system, the write-behind task with the number of
    entries it has received, and the log task.  Ghost: the store as the last
    start opened it, and the purges made since. *)
Record System := mk_system {
  sy_conc : Conc;
  sy_fs : Fs;
  sy_writer : Writer;
  sy_received : nat;
  sy_log : LogTask;
  sy_opened : Database;
  sy_purged : list (list bytes);
}.

Definition with_state (st : AppState) (c : Conc) : Conc :=
  mk_conc st (cc_net c) (cc_waiters c) (cc_up c) (cc_tasks c) (cc_done c).

(** A turn of the log task, on the shared file system. *)
Definition log_turn (ev : log_event) (received : nat) (lt : LogTask) (fs : Fs) : LogTask * Fs :=
  let w := log_step visible (lt_cfg lt) (mk_log_writer fs (lt_seq lt) (lt_buf lt) (lt_done lt)) ev in
  (mk_log_task (lt_cfg lt) (lw_seq w) (lw_buf w) (lw_done w) received, lw_fs w).

(** The 32-bit fields of a configuration. *)
Definition config_typed (cfg : Config) : Prop :=
  is_u 32 (min_ttl (cfg_cache cfg)) /\ is_u 32 (max_ttl (cfg_cache cfg)).

(** The warm load takes at most [slack] seconds after the rows were read,
    and 32 bytes are read from /dev/urandom. *)
Definition start_ok (env : StartEnv) : Prop :=
  loads_within slack env /\ forall buf, se_urandom env = Some buf -> length buf = 32%nat.

(** A fresh start: no tasks, empty buffers; [created] is whether the log
    directory could be made. *)
Definition boot (st : AppState) (db : Database) (fs : Fs) (created : bool) : System :=
  mk_system (conc_start st) fs (mk_writer _ db [] false) 0
    (mk_log_task (cfg_qlog (st_config st)) 0 []
       (negb (qlog_enabled (cfg_qlog (st_config st)) && created)) 0) db [].

(** Starts that failed on the way, and new faults. *)
Inductive attempts (path : rstring) (fs : Fs) : Fs -> Prop :=
| NoAttempt fs0 : files fs0 = files fs -> attempts path fs fs0
| FailedStart env fs0 fs1 e fs2 :
  start_ok env -> files fs0 = files fs -> startup env path fs0 = (fs1, Err e) ->
  attempts path fs1 fs2 -> attempts path fs fs2.

(** The store file a start finds: what was committed to it, or nothing at a
    path that was not used before. *)
Definition left_on_disk (disk : Disk) (new old : Config) (db : Database) : Prop :=
  disk_rows disk = if bool_decide (db_path (cfg_cache new) = db_path (cfg_cache old)) then rows db else ∅.

(** What can happen.  A purge deletes the keys an earlier scan found, whichever
    they were.  At any moment the process may end: the next start, perhaps after
    failed ones, finds the files as they are, and a store file with the rows
    that were committed; what was in the buffers is lost. *)
Inductive system_step : System -> System -> Prop :=
| StepServer c c' fs w n lt db0 ps :
  conc_step synced c c' -> system_step (mk_system c fs w n lt db0 ps) (mk_system c' fs w n lt db0 ps)
| StepBlocklist text c fs w n lt db0 ps st' fs' r :
  set_blocklist text (cc_state c, fs) = ((st', fs'), r) ->
  system_step (mk_system c fs w n lt db0 ps) (mk_system (with_state st' c) fs' w n lt db0 ps)
| StepConfig body c fs w n lt db0 ps st' fs' r :
  set_config body (cc_state c, fs) = ((st', fs'), r) ->
  system_step (mk_system c fs w n lt db0 ps) (mk_system (with_state st' c) fs' w n lt db0 ps)
| StepReceive c fs w n lt db0 ps item :
  sent (st_persist (cc_state c)) !! n = Some item ->
  system_step (mk_system c fs w n lt db0 ps) (mk_system c fs (writer_step w (Item item)) (S n) lt db0 ps)
| StepTick c fs w n lt db0 ps :
  system_step (mk_system c fs w n lt db0 ps) (mk_system c fs (writer_step w Tick) n lt db0 ps)
| StepLogReceive now tx rec c fs w n lt db0 ps lt' fs' :
  st_qlog (cc_state c) = Some tx -> sent tx !! lt_received lt = Some rec ->
  log_turn (LogItem rec now) (S (lt_received lt)) lt fs = (lt', fs') ->
  system_step (mk_system c fs w n lt db0 ps) (mk_system c fs' w n lt' db0 ps)
| StepLogTick now c fs w n lt db0 ps lt' fs' :
  log_turn (LogTick now) (lt_received lt) lt fs = (lt', fs') ->
  system_step (mk_system c fs w n lt db0 ps) (mk_system c fs' w n lt' db0 ps)
| StepPurge ks c fs w n lt db0 ps db' r :
  purge_delete ks (w_db w) = (db', r) ->
  system_step (mk_system c fs w n lt db0 ps)
    (mk_system c fs (mk_writer _ db' (w_buf w) (w_done w)) n lt db0 (ps ++ [ks]))
| StepRestart env c fs w n lt db0 ps fs0 fs' st db addr created :
  attempts (st_config_path (cc_state c)) fs fs0 ->
  startup env (st_config_path (cc_state c)) fs0 = (fs', Ok (st, db, addr)) ->
  left_on_disk (se_disk env) (st_config st) (st_config (cc_state c)) (w_db w) ->
  start_ok env -> config_typed (st_config st) ->
  system_step (mk_system c fs w n lt db0 ps) (boot st db fs' created).

(** ** The invariant *)

Definition item_wf (k : CacheKey) (v : CachedResponse) : Prop := key_wf k /\ cached_wf v.

Definition sent_wf (st : AppState) : Prop :=
  forall k v, (k, v) ∈ sent (st_persist st) -> item_wf k v.

(** A name as the program stores it: in lower case, without a dot at the end. *)
Definition normal_name (name : rstring) : Prop := to_lowercase name = name /\ last name <> Some DOT.

(** A log record: a normal name, one of the four labels, an address or nothing
    for the client, and a latency that fits its column. *)
Definition record_ok (rec : LogRecord) : Prop :=
  normal_name (domain rec) /\ action rec ∈ labels /\
  (Qlog.client rec = [] \/ exists ip, Qlog.client rec = show_ip ip) /\ is_u 32 (latency_ms rec).

(** Machine integers keep their width, names are text: the counters, the
    cached and the persisted entries; and the records of the log. *)
Record state_typed (st : AppState) : Prop := {
  ty_stats : stats_typed (st_stats st);
  ty_entries : entries_inv (fun k v _ => item_wf k v) st;
  ty_sent : sent_wf st;
  ty_log : forall tx rec, st_qlog st = Some tx -> rec ∈ sent tx -> record_ok rec;
}.

Record system_inv (sy : System) : Prop := {
  inv_conc : conc_sound (sy_conc sy);
  inv_fresh : state_fresh slack (cc_state (sy_conc sy));
  inv_typed : state_typed (cc_state (sy_conc sy));
  inv_rows : writer_inv genuine_row (sy_writer sy);
}.

Context {UL : UnicodeLaws U} {HL : HickoryLaws HK} {ML : MokaLaws MK} {PL : MpscLaws MP}.
Context {SL : SemaphoreLaws SM} {FL : SingleFlightLaws MK F} {RL : RedbLaws R} (Hslack : 0 <= slack).

Lemma query_key_wf query : key_wf (query_key query).
Proof using UL HL.
  split; cbn [query_key ck_name ck_rtype]; [|apply rtype_code_u16].
  unfold query_domain. apply to_lowercase_valid, Forall_forall. intros c Hc%trim_end_by_sub.
  pose proof (name_to_string_valid (query_name query)) as H. unfold valid_str in H.
  rewrite Forall_forall in H. auto.
Qed.

Lemma query_domain_normal query : normal_name (query_domain query).
Proof using UL.
  unfold query_domain. split; [apply to_lowercase_idemp|]. intros H%to_lowercase_last_dot.
  by apply trim_end_by_last in H.
Qed.

Lemma genuine_normal k v : genuine k v -> normal_name (ck_name k).
Proof using UL. intros (data & q & qq & _ & _ & <- & _). apply query_domain_normal. Qed.

(** What [resolve] returns fits the fields of a row. *)
Lemma resolve_cached_wf up net now data tr tr' v :
  is_u 32 (up_min_ttl up) -> is_u 32 (up_max_ttl up) ->
  resolve up net now data tr = (tr', Ok v) -> cached_wf v.
Proof.
  intros Hmin Hmax (k & s & _ & _ & Hc & _)%resolve_ok.
  apply to_cached_wire in Hc as (_ & Ht%effective_ttl_bounds & He). unfold is_u in *.
  split; [unfold is_u; lia|]. rewrite He. by apply as_u_is_u.
Qed.

Lemma genuine_row_enc k v : genuine k v -> item_wf k v -> genuine_row (enc_key k) (enc_val v).
Proof.
  intros Hg [Hk Hv] k' v' Ek Ev. rewrite dec_enc_key in Ek by done. rewrite dec_enc_val in Ev by done.
  by injection Ek as <-; injection Ev as <-.
Qed.

#[local] Ltac step_cbn := cbn [goto finish accept cc_state cc_net cc_waiters cc_up cc_tasks cc_done
  on_stats set_cache set_persist set_inflight st_inflight st_stats st_cache st_upstream st_persist] in *.

Lemma poll_fresh env i t c c' :
  synced env -> poll_spec env i t c c' -> task_sound (st_upstream (cc_state c)) t ->
  state_fresh slack (cc_state c) -> state_fresh slack (cc_state c').
Proof using Hslack.
  intros Hsync Hp [_ Hph] (Hexp & Hmin & Hmax & He).
  destruct Hp; step_cbn; try (split_and!; [step_cbn; congruence|done|done|by apply entries_inv_sub]); try by split_and!.
  - match goal with H : t_phase t = _ |- _ => rewrite H in Hph; destruct Hph as [E1 E2] end.
    split_and!; step_cbn; [congruence|done|done|]. destruct r as [v|e]; [|by apply (entries_inv_sub _ _ cache He)].
    intros k v' d Hk. step_cbn. eapply lookup_weaken in Hk; [|done].
    apply lookup_insert_Some in Hk as [[<- [= <- <-]]|[_ Hk]]; [|by eapply He].
    edestruct fetched_deadline as (t0 & ? & ?); [done|done|by rewrite E1|by rewrite E2|done|].
    exists t0. split; [done|lia].
  - unfold state_fresh, entries_inv in *. step_cbn. by autorewrite with rdns_rw.
Qed.

(** The step that fetches: what it caches and sends is well formed. *)
Lemma resolved_typed env t j up st cache tr r (net : trace) :
  state_fresh slack st -> phase_sound (st_upstream st) (Asking j up) -> state_typed st ->
  resolve up (env_net env) (env_unix env) (t_data t) net = (tr, r) ->
  moka_entries cache ⊆
    match r with
    | Ok v => <[job_key j := (v, deadline (st_cache st) (env_clock env) (job_key j) v)]> (moka_entries (st_cache st))
    | Err _ => moka_entries (st_cache st)
    end ->
  state_typed (set_persist (match r with
                            | Ok v => (try_send (st_persist st) (job_key j, v)).1
                            | Err _ => st_persist st
                            end) (set_cache cache st)).
Proof using UL HL PL.
  intros (_ & Hmin & Hmax & _) [E1 E2] [H1 H2 H3 H4] Hr Hsub.
  destruct r as [v|e]; [|split; step_cbn; try done; by apply (entries_inv_sub _ _ cache H2)].
  assert (item_wf (job_key j) v) as Hwf.
  { split; [apply query_key_wf|]. eapply resolve_cached_wf; [by rewrite E1|by rewrite E2|done]. }
  split; step_cbn; try done.
  - intros k v' d Hk. step_cbn. eapply lookup_weaken in Hk; [|done].
    apply lookup_insert_Some in Hk as [[<- [= <- <-]]|[_ Hk]]; [done|by eapply H2].
  - intros k v'. step_cbn. destruct (try_send _ _) as [p b] eqn:Es. cbn [fst]. apply try_send_spec in Es as ->.
    intros [?|Hin]%elem_of_app; [by apply H3|]. destruct b; [|by apply elem_of_nil in Hin].
    by apply list_elem_of_singleton in Hin as [= -> ->].
Qed.

Lemma log_query_typed rec st : record_ok rec -> state_typed st -> state_typed (log_query rec st).
Proof using PL.
  intros Hrec [H1 H2 H3 H4].
  split; unfold entries_inv, sent_wf in *; autorewrite with rdns_rw; try done.
  intros tx rec'. unfold log_query. destruct (st_qlog st) as [tx0|] eqn:E; [|by rewrite E].
  destruct (try_send tx0 rec) as [tx1 b] eqn:Es. intros [= <-]. apply try_send_spec in Es as ->.
  intros [?|Hin]%elem_of_app; [by eapply H4|]. destruct b; [|by apply elem_of_nil in Hin].
  by apply list_elem_of_singleton in Hin as ->.
Qed.

Lemma poll_typed env i t c c' :
  poll_spec env i t c c' -> task_sound (st_upstream (cc_state c)) t ->
  state_fresh slack (cc_state c) -> state_typed (cc_state c) -> state_typed (cc_state c').
Proof using UL HL PL.
  intros Hp [_ Hph] Hf Hty. pose proof Hty as [H1 H2 H3 H4].
  destruct Hp; step_cbn; try done;
    try (split; step_cbn; first [done|by apply bump_typed|by eapply entries_inv_sub]).
  - match goal with H : t_phase t = _ |- _ => rewrite H in Hph end. by eapply resolved_typed.
  - match goal with H : t_phase t = _ |- _ => rewrite H in Hph end. destruct Hph as [Hact _].
    assert (state_typed (log_query rec (cc_state c))) as []; [|by split]. apply log_query_typed; [|done].
    subst rec. split; [apply query_domain_normal|]. split; [done|]. split; [|by apply as_u_is_u].
    cbn [log_record Qlog.client]. destruct (log_client_ip _); [right; by eexists|by left].
Qed.

(** The TTL bounds of the upstream never change while the program runs. *)
Lemma conc_step_inv c c' :
  conc_step synced c c' -> conc_sound c -> state_fresh slack (cc_state c) -> state_typed (cc_state c) ->
  conc_sound c' /\ state_fresh slack (cc_state c') /\ state_typed (cc_state c').
Proof using UL HL ML PL FL Hslack.
  intros Hstep Hc Hf Hs. destruct Hstep as [o packet|c' [i env Hsync Hp]].
  - split; [by apply accept_sound|]. unfold accept. destruct Hs as [H1 H2 H3 H4].
    destruct (try_acquire _); (split; [done|]); split; try done. by apply bump_typed.
  - split; [by eapply poll_sound|]. apply poll_ok in Hp as (t & Hi & Hp).
    destruct Hc as [_ Ht _]. pose proof (Forall_lookup_1 _ _ _ _ Ht Hi).
    split; [by eapply poll_fresh|by eapply poll_typed].
Qed.

(** An update by the admin API does not touch the cache, the channel or the
    TTL bounds. *)
Lemma admin_inv st' c fs fs' w n lt db0 ps :
  st_cache st' = st_cache (cc_state c) -> st_persist st' = st_persist (cc_state c) ->
  st_stats st' = st_stats (cc_state c) -> st_qlog st' = st_qlog (cc_state c) ->
  up_min_ttl (st_upstream st') = up_min_ttl (st_upstream (cc_state c)) ->
  up_max_ttl (st_upstream st') = up_max_ttl (st_upstream (cc_state c)) ->
  system_inv (mk_system c fs w n lt db0 ps) -> system_inv (mk_system (with_state st' c) fs' w n lt db0 ps).
Proof.
  intros Ec Ep Es Eq E1 E2 [[Hs Ht Hd] Hf [T1 T2 T3 T4] Hr]. cbn [sy_conc sy_writer] in *. split; [|..|done].
  - split; [by unfold state_sound, entries_inv in *; cbn; rewrite Ec, Ep| |done].
    apply (Forall_impl _ _ _ Ht). intros t [Hj Hph]. split; [done|]. cbn [with_state cc_state].
    destruct (t_phase t); try done. cbn [phase_sound sy_conc with_state cc_state] in *. by rewrite E1, E2.
  - unfold state_fresh, entries_inv in *. cbn. by rewrite Ec, E1, E2.
  - split; unfold sent_wf, entries_inv in *; cbn; rewrite ?Ec, ?Ep, ?Es, ?Eq; done.
Qed.

Lemma startup_typed env path fs fs' st db addr :
  startup env path fs = (fs', Ok (st, db, addr)) -> state_typed st.
Proof using ML PL RL.
  intros (fs1 & cfg & fs2 & _ & _ & _ & Hc & _ & Hp & Hq & Hs & _ & _)%startup_parts.
  destruct (warm_load_spec env (cfg_cache (st_config st)) db (max_entries (cfg_cache (st_config st))))
    as [_ He]. rewrite <-Hc in He. split.
  - rewrite Hs. apply stats_default_typed.
  - intros k v d Hk. destruct (He _ _ _ Hk) as (_ & kb & vb & _ & Hl). by eapply load_row_wf.
  - intros k v Hin. rewrite Hp, channel_sent in Hin. by apply elem_of_nil in Hin.
  - intros tx rec Htx Hin. rewrite Hq in Htx. destruct (qlog_enabled _); [|done].
    injection Htx as <-. rewrite channel_sent in Hin. by apply elem_of_nil in Hin.
Qed.

Lemma boot_inv env path fs fs' st db addr created :
  startup env path fs = (fs', Ok (st, db, addr)) ->
  loads_within slack env -> config_typed (st_config st) ->
  rows_inv genuine_row (rows db) -> system_inv (boot st db fs' created).
Proof using ML PL RL.
  intros Hst Hsync [Hmin Hmax] Hrows.
  destruct (startup_state_inv _ _ _ _ _ _ _ _ Hst Hsync Hmin Hmax) as (Hf & Hs & He).
  split; cbn [boot sy_conc sy_writer conc_start cc_state].
  - apply start_sound. auto.
  - done.
  - by eapply startup_typed.
  - split; [done|]. intros k v Hin. by apply elem_of_nil in Hin.
Qed.

Lemma system_step_inv sy sy' : system_step sy sy' -> system_inv sy -> system_inv sy'.
Proof using UL HL ML PL FL RL Hslack.
  intros Hstep Hinv. destruct Hstep as
    [c c' fs w n lt db0 ps Hs|text c fs w n lt db0 ps st' fs' r Hb|body c fs w n lt db0 ps st' fs' r Hc
    |c fs w n lt db0 ps item Hi|c fs w n lt db0 ps|now tx rec c fs w n lt db0 ps lt' fs' _ _ _
    |now c fs w n lt db0 ps lt' fs' _|ks c fs w n lt db0 ps db' r Hp
    |env c fs w n lt db0 ps fs0 fs' st db addr created _ Hstart Hdisk [Hsync _] Hty].
  - destruct Hinv as [H1 H2 H3 H4]. cbn [sy_conc sy_writer] in *.
    destruct (conc_step_inv _ _ Hs H1 H2 H3) as (? & ? & ?). by split.
  - rewrite set_blocklist_run in Hb.
    destruct (write_atomic _ _ _) as [fs1 [[]|e]]; injection Hb as <- _ _; by eapply admin_inv.
  - rewrite set_config_run in Hc. destruct (apply_update _ _) as [cfg|e]; [|injection Hc as <- _ _; by eapply admin_inv].
    destruct (save _ _ _) as [fs1 [[]|e]]; injection Hc as <- _ _; by eapply admin_inv.
  - destruct Hinv as [[[He Hg] Ht Hd] Hf Hw Hr]. cbn [sy_conc sy_writer] in *. split; [done..|].
    pose proof (ty_sent _ Hw) as Hsent.
    destruct item as [k v]. apply list_elem_of_lookup_2 in Hi.
    apply (writer_run_inv genuine_row [Item (k, v)] w Hr). cbn [items_of].
    intros k' v' Hin. apply list_elem_of_singleton in Hin as [= -> ->]. apply genuine_row_enc; auto.
  - destruct Hinv as [H1 H2 H3 H4]. split; [done..|]. apply (writer_run_inv genuine_row [Tick] w H4).
    intros k v Hin. by apply elem_of_nil in Hin.
  - by destruct Hinv.
  - by destruct Hinv.
  - destruct Hinv as [H1 H2 H3 [H4 H5]]. split; [done..|]. split; [|done]. cbn [sy_writer w_db].
    intros kb vb Hk. rewrite (purge_delete_rows _ _ _ _ Hp) in Hk. apply H4. by destruct (is_ok r && _).
  - destruct Hinv as [_ _ _ [H4 _]]. eapply boot_inv; try done.
    pose proof Hstart as (? & ? & ? & _ & _ & _ & _ & _ & _ & _ & _ & Hopen%store_open_rows & _)%startup_parts.
    rewrite Hopen, Hdisk. destruct (bool_decide _); [done|]. intros kb vb Hk. by rewrite lookup_empty in Hk.
Qed.

Lemma system_steps_inv sy sy' : rtc system_step sy sy' -> system_inv sy -> system_inv sy'.
Proof using UL HL ML PL FL RL Hslack.
  induction 1 as [|sy sy1 sy' Hstep _ IH]; [done|]. intros Hinv. by apply IH, (system_step_inv sy).
Qed.

(** The first boot, with an empty store. *)
Lemma first_boot_inv env path fs fs' st db addr created :
  startup env path fs = (fs', Ok (st, db, addr)) -> disk_rows (se_disk env) = ∅ ->
  loads_within slack env -> config_typed (st_config st) -> system_inv (boot st db fs' created).
Proof using ML PL RL.
  intros Hstart Hempty Hsync Hty. eapply boot_inv; try done.
  apply startup_parts in Hstart as (? & ? & ? & _ & _ & _ & _ & _ & _ & _ & _ & Hopen%store_open_rows & _).
  rewrite Hopen, Hempty. intros kb vb Hk. by rewrite lookup_empty in Hk.
Qed.

(** ** Properties *)

(** C1. What a client can rely on.  From a first start with an empty store,
    through any interleaving of arriving queries, task steps, admin updates,
    writes behind and their failures, log segments, purges, crashes and
    restarts: every call that returned gave its packet an acceptable answer (a
    non-empty reply is a response to the packet, with its id, type and
    normalised name; silence means that it carried no question); and an entry
    the cache serves, fetched or loaded from the store by a restart, was
    validated against a query with its key and has not passed the second of its
    expiry by more than [slack], the longest a start takes from reading the rows
    to caching them (their remaining lifetime is counted from the latter). *)
Theorem program_replies_genuine start path fs fs' st0 db0 addr created sy :
  startup start path fs = (fs', Ok (st0, db0, addr)) -> disk_rows (se_disk start) = ∅ ->
  loads_within slack start -> config_typed (st_config st0) ->
  rtc system_step (boot st0 db0 fs' created) sy ->
  (forall o data r, (o, data, r) ∈ cc_done (sy_conc sy) -> acceptable data r) /\
  (forall env k c v, synced env ->
     moka_get (st_cache (cc_state (sy_conc sy))) (env_clock env) k = (c, Some v) ->
     genuine k v /\ env_unix env <= expires_unix v + slack).
Proof.
  intros Hstart Hempty Hsync Hty Hsteps.
  pose proof (first_boot_inv _ _ _ _ _ _ _ created Hstart Hempty Hsync Hty) as Hboot.
  destruct (system_steps_inv _ _ Hsteps Hboot) as [[[Hs _] _ Hd] Hf _ _]. split.
  - intros o data r Hin. rewrite Forall_forall in Hd. by specialize (Hd _ Hin).
  - intros env k c v [Henv _] Hg. destruct (moka_get_spec _ _ _ _ _ Hg) as (_ & _ & Hv).
    destruct (Hv v eq_refl) as (d & Hd' & Hlive). destruct Hf as (_ & _ & _ & Hfe).
    split; [by eapply Hs|]. destruct (Hfe _ _ _ Hd') as (t & -> & Ht). unfold live in Hlive. lia.
Qed.

(** C7. Well-formedness: in every state the program reaches, the names in the
    cache, on the way to the store, in the store and in the log are normal (in
    lower case, with no dot at the end), so that one name has one entry; and
    each log record has one of the four labels, an address or nothing for its
    client, and a latency that fits its column. *)
Theorem program_well_formed start path fs fs' st0 db0 addr created sy :
  startup start path fs = (fs', Ok (st0, db0, addr)) -> disk_rows (se_disk start) = ∅ ->
  loads_within slack start -> config_typed (st_config st0) ->
  rtc system_step (boot st0 db0 fs' created) sy ->
  (forall k v d, moka_entries (st_cache (cc_state (sy_conc sy))) !! k = Some (v, d) -> normal_name (ck_name k)) /\
  (forall k v, (k, v) ∈ sent (st_persist (cc_state (sy_conc sy))) -> normal_name (ck_name k)) /\
  (forall kb vb k v, rows (w_db (sy_writer sy)) !! kb = Some vb ->
     dec_key kb = Some k -> dec_val vb = Some v -> normal_name (ck_name k)) /\
  (forall tx rec, st_qlog (cc_state (sy_conc sy)) = Some tx -> rec ∈ sent tx -> record_ok rec).
Proof using UL HL ML PL FL RL Hslack.
  intros Hstart Hempty Hsync Hty Hsteps.
  destruct (system_steps_inv _ _ Hsteps (first_boot_inv _ _ _ _ _ _ _ created Hstart Hempty Hsync Hty))
    as [[[He Hs] _ _] _ [_ _ _ Hl] [Hr _]]. split; [|split; [|split]].
  - intros k v d Hk. by eapply genuine_normal, He.
  - intros k v Hin. by eapply genuine_normal, Hs.
  - intros kb vb k v Hk Ek Ev. eapply genuine_normal, Hr; done.
  - exact Hl.
Qed.

(** C2. The store never holds anything but genuine replies, and what is sent to
    it fits its format: in every state the program reaches, each row that
    decodes is a reply validated against a query with the decoded key, and
    each entry handed to the write-behind task reads back from its row. *)
Theorem program_store_genuine start path fs fs' st0 db0 addr created sy :
  startup start path fs = (fs', Ok (st0, db0, addr)) -> disk_rows (se_disk start) = ∅ ->
  loads_within slack start -> config_typed (st_config st0) ->
  rtc system_step (boot st0 db0 fs' created) sy ->
  (forall kb vb k v, rows (w_db (sy_writer sy)) !! kb = Some vb ->
     dec_key kb = Some k -> dec_val vb = Some v -> genuine k v) /\
  (forall k v, (k, v) ∈ sent (st_persist (cc_state (sy_conc sy))) ->
     dec_key (enc_key k) = Some k /\ dec_val (enc_val v) = Some v).
Proof.
  intros Hstart Hempty Hsync Hty Hsteps.
  pose proof (first_boot_inv _ _ _ _ _ _ _ created Hstart Hempty Hsync Hty) as Hboot.
  destruct (system_steps_inv _ _ Hsteps Hboot) as [_ _ [_ _ Hwf _] [Hrows _]]. split.
  - intros kb vb k v Hk. by apply Hrows.
  - intros k v [Hk Hv]%Hwf. split; [by apply dec_enc_key|by apply dec_enc_val].
Qed.

(** ** The configuration on disk *)

(** The configuration file is nobody else's file: not the blocklist, not a
    temporary file, not in the log directory. *)
Record paths_apart (path : rstring) (cfg : Config) : Prop := {
  pa_tmp : with_extension (str "tmp") path <> path;
  pa_blocklist : blocklist_path (cfg_web cfg) <> path;
  pa_blocklist_tmp : with_extension (str "tmp") (blocklist_path (cfg_web cfg)) <> path;
  pa_log : entry_name (qlog_dir (cfg_qlog cfg)) path = None;
}.

Record durable (path : rstring) (sy : System) : Prop := {
  du_holds : holds path (st_config (cc_state (sy_conc sy))) (sy_fs sy);
  du_token : weak_token (admin_token (cfg_web (st_config (cc_state (sy_conc sy))))) = false;
  du_path : st_config_path (cc_state (sy_conc sy)) = path;
  du_apart : paths_apart path (st_config (cc_state (sy_conc sy)));
  du_log : lt_cfg (sy_log sy) = cfg_qlog (st_config (cc_state (sy_conc sy)));
}.

Lemma conc_step_config c c' :
  conc_step synced c c' ->
  st_config (cc_state c') = st_config (cc_state c) /\
  st_config_path (cc_state c') = st_config_path (cc_state c).
Proof using ML FL.
  intros [o packet|c1 [i env _ (t & _ & Hp)%poll_ok]].
  - unfold accept. by destruct (try_acquire _).
  - destruct Hp; try done. cbn. by destruct (log_query_as rec (cc_state c)) as [q ->].
Qed.

(** The log task writes in its directory only. *)
Lemma log_flush_other cfg now w path :
  entry_name (qlog_dir cfg) path = None -> same_file (lw_fs w) (lw_fs (log_flush visible cfg now w)) path.
Proof using LE.
  intros He. unfold log_flush, same_file. case_bool_decide; [done|].
  destruct (write_segment _ _ _ _ _ _ _) as [fs' r] eqn:Ew.
  apply (write_segment_other visible _ _ _ _ _ _ _ _ path) in Ew; [done|done].
Qed.

Lemma log_turn_other ev n lt fs lt' fs' path :
  log_turn ev n lt fs = (lt', fs') -> entry_name (qlog_dir (lt_cfg lt)) path = None ->
  same_file fs fs' path /\ lt_cfg lt' = lt_cfg lt.
Proof.
  unfold log_turn. intros [= <- <-] He. split; [|done]. unfold log_step. cbn [lw_done].
  destruct (lt_done lt); [done|]. destruct ev as [r now|now|now]; cbv zeta.
  - destruct (_ <=? _); [|done]. by apply (log_flush_other _ _ (mk_log_writer fs _ _ _)).
  - by apply (log_flush_other _ _ (mk_log_writer fs _ _ _)).
  - by apply (log_flush_other _ _ (mk_log_writer fs _ _ _)).
Qed.

Lemma attempts_keep path cfg fs fs' :
  attempts path fs fs' -> holds path cfg fs -> weak_token (admin_token (cfg_web cfg)) = false ->
  blocklist_path (cfg_web cfg) <> path -> holds path cfg fs'.
Proof.
  intros Ha Hh Hw Hb. revert Hh.
  induction Ha as [fs fs0 Hf|fs env fs0 fs1 e fs2 _ Hf Hs _ IH]; intros Hh.
  - apply (holds_same _ _ fs); [|done]. unfold same_file. by rewrite Hf.
  - apply IH. eapply (startup_keeps env path cfg fs0 fs1 _); [|done..].
    apply (holds_same _ _ fs); [|done]. unfold same_file. by rewrite Hf.
Qed.

Lemma system_step_durable {TL : TomlLaws T} path sy sy' :
  system_step sy sy' -> durable path sy -> durable path sy'.
Proof using ML FL.
  intros Hstep [Hh Hw Hp Ha Hl]. destruct Hstep as
    [c c' fs w n lt db0 ps Hs|text c fs w n lt db0 ps st' fs' r Hb|body c fs w n lt db0 ps st' fs' r Hc
    |c fs w n lt db0 ps item Hi|c fs w n lt db0 ps|now tx rec c fs w n lt db0 ps lt' fs' _ _ Ht
    |now c fs w n lt db0 ps lt' fs' Ht|ks c fs w n lt db0 ps db' r _
    |env c fs w n lt db0 ps fs0 fs' st db addr created Hat Hstart _ _ _];
    cbn [sy_conc sy_fs sy_log with_state cc_state] in *; try (by split).
  - destruct (conc_step_config _ _ Hs) as [E1 E2]. by split; cbn; rewrite ?E1, ?E2.
  - rewrite set_blocklist_run in Hb. destruct Ha as [H1 H2 H3 H4].
    destruct (write_atomic _ _ _) as [fs1 r1] eqn:Ew.
    apply (write_atomic_other _ _ _ _ _ path) in Ew; [|by apply not_eq_sym..].
    apply (holds_same _ _ _ _ Ew) in Hh. destruct r1 as [[]|e]; injection Hb as <- <- _; by split.
  - rewrite set_config_run in Hc. destruct (apply_update _ _) as [cfg|e] eqn:Eu; [|by injection Hc as <- <- _].
    apply apply_update_Ok in Eu as (_ & _ & v4 & v6 & _ & _ & ->). destruct Ha as [H1 H2 H3 H4].
    rewrite Hp in Hc. destruct (save _ _ _) as [fs1 [[]|e]] eqn:Es; injection Hc as <- <- _.
    + apply save_holds in Es; [|done]. by split.
    + apply save_err_file in Es; [|done]. split; try done. by apply (holds_same _ _ fs).
  - destruct (log_turn_other _ _ _ _ _ _ path Ht) as [Hf E]; [rewrite Hl; by destruct Ha|].
    split; cbn [sy_conc sy_fs sy_log]; try done; [by apply (holds_same _ _ fs)|congruence].
  - destruct (log_turn_other _ _ _ _ _ _ path Ht) as [Hf E]; [rewrite Hl; by destruct Ha|].
    split; cbn [sy_conc sy_fs sy_log]; try done; [by apply (holds_same _ _ fs)|congruence].
  - rewrite Hp in Hat, Hstart. pose proof (pa_blocklist _ _ Ha) as Hb.
    apply (attempts_keep _ _ _ _ Hat) in Hh; [|done..].
    destruct (startup_keeps _ _ _ _ _ _ Hh Hw Hb Hstart) as [Hh' Hst].
    destruct (Hst _ _ _ eq_refl) as [E1 E2]. by split; cbn; rewrite ?E1.
Qed.

(** C6. The configuration file always holds the configuration in force, and
    its token is never weak: whatever the tasks, the admin updates one after
    the other, I/O errors, torn writes, crashes and failed starts do, as long as
    the file is not used for anything else.  So a restart at any moment finds a
    complete configuration, with the last acknowledged update.  (Updates that
    overlap can break this: see [Admin].) *)
Theorem program_config_durable {TL : TomlLaws T} start path fs fs' st0 db0 addr created sy :
  startup start path fs = (fs', Ok (st0, db0, addr)) -> start_ok start ->
  paths_apart path (st_config st0) -> rtc system_step (boot st0 db0 fs' created) sy ->
  holds path (st_config (cc_state (sy_conc sy))) (sy_fs sy) /\
  weak_token (admin_token (cfg_web (st_config (cc_state (sy_conc sy))))) = false.
Proof.
  intros Hstart [_ Hbuf] Ha Hsteps.
  assert (durable path sy) as [Hh Hw _ _ _]; [|done].
  assert (durable path (boot st0 db0 fs' created)) as Hboot.
  { destruct (startup_holds _ _ _ _ _ _ _ (pa_tmp _ _ Ha) Hbuf Hstart) as [Hh Hw]. split; try done.
    by apply startup_path in Hstart. }
  clear Hstart Ha Hbuf. induction Hsteps as [|sy1 sy2 sy3 Hstep _ IH]; [done|].
  by apply IH, (system_step_durable path sy1).
Qed.

(** ** The way to the store *)

Definition writes_ok (sy : System) : Prop :=
  w_done (sy_writer sy) = false /\
  (sy_received sy <= length (sent (st_persist (cc_state (sy_conc sy)))))%nat /\
  written (sy_opened sy) (sy_writer sy) (sy_purged sy)
    (take (sy_received sy) (sent (st_persist (cc_state (sy_conc sy))))).

(** The channel only grows. *)
Lemma conc_step_persist c c' :
  conc_step synced c c' -> sent (st_persist (cc_state c)) `prefix_of` sent (st_persist (cc_state c')).
Proof using ML PL FL.
  intros [o packet|c1 [i env _ (t & _ & Hp)%poll_ok]].
  - unfold accept. by destruct (try_acquire _).
  - destruct Hp; step_cbn; try done; [|by autorewrite with rdns_rw]. destruct r as [v|e]; [|done].
    destruct (try_send _ _) as [tx' b] eqn:E. apply try_send_spec in E. cbn [fst]. rewrite E. by eexists.
Qed.

Lemma writer_step_open w ev : ev <> Closed -> w_done w = false -> w_done (writer_step w ev) = false.
Proof.
  intros He Hd. unfold writer_step. rewrite Hd.
  destruct ev as [x| |]; [|done|by rewrite flush_done]. cbv zeta.
  destruct (_ <=? _)%nat; [by rewrite flush_done|done].
Qed.

Lemma system_step_writes sy sy' : system_step sy sy' -> writes_ok sy -> writes_ok sy'.
Proof using ML PL FL.
  intros Hstep (Hd & Hn & Hw). destruct Hstep as
    [c c' fs w n lt db0 ps Hs|text c fs w n lt db0 ps st' fs' r Hb|body c fs w n lt db0 ps st' fs' r Hc
    |c fs w n lt db0 ps item Hi|c fs w n lt db0 ps|now tx rec c fs w n lt db0 ps lt' fs' _ _ _
    |now c fs w n lt db0 ps lt' fs' _|ks c fs w n lt db0 ps db' r Hp
    |env c fs w n lt db0 ps fs0 fs' st db addr created _ Hstart _ _ _];
    unfold writes_ok in *; cbn [sy_conc sy_writer sy_received sy_opened sy_purged with_state cc_state] in *.
  - destruct (conc_step_persist _ _ Hs) as [k ->]. rewrite take_app_le, length_app by done.
    split; [done|]. split; [lia|done].
  - rewrite set_blocklist_run in Hb. by destruct (write_atomic _ _ _) as [fs1 [[]|e]]; injection Hb as <- _ _.
  - rewrite set_config_run in Hc. destruct (apply_update _ _) as [cfg|e]; [|by injection Hc as <- _ _].
    by destruct (save _ _ _) as [fs1 [[]|e]]; injection Hc as <- _ _.
  - split; [by apply writer_step_open|]. split; [by apply lookup_lt_Some in Hi|].
    rewrite (take_S_r _ _ _ Hi). by apply (written_step _ _ _ _ (Item item)).
  - split; [by apply writer_step_open|]. split; [done|]. by apply (written_step _ _ _ _ Tick).
  - done.
  - done.
  - split; [done|]. split; [done|]. by eapply written_purge.
  - split; [done|]. split; [cbn; lia|]. split; [unfold BATCH_MAX; simpl; lia|].
    exists []. rewrite take_0. split; [by exists []|done].
Qed.

(** C8. Nothing is lost, repeated or reordered on the way to the store, except by
    a failed transaction: in every state the program reaches, the store is what
    the last start opened, changed by the purges that were made and by batches
    written one after the other; each batch has between 1 and 256 entries; and
    the entries of the batches, with the fewer than 256 that are still in the
    buffer, are exactly the entries the task has received, which are the first
    of those sent to it. *)
Theorem program_writes_in_order start path fs fs' st0 db0 addr created sy :
  startup start path fs = (fs', Ok (st0, db0, addr)) ->
  rtc system_step (boot st0 db0 fs' created) sy ->
  exists ops : list store_op,
    w_db (sy_writer sy) = foldl apply_op (sy_opened sy) ops /\
    ops ≫= op_purge = sy_purged sy /\
    (ops ≫= op_items) ++ w_buf (sy_writer sy) =
      take (sy_received sy) (sent (st_persist (cc_state (sy_conc sy)))) /\
    (forall items, Wrote items ∈ ops -> (0 < length items <= 256)%nat) /\
    (length (w_buf (sy_writer sy)) < 256)%nat.
Proof using ML PL FL.
  intros Hstart Hsteps. assert (writes_ok sy) as (_ & _ & Hl & items & (ops & Hdb & Hok & Hp & Hi) & Hb).
  { assert (writes_ok (boot st0 db0 fs' created)) as Hboot.
    { split; [done|]. split; [cbn; lia|]. split; [cbn; unfold BATCH_MAX; lia|].
      exists []. cbn. split; [by exists []|done]. }
    clear Hstart. induction Hsteps as [|sy1 sy2 sy3 Hstep _ IH]; [done|]. by apply IH, (system_step_writes sy1). }
  exists ops. split; [done|]. split; [done|]. split; [by rewrite Hi|]. split; [|done].
  intros b Hin. rewrite Forall_forall in Hok. by apply Hok in Hin.
Qed.
End System.

(** ** Worked examples *)

Section Witnesses.
#[local] Existing Instance ascii_tables.
#[local] Existing Instance Mini.hickory.
#[local] Existing Instance MemCache.moka.
#[local] Existing Instance MemSync.mpsc.
#[local] Existing Instance MemSync.sems.
#[local] Existing Instance MemFlight.flight.
#[local] Existing Instance digit_toml.
#[local] Existing Instance MemDb.redb.

(** An encoder that writes the number of rows. *)
#[local] Instance counting_engine : LogEngine := {|
  parquet_encode b := (to_be 4 (Z.of_nat (length (col_ts b))), Ok tt);
  datafusion_query _ _ _ _ := Ok [];
|}.
Definition all_visible : rstring -> bool := fun _ => true.

(** The first start; a packet arrives, its task runs to the reply, the
    write-behind task receives the entry and its timer fires, the log task
    receives the record. *)
Definition first_state : AppState :=
  match first_start.2 with Ok (st, _, _) => st | Err _ => sample_state end.
Definition any_addr : SocketAddr := SockV4 (ipv4 [0; 0; 0; 0]) 53.

Lemma first_start_ok :
  startup sample_start (str "config.toml") (mk_fs ∅ []) = (first_start.1, Ok (first_state, ∅, any_addr)).
Proof. vm_refl. Qed.

Definition sys_0 : System := boot first_state ∅ first_start.1 true.
Definition served : Conc :=
  let c := accept (UdpFrom peer) query_wire (sy_conc sys_0) in
  default c (schedule sample_env [0; 0; 0; 0; 0; 0; 0; 0]%nat c).
Definition writer_1 : Writer := writer_step (sy_writer sys_0) (Item (key_a, sample_cached)).
Definition writer_2 : Writer := writer_step writer_1 Tick.
(** A configuration update by the admin, accepted. *)
Definition sample_update : ConfigUpdate :=
  mk_config_update [str "9.9.9.9:53"] 1000 50 8 (str "nxdomain") (str "0.0.0.0") (str "::").
Definition updated_run : (AppState * Fs) * result error ConfigView :=
  set_config sample_update (cc_state served, first_start.1).
Definition sys_1 : System :=
  mk_system (with_state updated_run.1.1 served) updated_run.1.2 writer_2 1 (sy_log sys_0) ∅ [].

(** A crash, and the next start: it finds the new configuration and the entry
    that was written; the same question is now answered from the cache. *)
Definition restarted : Fs * result error (AppState * Database * SocketAddr) :=
  startup second_env (str "config.toml") updated_run.1.2.
Definition second_state : AppState := match restarted.2 with Ok (st, _, _) => st | Err _ => sample_state end.
Definition second_db : Database := match restarted.2 with Ok (_, db, _) => db | Err _ => ∅ end.
Definition second_addr : SocketAddr := match restarted.2 with Ok (_, _, a) => a | Err _ => any_addr end.
Definition sys_2 : System := boot second_state second_db restarted.1 true.
Definition later_env : HandleEnv := mk_env 1040 1040 1040000 1 sample_net.
Definition served_again : Conc :=
  let c := accept (UdpFrom peer) query_wire (sy_conc sys_2) in
  default c (schedule later_env [0; 0; 0; 0]%nat c).
Definition system_end : System :=
  mk_system served_again restarted.1 (sy_writer sys_2) 0 (sy_log sys_2) second_db [].

(** A schedule of one task as steps of the whole program. *)
Lemma schedule_steps env l c fs w n lt db0 ps :
  synced env -> (if schedule env l c is Some _ then true else false) = true ->
  rtc (system_step all_visible 3) (mk_system c fs w n lt db0 ps)
    (mk_system (default c (schedule env l c)) fs w n lt db0 ps).
Proof.
  intros He Hs. pose proof (schedule_default synced env l c He Hs) as Hrun. clear Hs.
  induction Hrun as [|c1 c2 c' Hs _ IH]; [done|]. eapply rtc_l; [|exact IH]. by apply StepServer, Turn.
Qed.

Lemma first_steps : rtc (system_step all_visible 3) sys_0 sys_1.
Proof.
  apply (rtc_l _ _ (mk_system (accept (UdpFrom peer) query_wire (sy_conc sys_0)) first_start.1
    (sy_writer sys_0) 0 (sy_log sys_0) ∅ [])); [apply StepServer, Arrive|].
  etrans; [apply (schedule_steps sample_env [0; 0; 0; 0; 0; 0; 0; 0]%nat); [apply sample_synced|vm_refl]|].
  fold served. apply (rtc_l _ _ (mk_system served first_start.1 writer_1 1 (sy_log sys_0) ∅ [])).
  { apply (StepReceive _ _ served first_start.1 (sy_writer sys_0) 0 (sy_log sys_0) ∅ [] (key_a, sample_cached)). vm_refl. }
  apply (rtc_l _ _ (mk_system served first_start.1 writer_2 1 (sy_log sys_0) ∅ [])); [apply StepTick|].
  apply rtc_once, (StepConfig _ _ sample_update served first_start.1 writer_2 1 (sy_log sys_0) ∅ []
    updated_run.1.1 updated_run.1.2 updated_run.2).
  unfold updated_run. by destruct (set_config _ _) as [[st' fs'] r].
Qed.

Lemma restarted_ok : startup second_env (str "config.toml") updated_run.1.2 =
  (restarted.1, Ok (second_state, second_db, second_addr)).
Proof.
  assert (is_ok restarted.2 = true) as H by vm_refl. unfold second_state, second_db, second_addr.
  change (startup second_env (str "config.toml") updated_run.1.2) with restarted.
  destruct restarted as [fs [[[st db] a]|e]]; [done|]. by cbn in H.
Qed.

Lemma restart_step : system_step all_visible 3 sys_1 sys_2.
Proof.
  apply (StepRestart all_visible 3 second_env (with_state updated_run.1.1 served) updated_run.1.2 writer_2 1
    (sy_log sys_0) ∅ [] updated_run.1.2 restarted.1 second_state second_db second_addr true).
  - by apply NoAttempt.
  - assert (st_config_path (cc_state (with_state updated_run.1.1 served)) = str "config.toml") as -> by vm_refl.
    apply restarted_ok.
  - unfold left_on_disk. vm_refl.
  - split; [|by intros buf [= <-]]. intros i. vm_compute. congruence.
  - split; vm_compute; intuition congruence.
Qed.

Lemma sample_steps : rtc (system_step all_visible 3) sys_0 system_end.
Proof.
  etrans; [apply first_steps|]. eapply rtc_l; [apply restart_step|].
  eapply rtc_l; [apply (StepServer _ _ (sy_conc sys_2) (accept (UdpFrom peer) query_wire (sy_conc sys_2))), Arrive|].
  apply (schedule_steps later_env [0; 0; 0; 0]%nat); [|vm_refl]. split; [done|]. split; [done|]. vm_refl.
Qed.

Lemma first_typed : config_typed (st_config first_state).
Proof. split; vm_compute; intuition congruence. Qed.

Lemma first_loads : loads_within 3 sample_start.
Proof. intros i. vm_compute. congruence. Qed.

(** After the restart the entry is served from the cache, at the end even two
    seconds after its expiry, for it was loaded three seconds late. *)
Lemma program_replies_genuine_witness :
  acceptable query_wire (Some answer_wire) /\
  exists v, (moka_get (st_cache (cc_state (sy_conc system_end))) 1122 key_a).2 = Some v /\
    genuine key_a v /\ 1122 <= expires_unix v + 3.
Proof.
  destruct (program_replies_genuine all_visible 3 (UL := ascii_tables_laws) (HL := Mini.mini_laws)
    (ML := MemCache.memcache_laws) (PL := MemSync.mpsc_laws) (FL := MemFlight.flight_laws) (RL := MemDb.memdb_laws)
    ltac:(lia) sample_start (str "config.toml") (mk_fs ∅ []) first_start.1 first_state ∅ any_addr true system_end
    first_start_ok eq_refl first_loads first_typed sample_steps) as [H1 H2]. split.
  - refine (H1 (UdpFrom peer) query_wire (Some answer_wire) _).
    assert (cc_done (sy_conc system_end) = [(UdpFrom peer, query_wire, Some answer_wire)]) as -> by vm_refl. left.
  - exists (mk_cached answer_wire 90 1120). split; [vm_refl|].
    refine (H2 (mk_env 1122 1122 0 0 sample_net) key_a
      (moka_get (st_cache (cc_state (sy_conc system_end))) 1122 key_a).1 (mk_cached answer_wire 90 1120) _ _).
    + split; [done|]. split; [done|]. vm_refl.
    + vm_refl.
Defined.

(** The reopened store still has the entry. *)
Lemma program_store_genuine_witness :
  rows (w_db (sy_writer system_end)) !! enc_key key_a = Some (enc_val sample_cached) /\ genuine key_a sample_cached.
Proof.
  split; [vm_refl|].
  refine (proj1 (program_store_genuine all_visible 3 (UL := ascii_tables_laws) (HL := Mini.mini_laws)
    (ML := MemCache.memcache_laws) (PL := MemSync.mpsc_laws) (FL := MemFlight.flight_laws) (RL := MemDb.memdb_laws)
    ltac:(lia) sample_start (str "config.toml") (mk_fs ∅ []) first_start.1 first_state ∅ any_addr true system_end
    first_start_ok eq_refl first_loads first_typed sample_steps)
    (enc_key key_a) (enc_val sample_cached) key_a sample_cached _ _ _); vm_refl.
Defined.

Lemma program_well_formed_witness :
  exists d, moka_entries (st_cache (cc_state (sy_conc system_end))) !! key_a = Some (mk_cached answer_wire 90 1120, d) /\
    normal_name (ck_name key_a).
Proof.
  exists (Some 1123). split; [vm_refl|].
  refine (proj1 (program_well_formed all_visible 3 (UL := ascii_tables_laws) (HL := Mini.mini_laws)
    (ML := MemCache.memcache_laws) (PL := MemSync.mpsc_laws) (FL := MemFlight.flight_laws) (RL := MemDb.memdb_laws)
    ltac:(lia) sample_start (str "config.toml") (mk_fs ∅ []) first_start.1 first_state ∅ any_addr true system_end
    first_start_ok eq_refl first_loads first_typed sample_steps) key_a (mk_cached answer_wire 90 1120) (Some 1123) _).
  vm_refl.
Defined.

(** The file still holds the new servers, and the restarted program uses them. *)
Lemma program_config_durable_witness :
  exists cfg, holds (str "config.toml") cfg (sy_fs system_end) /\ servers (cfg_upstream cfg) = [str "9.9.9.9:53"].
Proof.
  exists (st_config (cc_state (sy_conc system_end))). split; [|vm_refl].
  refine (proj1 (program_config_durable all_visible 3 (ML := MemCache.memcache_laws) (FL := MemFlight.flight_laws)
    (TL := digit_toml_laws) sample_start (str "config.toml") (mk_fs ∅ []) first_start.1 first_state ∅ any_addr
    true system_end first_start_ok _ _ sample_steps)).
  - split; [apply first_loads|]. intros buf [= <-]. vm_refl.
  - split; [vm_compute; congruence..|vm_refl].
Defined.

(** Before the crash: one batch. *)
Lemma program_writes_in_order_witness :
  exists ops : list store_op, w_db (sy_writer sys_1) = foldl apply_op ∅ ops /\ ops ≫= op_purge = [] /\
    ops ≫= op_items = [(key_a, sample_cached)].
Proof.
  destruct (program_writes_in_order all_visible 3 (ML := MemCache.memcache_laws) (PL := MemSync.mpsc_laws)
    (FL := MemFlight.flight_laws) sample_start (str "config.toml") (mk_fs ∅ []) first_start.1 first_state ∅ any_addr
    true sys_1 first_start_ok first_steps) as (ops & H1 & H2 & H3 & _).
  exists ops. split; [exact H1|]. split; [exact H2|].
  change (w_buf (sy_writer sys_1)) with (@nil (CacheKey * CachedResponse)) in H3. rewrite app_nil_r in H3.
  rewrite H3. vm_refl.
Defined.
End Witnesses.
